(** * ccnd: the forwarding engine of the CCN daemon

    A shallow embedding of the parts of [csrc/ccnd/ccnd.c] (with the data
    structures of [csrc/ccnd/ccnd_private.h]) that the forwarding rules are
    written in: the face table, the name-prefix table with its forwarding
    records, the table of propagating interests (the PIT), the content table,
    and the message dispatch.

    Conventions.
    - The handle [struct ccnd_handle] is a record that every function takes
      and returns (explicit state passing).
    - A byte string is a [list Z]; hash tables keyed by byte strings are
      [gmap]s; a [struct ccn_indexbuf] is a [list Z].
    - A pointer to an entry of a hash table is the entry's key.  A pointer to
      an enrolled face is its slot in [faces_by_faceid].
    - [unsigned] values are [Z]s, reduced modulo [2^32] where the source can
      wrap; [int] values are [Z]s (signed overflow is undefined in C).
    - Output (log lines, bytes written to a face) is appended to lists kept
      in the handle.
    - Parsing, matching and encoding routines of the ccn library are the
      fields of the class [ccn_lib]. *)

From Stdlib Require Import ZArith Lia String.
From stdpp Require Import gmap list.
Local Open Scope Z_scope.

Abbreviation bytes := (list Z).

(** ** Constants of ccnd_private.h *)

Definition FACESLOTBITS : Z := 18.
Definition MAXFACES : Z := Z.shiftl 1 FACESLOTBITS - 1.

Definition CCN_FACE_LINK : Z := Z.shiftl 1 0.
Definition CCN_FACE_DGRAM : Z := Z.shiftl 1 1.
Definition CCN_FACE_GG : Z := Z.shiftl 1 2.
Definition CCN_FACE_LOCAL : Z := Z.shiftl 1 3.
Definition CCN_FACE_INET : Z := Z.shiftl 1 4.
Definition CCN_FACE_MCAST : Z := Z.shiftl 1 5.
Definition CCN_FACE_INET6 : Z := Z.shiftl 1 6.
Definition CCN_FACE_DC : Z := Z.shiftl 1 7.
Definition CCN_FACE_NOSEND : Z := Z.shiftl 1 8.
Definition CCN_FACE_UNDECIDED : Z := Z.shiftl 1 9.
Definition CCN_FACE_PERMANENT : Z := Z.shiftl 1 10.

Definition CCN_CONTENT_ENTRY_SLOWSEND : Z := 1.
Definition CCN_CONTENT_ENTRY_STALE : Z := 2.
Definition CCN_CONTENT_ENTRY_PRECIOUS : Z := 4.

(** The values are those of the [@def] lines of ccnd_private.h. *)
Definition CCN_FORW_ACTIVE : Z := 1.
Definition CCN_FORW_CHILD_INHERIT : Z := 2.
Definition CCN_FORW_ADVERTISE : Z := 4.
Definition CCN_FORW_REFRESHED : Z := Z.shiftl 1 16.
Definition CCN_FWU_SECS : Z := 5.

Definition CCN_PR_UNSENT : Z := 1.
Definition CCN_PR_WAIT1 : Z := 2.
Definition CCN_PR_STUFFED1 : Z := 4.

Inductive cq_delay_class := CCN_CQ_ASAP | CCN_CQ_NORMAL | CCN_CQ_SLOW.

Definition CCN_CQ_N : Z := 3.

Definition cq_index (c : cq_delay_class) : nat :=
  match c with CCN_CQ_ASAP => 0 | CCN_CQ_NORMAL => 1 | CCN_CQ_SLOW => 2 end%nat.

Definition cq_classes : list cq_delay_class :=
  [CCN_CQ_ASAP; CCN_CQ_NORMAL; CCN_CQ_SLOW].

(** Modelled from the spec: the macro CCN_INTEREST_LIFETIME_MICROSEC of
    ccn/ccn.h, which is not among the sources; the spec gives the initial
    lifetime of a PIT entry as 4 s, in microseconds here. *)
Definition CCN_INTEREST_LIFETIME_MICROSEC : Z := 4000000.

(** Modelled from the spec: the two outcomes of [hashtb_seek] (hashtb.h is
    not among the sources): the key was already in the table, or a fresh
    zeroed entry was made for it.  Both are non-negative and they differ. *)
Definition HT_OLD_ENTRY : Z := 0.
Definition HT_NEW_ENTRY : Z := 1.

(** [~0] as an [unsigned]. *)
Definition UINT_MAX : Z := 2 ^ 32 - 1.

Definition u32 (z : Z) : Z := z mod 2 ^ 32.

(** [(flags & mask) != 0] *)
Definition flag_set (flags mask : Z) : bool := negb (Z.land flags mask =? 0).

(** [flags & ~mask] *)
Definition flag_clear (flags mask : Z) : Z := Z.land flags (Z.lnot mask).

(** ** Index buffers (struct ccn_indexbuf) and byte ranges *)

(** [x->buf[i]]; a read outside the buffer does not happen in the source and
    yields 0 here. *)
Definition buf (x : list Z) (i : Z) : Z :=
  if i <? 0 then 0 else default 0 (x !! Z.to_nat i).

(** [x->n] *)
Definition nelem (x : list Z) : Z := Z.of_nat (length x).

(** The bytes [msg[lo .. hi-1]]. *)
Definition subbytes (msg : bytes) (lo hi : Z) : bytes :=
  take (Z.to_nat (hi - lo)) (drop (Z.to_nat lo) msg).

(** Modelled from the spec: ccn_indexbuf_append_element of the ccn library
    (ccn_indexbuf.c is not among the sources) adds one element at the end. *)
Definition ccn_indexbuf_append_element (x : list Z) (v : Z) : list Z := x ++ [v].

(** Modelled from the spec: ccn_indexbuf_member (not among the sources) gives
    the position of a value in the buffer, or -1. *)
Fixpoint ccn_indexbuf_member_from (i : Z) (x : list Z) (v : Z) : Z :=
  match x with
  | [] => -1
  | y :: x' => if y =? v then i else ccn_indexbuf_member_from (i + 1) x' v
  end.

Definition ccn_indexbuf_member (x : list Z) (v : Z) : Z :=
  ccn_indexbuf_member_from 0 x v.

(** Modelled from the spec: ccn_indexbuf_set_insert (not among the sources);
    the spec calls forward_to and outbound sets of faceids, so a value is
    added at the end unless it is a member already. *)
Definition ccn_indexbuf_set_insert (x : list Z) (v : Z) : list Z :=
  if ccn_indexbuf_member x v =? -1 then ccn_indexbuf_append_element x v else x.

(** Modelled from the spec: ccn_indexbuf_remove_element (not among the
    sources) removes a faceid from a set of faceids; the spec fixes which
    members remain, and this model keeps them in their order. *)
Definition ccn_indexbuf_remove_element (x : list Z) (v : Z) : list Z :=
  filter (λ y, y ≠ v) x.

(** Modelled from the spec: ccn_indexbuf_remove_first_match (not among the
    sources) removes a member and says where it was, -1 when it was absent. *)
Definition ccn_indexbuf_remove_first_match (x : list Z) (v : Z) : list Z * Z :=
  (filter (λ y, y ≠ v) x, ccn_indexbuf_member x v).

(** Modelled from the spec: ccn_indexbuf_move_to_end (not among the sources)
    moves a member to the tail of the buffer, from where outbound faces are
    taken first; a value that is no member is not added. *)
Definition ccn_indexbuf_move_to_end (x : list Z) (v : Z) : list Z :=
  if ccn_indexbuf_member x v =? -1 then x else filter (λ y, y ≠ v) x ++ [v].

(** ** Data structures of ccnd_private.h *)

Record content_queue := mk_content_queue {
  burst_nsec : Z;
  min_usec : Z;
  rand_usec : Z;
  cq_ready : Z;
  nrun : Z;
  send_queue : list Z;          (**< accession numbers of pending content *)
  sender : bool                 (**< a content_sender event is scheduled *)
}.

Record face := mk_face {
  recv_fd : Z;
  send_fd : Z;
  face_flags : Z;               (**< CCN_FACE_* face flags *)
  faceid : Z;                   (**< internal face id *)
  recvcount : Z;
  q : list (option content_queue);  (**< one slot per delay class *)
  pending_interests : Z
}.

Record content_entry := mk_content_entry {
  ce_accession : Z;
  comps : option (list Z);      (**< NULL until the entry is enrolled *)
  ncomps : Z;
  content_flags : Z;
  key_size : Z;
  content_size : Z;
  extdata : bytes               (**< the bytes that follow the key *)
}.

Record ccn_forwarding := mk_forwarding {
  forw_faceid : Z;
  forw_flags : Z;
  expires : Z
}.

Record nameprefix_entry := mk_nameprefix {
  propagating_head : option (list bytes);
      (**< NULL, or the nonces of the entries linked after the sentinel *)
  forward_to : option (list Z);
  forwarding : list ccn_forwarding;
  parent : option bytes;        (**< key of the next-shorter prefix *)
  children : Z;
  fgen : Z;
  src : Z;
  osrc : Z;
  npe_usec : Z
}.

Record propagating_entry := mk_propagating {
  pe_link : option bytes;
      (**< next/prev: NULL, or the prefix whose list holds this entry *)
  outbound : option (list Z);
  interest_msg : option bytes;
  pe_size : Z;
  pe_flags : Z;
  pe_faceid : Z;
  pe_usec : Z
}.

(** What the daemon emits: log lines and bytes handed to a socket. *)
Inductive output :=
| ccnd_msg (fmt : string) (args : list Z)
| ccnd_debug_ccnb (lineno : Z) (msg : string) (face : option Z) (ccnb : bytes)
| do_write_out (face : Z) (data : bytes)
| sendto_out (fd : Z) (data : bytes).

Inductive callback :=
| cb_do_propagate | cb_content_sender | cb_expire_content | cb_reap.

#[global] Instance callback_eq_dec : EqDecision callback.
Proof. solve_decision. Defined.

Record ccn_scheduled_event := mk_event {
  ev_delay : Z;
  action : callback;
  evdata : bytes;
  evint : Z
}.

Record ccnd_handle := mk_handle {
  ccnd_id : bytes;              (**< sha256 digest of our public key *)
  content_tab : gmap bytes content_entry;
  nameprefix_tab : gmap bytes nameprefix_entry;
  propagating_tab : gmap bytes propagating_entry;
  forward_to_gen : Z;
  face_gen : Z;
  face_rover : Z;
  faces_by_faceid : list (option face);
  udp4_fd : Z;
  udp6_fd : Z;
  reaper : bool;
  sched : list ccn_scheduled_event;
  content_by_accession : gmap Z bytes;
      (**< the accession window and the straggler table, as one map *)
  h_accession : Z;
  min_stale : Z;
  max_stale : Z;
  capacity : Z;
  oldformatcontent : Z;
  oldformatcontentgrumble : Z;
  oldformatinterests : Z;
  oldformatinterestgrumble : Z;
  content_dups_recvd : Z;
  interests_accepted : Z;
  interests_dropped : Z;
  interests_sent : Z;
  seed : Z;
  debug : Z;
  mtu : Z;
  flood : Z;
  interest_faceid : Z;
  data_pause_microsec : Z;
  out : list output
}.

(** ** The ccn library

    Routines of the ccn library that ccnd.c calls and whose code is not among
    the sources.  Each is a function of its inputs; [nrand48] also returns the
    advanced seed. *)

Record ccn_parsed_interest := mk_parsed_interest {
  pi_magic : Z;
  prefix_comps : Z;
  min_suffix_comps : Z;
  max_suffix_comps : Z;
  orderpref : Z;
  answerfrom : Z;
  scope : Z;
  B_Name : Z;
  E_Name : Z;
  B_Exclude : Z;
  E_Exclude : Z;
  B_Nonce : Z;
  E_Nonce : Z;
  B_OTHER : Z;
  E_OTHER : Z;
  PI_E : Z
}.

Record ccn_parsed_ContentObject := mk_parsed_ContentObject {
  pco_magic : Z;
  pco_type : Z;
  B_Content : Z;
  B_FreshnessSeconds : Z;
  E_FreshnessSeconds : Z;
  PCO_E : Z
}.

Record ccn_skeleton_decoder := mk_decoder {
  d_state : Z;
  d_numval : Z;
  d_index : Z
}.

(** struct ccn_forwarding_entry of ccn/reg_mgmt.h, as prefixreg reads it. *)
Record ccn_forwarding_entry := mk_forwarding_entry {
  fe_action : option string;
  fe_name_prefix : option bytes;
  fe_ccnd_id : bytes;           (**< ccnd_id_size is its length *)
  fe_faceid : Z;
  fe_flags : Z;
  fe_lifetime : Z
}.

Class ccn_lib := {
  CCN_DTAG : Z;
  CCN_BLOB : Z;
  CCN_DTAG_Nonce : Z;
  CCN_DTAG_Component : Z;
  CCN_DTAG_FreshnessSeconds : Z;
  CCN_DTAG_Interest : Z;
  CCN_DTAG_ContentObject : Z;
  CCN_DTAG_ContentObjectV20080711 : Z;
  CCN_DTAG_Inject : Z;
  CCN_DTAG_CCNProtocolDataUnit : Z;
  CCN_AOK_CS : Z;
  CCN_AOK_STALE : Z;
  CCN_AOK_EXPIRE : Z;
  CCN_CONTENT_KEY : Z;
  CCN_DSTATE_PAUSE : Z;
  CCN_GET_TT_FROM_DSTATE : Z → Z;
  SOCK_DGRAM : Z;
  AF_INET : Z;
  AF_INET6 : Z;
  (** the bytes [ccn_charbuf_append_tt] and [ccn_charbuf_append_closer] add *)
  ccn_charbuf_append_tt : Z → Z → bytes;
  ccn_charbuf_append_closer : bytes;
  (** [None] for a negative result, else the parse and the component offsets *)
  ccn_parse_interest : bytes → option (ccn_parsed_interest * list Z);
  ccn_parse_ContentObject : bytes → option (ccn_parsed_ContentObject * list Z);
  (** the digest of a parsed ContentObject ([obj.digest], [obj.digest_bytes]) *)
  ccn_digest_ContentObject : bytes → bytes;
  ccn_content_matches_interest : bytes → bytes → bool;
  ccn_fetch_tagged_nonNegativeInteger : Z → bytes → Z → Z → Z;
  (** name and component offsets of a URI, as ccn_name_from_uri and
      ccn_parse_Name give them *)
  ccn_name_from_uri : string → option (bytes * list Z);
  (** the Content of a parsed ContentObject *)
  ccn_content_get_value : bytes → ccn_parsed_ContentObject → option bytes;
  ccn_forwarding_entry_parse : bytes → option ccn_forwarding_entry;
  (** component offsets of a name; their count less one is the result *)
  ccn_name_split : bytes → option (list Z);
  ccnb_append_forwarding_entry : ccn_forwarding_entry → option bytes;
  (** one call of the skeleton decoder: the new decoder and the count of
      bytes it consumed *)
  ccn_skeleton_decode : ccn_skeleton_decoder → bytes → ccn_skeleton_decoder * Z;
  (** the decoding steps of process_incoming_inject: SOType, the address
      family of the Address, and the Interest that follows; [None] when the
      source returns before the face is flagged *)
  inject_parse : bytes → option (Z * Z * bytes);
  (** libc's nrand48 on the 48-bit seed *)
  nrand48 : Z → Z * Z
}.

(** The walk of process_incoming_interest over the name-ordered skip list
    (find_first_match_candidate, content_matches_interest_prefix,
    content_skiplist_next, next_child_at_level and the loop of lines
    2641-2694 that uses them).  The walk reads the handle and changes nothing
    but the debug output; it yields the content entry chosen for the
    interest, if any.  The skip list itself is not part of this model, so the
    walk is a parameter. *)
Class content_walk := {
  cs_walk : ccnd_handle → bytes → ccn_parsed_interest → list Z → option bytes
}.

(** Field updates of [content_queue]. *)
Definition set_cq_ready (x : Z) (cq : content_queue) : content_queue :=
  mk_content_queue (burst_nsec cq) (min_usec cq) (rand_usec cq) x (nrun cq)
    (send_queue cq) (sender cq).
Definition set_nrun (x : Z) (cq : content_queue) : content_queue :=
  mk_content_queue (burst_nsec cq) (min_usec cq) (rand_usec cq) (cq_ready cq)
    x (send_queue cq) (sender cq).
Definition set_send_queue (x : list Z) (cq : content_queue) : content_queue :=
  mk_content_queue (burst_nsec cq) (min_usec cq) (rand_usec cq) (cq_ready cq)
    (nrun cq) x (sender cq).
Definition set_sender (x : bool) (cq : content_queue) : content_queue :=
  mk_content_queue (burst_nsec cq) (min_usec cq) (rand_usec cq) (cq_ready cq)
    (nrun cq) (send_queue cq) x.

(** Field updates of [face]. *)
Definition set_face_flags (x : Z) (f : face) : face :=
  mk_face (recv_fd f) (send_fd f) x (faceid f) (recvcount f) (q f)
    (pending_interests f).
Definition set_faceid (x : Z) (f : face) : face :=
  mk_face (recv_fd f) (send_fd f) (face_flags f) x (recvcount f) (q f)
    (pending_interests f).
Definition set_q (x : list (option content_queue)) (f : face) : face :=
  mk_face (recv_fd f) (send_fd f) (face_flags f) (faceid f) (recvcount f) x
    (pending_interests f).
Definition set_pending_interests (x : Z) (f : face) : face :=
  mk_face (recv_fd f) (send_fd f) (face_flags f) (faceid f) (recvcount f) (q
    f) x.

(** Field updates of [content_entry]. *)
Definition set_ce_accession (x : Z) (c : content_entry) : content_entry :=
  mk_content_entry x (comps c) (ncomps c) (content_flags c) (key_size c)
    (content_size c) (extdata c).
Definition set_comps (x : option (list Z)) (c : content_entry) : content_entry :=
  mk_content_entry (ce_accession c) x (ncomps c) (content_flags c) (key_size
    c) (content_size c) (extdata c).
Definition set_ncomps (x : Z) (c : content_entry) : content_entry :=
  mk_content_entry (ce_accession c) (comps c) x (content_flags c) (key_size
    c) (content_size c) (extdata c).
Definition set_content_flags (x : Z) (c : content_entry) : content_entry :=
  mk_content_entry (ce_accession c) (comps c) (ncomps c) x (key_size c)
    (content_size c) (extdata c).
Definition set_key_size (x : Z) (c : content_entry) : content_entry :=
  mk_content_entry (ce_accession c) (comps c) (ncomps c) (content_flags c) x
    (content_size c) (extdata c).
Definition set_content_size (x : Z) (c : content_entry) : content_entry :=
  mk_content_entry (ce_accession c) (comps c) (ncomps c) (content_flags c)
    (key_size c) x (extdata c).

(** Field updates of [ccn_forwarding]. *)
Definition set_forw_flags (x : Z) (f : ccn_forwarding) : ccn_forwarding :=
  mk_forwarding (forw_faceid f) x (expires f).
Definition set_expires (x : Z) (f : ccn_forwarding) : ccn_forwarding :=
  mk_forwarding (forw_faceid f) (forw_flags f) x.

(** Field updates of [nameprefix_entry]. *)
Definition set_propagating_head (x : option (list bytes)) (npe : nameprefix_entry) : nameprefix_entry :=
  mk_nameprefix x (forward_to npe) (forwarding npe) (parent npe) (children
    npe) (fgen npe) (src npe) (osrc npe) (npe_usec npe).
Definition set_forward_to (x : option (list Z)) (npe : nameprefix_entry) : nameprefix_entry :=
  mk_nameprefix (propagating_head npe) x (forwarding npe) (parent npe)
    (children npe) (fgen npe) (src npe) (osrc npe) (npe_usec npe).
Definition set_forwarding (x : list ccn_forwarding) (npe : nameprefix_entry) : nameprefix_entry :=
  mk_nameprefix (propagating_head npe) (forward_to npe) x (parent npe)
    (children npe) (fgen npe) (src npe) (osrc npe) (npe_usec npe).
Definition set_children (x : Z) (npe : nameprefix_entry) : nameprefix_entry :=
  mk_nameprefix (propagating_head npe) (forward_to npe) (forwarding npe)
    (parent npe) x (fgen npe) (src npe) (osrc npe) (npe_usec npe).
Definition set_fgen (x : Z) (npe : nameprefix_entry) : nameprefix_entry :=
  mk_nameprefix (propagating_head npe) (forward_to npe) (forwarding npe)
    (parent npe) (children npe) x (src npe) (osrc npe) (npe_usec npe).
Definition set_src (x : Z) (npe : nameprefix_entry) : nameprefix_entry :=
  mk_nameprefix (propagating_head npe) (forward_to npe) (forwarding npe)
    (parent npe) (children npe) (fgen npe) x (osrc npe) (npe_usec npe).
Definition set_osrc (x : Z) (npe : nameprefix_entry) : nameprefix_entry :=
  mk_nameprefix (propagating_head npe) (forward_to npe) (forwarding npe)
    (parent npe) (children npe) (fgen npe) (src npe) x (npe_usec npe).
Definition set_npe_usec (x : Z) (npe : nameprefix_entry) : nameprefix_entry :=
  mk_nameprefix (propagating_head npe) (forward_to npe) (forwarding npe)
    (parent npe) (children npe) (fgen npe) (src npe) (osrc npe) x.

(** Field updates of [propagating_entry]. *)
Definition set_pe_link (x : option bytes) (pe : propagating_entry) : propagating_entry :=
  mk_propagating x (outbound pe) (interest_msg pe) (pe_size pe) (pe_flags pe)
    (pe_faceid pe) (pe_usec pe).
Definition set_outbound (x : option (list Z)) (pe : propagating_entry) : propagating_entry :=
  mk_propagating (pe_link pe) x (interest_msg pe) (pe_size pe) (pe_flags pe)
    (pe_faceid pe) (pe_usec pe).
Definition set_interest_msg (x : option bytes) (pe : propagating_entry) : propagating_entry :=
  mk_propagating (pe_link pe) (outbound pe) x (pe_size pe) (pe_flags pe)
    (pe_faceid pe) (pe_usec pe).
Definition set_pe_size (x : Z) (pe : propagating_entry) : propagating_entry :=
  mk_propagating (pe_link pe) (outbound pe) (interest_msg pe) x (pe_flags pe)
    (pe_faceid pe) (pe_usec pe).
Definition set_pe_flags (x : Z) (pe : propagating_entry) : propagating_entry :=
  mk_propagating (pe_link pe) (outbound pe) (interest_msg pe) (pe_size pe) x
    (pe_faceid pe) (pe_usec pe).
Definition set_pe_faceid (x : Z) (pe : propagating_entry) : propagating_entry :=
  mk_propagating (pe_link pe) (outbound pe) (interest_msg pe) (pe_size pe)
    (pe_flags pe) x (pe_usec pe).
Definition set_pe_usec (x : Z) (pe : propagating_entry) : propagating_entry :=
  mk_propagating (pe_link pe) (outbound pe) (interest_msg pe) (pe_size pe)
    (pe_flags pe) (pe_faceid pe) x.

(** Field updates of [ccnd_handle]. *)
Definition set_content_tab (x : gmap bytes content_entry) (h : ccnd_handle) : ccnd_handle :=
  mk_handle (ccnd_id h) x (nameprefix_tab h) (propagating_tab h)
    (forward_to_gen h) (face_gen h) (face_rover h) (faces_by_faceid h)
    (udp4_fd h) (udp6_fd h) (reaper h) (sched h) (content_by_accession h)
    (h_accession h) (min_stale h) (max_stale h) (capacity h)
    (oldformatcontent h) (oldformatcontentgrumble h) (oldformatinterests h)
    (oldformatinterestgrumble h) (content_dups_recvd h) (interests_accepted
    h) (interests_dropped h) (interests_sent h) (seed h) (debug h) (mtu h)
    (flood h) (interest_faceid h) (data_pause_microsec h) (out h).
Definition set_nameprefix_tab (x : gmap bytes nameprefix_entry) (h : ccnd_handle) : ccnd_handle :=
  mk_handle (ccnd_id h) (content_tab h) x (propagating_tab h) (forward_to_gen
    h) (face_gen h) (face_rover h) (faces_by_faceid h) (udp4_fd h) (udp6_fd
    h) (reaper h) (sched h) (content_by_accession h) (h_accession h)
    (min_stale h) (max_stale h) (capacity h) (oldformatcontent h)
    (oldformatcontentgrumble h) (oldformatinterests h)
    (oldformatinterestgrumble h) (content_dups_recvd h) (interests_accepted
    h) (interests_dropped h) (interests_sent h) (seed h) (debug h) (mtu h)
    (flood h) (interest_faceid h) (data_pause_microsec h) (out h).
Definition set_propagating_tab (x : gmap bytes propagating_entry) (h : ccnd_handle) : ccnd_handle :=
  mk_handle (ccnd_id h) (content_tab h) (nameprefix_tab h) x (forward_to_gen
    h) (face_gen h) (face_rover h) (faces_by_faceid h) (udp4_fd h) (udp6_fd
    h) (reaper h) (sched h) (content_by_accession h) (h_accession h)
    (min_stale h) (max_stale h) (capacity h) (oldformatcontent h)
    (oldformatcontentgrumble h) (oldformatinterests h)
    (oldformatinterestgrumble h) (content_dups_recvd h) (interests_accepted
    h) (interests_dropped h) (interests_sent h) (seed h) (debug h) (mtu h)
    (flood h) (interest_faceid h) (data_pause_microsec h) (out h).
Definition set_forward_to_gen (x : Z) (h : ccnd_handle) : ccnd_handle :=
  mk_handle (ccnd_id h) (content_tab h) (nameprefix_tab h) (propagating_tab
    h) x (face_gen h) (face_rover h) (faces_by_faceid h) (udp4_fd h) (udp6_fd
    h) (reaper h) (sched h) (content_by_accession h) (h_accession h)
    (min_stale h) (max_stale h) (capacity h) (oldformatcontent h)
    (oldformatcontentgrumble h) (oldformatinterests h)
    (oldformatinterestgrumble h) (content_dups_recvd h) (interests_accepted
    h) (interests_dropped h) (interests_sent h) (seed h) (debug h) (mtu h)
    (flood h) (interest_faceid h) (data_pause_microsec h) (out h).
Definition set_face_gen (x : Z) (h : ccnd_handle) : ccnd_handle :=
  mk_handle (ccnd_id h) (content_tab h) (nameprefix_tab h) (propagating_tab
    h) (forward_to_gen h) x (face_rover h) (faces_by_faceid h) (udp4_fd h)
    (udp6_fd h) (reaper h) (sched h) (content_by_accession h) (h_accession h)
    (min_stale h) (max_stale h) (capacity h) (oldformatcontent h)
    (oldformatcontentgrumble h) (oldformatinterests h)
    (oldformatinterestgrumble h) (content_dups_recvd h) (interests_accepted
    h) (interests_dropped h) (interests_sent h) (seed h) (debug h) (mtu h)
    (flood h) (interest_faceid h) (data_pause_microsec h) (out h).
Definition set_face_rover (x : Z) (h : ccnd_handle) : ccnd_handle :=
  mk_handle (ccnd_id h) (content_tab h) (nameprefix_tab h) (propagating_tab
    h) (forward_to_gen h) (face_gen h) x (faces_by_faceid h) (udp4_fd h)
    (udp6_fd h) (reaper h) (sched h) (content_by_accession h) (h_accession h)
    (min_stale h) (max_stale h) (capacity h) (oldformatcontent h)
    (oldformatcontentgrumble h) (oldformatinterests h)
    (oldformatinterestgrumble h) (content_dups_recvd h) (interests_accepted
    h) (interests_dropped h) (interests_sent h) (seed h) (debug h) (mtu h)
    (flood h) (interest_faceid h) (data_pause_microsec h) (out h).
Definition set_faces_by_faceid (x : list (option face)) (h : ccnd_handle) : ccnd_handle :=
  mk_handle (ccnd_id h) (content_tab h) (nameprefix_tab h) (propagating_tab
    h) (forward_to_gen h) (face_gen h) (face_rover h) x (udp4_fd h) (udp6_fd
    h) (reaper h) (sched h) (content_by_accession h) (h_accession h)
    (min_stale h) (max_stale h) (capacity h) (oldformatcontent h)
    (oldformatcontentgrumble h) (oldformatinterests h)
    (oldformatinterestgrumble h) (content_dups_recvd h) (interests_accepted
    h) (interests_dropped h) (interests_sent h) (seed h) (debug h) (mtu h)
    (flood h) (interest_faceid h) (data_pause_microsec h) (out h).
Definition set_reaper (x : bool) (h : ccnd_handle) : ccnd_handle :=
  mk_handle (ccnd_id h) (content_tab h) (nameprefix_tab h) (propagating_tab
    h) (forward_to_gen h) (face_gen h) (face_rover h) (faces_by_faceid h)
    (udp4_fd h) (udp6_fd h) x (sched h) (content_by_accession h) (h_accession
    h) (min_stale h) (max_stale h) (capacity h) (oldformatcontent h)
    (oldformatcontentgrumble h) (oldformatinterests h)
    (oldformatinterestgrumble h) (content_dups_recvd h) (interests_accepted
    h) (interests_dropped h) (interests_sent h) (seed h) (debug h) (mtu h)
    (flood h) (interest_faceid h) (data_pause_microsec h) (out h).
Definition set_sched (x : list ccn_scheduled_event) (h : ccnd_handle) : ccnd_handle :=
  mk_handle (ccnd_id h) (content_tab h) (nameprefix_tab h) (propagating_tab
    h) (forward_to_gen h) (face_gen h) (face_rover h) (faces_by_faceid h)
    (udp4_fd h) (udp6_fd h) (reaper h) x (content_by_accession h)
    (h_accession h) (min_stale h) (max_stale h) (capacity h)
    (oldformatcontent h) (oldformatcontentgrumble h) (oldformatinterests h)
    (oldformatinterestgrumble h) (content_dups_recvd h) (interests_accepted
    h) (interests_dropped h) (interests_sent h) (seed h) (debug h) (mtu h)
    (flood h) (interest_faceid h) (data_pause_microsec h) (out h).
Definition set_content_by_accession (x : gmap Z bytes) (h : ccnd_handle) : ccnd_handle :=
  mk_handle (ccnd_id h) (content_tab h) (nameprefix_tab h) (propagating_tab
    h) (forward_to_gen h) (face_gen h) (face_rover h) (faces_by_faceid h)
    (udp4_fd h) (udp6_fd h) (reaper h) (sched h) x (h_accession h) (min_stale
    h) (max_stale h) (capacity h) (oldformatcontent h)
    (oldformatcontentgrumble h) (oldformatinterests h)
    (oldformatinterestgrumble h) (content_dups_recvd h) (interests_accepted
    h) (interests_dropped h) (interests_sent h) (seed h) (debug h) (mtu h)
    (flood h) (interest_faceid h) (data_pause_microsec h) (out h).
Definition set_h_accession (x : Z) (h : ccnd_handle) : ccnd_handle :=
  mk_handle (ccnd_id h) (content_tab h) (nameprefix_tab h) (propagating_tab
    h) (forward_to_gen h) (face_gen h) (face_rover h) (faces_by_faceid h)
    (udp4_fd h) (udp6_fd h) (reaper h) (sched h) (content_by_accession h) x
    (min_stale h) (max_stale h) (capacity h) (oldformatcontent h)
    (oldformatcontentgrumble h) (oldformatinterests h)
    (oldformatinterestgrumble h) (content_dups_recvd h) (interests_accepted
    h) (interests_dropped h) (interests_sent h) (seed h) (debug h) (mtu h)
    (flood h) (interest_faceid h) (data_pause_microsec h) (out h).
Definition set_min_stale (x : Z) (h : ccnd_handle) : ccnd_handle :=
  mk_handle (ccnd_id h) (content_tab h) (nameprefix_tab h) (propagating_tab
    h) (forward_to_gen h) (face_gen h) (face_rover h) (faces_by_faceid h)
    (udp4_fd h) (udp6_fd h) (reaper h) (sched h) (content_by_accession h)
    (h_accession h) x (max_stale h) (capacity h) (oldformatcontent h)
    (oldformatcontentgrumble h) (oldformatinterests h)
    (oldformatinterestgrumble h) (content_dups_recvd h) (interests_accepted
    h) (interests_dropped h) (interests_sent h) (seed h) (debug h) (mtu h)
    (flood h) (interest_faceid h) (data_pause_microsec h) (out h).
Definition set_max_stale (x : Z) (h : ccnd_handle) : ccnd_handle :=
  mk_handle (ccnd_id h) (content_tab h) (nameprefix_tab h) (propagating_tab
    h) (forward_to_gen h) (face_gen h) (face_rover h) (faces_by_faceid h)
    (udp4_fd h) (udp6_fd h) (reaper h) (sched h) (content_by_accession h)
    (h_accession h) (min_stale h) x (capacity h) (oldformatcontent h)
    (oldformatcontentgrumble h) (oldformatinterests h)
    (oldformatinterestgrumble h) (content_dups_recvd h) (interests_accepted
    h) (interests_dropped h) (interests_sent h) (seed h) (debug h) (mtu h)
    (flood h) (interest_faceid h) (data_pause_microsec h) (out h).
Definition set_oldformatcontent (x : Z) (h : ccnd_handle) : ccnd_handle :=
  mk_handle (ccnd_id h) (content_tab h) (nameprefix_tab h) (propagating_tab
    h) (forward_to_gen h) (face_gen h) (face_rover h) (faces_by_faceid h)
    (udp4_fd h) (udp6_fd h) (reaper h) (sched h) (content_by_accession h)
    (h_accession h) (min_stale h) (max_stale h) (capacity h) x
    (oldformatcontentgrumble h) (oldformatinterests h)
    (oldformatinterestgrumble h) (content_dups_recvd h) (interests_accepted
    h) (interests_dropped h) (interests_sent h) (seed h) (debug h) (mtu h)
    (flood h) (interest_faceid h) (data_pause_microsec h) (out h).
Definition set_oldformatcontentgrumble (x : Z) (h : ccnd_handle) : ccnd_handle :=
  mk_handle (ccnd_id h) (content_tab h) (nameprefix_tab h) (propagating_tab
    h) (forward_to_gen h) (face_gen h) (face_rover h) (faces_by_faceid h)
    (udp4_fd h) (udp6_fd h) (reaper h) (sched h) (content_by_accession h)
    (h_accession h) (min_stale h) (max_stale h) (capacity h)
    (oldformatcontent h) x (oldformatinterests h) (oldformatinterestgrumble
    h) (content_dups_recvd h) (interests_accepted h) (interests_dropped h)
    (interests_sent h) (seed h) (debug h) (mtu h) (flood h) (interest_faceid
    h) (data_pause_microsec h) (out h).
Definition set_oldformatinterests (x : Z) (h : ccnd_handle) : ccnd_handle :=
  mk_handle (ccnd_id h) (content_tab h) (nameprefix_tab h) (propagating_tab
    h) (forward_to_gen h) (face_gen h) (face_rover h) (faces_by_faceid h)
    (udp4_fd h) (udp6_fd h) (reaper h) (sched h) (content_by_accession h)
    (h_accession h) (min_stale h) (max_stale h) (capacity h)
    (oldformatcontent h) (oldformatcontentgrumble h) x
    (oldformatinterestgrumble h) (content_dups_recvd h) (interests_accepted
    h) (interests_dropped h) (interests_sent h) (seed h) (debug h) (mtu h)
    (flood h) (interest_faceid h) (data_pause_microsec h) (out h).
Definition set_oldformatinterestgrumble (x : Z) (h : ccnd_handle) : ccnd_handle :=
  mk_handle (ccnd_id h) (content_tab h) (nameprefix_tab h) (propagating_tab
    h) (forward_to_gen h) (face_gen h) (face_rover h) (faces_by_faceid h)
    (udp4_fd h) (udp6_fd h) (reaper h) (sched h) (content_by_accession h)
    (h_accession h) (min_stale h) (max_stale h) (capacity h)
    (oldformatcontent h) (oldformatcontentgrumble h) (oldformatinterests h) x
    (content_dups_recvd h) (interests_accepted h) (interests_dropped h)
    (interests_sent h) (seed h) (debug h) (mtu h) (flood h) (interest_faceid
    h) (data_pause_microsec h) (out h).
Definition set_content_dups_recvd (x : Z) (h : ccnd_handle) : ccnd_handle :=
  mk_handle (ccnd_id h) (content_tab h) (nameprefix_tab h) (propagating_tab
    h) (forward_to_gen h) (face_gen h) (face_rover h) (faces_by_faceid h)
    (udp4_fd h) (udp6_fd h) (reaper h) (sched h) (content_by_accession h)
    (h_accession h) (min_stale h) (max_stale h) (capacity h)
    (oldformatcontent h) (oldformatcontentgrumble h) (oldformatinterests h)
    (oldformatinterestgrumble h) x (interests_accepted h) (interests_dropped
    h) (interests_sent h) (seed h) (debug h) (mtu h) (flood h)
    (interest_faceid h) (data_pause_microsec h) (out h).
Definition set_interests_accepted (x : Z) (h : ccnd_handle) : ccnd_handle :=
  mk_handle (ccnd_id h) (content_tab h) (nameprefix_tab h) (propagating_tab
    h) (forward_to_gen h) (face_gen h) (face_rover h) (faces_by_faceid h)
    (udp4_fd h) (udp6_fd h) (reaper h) (sched h) (content_by_accession h)
    (h_accession h) (min_stale h) (max_stale h) (capacity h)
    (oldformatcontent h) (oldformatcontentgrumble h) (oldformatinterests h)
    (oldformatinterestgrumble h) (content_dups_recvd h) x (interests_dropped
    h) (interests_sent h) (seed h) (debug h) (mtu h) (flood h)
    (interest_faceid h) (data_pause_microsec h) (out h).
Definition set_interests_dropped (x : Z) (h : ccnd_handle) : ccnd_handle :=
  mk_handle (ccnd_id h) (content_tab h) (nameprefix_tab h) (propagating_tab
    h) (forward_to_gen h) (face_gen h) (face_rover h) (faces_by_faceid h)
    (udp4_fd h) (udp6_fd h) (reaper h) (sched h) (content_by_accession h)
    (h_accession h) (min_stale h) (max_stale h) (capacity h)
    (oldformatcontent h) (oldformatcontentgrumble h) (oldformatinterests h)
    (oldformatinterestgrumble h) (content_dups_recvd h) (interests_accepted
    h) x (interests_sent h) (seed h) (debug h) (mtu h) (flood h)
    (interest_faceid h) (data_pause_microsec h) (out h).
Definition set_interests_sent (x : Z) (h : ccnd_handle) : ccnd_handle :=
  mk_handle (ccnd_id h) (content_tab h) (nameprefix_tab h) (propagating_tab
    h) (forward_to_gen h) (face_gen h) (face_rover h) (faces_by_faceid h)
    (udp4_fd h) (udp6_fd h) (reaper h) (sched h) (content_by_accession h)
    (h_accession h) (min_stale h) (max_stale h) (capacity h)
    (oldformatcontent h) (oldformatcontentgrumble h) (oldformatinterests h)
    (oldformatinterestgrumble h) (content_dups_recvd h) (interests_accepted
    h) (interests_dropped h) x (seed h) (debug h) (mtu h) (flood h)
    (interest_faceid h) (data_pause_microsec h) (out h).
Definition set_seed (x : Z) (h : ccnd_handle) : ccnd_handle :=
  mk_handle (ccnd_id h) (content_tab h) (nameprefix_tab h) (propagating_tab
    h) (forward_to_gen h) (face_gen h) (face_rover h) (faces_by_faceid h)
    (udp4_fd h) (udp6_fd h) (reaper h) (sched h) (content_by_accession h)
    (h_accession h) (min_stale h) (max_stale h) (capacity h)
    (oldformatcontent h) (oldformatcontentgrumble h) (oldformatinterests h)
    (oldformatinterestgrumble h) (content_dups_recvd h) (interests_accepted
    h) (interests_dropped h) (interests_sent h) x (debug h) (mtu h) (flood h)
    (interest_faceid h) (data_pause_microsec h) (out h).
Definition set_flood (x : Z) (h : ccnd_handle) : ccnd_handle :=
  mk_handle (ccnd_id h) (content_tab h) (nameprefix_tab h) (propagating_tab
    h) (forward_to_gen h) (face_gen h) (face_rover h) (faces_by_faceid h)
    (udp4_fd h) (udp6_fd h) (reaper h) (sched h) (content_by_accession h)
    (h_accession h) (min_stale h) (max_stale h) (capacity h)
    (oldformatcontent h) (oldformatcontentgrumble h) (oldformatinterests h)
    (oldformatinterestgrumble h) (content_dups_recvd h) (interests_accepted
    h) (interests_dropped h) (interests_sent h) (seed h) (debug h) (mtu h) x
    (interest_faceid h) (data_pause_microsec h) (out h).
Definition set_interest_faceid (x : Z) (h : ccnd_handle) : ccnd_handle :=
  mk_handle (ccnd_id h) (content_tab h) (nameprefix_tab h) (propagating_tab
    h) (forward_to_gen h) (face_gen h) (face_rover h) (faces_by_faceid h)
    (udp4_fd h) (udp6_fd h) (reaper h) (sched h) (content_by_accession h)
    (h_accession h) (min_stale h) (max_stale h) (capacity h)
    (oldformatcontent h) (oldformatcontentgrumble h) (oldformatinterests h)
    (oldformatinterestgrumble h) (content_dups_recvd h) (interests_accepted
    h) (interests_dropped h) (interests_sent h) (seed h) (debug h) (mtu h)
    (flood h) x (data_pause_microsec h) (out h).
Definition set_out (x : list output) (h : ccnd_handle) : ccnd_handle :=
  mk_handle (ccnd_id h) (content_tab h) (nameprefix_tab h) (propagating_tab
    h) (forward_to_gen h) (face_gen h) (face_rover h) (faces_by_faceid h)
    (udp4_fd h) (udp6_fd h) (reaper h) (sched h) (content_by_accession h)
    (h_accession h) (min_stale h) (max_stale h) (capacity h)
    (oldformatcontent h) (oldformatcontentgrumble h) (oldformatinterests h)
    (oldformatinterestgrumble h) (content_dups_recvd h) (interests_accepted
    h) (interests_dropped h) (interests_sent h) (seed h) (debug h) (mtu h)
    (flood h) (interest_faceid h) (data_pause_microsec h) x.

(** ** The functions of ccnd.c *)

Section ccnd.
Context `{L : ccn_lib} `{W : content_walk}.

(** Output helpers: an unconditional line, and one guarded by [h->debug & mask]. *)
Definition emit (o : output) (h : ccnd_handle) : ccnd_handle :=
  set_out (out h ++ [o]) h.

Definition emit_if (mask : Z) (o : output) (h : ccnd_handle) : ccnd_handle :=
  if flag_set (debug h) mask then emit o h else h.

(** ccn_schedule_event *)
Definition ccn_schedule_event (usec : Z) (cb : callback) (data : bytes) (i : Z)
    (h : ccnd_handle) : ccnd_handle :=
  set_sched (sched h ++ [mk_event usec cb data i]) h.

(** *** Faces *)

Definition face_from_faceid (h : ccnd_handle) (fid : Z) : option face :=
  let slot := Z.land fid MAXFACES in
  match faces_by_faceid h !! Z.to_nat slot with
  | Some (Some face) => if faceid face =? fid then Some face else None
  | _ => None
  end.

(** A [struct face *] of an enrolled face is its slot. *)
Definition face_at (h : ccnd_handle) (p : nat) : option face :=
  mjoin (faces_by_faceid h !! p).

Definition face_slot (f : face) : nat := Z.to_nat (Z.land (faceid f) MAXFACES).

Definition update_face (p : nat) (g : face → face) (h : ccnd_handle) : ccnd_handle :=
  set_faces_by_faceid (alter (fmap g) p (faces_by_faceid h)) h.

(** *** Propagating interests *)

Definition update_pe (k : bytes) (g : propagating_entry → propagating_entry)
    (h : ccnd_handle) : ccnd_handle :=
  set_propagating_tab (alter g k (propagating_tab h)) h.

Definition update_npe (k : bytes) (g : nameprefix_entry → nameprefix_entry)
    (h : ccnd_handle) : ccnd_handle :=
  set_nameprefix_tab (alter g k (nameprefix_tab h)) h.

Definition finished_propagating (pe : propagating_entry) : propagating_entry :=
  set_outbound None pe.

(** [pe] is the entry of [propagating_tab] with key [k]. *)
Definition consume (h : ccnd_handle) (k : bytes) : ccnd_handle :=
  match propagating_tab h !! k with
  | None => h
  | Some pe =>
    let h := update_pe k finished_propagating h in
    let h :=
      match interest_msg pe with
      | Some _ =>
        let h := update_pe k (set_interest_msg None) h in
        match face_from_faceid h (pe_faceid pe) with
        | Some face =>
          update_face (face_slot face)
            (set_pending_interests (pending_interests face - 1)) h
        | None => h
        end
      | None => h
      end in
    let h :=
      match pe_link pe with
      | Some n =>
        let h := update_npe n (λ npe,
                   set_propagating_head
                     (filter (λ k', k' ≠ k) <$> propagating_head npe) npe) h in
        update_pe k (set_pe_link None) h
      | None => h
      end in
    update_pe k (set_pe_usec 0) h
  end.

Definition link_propagating_interest_to_nameprefix (h : ccnd_handle)
    (k : bytes) (n : bytes) : ccnd_handle :=
  let h := update_npe n (λ npe,
             set_propagating_head
               (Some (default [] (propagating_head npe) ++ [k])) npe) h in
  update_pe k (set_pe_link (Some n)) h.

(** hashtb_delete on propagating_tab runs finalize_propagating first. *)
Definition finalize_propagating (h : ccnd_handle) (k : bytes) : ccnd_handle :=
  consume h k.

Definition delete_propagating (h : ccnd_handle) (k : bytes) : ccnd_handle :=
  let h := finalize_propagating h k in
  set_propagating_tab (delete k (propagating_tab h)) h.

(** *** The name-prefix table *)

Definition new_nameprefix (h : ccnd_handle) (par : option (bytes * nameprefix_entry))
    : nameprefix_entry * ccnd_handle :=
  match par with
  | Some (pk, p) =>
    (mk_nameprefix None None [] (Some pk) 0 (u32 (forward_to_gen h - 1))
       (src p) (osrc p) (npe_usec p), h)
  | None =>
    let '(r, s) := nrand48 (seed h) in
    (mk_nameprefix None None [] None 0 (u32 (forward_to_gen h - 1))
       UINT_MAX UINT_MAX (r mod 4096 + 8192), set_seed s h)
  end.

(** The loop of nameprefix_seek from component count [i], with [n] rounds to
    go; [par] is the entry of the previous round, [res] the last result. *)
Fixpoint nameprefix_seek_loop (n : nat) (i : Z) (h : ccnd_handle) (msg : bytes)
    (comps : list Z) (par : option (bytes * nameprefix_entry)) (res : Z)
    : ccnd_handle * Z * option bytes :=
  match n with
  | O => (h, res, fst <$> par)
  | S n' =>
    let base := buf comps 0 in
    let k := subbytes msg base (buf comps i) in
    match nameprefix_tab h !! k with
    | Some npe =>
      nameprefix_seek_loop n' (i + 1) h msg comps (Some (k, npe)) HT_OLD_ENTRY
    | None =>
      let '(npe, h) := new_nameprefix h par in
      let h :=
        match par with
        | Some (pk, p) =>
          set_nameprefix_tab
            (<[pk := set_children (children p + 1) p]> (nameprefix_tab h)) h
        | None => h
        end in
      let h := set_nameprefix_tab (<[k := npe]> (nameprefix_tab h)) h in
      nameprefix_seek_loop n' (i + 1) h msg comps (Some (k, npe)) HT_NEW_ENTRY
    end
  end.

(** Returns the handle, the result, and [e->data] (the key of the entry the
    enumerator is left at). *)
Definition nameprefix_seek (h : ccnd_handle) (msg : bytes) (comps : list Z)
    (ncomps : Z) : ccnd_handle * Z * option bytes :=
  if ncomps + 1 >? nelem comps then (h, -1, None)
  else nameprefix_seek_loop (Z.to_nat (ncomps + 1)) 0 h msg comps None (-1).

Fixpoint nameprefix_longest_match_loop (n : nat) (i : Z) (h : ccnd_handle)
    (msg : bytes) (comps : list Z) (answer : Z) : Z :=
  match n with
  | O => answer
  | S n' =>
    let base := buf comps 0 in
    match nameprefix_tab h !! subbytes msg base (buf comps i) with
    | None => answer
    | Some npe =>
      if children npe =? 0 then i
      else nameprefix_longest_match_loop n' (i + 1) h msg comps i
    end
  end.

Definition nameprefix_longest_match (h : ccnd_handle) (msg : bytes)
    (comps : list Z) (ncomps : Z) : Z :=
  if ncomps + 1 >? nelem comps then -1
  else nameprefix_longest_match_loop (Z.to_nat (ncomps + 1)) 0 h msg comps 0.

(** *** Forwarding records *)

Fixpoint forwarding_index (l : list ccn_forwarding) (fid : Z) : option nat :=
  match l with
  | [] => None
  | f :: l' =>
    if forw_faceid f =? fid then Some O else S <$> forwarding_index l' fid
  end.

(** Returns the entry and the place of the record in its list. *)
Definition seek_forwarding (npe : nameprefix_entry) (fid : Z)
    : nameprefix_entry * nat :=
  match forwarding_index (forwarding npe) fid with
  | Some i => (npe, i)
  | None =>
    (set_forwarding (mk_forwarding fid 0 2147483647 :: forwarding npe) npe, O)
  end.

Definition ccnd_reg_prefix (h : ccnd_handle) (msg : bytes) (comps : list Z)
    (ncomps : Z) (fid : Z) (flags : Z) (expires : Z) : ccnd_handle * Z :=
  if negb (Z.land flags
             (Z.lor (Z.lor CCN_FORW_CHILD_INHERIT CCN_FORW_ACTIVE)
                CCN_FORW_ADVERTISE) =? flags)
  then (h, -1)
  else
    match face_from_faceid h fid with
    | None => (h, -1)
    | Some _ =>
      let '(h, res, e) := nameprefix_seek h msg comps ncomps in
      if res >=? 0 then
        match e with
        | Some k =>
          match nameprefix_tab h !! k with
          | Some npe =>
            let '(npe, i) := seek_forwarding npe fid in
            let h := set_forward_to_gen (u32 (forward_to_gen h + 1)) h in
            let npe :=
              set_forwarding
                (alter (λ f,
                   set_forw_flags
                     (Z.lor (forw_flags f)
                        (Z.lor (Z.lor CCN_FORW_REFRESHED CCN_FORW_ACTIVE) flags))
                     (set_expires expires f)) i (forwarding npe)) npe in
            (set_nameprefix_tab (<[k := npe]> (nameprefix_tab h)) h, res)
          | None => (h, res)
          end
        | None => (h, res)
        end
      else (h, res)
    end.

(** ccn_name_from_uri and ccn_parse_Name abort the daemon on a bad URI; the
    handle is returned as it is then. *)
Definition ccnd_reg_uri (h : ccnd_handle) (uri : string) (fid : Z) (flags : Z)
    (expires : Z) : ccnd_handle * Z :=
  match ccn_name_from_uri uri with
  | None => (h, -1)
  | Some (name, comps) =>
    ccnd_reg_prefix h name comps (nelem comps - 1) fid flags expires
  end.

Definition register_new_face (h : ccnd_handle) (face : face) : ccnd_handle :=
  if negb (flood h =? 0) && negb (faceid face =? 0) &&
     negb (flag_set (face_flags face) CCN_FACE_UNDECIDED)
  then fst (ccnd_reg_uri h "ccn:/" (faceid face) CCN_FORW_CHILD_INHERIT 2147483647)
  else h.

Fixpoint scan_null (a : list (option face)) (i : Z) : option Z :=
  match a with
  | [] => None
  | None :: _ => Some i
  | Some _ :: a' => scan_null a' (i + 1)
  end.

(** The code from the label use_i on. *)
Definition enroll_face_use (h : ccnd_handle) (a : list (option face)) (i : Z)
    (face : face) : ccnd_handle * Z :=
  let face := set_faceid (Z.lor i (face_gen h)) face in
  let h := set_faces_by_faceid (<[Z.to_nat i := Some face]> a) h in
  let h := set_face_rover (i + 1) h in
  let h := register_new_face h face in
  (h, faceid face).

(** realloc is taken to succeed. *)
Definition enroll_face (h : ccnd_handle) (face : face) : ccnd_handle * Z :=
  let n := Z.of_nat (length (faces_by_faceid h)) in (* h->face_limit *)
  let a := faces_by_faceid h in
  match scan_null (drop (Z.to_nat (face_rover h)) a) (face_rover h) with
  | Some i => enroll_face_use h a i face
  | None =>
    match scan_null a 0 with
    | Some i =>
      (* bump gen only if second pass succeeds *)
      enroll_face_use (set_face_gen (u32 (face_gen h + (MAXFACES + 1))) h) a i face
    | None =>
      let i := (n + 1) * 3 / 2 in
      let i := if i >? MAXFACES then MAXFACES else i in
      if i <=? n then (h, -1) (* overflow *)
      else enroll_face_use h (a ++ replicate (Z.to_nat (i - n)) None) n face
    end
  end.

(** ccn_schedule_cancel of the senders of a face's queues. *)
Definition cancel_senders (fid : Z) (h : ccnd_handle) : ccnd_handle :=
  set_sched
    (filter (λ ev, ¬ (action ev = cb_content_sender ∧ evint ev = fid)) (sched h)) h.

(** [p] is the slot the face is held in. *)
Definition finalize_face (h : ccnd_handle) (p : nat) : ccnd_handle :=
  match face_at h p with
  | None => h
  | Some face =>
    let i := Z.land (faceid face) MAXFACES in
    if i =? Z.of_nat p then
      let h := set_faces_by_faceid (<[p := None]> (faces_by_faceid h)) h in
      let recycle :=
        flag_set (face_flags face) CCN_FACE_UNDECIDED &&
        (faceid face =? Z.lor (u32 (face_rover h - 1)) (face_gen h)) in
      let h := if recycle then set_face_rover (u32 (face_rover h - 1)) h else h in
      let h := cancel_senders (faceid face) h in
      emit (ccnd_msg (if recycle then "recycling face id %u (slot %u)"
                      else "releasing face id %u (slot %u)")
              [faceid face; Z.land (faceid face) MAXFACES]) h
    else emit (ccnd_msg "orphaned face %u" [faceid face]) h
  end.

Definition reap_needed (h : ccnd_handle) (init_delay_usec : Z) : ccnd_handle :=
  if reaper h then h
  else set_reaper true (ccn_schedule_event init_delay_usec cb_reap [] 0 h).

(** The face part of shutdown_client_fd: the entry of faces_by_fd is deleted,
    which finalizes the face. *)
Definition shutdown_client_fd (h : ccnd_handle) (p : nat) : ccnd_handle :=
  match face_at h p with
  | None => h
  | Some face =>
    let h := emit (ccnd_msg "shutdown client fd=%d id=%d"
                     [recv_fd face; faceid face]) h in
    let h := finalize_face h p in
    reap_needed h 250000
  end.

(** ccnd_req_prefixreg: the result is the reply Content, NULL for any error. *)
Definition ccnd_req_prefixreg (h : ccnd_handle) (msg : bytes)
    : ccnd_handle * option bytes :=
  match ccn_parse_ContentObject msg with
  | None => (h, None)
  | Some (pco, _) =>
  match ccn_content_get_value msg pco with
  | None => (h, None)
  | Some req =>
  match ccn_forwarding_entry_parse req with
  | None => (h, None)
  | Some forwarding_entry =>
  match fe_action forwarding_entry, fe_name_prefix forwarding_entry with
  | Some act, Some name_prefix =>
    if negb (String.eqb act "prefixreg") then (h, None)
    else if
      (if Z.of_nat (length (fe_ccnd_id forwarding_entry)) =? 32
       then negb (bool_decide (fe_ccnd_id forwarding_entry = ccnd_id h))
       else negb (Z.of_nat (length (fe_ccnd_id forwarding_entry)) =? 0))
    then (h, None)
    else
    match face_from_faceid h (fe_faceid forwarding_entry) with
    | None => (h, None)
    | Some face =>
    (* consider the source ... *)
    match face_from_faceid h (interest_faceid h) with
    | None => (h, None)
    | Some reqface =>
    if negb (flag_set (face_flags reqface) CCN_FACE_GG) then (h, None)
    else
      let lifetime := fe_lifetime forwarding_entry in
      let lifetime :=
        if lifetime <? 0 then 60
        else if (lifetime >? 3600) && (lifetime <? Z.shiftl 1 30) then 300
        else lifetime in
      match ccn_name_split name_prefix with
      | None => (h, None)
      | Some comps =>
        let res := nelem comps - 1 in
        let flags := fe_flags forwarding_entry in
        let flags := if flags <? 0 then 0 else flags in
        let '(h, res) :=
          ccnd_reg_prefix h name_prefix comps res (faceid face) flags lifetime in
        if res <? 0 then (h, None)
        else
          (h, ccnb_append_forwarding_entry
                (mk_forwarding_entry None (Some name_prefix) (ccnd_id h)
                   (fe_faceid forwarding_entry) flags lifetime))
      end
    end
    end
  | _, _ => (h, None)
  end
  end
  end
  end.

(** *** The cached outbound set of a prefix *)

(** The inner loop of update_inherited over one forwarding list. *)
Fixpoint add_inherited (h : ccnd_handle) (l : list ccn_forwarding) (x : list Z)
    : ccnd_handle * list Z :=
  match l with
  | [] => (h, x)
  | f :: l' =>
    let wantflags := Z.lor CCN_FORW_CHILD_INHERIT CCN_FORW_ACTIVE in
    if (Z.land (forw_flags f) wantflags =? wantflags) &&
       bool_decide (is_Some (face_from_faceid h (forw_faceid f)))
    then
      let h := emit_if 32 (ccnd_msg "at %d adding %u" [2066; forw_faceid f]) h in
      add_inherited h l' (ccn_indexbuf_set_insert x (forw_faceid f))
    else add_inherited h l' x
  end.

(** The walk up the parent links; [fuel] bounds the number of entries
    visited (a parent's key is shorter than its child's, see
    nameprefix_seek). *)
Fixpoint update_inherited (fuel : nat) (h : ccnd_handle) (npe : option bytes)
    (x : list Z) : ccnd_handle * list Z :=
  match fuel, npe with
  | S fuel', Some k =>
    match nameprefix_tab h !! k with
    | Some e =>
      let '(h, x) := add_inherited h (forwarding e) x in
      update_inherited fuel' h (parent e) x
    | None => (h, x)
    end
  | _, _ => (h, x)
  end.

(** The loop of update_forward_to over the entry's own forwarding list. *)
Fixpoint add_active (h : ccnd_handle) (l : list ccn_forwarding) (x : list Z)
    : ccnd_handle * list Z :=
  match l with
  | [] => (h, x)
  | f :: l' =>
    if flag_set (forw_flags f) CCN_FORW_ACTIVE &&
       bool_decide (is_Some (face_from_faceid h (forw_faceid f)))
    then
      let h := emit_if 32 (ccnd_msg "at %d adding %u" [2090; forw_faceid f]) h in
      add_active h l' (ccn_indexbuf_set_insert x (forw_faceid f))
    else add_active h l' x
  end.

Definition update_forward_to (h : ccnd_handle) (k : bytes) : ccnd_handle :=
  match nameprefix_tab h !! k with
  | None => h
  | Some npe =>
    let '(h, x) := add_active h (forwarding npe) [] in
    let '(h, x) := update_inherited (S (length k)) h (parent npe) x in
    update_npe k (λ npe,
      set_forward_to (if nelem x =? 0 then None else Some x)
        (set_fgen (forward_to_gen h) npe)) h
  end.

(** The loop of get_outbound_faces, over forward_to from its last element. *)
Fixpoint outbound_loop (h : ccnd_handle) (from : option nat) (checkmask : Z)
    (rev_forward_to : list Z) (x : list Z) : ccnd_handle * list Z :=
  match rev_forward_to with
  | [] => (h, x)
  | fid :: l' =>
    match face_from_faceid h fid with
    | Some face =>
      if bool_decide (Some (face_slot face) ≠ from) &&
         (Z.land (face_flags face) checkmask =? checkmask)
      then
        let h := emit_if 32 (ccnd_msg "at %d adding %u" [2136; faceid face]) h in
        outbound_loop h from checkmask l'
          (ccn_indexbuf_append_element x (faceid face))
      else outbound_loop h from checkmask l' x
    | None => outbound_loop h from checkmask l' x
    end
  end.

Definition get_outbound_faces (h : ccnd_handle) (from : option nat)
    (pi : ccn_parsed_interest) (k : bytes) : ccnd_handle * list Z :=
  match nameprefix_tab h !! k with
  | None => (h, [])
  | Some npe =>
    let h := if negb (fgen npe =? forward_to_gen h)
             then update_forward_to h k else h in
    match forward_to <$> nameprefix_tab h !! k with
    | Some (Some ft) =>
      if (scope pi =? 0) || (nelem ft =? 0) then (h, [])
      else
        let checkmask := if scope pi =? 1 then CCN_FACE_GG else 0 in
        (* We intentionally reverse the order here *)
        outbound_loop h from checkmask (rev ft) []
    | _ => (h, [])
    end
  end.

(** *** Propagation of interests *)

(** An [unsigned] result stored into an [int]. *)
Definition s32 (z : Z) : Z :=
  let m := z mod 2 ^ 32 in if m <? 2 ^ 31 then m else m - 2 ^ 32.

Definition pe_next_usec (h : ccnd_handle) (k : bytes) (next_delay : Z)
    (lineno : Z) : ccnd_handle * Z :=
  match propagating_tab h !! k with
  | None => (h, next_delay)
  | Some pe =>
    let next_delay := if next_delay >? pe_usec pe then pe_usec pe else next_delay in
    let h := update_pe k (set_pe_usec (pe_usec pe - next_delay)) h in
    let h :=
      match interest_msg pe with
      | Some m =>
        emit_if 16
          (ccnd_debug_ccnb lineno "%p.outbound.n=%d,usec=%d+%d"
             (faceid <$> face_from_faceid h (pe_faceid pe)) m) h
      | None => h
      end in
    (h, next_delay)
  end.

(** The test of adjust_outbound_for_existing_interests on an entry [p] of the
    prefix's list: a live interest that matches everything but the Nonce. *)
Definition similar_interest (msg : bytes) (pi : ccn_parsed_interest)
    (p : propagating_entry) : bool :=
  let presize := B_Nonce pi in
  let postsize := PI_E pi - E_Nonce pi in
  let minsize := presize + postsize in
  match interest_msg p with
  | Some pmsg =>
    (pe_size p >? minsize) && (pe_usec p >? 0) &&
    bool_decide (subbytes msg 0 presize = subbytes pmsg 0 presize) &&
    bool_decide (subbytes msg (E_Nonce pi) (E_Nonce pi + postsize)
                 = subbytes pmsg (pe_size p - postsize) (pe_size p))
  | None => false
  end.

(** The loop over the prefix's list; [ps] are the entries still to visit, [k]
    counts the similar interests of the same face seen so far. *)
Fixpoint adjust_outbound_loop (h : ccnd_handle) (face : face) (msg : bytes)
    (pi : ccn_parsed_interest) (npe : nameprefix_entry) (max_redundant : Z)
    (ps : list bytes) (k : Z) (outbound : list Z) (extra_delay : Z)
    : ccnd_handle * list Z * Z :=
  match ps with
  | [] => (h, outbound, extra_delay)
  | pk :: ps' =>
    if nelem outbound >? 0 then
      match propagating_tab h !! pk with
      | Some p =>
        if similar_interest msg pi p then
          (* Matches everything but the Nonce *)
          let h := emit_if 32
                     (ccnd_debug_ccnb 2279 "similar_interest"
                        (faceid <$> face_from_faceid h (pe_faceid p))
                        (default [] (interest_msg p))) h in
          if faceid face =? pe_faceid p then
            let extra_delay := s32 (extra_delay + (npe_usec npe + 20000)) in
            let k := k + 1 in
            if k <? max_redundant then
              adjust_outbound_loop h face msg pi npe max_redundant ps' k
                outbound extra_delay
            else (h, [], 0)
          else
            match face_from_faceid h (pe_faceid p) with
            | None =>
              adjust_outbound_loop h face msg pi npe max_redundant ps' k
                outbound extra_delay
            | Some otherface =>
              if negb (ccn_indexbuf_member outbound (pe_faceid p) =? -1) then
                let extra_delay :=
                  if flag_set (face_flags otherface)
                       (Z.lor CCN_FACE_MCAST CCN_FACE_LINK)
                  then s32 (extra_delay + (npe_usec npe + 10000))
                  else extra_delay in
                adjust_outbound_loop h face msg pi npe max_redundant ps' k
                  [pe_faceid p] extra_delay
              else
                adjust_outbound_loop h face msg pi npe max_redundant ps' k
                  [] extra_delay
            end
        else
          adjust_outbound_loop h face msg pi npe max_redundant ps' k
            outbound extra_delay
      | None =>
        adjust_outbound_loop h face msg pi npe max_redundant ps' k
          outbound extra_delay
      end
    else (h, outbound, extra_delay)
  end.

(** Returns the handle, the adjusted outbound set and the extra delay. *)
Definition adjust_outbound_for_existing_interests (h : ccnd_handle)
    (face : face) (msg : bytes) (pi : ccn_parsed_interest)
    (npe : nameprefix_entry) (outbound : option (list Z))
    : ccnd_handle * option (list Z) * Z :=
  let max_redundant := 3 in (* Allow this many dups from same face *)
  let max_redundant :=
    if flag_set (face_flags face) (Z.lor CCN_FACE_MCAST CCN_FACE_LINK)
    then 0 else max_redundant in
  match propagating_head npe, outbound with
  | Some ps, Some ob =>
    let '(h, ob, extra_delay) :=
      adjust_outbound_loop h face msg pi npe max_redundant ps 0 ob 0 in
    (h, Some ob, extra_delay)
  | _, _ => (h, outbound, 0)
  end.

Definition reorder_outbound_using_history (npe : nameprefix_entry)
    (outbound : list Z) : list Z :=
  let outbound :=
    if negb (osrc npe =? UINT_MAX)
    then ccn_indexbuf_move_to_end outbound (osrc npe) else outbound in
  if negb (src npe =? UINT_MAX)
  then ccn_indexbuf_move_to_end outbound (src npe) else outbound.

(** The bytes [s[i] = nrand48(h->seed) >> i] for [i] from [i] on, [n] of them. *)
Fixpoint nonce_bytes (n : nat) (i : Z) (s : Z) : bytes * Z :=
  match n with
  | O => ([], s)
  | S n' =>
    let '(r, s) := nrand48 s in
    let '(l, s) := nonce_bytes n' (i + 1) s in
    (Z.shiftr r i mod 256 :: l, s)
  end.

(** The message with a Nonce element added, for an interest that has none:
    the new message, the Nonce element, and the seed. *)
Definition add_nonce (msg : bytes) (pi : ccn_parsed_interest) (s : Z)
    : bytes * bytes * Z :=
  let noncebytes := 6 in
  let cb := subbytes msg 0 (B_Nonce pi) in
  let '(rnd, s) := nonce_bytes (Z.to_nat noncebytes) 0 s in
  let nonce :=
    ccn_charbuf_append_tt CCN_DTAG_Nonce CCN_DTAG ++
    ccn_charbuf_append_tt noncebytes CCN_BLOB ++
    rnd ++ ccn_charbuf_append_closer in
  (cb ++ nonce ++ subbytes msg (B_OTHER pi) (PI_E pi), nonce, s).

(** [fp] is the face the interest came from, [n] the prefix entry found for
    it; calloc is taken to succeed.  Returns the handle and the result. *)
Definition propagate_interest (h : ccnd_handle) (fp : nat) (msg : bytes)
    (pi : ccn_parsed_interest) (n : bytes) (outbound_ : option (list Z))
    : ccnd_handle * Z :=
  match face_at h fp, nameprefix_tab h !! n with
  | Some face, Some npe =>
    let '(h, outbound_, extra_delay) :=
      match outbound_ with
      | Some _ =>
        let '(h, ob, extra_delay) :=
          adjust_outbound_for_existing_interests h face msg pi npe outbound_ in
        match ob with
        | Some ob =>
          if nelem ob =? 0 then (h, None, extra_delay)
          else (h, Some (reorder_outbound_using_history npe ob), extra_delay)
        | None => (h, None, extra_delay)
        end
      | None => (h, None, 0)
      end in
    let '(msg_out, msg_out_size, nonce, h) :=
      if B_Nonce pi =? E_Nonce pi then
        (* This interest has no nonce; add one before going on *)
        let '(m, nonce, s) := add_nonce msg pi (seed h) in
        (m, nelem m, nonce, set_seed s h)
      else
        (subbytes msg 0 (PI_E pi), PI_E pi,
         subbytes msg (B_Nonce pi) (E_Nonce pi), h) in
    match propagating_tab h !! nonce with
    | None => (* HT_NEW_ENTRY *)
      let delaymask := 4095 in
      let unsent :=
        match outbound_ with
        | Some ob =>
          (nelem ob >? 0) && (buf ob (nelem ob - 1) =? src npe) &&
          (extra_delay =? 0)
        | None => false
        end in
      let pe :=
        mk_propagating None outbound_ (Some msg_out) msg_out_size
          (if unsent then CCN_PR_UNSENT else 0) (faceid face)
          CCN_INTEREST_LIFETIME_MICROSEC in
      let delaymask := if unsent then 255 else delaymask in
      let h := set_propagating_tab (<[nonce := pe]> (propagating_tab h)) h in
      let h := update_face fp
                 (set_pending_interests (pending_interests face + 1)) h in
      let h := link_propagating_interest_to_nameprefix h nonce n in
      let '(usec, h) :=
        match outbound_ with
        | None => (pe_usec pe, h)
        | Some _ =>
          let '(r, s) := nrand48 (seed h) in
          (Z.land r delaymask + 1 + extra_delay, set_seed s h)
        end in
      let '(h, usec) := pe_next_usec h nonce usec 2419 in
      let h := ccn_schedule_event usec cb_do_propagate nonce (npe_usec npe) h in
      (h, 0)
    | Some pe => (* HT_OLD_ENTRY *)
      let h := emit (ccnd_msg
                 "Interesting - this shouldn't happen much - ccnd.c:%d" [2424]) h in
      let h := update_pe nonce (λ pe,
                 set_outbound
                   ((λ ob, ccn_indexbuf_remove_element ob (faceid face))
                      <$> outbound pe) pe) h in
      (h, -1) (* We've seen this already, do not propagate *)
    end
  | _, _ => (h, -1)
  end.

(** Returns the handle and whether the interest has been seen before. *)
Definition is_duplicate_flooded (h : ccnd_handle) (msg : bytes)
    (pi : ccn_parsed_interest) (fid : Z) : ccnd_handle * bool :=
  let nonce_start := B_Nonce pi in
  let nonce_size := E_Nonce pi - nonce_start in
  if nonce_size =? 0 then (h, false)
  else
    match propagating_tab h !! subbytes msg nonce_start (nonce_start + nonce_size) with
    | Some pe =>
      (update_pe (subbytes msg nonce_start (nonce_start + nonce_size)) (λ pe,
         set_outbound
           ((λ ob, ccn_indexbuf_remove_element ob fid) <$> outbound pe) pe) h,
       true)
    | None => (h, false)
    end.

(** *** Content queues of a face *)

Definition choose_face_delay (h : ccnd_handle) (face : face)
    (c : cq_delay_class) : Z :=
  let shift := match c with CCN_CQ_SLOW => 2 | _ => 0 end in
  match c with
  | CCN_CQ_ASAP => 1
  | _ =>
    if flag_set (face_flags face) CCN_FACE_LINK (* udplink or such, delay more *)
    then u32 (Z.shiftl (data_pause_microsec h) shift)
    else if flag_set (face_flags face) CCN_FACE_LOCAL
    then 5 (* local stream, answer quickly *)
    else if flag_set (face_flags face) CCN_FACE_MCAST
    then u32 (Z.shiftl (data_pause_microsec h) shift) (* multicast, delay more *)
    else if flag_set (face_flags face) CCN_FACE_GG
    then Z.shiftl 100 shift (* localhost, delay just a little *)
    else if flag_set (face_flags face) CCN_FACE_DGRAM
    then Z.shiftl 500 shift (* udp, delay just a little *)
    else 100 (* probably tcp to a different machine *)
  end.

Definition content_queue_create (h : ccnd_handle) (face : face)
    (c : cq_delay_class) : content_queue :=
  let usec := choose_face_delay h face c in
  mk_content_queue (if usec <=? 500 then 500 else 300000) usec (2 * usec)
    0 0 [] false.

Definition choose_content_delay_class (h : ccnd_handle) (fid : Z)
    (content_flags : Z) : cq_delay_class :=
  match face_from_faceid h fid with
  | None => CCN_CQ_ASAP (* Going nowhere, get it over with *)
  | Some face =>
    if flag_set (face_flags face) (Z.lor CCN_FACE_LINK CCN_FACE_MCAST)
    then (* udplink or such, delay more *)
      if flag_set content_flags CCN_CONTENT_ENTRY_SLOWSEND
      then CCN_CQ_SLOW else CCN_CQ_NORMAL
    else if flag_set (face_flags face) CCN_FACE_DGRAM
    then CCN_CQ_NORMAL (* udp, delay just a little *)
    else if flag_set (face_flags face) (Z.lor CCN_FACE_GG CCN_FACE_LOCAL)
    then CCN_CQ_ASAP (* localhost, answer quickly *)
    else CCN_CQ_NORMAL (* default *)
  end.

Definition randomize_content_delay (h : ccnd_handle) (cq : content_queue)
    : ccnd_handle * Z :=
  let usec := min_usec cq + rand_usec cq in
  if usec <? 2 then (h, 1)
  else if (usec <=? 20) || (rand_usec cq <? 2) then (h, usec)
  else
    let '(r, s) := nrand48 (seed h) in
    let usec := min_usec cq + r mod rand_usec cq in
    (set_seed s h, if usec <? 2 then 1 else usec).

(** The search of the other queues of a face for an accession. *)
Fixpoint other_queue_member (qs : list (option content_queue)) (k : nat)
    (c : nat) (acc : Z) : option Z :=
  match qs with
  | [] => None
  | oq :: qs' =>
    match oq with
    | Some cq =>
      if negb (k =? c)%nat && (ccn_indexbuf_member (send_queue cq) acc >=? 0)
      then Some (ccn_indexbuf_member (send_queue cq) acc)
      else other_queue_member qs' (S k) c acc
    | None => other_queue_member qs' (S k) c acc
    end
  end.

(** [fp] and [ck] are the face and the content entry, NULL as [None]. *)
Definition face_send_queue_insert (h : ccnd_handle) (fp : option nat)
    (ck : option bytes) : ccnd_handle * Z :=
  match fp ≫= face_at h, ck ≫= (λ k, pair k <$> content_tab h !! k) with
  | Some face, Some (k, content) =>
    if flag_set (face_flags face) CCN_FACE_NOSEND then (h, -1)
    else
      let p := face_slot face in
      let c := choose_content_delay_class h (faceid face) (content_flags content) in
      let cq := default (content_queue_create h face c)
                  (mjoin (q face !! cq_index c)) in
      let h := update_face p (λ f, set_q (<[cq_index c := Some cq]> (q f)) f) h in
      (* Check the other queues first, it might be in one of them *)
      match other_queue_member (q face) 0 (cq_index c) (ce_accession content) with
      | Some ans =>
        (emit_if 8 (ccnd_debug_ccnb 1098 "content_otherq" (Some (faceid face))
                      (k ++ extdata content)) h, ans)
      | None =>
        let sq := ccn_indexbuf_set_insert (send_queue cq) (ce_accession content) in
        let ans := ccn_indexbuf_member sq (ce_accession content) in
        let cq := set_send_queue sq cq in
        let '(h, cq) :=
          if sender cq then (h, cq)
          else
            let '(h, delay) := randomize_content_delay h cq in
            let cq := set_sender true (set_cq_ready (nelem sq) cq) in
            let h := ccn_schedule_event delay cb_content_sender
                       [Z.of_nat (cq_index c)] (faceid face) h in
            (emit_if 8 (ccnd_msg "face %u q %d delay %d usec"
                          [faceid face; Z.of_nat (cq_index c); delay]) h, cq) in
        (update_face p (λ f, set_q (<[cq_index c := Some cq]> (q f)) f) h, ans)
      end
  | _, _ => (h, -1)
  end.

(** *** Matching content against pending interests *)

(** The loop of consume_matching_interests over the entries [ps] that were
    linked when it started (the source saves [p->next] before it consumes
    [p]). *)
Fixpoint consume_matching_loop (h : ccnd_handle) (ps : list bytes)
    (ck : bytes) (content_msg : bytes) (fp : option nat) (matches : Z)
    : ccnd_handle * Z :=
  match ps with
  | [] => (h, matches)
  | pk :: ps' =>
    match propagating_tab h !! pk with
    | Some p =>
      let f :=
        match interest_msg p, fp with
        | Some _, None => face_slot <$> face_from_faceid h (pe_faceid p)
        | Some _, Some fp' =>
          match face_at h fp' with
          | Some face => if pe_faceid p =? faceid face then Some fp' else None
          | None => None
          end
        | None, _ => None
        end in
      match f, interest_msg p with
      | Some f, Some imsg =>
        if ccn_content_matches_interest content_msg imsg then
          let '(h, _) := face_send_queue_insert h (Some f) (Some ck) in
          let h := emit_if (Z.lor 16 8)
                     (ccnd_debug_ccnb 1155 "consume" (faceid <$> face_at h f) imsg)
                     h in
          let h := consume h pk in
          consume_matching_loop h ps' ck content_msg fp (matches + 1)
        else consume_matching_loop h ps' ck content_msg fp matches
      | _, _ => consume_matching_loop h ps' ck content_msg fp matches
      end
    | None => consume_matching_loop h ps' ck content_msg fp matches
    end
  end.

(** [n] is the prefix entry, [ck] the content entry; if [fp] is not NULL,
    pay attention only to interests from that face. *)
Definition consume_matching_interests (h : ccnd_handle) (n : bytes)
    (ck : bytes) (fp : option nat) : ccnd_handle * Z :=
  match nameprefix_tab h !! n, content_tab h !! ck with
  | Some npe, Some content =>
    match propagating_head npe with
    | None => (h, 0)
    | Some ps => consume_matching_loop h ps ck (ck ++ extdata content) fp 0
    end
  | _, _ => (h, 0)
  end.

Definition adjust_ipe_predicted_response (npe : nameprefix_entry) (up : bool)
    : nameprefix_entry :=
  let t := npe_usec npe in
  let t := if up then u32 (t + Z.shiftr t 3) else u32 (t - Z.shiftr t 7) in
  let t := if t <? 127 then 127 else if t >? 1000000 then 1000000 else t in
  set_npe_usec t npe.

(** Keep a little history about where matching content comes from. *)
Definition note_content_from (npe : nameprefix_entry) (from_faceid : Z)
    : nameprefix_entry :=
  if src npe =? from_faceid then adjust_ipe_predicted_response npe false
  else if src npe =? UINT_MAX then set_src from_faceid npe
  else set_src from_faceid (set_osrc (src npe) npe).

(** The loop of match_interests: [n] rounds to go, from component count [ci]
    down. *)
Fixpoint match_interests_loop (h : ccnd_handle) (n : nat) (ci : Z) (ck : bytes)
    (content_msg : bytes) (cs : list Z) (fp : option nat)
    (from_face : option nat) (cm : Z) (n_matched : Z) : ccnd_handle * Z :=
  match n with
  | O => (h, n_matched)
  | S n' =>
    let c0 := buf cs 0 in
    let k := subbytes content_msg c0 (buf cs ci) in
    match nameprefix_tab h !! k with
    | Some _ =>
      let '(h, new_matches) := consume_matching_interests h k ck fp in
      let h :=
        match from_face ≫= face_at h with
        | Some ff =>
          if negb (new_matches =? 0) || (ci + 1 =? cm)
          then update_npe k (λ npe, note_content_from npe (faceid ff)) h
          else h
        | None => h
        end in
      if negb (new_matches =? 0)
      then (* update stats for this prefix and one shorter *)
        match_interests_loop h n' (ci - 1) ck content_msg cs fp from_face ci
          (n_matched + new_matches)
      else
        match_interests_loop h n' (ci - 1) ck content_msg cs fp from_face cm
          n_matched
    | None =>
      match_interests_loop h n' (ci - 1) ck content_msg cs fp from_face cm
        n_matched
    end
  end.

(** For new content, [from_face] is the source; for old content it is NULL. *)
Definition match_interests (h : ccnd_handle) (ck : bytes) (fp : option nat)
    (from_face : option nat) : ccnd_handle * Z :=
  match content_tab h !! ck with
  | Some content =>
    match_interests_loop h (Z.to_nat (ncomps content)) (ncomps content - 1) ck
      (ck ++ extdata content) (default [] (comps content)) fp from_face 0 0
  | None => (h, 0)
  end.

(** Mark content as stale *)
Definition mark_stale (h : ccnd_handle) (ck : bytes) : ccnd_handle :=
  match content_tab h !! ck with
  | None => h
  | Some content =>
    let accession := ce_accession content in
    if flag_set (content_flags content) CCN_CONTENT_ENTRY_STALE then h
    else
      let h := emit_if 4 (ccnd_debug_ccnb 2733 "stale" None
                            (ck ++ extdata content)) h in
      let h := set_content_tab
                 (<[ck := set_content_flags
                            (Z.lor (content_flags content) CCN_CONTENT_ENTRY_STALE)
                            content]> (content_tab h)) h in
      let h := if accession <? min_stale h then set_min_stale accession h else h in
      if accession >? max_stale h then set_max_stale accession h else h
  end.

(** *** Incoming interests *)

(** The search of the queues of a face for content that is to be sent
    already: the first answer that is not -1. *)
Fixpoint planned_already (qs : list (option content_queue)) (acc : Z) : Z :=
  match qs with
  | [] => -1
  | Some cq :: qs' =>
    if ccn_indexbuf_member (send_queue cq) acc =? -1
    then planned_already qs' acc
    else ccn_indexbuf_member (send_queue cq) acc
  | None :: qs' => planned_already qs' acc
  end.

(** The count of interests in an old format, with a log line each time the
    count reaches the next power of two. *)
Definition count_old_format_interest (h : ccnd_handle)
    (pi : ccn_parsed_interest) : ccnd_handle :=
  if negb (pi_magic pi =? 20090701) then
    let h := set_oldformatinterests (oldformatinterests h + 1) h in
    if oldformatinterests h =? oldformatinterestgrumble h then
      let h := set_oldformatinterestgrumble (oldformatinterestgrumble h * 2) h in
      emit (ccnd_msg "downrev interests received: %d (%d)"
              [oldformatinterests h; pi_magic pi]) h
    else h
  else h.

(** The branch of process_incoming_interest for an interest that is neither
    out of scope nor a duplicate. *)
Definition accept_interest (h : ccnd_handle) (fp : nat) (msg : bytes)
    (pi : ccn_parsed_interest) (cs : list Z) : ccnd_handle :=
  let fid := faceid <$> face_at h fp in
  let h := emit_if (Z.lor (Z.lor 16 8) 2)
             (ccnd_debug_ccnb 2601 "interest_from" fid msg) h in
  let h := emit_if 16
             (ccnd_msg "version: %d, prefix_comps: %d, min_suffix_comps: %d, max_suffix_comps: %d, orderpref: %d, answerfrom: %d, scope: %d, excl: %d bytes, etc: %d bytes"
                [pi_magic pi; prefix_comps pi; min_suffix_comps pi;
                 max_suffix_comps pi; orderpref pi; answerfrom pi; scope pi;
                 E_Exclude pi - B_Exclude pi; E_OTHER pi - B_OTHER pi]) h in
  let h := count_old_format_interest h pi in
  let h := set_interests_accepted (interests_accepted h + 1) h in
  let res := nameprefix_longest_match h msg cs (prefix_comps pi) in
  let '(h, npe) :=
    if res >=? 0 then
      let '(h, _, e) := nameprefix_seek h msg cs res in (h, e)
    else (h, None) in
  match npe with
  | None => h
  | Some n =>
    let '(h, matched) :=
      if flag_set (answerfrom pi) CCN_AOK_CS then
        match cs_walk h msg pi cs with
        | Some ck =>
          let acc := default 0 (ce_accession <$> content_tab h !! ck) in
          let k := planned_already (default [] (q <$> face_at h fp)) acc in
          let h :=
            if k =? -1 then
              let '(h, _) := propagate_interest h fp msg pi n None in
              let '(h, matched) := match_interests h ck (Some fp) None in
              if (matched <? 1) && negb (debug h =? 0) then
                emit (ccnd_debug_ccnb 2706 "expected_match_did_not_happen" fid
                        (ck ++ default [] (extdata <$> content_tab h !! ck))) h
              else h
            else h in
          let h := if flag_set (answerfrom pi) CCN_AOK_EXPIRE
                   then mark_stale h ck else h in
          (h, true)
        | None => (h, false)
        end
      else (h, false) in
    if negb matched && negb (scope pi =? 0) then
      let '(h, ob) := get_outbound_faces h (Some fp) pi n in
      fst (propagate_interest h fp msg pi n (Some ob))
    else h
  end.

(** [fp] is the face the message came in on, [msg] the message ([size] is
    its length). *)
Definition process_incoming_interest (h : ccnd_handle) (fp : nat)
    (msg : bytes) : ccnd_handle :=
  match face_at h fp with
  | None => h
  | Some face =>
    if nelem msg >? 65535 then
      emit (ccnd_msg "error parsing Interest - code %d" [-2584]) h
    else
      match ccn_parse_interest msg with
      | None => emit (ccnd_msg "error parsing Interest - code %d" []) h
      | Some (pi, cs) =>
        if (scope pi >=? 0) && (scope pi <? 2) &&
           negb (flag_set (face_flags face) CCN_FACE_GG)
        then
          emit (ccnd_debug_ccnb 2592 "interest_outofscope"
                  (Some (faceid face)) msg) h
        else
          let '(h, dup) := is_duplicate_flooded h msg pi (faceid face) in
          if dup then
            let h := emit_if 16 (ccnd_debug_ccnb 2596 "interest_dup"
                                   (Some (faceid face)) msg) h in
            set_interests_dropped (interests_dropped h + 1) h
          else accept_interest h fp msg pi cs
      end
  end.

(** *** Incoming content *)

(** Schedules content expiration based on its FreshnessSeconds. *)
Definition set_content_timer (h : ccnd_handle) (ck : bytes)
    (pco : ccn_parsed_ContentObject) : ccnd_handle :=
  match content_tab h !! ck with
  | None => h
  | Some content =>
    let start := B_FreshnessSeconds pco in
    let stop := E_FreshnessSeconds pco in
    if start =? stop then h
    else
      let seconds :=
        ccn_fetch_tagged_nonNegativeInteger CCN_DTAG_FreshnessSeconds
          (ck ++ extdata content) start stop in
      if seconds <=? 0 then h
      else if seconds >? Z.shiftl 1 31 / 1000000 then
        emit (ccnd_debug_ccnb 2797 "FreshnessSeconds_too_large" None
                (subbytes (ck ++ extdata content) 0 (PCO_E pco))) h
      else
        ccn_schedule_event (seconds * 1000000) cb_expire_content []
          (ce_accession content) h
  end.

(** hashtb_delete on content_tab runs finalize_content, which takes the
    entry out of the accession index (and out of the skip list). *)
Definition delete_content (h : ccnd_handle) (ck : bytes) : ccnd_handle :=
  match content_tab h !! ck with
  | None => h
  | Some content =>
    let h := set_content_by_accession
               (delete (ce_accession content) (content_by_accession h)) h in
    set_content_tab (delete ck (content_tab h)) h
  end.

Definition content_from_accession (h : ccnd_handle) (accession : Z)
    : option bytes :=
  match content_by_accession h !! accession with
  | Some ck =>
    match content_tab h !! ck with
    | Some content => if ce_accession content =? accession then Some ck else None
    | None => None
    end
  | None => None
  end.

(** The index by accession number is one finite map here.  The window
    array of the source, its shifting and growing, the table of stragglers
    and the unsigned arithmetic are in [window.enroll_content], which keeps
    the lookups of this map as long as the window does not wrap around
    2^32 and the allocations succeed; both are taken for granted here, so
    the call cannot fail, and the test of process_incoming_content that the
    entry is found again, with its could-not-enroll branch, has no
    counterpart in this model. *)
Definition enroll_content (h : ccnd_handle) (accession : Z) (ck : bytes)
    : ccnd_handle :=
  set_content_by_accession (<[accession := ck]> (content_by_accession h)) h.

(** The last loop of process_incoming_content, over the queues of the face
    the content came from: in the case this consumed any interests from this
    source, do not send the content back. *)
Fixpoint content_nosend (h : ccnd_handle) (qs : list (option content_queue))
    (acc : Z) (fid : Z) (msg : bytes)
    : ccnd_handle * list (option content_queue) :=
  match qs with
  | [] => (h, [])
  | Some cq :: qs' =>
    let i := ccn_indexbuf_member (send_queue cq) acc in
    if i >=? 0 then
      let h := emit_if 8 (ccnd_debug_ccnb 2945 "content_nosend" (Some fid) msg) h in
      let '(h, qs'') := content_nosend h qs' acc fid msg in
      (h, Some (set_send_queue (<[Z.to_nat i := 0]> (send_queue cq)) cq) :: qs'')
    else
      let '(h, qs'') := content_nosend h qs' acc fid msg in (h, Some cq :: qs'')
  | None :: qs' =>
    let '(h, qs'') := content_nosend h qs' acc fid msg in (h, None :: qs'')
  end.

(** The code after the label Bail, for [res >= 0 && content != NULL]. *)
Definition content_arrived (h : ccnd_handle) (fp : nat) (ck : bytes) (res : Z)
    (msg : bytes) : ccnd_handle :=
  let '(h, n_matches) := match_interests h ck None (Some fp) in
  match face_at h fp, content_tab h !! ck with
  | Some face, Some content =>
    let h :=
      (* written [(face->flags && CCN_FACE_GG) == 0] in the source *)
      if (res =? HT_NEW_ENTRY) && (n_matches =? 0) &&
         negb (negb (face_flags face =? 0) && negb (CCN_FACE_GG =? 0))
      then
        set_content_tab
          (<[ck := set_content_flags
                     (Z.lor (content_flags content) CCN_CONTENT_ENTRY_SLOWSEND)
                     content]> (content_tab h)) h
      else h in
    let '(h, qs) :=
      content_nosend h (q face) (ce_accession content) (faceid face) msg in
    update_face fp (set_q qs) h
  | _, _ => h
  end.

(** The message in its internal form: the digest is spliced in as the last
    component of the name, at the offset [cs] gives for the end of the name. *)
Definition explicit_digest (wire_msg : bytes) (cs : list Z) (digest : bytes)
    : bytes :=
  let i := buf cs (nelem cs - 1) in
  subbytes wire_msg 0 i ++
  ccn_charbuf_append_tt CCN_DTAG_Component CCN_DTAG ++
  ccn_charbuf_append_tt (nelem digest) CCN_BLOB ++
  digest ++ ccn_charbuf_append_closer ++
  subbytes wire_msg i (nelem wire_msg).

(** The count of content in an old format, with a log line each time the
    count reaches the next power of ten. *)
Definition count_old_format_content (h : ccnd_handle)
    (obj : ccn_parsed_ContentObject) : ccnd_handle :=
  if negb (pco_magic obj =? 20090415) then
    let h := set_oldformatcontent (oldformatcontent h + 1) h in
    if oldformatcontent h =? oldformatcontentgrumble h then
      let h := set_oldformatcontentgrumble (oldformatcontentgrumble h * 10) h in
      emit (ccnd_msg "downrev content items received: %d (%d)"
              [oldformatcontent h; pco_magic obj]) h
    else h
  else h.

Definition process_incoming_content (h : ccnd_handle) (fp : nat)
    (wire_msg : bytes) : ccnd_handle :=
  let fid := faceid <$> face_at h fp in
  match ccn_parse_ContentObject wire_msg with
  | None => emit (ccnd_msg "error parsing ContentObject - code %d" []) h
  | Some (obj, cs) =>
    let keysize := buf cs (nelem cs - 1) in
    if (nelem cs <? 1) || (keysize >? 65535 - 36) then
      let h := emit (ccnd_msg "ContentObject with keysize %lu discarded"
                       [if nelem cs <? 1 then 0 else keysize]) h in
      emit (ccnd_debug_ccnb 2835 "oversize" fid wire_msg) h
    else
      (* Make the content-digest name component explicit *)
      let digest := ccn_digest_ContentObject wire_msg in
      if negb (nelem digest =? 32) then
        emit (ccnd_debug_ccnb 2842 "indigestible" fid wire_msg) h
      else
        let msg := explicit_digest wire_msg cs digest in
        let size := nelem msg in
        match ccn_parse_ContentObject msg with
        | None => h (* abort(): must have just messed up *)
        | Some (obj, cs) =>
          let h := count_old_format_content h obj in
          let h := emit_if 4 (ccnd_debug_ccnb 2866 "content_from" fid msg) h in
          let keysize := B_Content obj in
          let ck := subbytes msg 0 keysize in
          let tail := subbytes msg keysize size in
          let tailsize := size - keysize in
          match content_tab h !! ck with
          | Some content => (* HT_OLD_ENTRY *)
            if negb (tailsize =? nelem (extdata content)) ||
               negb (bool_decide (tail = extdata content))
            then
              let h := emit (ccnd_msg "ContentObject name collision!!!!!" []) h in
              let h := emit (ccnd_debug_ccnb 2877 "new" fid msg) h in
              let h := emit (ccnd_debug_ccnb 2878 "old" None
                               (ck ++ extdata content)) h in
              (* XXX - Mercilessly throw away both of them. *)
              delete_content h ck
            else if flag_set (content_flags content) CCN_CONTENT_ENTRY_STALE then
              (* When old content arrives after it has gone stale, freshen it *)
              let h := set_content_tab
                         (<[ck := set_content_flags
                                    (flag_clear (content_flags content)
                                       CCN_CONTENT_ENTRY_STALE) content]>
                            (content_tab h)) h in
              let h := set_content_timer h ck obj in
              content_arrived h fp ck HT_OLD_ENTRY msg
            else
              let h := set_content_dups_recvd (content_dups_recvd h + 1) h in
              let h := emit (ccnd_msg
                         "received duplicate ContentObject from %u (accession %llu)"
                         (from_option (λ f, [f]) [] fid ++ [ce_accession content])) h in
              let h := emit (ccnd_debug_ccnb 2892 "dup" fid msg) h in
              content_arrived h fp ck HT_OLD_ENTRY msg
          | None => (* HT_NEW_ENTRY *)
            let h := set_h_accession (u32 (h_accession h + 1)) h in
            let accession := h_accession h in
            let h := enroll_content h accession ck in
            let content :=
              mk_content_entry accession
                (Some ((λ c, c mod 65536) <$> cs)) (nelem cs) 0
                keysize (keysize + tailsize) tail in
            let h := set_content_tab (<[ck := content]> (content_tab h)) h in
            let h := set_content_timer h ck obj in
            (* Mark public keys supplied at startup as precious. *)
            let h :=
              if (pco_type obj =? CCN_CONTENT_KEY) &&
                 (accession <=? ((capacity h + 7) mod 2 ^ 64) / 8)
              then
                set_content_tab
                  (<[ck := set_content_flags
                             (Z.lor (content_flags content)
                                CCN_CONTENT_ENTRY_PRECIOUS) content]>
                     (content_tab h)) h
              else h in
            content_arrived h fp ck HT_NEW_ENTRY msg
          end
        end
  end.

(** *** Inject messages, and the dispatch of incoming messages *)

Definition process_incoming_inject (h : ccnd_handle) (fp : nat)
    (inject_msg : bytes) : ccnd_handle :=
  match face_at h fp with
  | None => h
  | Some face =>
    let gg_mask := Z.lor CCN_FACE_GG CCN_FACE_LOCAL in
    if negb (Z.land (face_flags face) gg_mask =? gg_mask) then h
    else
      match inject_parse inject_msg with
      | None => h
      | Some (sotype, sa_family, imsg) =>
        let h := update_face fp (λ f,
                   set_face_flags (Z.lor (face_flags f) CCN_FACE_DC) f) h in
        let h := emit (ccnd_debug_ccnb 3002 "inject" (Some (faceid face)) imsg) h in
        if negb (sotype =? SOCK_DGRAM) then h
        else
          let fd := if sa_family =? AF_INET then udp4_fd h
                    else if sa_family =? AF_INET6 then udp6_fd h else -1 in
          emit (sendto_out fd imsg) h
      end
  end.

(** The dispatch on the outermost tag, for a message that is not unwrapped:
    the code of process_input_message after the test for a PDU. *)
Definition dispatch_message (h : ccnd_handle) (fp : nat) (msg : bytes)
    (d : ccn_skeleton_decoder) : ccnd_handle :=
  let unknown :=
    emit (ccnd_msg "discarding unknown message; size = %lu" [nelem msg]) h in
  if (d_state d >=? 0) && (CCN_GET_TT_FROM_DSTATE (d_state d) =? CCN_DTAG) then
    if d_numval d =? CCN_DTAG_Interest then process_incoming_interest h fp msg
    else if (d_numval d =? CCN_DTAG_ContentObject) ||
            (d_numval d =? CCN_DTAG_ContentObjectV20080711)
    then process_incoming_content h fp msg
    else if d_numval d =? CCN_DTAG_Inject then process_incoming_inject h fp msg
    else unknown
  else unknown.

(** The while loop over the messages inside a PDU.  [recur] is the call of
    process_input_message for one of them.  A round in which the decoder
    completes an element consumes bytes of it, so [fuel], the count of bytes
    left, bounds the rounds. *)
Fixpoint pdu_loop (fuel : nat) (recur : ccnd_handle → bytes → ccnd_handle)
    (h : ccnd_handle) (msg : bytes) (size : Z) (d : ccn_skeleton_decoder)
    : ccnd_handle :=
  match fuel with
  | O => h
  | S fuel' =>
    if d_index d <? size then
      let '(d, dres) :=
        ccn_skeleton_decode d (subbytes msg (d_index d) size) in
      if negb (d_state d =? 0) then h
      else
        (* The pdu_ok parameter limits the recursion depth *)
        let h := recur h (subbytes msg (d_index d - dres) (d_index d)) in
        pdu_loop fuel' recur h msg size d
    else h
  end.

(** The body of process_input_message; [recur] stands for the function
    itself where it calls itself. *)
Definition process_input_message_body
    (recur : ccnd_handle → nat → bytes → bool → ccnd_handle)
    (h : ccnd_handle) (fp : nat) (msg : bytes) (pdu_ok : bool) : ccnd_handle :=
  let '(d, dres) :=
    ccn_skeleton_decode (mk_decoder CCN_DSTATE_PAUSE 0 0) msg in
  if (d_state d >=? 0) && (CCN_GET_TT_FROM_DSTATE (d_state d) =? CCN_DTAG) &&
     pdu_ok && (d_numval d =? CCN_DTAG_CCNProtocolDataUnit)
  then
    let size := nelem msg - d_index d in
    let size := if size >? 0 then size - 1 else size in
    let msg := drop (Z.to_nat (d_index d)) msg in
    let h := update_face fp (λ f,
               set_face_flags
                 (flag_clear (Z.lor (face_flags f) CCN_FACE_LINK) CCN_FACE_GG) f)
               h in
    pdu_loop (Z.to_nat size) (λ h m, recur h fp m false) h msg size
      (mk_decoder 0 0 0)
  else dispatch_message h fp msg d.

(** With [pdu_ok = 0] the function does not call itself, so the recursion is
    closed off there. *)
Definition process_input_message (h : ccnd_handle) (fp : nat) (msg : bytes)
    (pdu_ok : bool) : ccnd_handle :=
  process_input_message_body
    (process_input_message_body (λ h _ _ _, h)) h fp msg pdu_ok.

(** *** Sending interests *)

(** do_write hands the bytes to the connection of the face.  Here the call
    is recorded, past the test of CCN_FACE_NOSEND, as an output, and that
    is all.  What the socket answers and what becomes of the face then (a
    short write that fills face->outbuf, EAGAIN, EPIPE that sets
    CCN_FACE_NOSEND) is in [socket.do_write] and [socket.do_deferred_write],
    for one face with the answer of the socket as an input.  What the
    internal client does with bytes written to face 0 (ccn_dispatch_message
    and process_internal_client_buffer, which can come back into
    process_input_message) is not modelled.  So a statement about a function
    that writes holds of the source only as far as it does not rest on
    these; the statements below say where they leave out face 0, and they
    count writes to a face as the calls of do_write that pass the test. *)
Definition do_write (h : ccnd_handle) (face : face) (data : bytes)
    : ccnd_handle :=
  if flag_set (face_flags face) CCN_FACE_NOSEND then h
  else emit (do_write_out (faceid face) data) h.

(** The inner loop of ccn_stuff_interest over the list of one prefix, from
    its tail: the first interest that fits is stuffed.  Returns the handle,
    the buffer, the space left and the number stuffed (0 or 1). *)
Fixpoint stuff_prefix (h : ccnd_handle) (face : face) (ps : list bytes)
    (c : bytes) (remaining_space : Z) : ccnd_handle * bytes * Z * Z :=
  match ps with
  | [] => (h, c, remaining_space, 0)
  | pk :: ps' =>
    match propagating_tab h !! pk with
    | Some p =>
      match outbound p, interest_msg p with
      | Some ob, Some imsg =>
        if (nelem ob >? 0) && (pe_size p <=? remaining_space) &&
           (Z.land (pe_flags p) (Z.lor CCN_PR_STUFFED1 CCN_PR_WAIT1) =? 0) &&
           (negb (flag_set (pe_flags p) CCN_PR_UNSENT) ||
            (buf ob (nelem ob - 1) =? faceid face)) &&
           negb (snd (ccn_indexbuf_remove_first_match ob (faceid face)) =? -1)
        then
          let flags :=
            if flag_set (pe_flags p) CCN_PR_UNSENT
            then Z.lor (flag_clear (pe_flags p) CCN_PR_UNSENT) CCN_PR_STUFFED1
            else pe_flags p in
          let h := update_pe pk (λ p,
                     set_pe_flags flags
                       (set_outbound
                          (Some (fst (ccn_indexbuf_remove_first_match ob
                                        (faceid face)))) p)) h in
          let h := emit_if 2 (ccnd_debug_ccnb 1353 "stuff_interest_to"
                                (Some (faceid face)) imsg) h in
          (* Don't stuff multiple interests with same prefix
             to avoid subverting attempts at redundancy. *)
          (h, c ++ imsg, remaining_space - pe_size p, 1)
        else stuff_prefix h face ps' c remaining_space
      | _, _ => stuff_prefix h face ps' c remaining_space
      end
    | None => stuff_prefix h face ps' c remaining_space
    end
  end.

(** The outer loop, over the prefixes [ns] in the order the table
    enumerates them. *)
Fixpoint stuff_prefixes (h : ccnd_handle) (face : face) (ns : list bytes)
    (c : bytes) (remaining_space : Z) (n_stuffed : Z) : ccnd_handle * bytes * Z :=
  match ns with
  | [] => (h, c, n_stuffed)
  | n :: ns' =>
    if remaining_space >=? 20 then
      match nameprefix_tab h !! n ≫= propagating_head with
      | Some ps =>
        let '(h, c, remaining_space, k) :=
          stuff_prefix h face (rev ps) c remaining_space in
        stuff_prefixes h face ns' c remaining_space (n_stuffed + k)
      | None => stuff_prefixes h face ns' c remaining_space n_stuffed
      end
    else (h, c, n_stuffed)
  end.

(** Stuff a PDU with interest messages that will fit.  face0, the face of
    the internal client, is the face with faceid 0. *)
Definition ccn_stuff_interest (h : ccnd_handle) (face : face) (c : bytes)
    : ccnd_handle * bytes * Z :=
  let remaining_space := mtu h - nelem c in
  if (remaining_space <? 20) || (faceid face =? 0) then (h, c, 0)
  else
    stuff_prefixes h face (fst <$> map_to_list (nameprefix_tab h)) c
      remaining_space 0.

(** Send a message in a PDU, possibly stuffing other interest messages into it. *)
Definition stuff_and_send (h : ccnd_handle) (face : face) (data : bytes)
    : ccnd_handle :=
  if flag_set (face_flags face) CCN_FACE_LINK then
    let c := ccn_charbuf_append_tt CCN_DTAG_CCNProtocolDataUnit CCN_DTAG ++ data in
    let '(h, c, _) := ccn_stuff_interest h face c in
    do_write h face (c ++ ccn_charbuf_append_closer)
  else if mtu h >? nelem data then
    let '(h, c, _) := ccn_stuff_interest h face data in
    do_write h face c
  else do_write h face data.

Definition adjust_predicted_response (h : ccnd_handle) (k : bytes) (up : bool)
    : ccnd_handle :=
  match propagating_tab h !! k ≫= interest_msg with
  | None => h
  | Some imsg =>
    match ccn_parse_interest imsg with
    | None => h (* abort() *)
    | Some (pi, cs) =>
      if prefix_comps pi >=? nelem cs then h (* abort() *)
      else
        let res := nameprefix_longest_match h imsg cs (prefix_comps pi) in
        if res <? 0 then h (* abort() *)
        else
          let start := buf cs 0 in
          let h := update_npe (subbytes imsg start (buf cs res))
                     (λ npe, adjust_ipe_predicted_response npe up) h in
          if prefix_comps pi >? 0 then
            update_npe (subbytes imsg start (buf cs (prefix_comps pi - 1)))
              (λ npe, adjust_ipe_predicted_response npe up) h
          else h
    end
  end.

(** The scheduled callback of a propagating interest; [cancel] is
    [flags & CCN_SCHEDULE_CANCEL].  Returns the handle and the delay until
    the next call (0 for none). *)
Definition do_propagate (h : ccnd_handle) (ev : ccn_scheduled_event)
    (cancel : bool) : ccnd_handle * Z :=
  let k := evdata ev in
  match propagating_tab h !! k with
  | None => (h, 0)
  | Some pe =>
    match interest_msg pe with
    | None => (h, 0)
    | Some imsg =>
      if cancel then (consume h k, 0)
      else
        let '(h, flags) :=
          if flag_set (pe_flags pe) CCN_PR_WAIT1 then
            let flags := flag_clear (pe_flags pe) CCN_PR_WAIT1 in
            (adjust_predicted_response (update_pe k (set_pe_flags flags) h) k true,
             flags)
          else (h, pe_flags pe) in
        if pe_usec pe <=? 0 then
          let h := emit_if 2 (ccnd_debug_ccnb 2190 "interest_expiry"
                                (faceid <$> face_from_faceid h (pe_faceid pe))
                                imsg) h in
          let h := consume h k in
          (reap_needed h 0, 0)
        else
          let n := from_option nelem 0 (outbound pe) in
          let '(h, next_delay, special_delay) :=
            if flag_set flags CCN_PR_STUFFED1 then
              let flags := Z.lor (flag_clear flags CCN_PR_STUFFED1) CCN_PR_WAIT1 in
              (update_pe k (set_pe_flags flags) h, evint ev, evint ev)
            else if n >? 0 then
              let ob := default [] (outbound pe) in
              let fid := buf ob (n - 1) in
              let h := update_pe k (set_outbound (Some (take (Z.to_nat (n - 1)) ob))) h in
              match face_from_faceid h fid with
              | Some face =>
                if negb (flag_set (face_flags face) CCN_FACE_NOSEND) then
                  let h := emit_if 2 (ccnd_debug_ccnb 2209 "interest_to"
                                        (Some (faceid face)) imsg) h in
                  let h := set_interests_sent (interests_sent h + 1) h in
                  let h := set_interest_faceid (pe_faceid pe) h in
                  let '(r, s) := nrand48 (seed h) in
                  let h := set_seed s h in
                  let next_delay := r mod 8192 + 500 in
                  let '(h, next_delay, special_delay) :=
                    if flag_set flags CCN_PR_UNSENT then
                      let flags :=
                        Z.lor (flag_clear flags CCN_PR_UNSENT) CCN_PR_WAIT1 in
                      (update_pe k (set_pe_flags flags) h, evint ev, evint ev)
                    else (h, next_delay, 0) in
                  (stuff_and_send h face imsg, next_delay, special_delay)
                else (h, 1, 0)
              | None => (h, 1, 0)
              end
            else (h, 1, 0) in
          (* The internal client may have already consumed the interest *)
          let ob := propagating_tab h !! k ≫= outbound in
          let '(h, next_delay) :=
            if from_option nelem 0 ob =? 0 then
              if pe_usec pe <=? CCN_INTEREST_LIFETIME_MICROSEC * 3 / 4 then
                (update_pe k finished_propagating h, CCN_INTEREST_LIFETIME_MICROSEC)
              else if special_delay =? 0
              then (h, CCN_INTEREST_LIFETIME_MICROSEC / 4)
              else (h, next_delay)
            else
              let fid := buf (default [] ob) (from_option nelem 0 ob - 1) in
              match face_from_faceid h fid with
              | Some face =>
                (* Wait longer before sending interest to ccndc *)
                if flag_set (face_flags face) CCN_FACE_DC
                then (h, next_delay + 60000) else (h, next_delay)
              | None => (h, next_delay)
              end in
          pe_next_usec h k next_delay 2238
    end
  end.

(** One round of check_propagating on the entry with key [k]. *)
Definition check_propagating_entry (hc : ccnd_handle * Z) (k : bytes)
    : ccnd_handle * Z :=
  let '(h, count) := hc in
  match propagating_tab h !! k with
  | Some pe =>
    match interest_msg pe with
    | None =>
      if pe_size pe =? 0 then (delete_propagating h k, count + 1)
      else
        (* go around twice *)
        (update_pe k (set_pe_size (if pe_size pe >? 1 then 1 else 0)) h, count)
    | Some _ => (h, count)
    end
  | None => (h, count)
  end.

(** Check for expired propagating interests; returns the number that have
    gone away. *)
Definition check_propagating (h : ccnd_handle) : ccnd_handle * Z :=
  foldl check_propagating_entry (h, 0) (fst <$> map_to_list (propagating_tab h)).

(** The handle as ccnd_create leaves it, before face 0 is enrolled; the
    arguments are what it reads from the environment and the key store. *)
Definition ccnd_create (id : bytes) (dbg cap mtu0 flood0 pause s u4 u6 : Z)
    : ccnd_handle :=
  mk_handle id ∅ ∅ ∅ 0 0 0 (replicate 1024 None) u4 u6 false [] ∅ 0
    UINT_MAX 0 cap 0 1 0 1 0 0 0 0 s dbg mtu0 flood0 0 pause [].

End ccnd.

(** * Notions used in the statements *)

Section notions.
Context `{L : ccn_lib} `{W : content_walk}.

(** Whether the entry with key [k] counts as a similar interest. *)
Definition is_similar (tab : gmap bytes propagating_entry) (msg : bytes)
    (pi : ccn_parsed_interest) (k : bytes) : bool :=
  match tab !! k with
  | Some p => similar_interest msg pi p
  | None => false
  end.

(** The decoder as process_input_message has it after the first header. *)
Definition outer_decode (msg : bytes) : ccn_skeleton_decoder :=
  fst (ccn_skeleton_decode (mk_decoder CCN_DSTATE_PAUSE 0 0) msg).

(** The decoder stopped at a well-formed DTAG header with number [tag]. *)
Definition is_dtag (d : ccn_skeleton_decoder) (tag : Z) : bool :=
  (d_state d >=? 0) && (CCN_GET_TT_FROM_DSTATE (d_state d) =? CCN_DTAG) &&
  (d_numval d =? tag).

(** The five tags that process_input_message tells apart are five numbers. *)
Definition tags_distinct : Prop :=
  NoDup [CCN_DTAG_Interest; CCN_DTAG_ContentObject;
         CCN_DTAG_ContentObjectV20080711; CCN_DTAG_Inject;
         CCN_DTAG_CCNProtocolDataUnit].

(** What process_input_message does to the face and the buffer before it
    loops over the messages of a PDU. *)
Definition pdu_size (msg : bytes) : Z :=
  let size := nelem msg - d_index (outer_decode msg) in
  if size >? 0 then size - 1 else size.

Definition pdu_body (msg : bytes) : bytes :=
  drop (Z.to_nat (d_index (outer_decode msg))) msg.

Definition mark_link_face (fp : nat) (h : ccnd_handle) : ccnd_handle :=
  update_face fp (λ f,
    set_face_flags
      (flag_clear (Z.lor (face_flags f) CCN_FACE_LINK) CCN_FACE_GG) f) h.

(** The messages of a PDU, in the order in which its loop comes to them.
    From the decoder [d] the rest of the body is decoded; an element that
    the decoder completes (state 0, and it has moved on) is a message, and
    the loop goes on behind it.  The list ends where the body ends or where
    the decoder does not complete an element. *)
Inductive pdu_messages (body : bytes) (size : Z)
    : ccn_skeleton_decoder → list bytes → Prop :=
| pdu_end d :
    size ≤ d_index d → pdu_messages body size d []
| pdu_stop d d' dres :
    d_index d < size →
    ccn_skeleton_decode d (subbytes body (d_index d) size) = (d', dres) →
    d_state d' ≠ 0 →
    pdu_messages body size d []
| pdu_next d d' dres ms :
    d_index d < size →
    ccn_skeleton_decode d (subbytes body (d_index d) size) = (d', dres) →
    d_state d' = 0 → d_index d < d_index d' →
    pdu_messages body size d' ms →
    pdu_messages body size d
      (subbytes body (d_index d' - dres) (d_index d') :: ms).

(** *** Forwarding records and ancestors *)

(** A forwarding record counts for its own prefix when it is ACTIVE and its
    face is still there; it counts for the prefixes below when it is also
    marked CHILD_INHERIT. *)
Definition active_record (h : ccnd_handle) (f : ccn_forwarding) : Prop :=
  flag_set (forw_flags f) CCN_FORW_ACTIVE = true ∧
  is_Some (face_from_faceid h (forw_faceid f)).

Definition inheritable_record (h : ccnd_handle) (f : ccn_forwarding) : Prop :=
  flag_set (forw_flags f) CCN_FORW_ACTIVE = true ∧
  flag_set (forw_flags f) CCN_FORW_CHILD_INHERIT = true ∧
  is_Some (face_from_faceid h (forw_faceid f)).

(** [ancestor tab k a]: the entry with key [a] is reached from the entry
    with key [k] by one or more parent links. *)
Inductive ancestor (tab : gmap bytes nameprefix_entry) : bytes → bytes → Prop :=
  | ancestor_parent k e p :
      tab !! k = Some e → parent e = Some p → ancestor tab k p
  | ancestor_further k e p a :
      tab !! k = Some e → parent e = Some p → ancestor tab p a →
      ancestor tab k a.

(** The key of a parent is shorter than the key of its child, as it is for
    the entries that nameprefix_seek makes from the components of a name. *)
Definition parent_shorter (k : bytes) (e : nameprefix_entry) : bool :=
  match parent e with
  | Some p => (length p <? length k)%nat
  | None => true
  end.

Definition wf_parents (tab : gmap bytes nameprefix_entry) : Prop :=
  map_Forall (λ k e, parent_shorter k e = true) tab.

(** [faceid] comes from a forwarding record of the entry at [k] that counts
    there, or from one of an ancestor that counts below it. *)
Definition forwards_to (h : ccnd_handle) (k : bytes) (fid : Z) : Prop :=
  (∃ e f, nameprefix_tab h !! k = Some e ∧ f ∈ forwarding e ∧
          forw_faceid f = fid ∧ active_record h f) ∨
  (∃ a e f, ancestor (nameprefix_tab h) k a ∧
            nameprefix_tab h !! a = Some e ∧ f ∈ forwarding e ∧
            forw_faceid f = fid ∧ inheritable_record h f).

(** *** Pending interests and their origin *)

(** A PIT entry is live while it holds its interest message; the view of
    the PIT keeps, for each live entry, the faceid of its origin. *)
Definition live_origin (pe : propagating_entry) : option Z :=
  match interest_msg pe with
  | Some _ => Some (pe_faceid pe)
  | None => None
  end.

Definition pit_view (h : ccnd_handle) : gmap bytes Z :=
  omap live_origin (propagating_tab h).

Definition origin_count (m : gmap bytes Z) (fid : Z) : Z :=
  Z.of_nat (size (filter (λ kv, kv.2 = fid) m)).

(** The number of live PIT entries whose origin is [fid]. *)
Definition pending_count (h : ccnd_handle) (fid : Z) : Z :=
  origin_count (pit_view h) fid.

Definition live_entries (h : ccnd_handle) : Z := Z.of_nat (size (pit_view h)).

(** The live PIT entries whose origin is a face that is still enrolled. *)
Definition live_entries_of_live_faces (h : ccnd_handle) : Z :=
  Z.of_nat (size (filter (λ kv, is_Some (face_from_faceid h kv.2))
                    (pit_view h))).

Definition sumZ {A : Type} (g : A → Z) (l : list A) : Z :=
  foldr (λ x acc, g x + acc) 0 l.

Definition live_faces (h : ccnd_handle) : list face :=
  omap id (faces_by_faceid h).

(** The sum of the counters over the faces. *)
Definition sum_pending (h : ccnd_handle) : Z :=
  sumZ pending_interests (live_faces h).

(** What the faces table shows of a face to the counting: its id, its
    counter, and whether the face is still undecided (a connection that has
    not yet sent a ccn message). *)
Definition face_sight (f : face) : Z * Z * bool :=
  (faceid f, pending_interests f, flag_set (face_flags f) CCN_FACE_UNDECIDED).

Definition face_view (h : ccnd_handle) : list (option (Z * Z * bool)) :=
  fmap (M := list) (fmap (M := option) face_sight) (faces_by_faceid h).

Definition views (h : ccnd_handle)
    : gmap bytes Z * list (option (Z * Z * bool)) * Z * Z :=
  (pit_view h, face_view h, face_gen h, face_rover h).

(** The invariant.  A face sits in the slot its id names, its counter is
    the number of live PIT entries it is the origin of, its id is below the
    next id that enroll_face gives out, and an undecided face is the origin
    of no live entry. *)
Definition counters_ok (h : ccnd_handle) : Prop :=
  ∀ p fid c u, face_view h !! p = Some (Some (fid, c, u)) →
    Z.to_nat (Z.land fid MAXFACES) = p ∧ c = pending_count h fid ∧
    fid < face_gen h + face_rover h ∧ (u = true → c = 0).

(** The origins of the live entries are ids that were given out. *)
Definition origins_ok (h : ccnd_handle) : Prop :=
  ∀ k fid, pit_view h !! k = Some fid → fid < face_gen h + face_rover h.

Definition table_ok (h : ccnd_handle) : Prop :=
  Z.land (face_gen h) MAXFACES = 0 ∧ 0 ≤ face_gen h < 2 ^ 32 ∧
  0 ≤ face_rover h ≤ Z.of_nat (length (face_view h)) ∧
  (length (face_view h) ≤ Z.to_nat MAXFACES)%nat.

(** The face in slot [fp], if there is one, is not undecided. *)
Definition decided (h : ccnd_handle) (fp : nat) : Prop :=
  ∀ fid c u, face_view h !! fp = Some (Some (fid, c, u)) → u = false.

(** [ofp] is the face a message is being processed for, if any. *)
Definition pending_inv (ofp : option nat) (h : ccnd_handle) : Prop :=
  counters_ok h ∧ origins_ok h ∧ table_ok h ∧
  ∀ fp, ofp = Some fp → decided h fp.

(** The states of the daemon: it starts from ccnd_create; faces are
    enrolled and shut down, messages come in on a face, and the scheduler
    runs do_propagate and the check for expired interests.  Two things are
    taken from the callers.  A face is new when it is enrolled (its counter
    is 0), and the generation count of the face table has not wrapped around
    [2^32].  And process_input clears CCN_FACE_UNDECIDED on a face before it
    hands a message of that face to process_input_message. *)
Inductive reachable : ccnd_handle → Prop :=
  | reach_create id dbg cap mtu0 flood0 pause s u4 u6 :
      reachable (ccnd_create id dbg cap mtu0 flood0 pause s u4 u6)
  | reach_enroll h f :
      reachable h → pending_interests f = 0 →
      face_gen h + (MAXFACES + 1) < 2 ^ 32 →
      reachable (fst (enroll_face h f))
  | reach_decide h fp :
      reachable h →
      reachable
        (update_face fp (λ f,
           set_face_flags (flag_clear (face_flags f) CCN_FACE_UNDECIDED) f) h)
  | reach_input h fp msg pdu_ok :
      reachable h →
      (∀ f, face_at h fp = Some f →
            flag_set (face_flags f) CCN_FACE_UNDECIDED = false) →
      reachable (process_input_message h fp msg pdu_ok)
  | reach_propagate h ev cancel :
      reachable h → reachable (fst (do_propagate h ev cancel))
  | reach_check h :
      reachable h → reachable (fst (check_propagating h))
  | reach_shutdown h p :
      reachable h → reachable (shutdown_client_fd h p)
  | reach_finalize h p :
      reachable h → reachable (finalize_face h p)
  | reach_prefixreg h msg :
      reachable h → reachable (fst (ccnd_req_prefixreg h msg))
  | reach_reg_uri h uri fid flags expires :
      reachable h → reachable (fst (ccnd_reg_uri h uri fid flags expires)).

End notions.

(** ** A library instance for the examples

    The examples below run the model on concrete messages.  The routines of
    the ccn library are replaced by doubles that return canned results for
    the messages of the examples; the header encoder and nrand48 follow the
    ccnb format and the POSIX generator. *)

Fixpoint canned {A : Type} (tab : list (bytes * A)) (m : bytes) : option A :=
  match tab with
  | [] => None
  | (k, v) :: tab' => if bool_decide (k = m) then Some v else canned tab' m
  end.

(** The leading bytes of a ccnb header, seven bits of the value each. *)
Fixpoint tt_lead (fuel : nat) (val : Z) (acc : bytes) : bytes :=
  match fuel with
  | O => acc
  | S fuel' =>
    if val =? 0 then acc
    else tt_lead fuel' (Z.shiftr val 7) (Z.land val 127 :: acc)
  end.

Definition ccnb_tt (val tt : Z) : bytes :=
  tt_lead 10 (Z.shiftr val 4)
    [Z.lor 128 (Z.lor (Z.shiftl (Z.land val 15) 3) (Z.land 7 tt))].

Definition posix_nrand48 (s : Z) : Z * Z :=
  let s' := (25214903917 * s + 11) mod 2 ^ 48 in (Z.shiftr s' 17, s').

Record canned_results := mk_canned {
  canned_interests : list (bytes * (ccn_parsed_interest * list Z));
  canned_contents : list (bytes * (ccn_parsed_ContentObject * list Z));
  canned_digests : list (bytes * bytes);
  canned_matches : list (bytes * list bytes);
      (**< for a content object, the interests it matches *)
  canned_values : list (bytes * bytes);
  canned_requests : list (bytes * ccn_forwarding_entry);
  canned_names : list (bytes * list Z);
  canned_headers : list (bytes * (ccn_skeleton_decoder * Z));
      (**< for a message decoded with CCN_DSTATE_PAUSE: the decoder as it
           pauses after the first header, and the bytes consumed *)
  canned_elements : list (bytes * (ccn_skeleton_decoder * Z))
      (**< for bytes decoded without pause: the decoder after the first
           whole element, and the bytes consumed *)
}.

Definition no_canned : canned_results := mk_canned [] [] [] [] [] [] [] [] [].

Definition example_lib (c : canned_results) : ccn_lib := {|
  CCN_DTAG := 2;
  CCN_BLOB := 5;
  CCN_DTAG_Nonce := 41;
  CCN_DTAG_Component := 15;
  CCN_DTAG_FreshnessSeconds := 58;
  CCN_DTAG_Interest := 26;
  CCN_DTAG_ContentObject := 64;
  CCN_DTAG_ContentObjectV20080711 := 12;
  CCN_DTAG_Inject := 81;
  CCN_DTAG_CCNProtocolDataUnit := 17702112;
  CCN_AOK_CS := 1;
  CCN_AOK_STALE := 4;
  CCN_AOK_EXPIRE := 16;
  CCN_CONTENT_KEY := 2639423;
  CCN_DSTATE_PAUSE := Z.shiftl 1 15;
  CCN_GET_TT_FROM_DSTATE := λ state, Z.land state 7;
  SOCK_DGRAM := 2;
  AF_INET := 2;
  AF_INET6 := 10;
  ccn_charbuf_append_tt := ccnb_tt;
  ccn_charbuf_append_closer := [0];
  ccn_parse_interest := canned (canned_interests c);
  ccn_parse_ContentObject := canned (canned_contents c);
  ccn_digest_ContentObject := λ m, default [] (canned (canned_digests c) m);
  ccn_content_matches_interest := λ content interest,
    bool_decide (interest ∈ default [] (canned (canned_matches c) content));
  ccn_fetch_tagged_nonNegativeInteger := λ _ _ _ _, -1;
  ccn_name_from_uri := λ uri,
    if String.eqb uri "ccn:/" then Some ([242; 0], [1]) else None;
  ccn_content_get_value := λ m _, canned (canned_values c) m;
  ccn_forwarding_entry_parse := canned (canned_requests c);
  ccn_name_split := canned (canned_names c);
  ccnb_append_forwarding_entry := λ fe, fe_name_prefix fe;
  ccn_skeleton_decode := λ d m,
    match canned (if flag_set (d_state d) (Z.shiftl 1 15)
                  then canned_headers c else canned_elements c) m with
    | Some (d', n) => (mk_decoder (d_state d') (d_numval d') (d_index d + n), n)
    | None => (mk_decoder (-1) 0 (d_index d), 0)
    end;
  inject_parse := λ _, None;
  nrand48 := posix_nrand48
|}.

(** A double of the walk over the content store: the stored entry canned
    for the interest, if it is in the table. *)
Definition example_walk (tab : list (bytes * bytes)) : content_walk := {|
  cs_walk := λ h msg _ _,
    canned tab msg ≫= λ ck, const ck <$> content_tab h !! ck
|}.

(** The face of the internal client, as ccnd_create makes it. *)
Definition face0 : face :=
  mk_face (-1) (-1) (Z.lor CCN_FACE_GG CCN_FACE_LOCAL) 0 0 [None; None; None] 0.

(** A face fresh from its table, with the given flags. *)
Definition new_face (fd flags : Z) : face :=
  mk_face fd fd flags 0 0 [None; None; None] 0.

(** The daemon after start-up: face 0 is enrolled (main). *)
Definition started `{L : ccn_lib} (flood0 : Z) : ccnd_handle :=
  fst (enroll_face (ccnd_create [] 0 10 0 flood0 10000 1 (-1) (-1)) face0).

(** A prefixreg request for the root prefix / and face 0, with a lifetime of
    5000 seconds. *)
Definition prefixreg_lib : ccn_lib :=
  example_lib
    (mk_canned [] [([1], (mk_parsed_ContentObject 20090415 0 0 0 0 1, []))] [] []
       [([1], [2])]
       [([2], mk_forwarding_entry (Some "prefixreg"%string) (Some [242; 0]) [] 0 0 5000)]
       [([242; 0], [1])] [] []).

(** Two interests that carry the same Nonce (the byte 99): the first has no
    scope and may not be answered from the content store, the second has
    scope 1.  Neither names a component, so both fall under the root prefix. *)
Definition interest_any : bytes := [20; 99; 21].
Definition interest_scope1 : bytes := [22; 99; 23].

Definition parsed_interest (answer sc : Z) : ccn_parsed_interest :=
  mk_parsed_interest 20090701 0 0 (-1) 0 answer sc 0 1 1 1 1 2 2 3 3.

Definition nonce_lib : ccn_lib :=
  example_lib
    (mk_canned
       [(interest_any, (parsed_interest 0 (-1), [1]));
        (interest_scope1, (parsed_interest 0 1, [1]))]
       [] [] [] [] [] [] [] []).

(** A daemon with a local client (face 1, GG) and a TCP peer (face 2, not
    GG), both registered for the root prefix as register_new_face does. *)
Definition two_faces `{L : ccn_lib} : ccnd_handle :=
  let h := started 1 in
  let h := fst (enroll_face h (new_face 5 (Z.lor CCN_FACE_GG CCN_FACE_LOCAL))) in
  fst (enroll_face h (new_face 6 CCN_FACE_INET)).

(** The local client has sent [interest_any], which is now propagating. *)
Definition one_pending `{L : ccn_lib} `{W : content_walk} : ccnd_handle :=
  process_incoming_interest two_faces 1 interest_any.

(** An interest with scope 0 that may be answered from the content store,
    and a stored content object (key [7], accession 1) that matches it. *)
Definition interest_scope0 : bytes := [24; 98; 25].

Definition scope0_lib : ccn_lib :=
  example_lib
    (mk_canned [(interest_scope0, (parsed_interest 1 0, [1]))] [] []
       [([7; 8], [interest_scope0])] [] [] [] [] []).

Definition scope0_walk : content_walk := example_walk [(interest_scope0, [7])].

Definition with_content `{L : ccn_lib} : ccnd_handle :=
  let h := two_faces in
  let h := set_h_accession 1 h in
  let h := set_content_by_accession {[1 := [7]]} h in
  set_content_tab {[[7] := mk_content_entry 1 (Some [0]) 1 0 1 2 [8]]} h.

(** A content object of two bytes whose name ends at offset 1, and its
    internal form once the digest (32 bytes of 7) is made explicit; the key
    is all of it but the last byte. *)
Definition content_wire : bytes := [30; 31].

Definition content_internal : bytes :=
  [30] ++ ccnb_tt 15 2 ++ ccnb_tt 32 5 ++ replicate 32 7 ++ [0] ++ [31].

Definition content_lib : ccn_lib :=
  example_lib
    (mk_canned [] 
       [(content_wire, (mk_parsed_ContentObject 20090415 0 1 0 0 2, [1]));
        (content_internal, (mk_parsed_ContentObject 20090415 0 37 0 0 38, [1; 37]))]
       [(content_wire, replicate 32 7)] [] [] [] [] [] []).

(** Another object with the same name and digest bytes but a different last
    byte, as a colliding arrival. *)
Definition collider_wire : bytes := [30; 32].

Definition collider_internal : bytes :=
  [30] ++ ccnb_tt 15 2 ++ ccnb_tt 32 5 ++ replicate 32 7 ++ [0] ++ [32].

Definition collision_lib : ccn_lib :=
  example_lib
    (mk_canned [] 
       [(content_wire, (mk_parsed_ContentObject 20090415 0 1 0 0 2, [1]));
        (content_internal, (mk_parsed_ContentObject 20090415 0 37 0 0 38, [1; 37]));
        (collider_wire, (mk_parsed_ContentObject 20090415 0 1 0 0 2, [1]));
        (collider_internal, (mk_parsed_ContentObject 20090415 0 37 0 0 38, [1; 37]))]
       [(content_wire, replicate 32 7); (collider_wire, replicate 32 7)]
       [] [] [] [] [] []).

(** A copy of [interest_any] with another Nonce (the byte 77), and an
    interest with no Nonce at all. *)
Definition interest_again : bytes := [20; 77; 21].
Definition interest_no_nonce : bytes := [26; 27].

Definition parsed_no_nonce : ccn_parsed_interest :=
  mk_parsed_interest 20090701 0 0 (-1) 0 0 (-1) 0 1 1 1 1 1 1 2 2.

(** Two more copies of [interest_any], with the Nonces 55 and 33.  The
    local client (face 1) has sent [interest_any] and, as redundant copies,
    [interest_again] and [interest_third]: the three are propagating. *)
Definition interest_third : bytes := [20; 55; 21].
Definition interest_fourth : bytes := [20; 33; 21].

Definition three_pending `{L : ccn_lib} : ccnd_handle :=
  let send h m :=
    fst (propagate_interest h 1 m (parsed_interest 0 (-1)) [] (Some [2])) in
  send (send (send two_faces interest_any) interest_again) interest_third.

(** An interest that carries a Nonce element of ten bytes.  In
    [nonce_taken] the local client has sent one whose Nonce is the element
    that the daemon synthesizes next, for an interest without Nonce. *)
Definition interest_with_nonce (nonce : bytes) : bytes := [26] ++ nonce ++ [27].

Definition parsed_with_nonce : ccn_parsed_interest :=
  mk_parsed_interest 20090701 0 0 (-1) 0 0 (-1) 0 1 1 1 1 11 11 12 12.

Definition nonce_taken `{L : ccn_lib} : ccnd_handle :=
  let h := two_faces in
  let s := snd (nrand48 (seed h)) in
  let nonce := snd (fst (add_nonce interest_no_nonce parsed_no_nonce s)) in
  fst (propagate_interest h 1 (interest_with_nonce nonce) parsed_with_nonce []
         (Some [2])).

(** [interest_any] wrapped in a CCNProtocolDataUnit (header byte 90), and
    that PDU wrapped in another.  The decoder double knows the headers of
    the three messages and the extent of the two that occur inside a PDU. *)
Definition pdu_one : bytes := [90] ++ interest_any ++ [0].
Definition pdu_nested : bytes := [90] ++ pdu_one ++ [0].

Definition pdu_lib : ccn_lib :=
  example_lib
    (mk_canned
       [(interest_any, (parsed_interest 0 (-1), [1]))]
       [] [] [] [] [] []
       [(interest_any, (mk_decoder (Z.lor (Z.shiftl 1 15) 2) 26 0, 1));
        (pdu_one, (mk_decoder (Z.lor (Z.shiftl 1 15) 2) 17702112 0, 1));
        (pdu_nested, (mk_decoder (Z.lor (Z.shiftl 1 15) 2) 17702112 0, 1))]
       [(interest_any, (mk_decoder 0 0 0, 3));
        (pdu_one, (mk_decoder 0 0 0, 5))]).

(** A PDU with two interests, [interest_any] and [interest_again] (the
    same but for the Nonce, 77).  The decoder double knows the header of
    the PDU and of the two interests, and the extent of each message from
    where the loop stands. *)
Definition pdu_two : bytes := [90] ++ interest_any ++ interest_again ++ [0].

Definition pdu_two_lib : ccn_lib :=
  example_lib
    (mk_canned
       [(interest_any, (parsed_interest 0 (-1), [1]));
        (interest_again, (parsed_interest 0 (-1), [1]))]
       [] [] [] [] [] []
       [(interest_any, (mk_decoder (Z.lor (Z.shiftl 1 15) 2) 26 0, 1));
        (interest_again, (mk_decoder (Z.lor (Z.shiftl 1 15) 2) 26 0, 1));
        (pdu_two, (mk_decoder (Z.lor (Z.shiftl 1 15) 2) 17702112 0, 1))]
       [(interest_any ++ interest_again, (mk_decoder 0 0 0, 3));
        (interest_again, (mk_decoder 0 0 0, 3))]).

(** The name /a/b/c as three components of one byte, with the offsets of
    the components.  Two faces are enrolled by a daemon that does not flood;
    the prefix /a (key [1]) is registered for face 2 with CHILD_INHERIT, and
    a lookup of /a/b/c has made the entries down to it. *)
Definition name_abc : bytes := [1; 2; 3].
Definition comps_abc : list Z := [0; 1; 2; 3].

Definition fib_example `{L : ccn_lib} : ccnd_handle :=
  let h := started 0 in
  let h := fst (enroll_face h (new_face 5 (Z.lor CCN_FACE_GG CCN_FACE_LOCAL))) in
  let h := fst (enroll_face h (new_face 6 CCN_FACE_INET)) in
  let h := fst (ccnd_reg_prefix h name_abc comps_abc 1 2
                  (Z.lor CCN_FORW_CHILD_INHERIT CCN_FORW_ACTIVE) 100) in
  fst (fst (nameprefix_seek h name_abc comps_abc 3)).

(** * More of ccnd.c

    The parts of ccnd.c that the forwarding rules above do not need: the
    aging of the forwarding records, the reaper's check of the name-prefix
    entries, the index of the content store by accession number, the
    cleaning of the content store, and the sending side of a face.  The
    conventions are those of the embedding above.  Fields of
    [struct ccnd_handle] and [struct face] that the record types above leave
    out are passed to the functions that use them and returned by them. *)

Section more_notions.
Context `{L : ccn_lib} `{W : content_walk}.

(** What one pass of check_propagating makes of an entry of the table. *)
Definition check_result (o : option propagating_entry)
    : option propagating_entry :=
  match o with
  | Some pe =>
    match interest_msg pe with
    | Some _ => Some pe
    | None =>
      if pe_size pe =? 0 then None
      else Some (set_pe_size (if pe_size pe >? 1 then 1 else 0) pe)
    end
  | None => None
  end.

(** The time left and the message of each propagating interest. *)
Definition pit_clock (h : ccnd_handle) : gmap bytes (Z * option bytes) :=
  (λ pe, (pe_usec pe, interest_msg pe)) <$> propagating_tab h.

(** The number of entries of the name-prefix table whose parent link goes
    to the entry with key [k]. *)
Definition child_count (tab : gmap bytes nameprefix_entry) (k : bytes) : Z :=
  Z.of_nat (size (filter (λ kv, kv.2 = k) (omap parent tab))).

(** The parent link of every entry goes to an entry of the table, and
    [children] counts the links that come in. *)
Definition children_ok (tab : gmap bytes nameprefix_entry) : Prop :=
  ∀ k e, tab !! k = Some e →
    children e = child_count tab k ∧
    ∀ pk, parent e = Some pk → is_Some (tab !! pk).

End more_notions.

Section more_ccnd.
Context `{L : ccn_lib} `{W : content_walk}.

(** *** The reaper's check of the name-prefix entries *)

(** The first loop of check_forward_to: the index of the first faceid whose
    face is gone, [ft->n] if there is none; [n] rounds to go. *)
Fixpoint check_forward_to_scan (h : ccnd_handle) (ft : list Z) (i : Z)
    (n : nat) : Z :=
  match n with
  | O => i
  | S n' =>
    if i <? nelem ft then
      match face_from_faceid h (buf ft i) with
      | None => i
      | Some _ => check_forward_to_scan h ft (i + 1) n'
      end
    else i
  end.

(** The second loop: the faceids from [j] on whose face is still there are
    moved down to [i]; [n] rounds to go. *)
Fixpoint check_forward_to_move (h : ccnd_handle) (ft : list Z) (i j : Z)
    (n : nat) : list Z * Z :=
  match n with
  | O => (ft, i)
  | S n' =>
    if j <? nelem ft then
      match face_from_faceid h (buf ft j) with
      | Some _ =>
        check_forward_to_move h (<[Z.to_nat i := buf ft j]> ft) (i + 1) (j + 1) n'
      | None => check_forward_to_move h ft i (j + 1) n'
      end
    else (ft, i)
  end.

(** Remove expired faces from npe->forward_to *)
Definition check_forward_to (h : ccnd_handle) (npe : nameprefix_entry)
    : nameprefix_entry :=
  match forward_to npe with
  | None => npe
  | Some ft =>
    let i := check_forward_to_scan h ft 0 (length ft) in
    let '(ft, i) := check_forward_to_move h ft i (i + 1) (length ft) in
    if i =? 0 then set_forward_to None npe
    else if i <? nelem ft then set_forward_to (Some (take (Z.to_nat i) ft)) npe
    else set_forward_to (Some ft) npe
  end.

(** hashtb_delete on nameprefix_tab runs finalize_nameprefix first.  The
    one place that deletes an entry, check_nameprefix_entries, does so only
    when no propagating interest is linked to the entry, and consume then
    leaves the head of the empty list as it is; the entry gives up its
    forwarding records and takes itself off the count of its parent. *)
Definition finalize_nameprefix (h : ccnd_handle) (k : bytes) : ccnd_handle :=
  match nameprefix_tab h !! k with
  | None => h
  | Some npe =>
    let h := update_npe k (λ npe,
               set_forwarding []
                 (set_forward_to None (set_propagating_head None npe))) h in
    match parent npe with
    | Some pk =>
      let h := update_npe pk (λ p, set_children (children p - 1) p) h in
      update_npe k (λ npe,
        mk_nameprefix (propagating_head npe) (forward_to npe) (forwarding npe)
          None (children npe) (fgen npe) (src npe) (osrc npe) (npe_usec npe)) h
    | None => h
    end
  end.

Definition delete_nameprefix (h : ccnd_handle) (k : bytes) : ccnd_handle :=
  let h := finalize_nameprefix h k in
  set_nameprefix_tab (delete k (nameprefix_tab h)) h.

(** One round of check_nameprefix_entries on the entry with key [k]. *)
Definition check_nameprefix_entry (hc : ccnd_handle * Z) (k : bytes)
    : ccnd_handle * Z :=
  let '(h, count) := hc in
  match nameprefix_tab h !! k with
  | None => (h, count)
  | Some npe =>
    let h :=
      match forward_to npe with
      | Some _ => update_npe k (check_forward_to h) h
      | None => h
      end in
    match nameprefix_tab h !! k with
    | None => (h, count)
    | Some npe =>
      if (src npe =? UINT_MAX) &&
         bool_decide (forward_to npe = None) &&
         (children npe =? 0) &&
         bool_decide (forwarding npe = []) &&
         bool_decide (default [] (propagating_head npe) = [])
      then (delete_nameprefix h k, count + 1)
      else
        (update_npe k (λ npe, set_src UINT_MAX (set_osrc (src npe) npe)) h,
         count)
    end
  end.

(** Age src info and retire unused nameprefix entries; returns the number
    that have gone away.  The entries are visited in the order the table
    enumerates them. *)
Definition check_nameprefix_entries (h : ccnd_handle) : ccnd_handle * Z :=
  foldl check_nameprefix_entry (h, 0) (fst <$> map_to_list (nameprefix_tab h)).

(** *** Aging of the forwarding records *)

(** The inner loop of age_forwarding over the records of one prefix. *)
Fixpoint age_forwarding_list (h : ccnd_handle) (l : list ccn_forwarding)
    : list ccn_forwarding :=
  match l with
  | [] => []
  | f :: l' =>
    if negb (flag_set (forw_flags f) CCN_FORW_REFRESHED) ||
       negb (bool_decide (is_Some (face_from_faceid h (forw_faceid f))))
    then age_forwarding_list h l'
    else
      let f := set_expires (expires f - CCN_FWU_SECS) f in
      let f :=
        if expires f <=? 0
        then set_forw_flags (flag_clear (forw_flags f) CCN_FORW_REFRESHED) f
        else f in
      f :: age_forwarding_list h l'
  end.

(** Age out the old forwarding table entries.  [cancel] is
    [flags & CCN_SCHEDULE_CANCEL]; the result is the handle and the delay
    until the next call (0 for none, and [h->age_forwarding] is then
    NULL). *)
Definition age_forwarding (h : ccnd_handle) (cancel : bool)
    : ccnd_handle * Z :=
  if cancel then (h, 0)
  else
    let tab :=
      (λ npe, set_forwarding (age_forwarding_list h (forwarding npe)) npe)
        <$> nameprefix_tab h in
    (set_forward_to_gen (u32 (forward_to_gen h + 1)) (set_nameprefix_tab tab h),
     CCN_FWU_SECS * 1000000).

End more_ccnd.

(** *** The index of the content store by accession number

    [h->accession_base], [h->content_by_accession] (an array of
    [h->content_by_accession_window] pointers) and [h->sparse_straggler_tab]
    as they are in the source; the embedding above keeps them as one map.
    A pointer to a content entry is its key in [content_tab], which is
    needed to read [content->accession]; [accession] is [h->accession], the
    newest accession number.  [ccn_accession_t] is [unsigned]. *)
Module window.

Record accession_index := mk_index {
  accession_base : Z;
  content_by_accession : list (option bytes);
  sparse_straggler_tab : gmap Z (option bytes)
      (**< [entry->content] of each entry, keyed by accession *)
}.

Definition set_accession_base (x : Z) (idx : accession_index) :=
  mk_index x (content_by_accession idx) (sparse_straggler_tab idx).
Definition set_content_by_accession (x : list (option bytes))
    (idx : accession_index) :=
  mk_index (accession_base idx) x (sparse_straggler_tab idx).
Definition set_sparse_straggler_tab (x : gmap Z (option bytes))
    (idx : accession_index) :=
  mk_index (accession_base idx) (content_by_accession idx) x.

(** [h->content_by_accession_window] *)
Definition content_by_accession_window (idx : accession_index) : Z :=
  Z.of_nat (length (content_by_accession idx)).

Section index.
Variable tab : gmap bytes content_entry.
Variable accession : Z.

Definition content_from_accession (idx : accession_index) (acc : Z)
    : option bytes :=
  if acc <? accession_base idx then
    mjoin (sparse_straggler_tab idx !! acc)
  else if acc <? u32 (accession_base idx + content_by_accession_window idx)
  then
    match content_by_accession idx !! Z.to_nat (acc - accession_base idx) with
    | Some (Some ck) =>
      if bool_decide (ce_accession <$> tab !! ck = Some acc)
      then Some ck else None
    | _ => None
    end
  else None.

(** The sweep of cleanout_stragglers over the window from [i]; [n] rounds
    to go. *)
Fixpoint cleanout_stragglers_loop (n : nat) (i : Z) (idx : accession_index)
    (n_occupied : Z) : accession_index :=
  match n with
  | O => idx
  | S n' =>
    let window := content_by_accession_window idx in
    if i <? window then
      match content_by_accession idx !! Z.to_nat i with
      | Some (Some ck) =>
        if n_occupied >=? u32 (window - i) / 8 then idx
        else
          let acc := u32 (accession_base idx + i) in
          (* hashtb_seek makes the entry, with no content, if it is new *)
          match mjoin (sparse_straggler_tab idx !! acc) with
          | None =>
            let idx :=
              set_sparse_straggler_tab
                (<[acc := Some ck]> (sparse_straggler_tab idx)) idx in
            let idx :=
              set_content_by_accession
                (<[Z.to_nat i := None]> (content_by_accession idx)) idx in
            cleanout_stragglers_loop n' (i + 1) idx (u32 (n_occupied - 1))
          | Some _ => cleanout_stragglers_loop n' (i + 1) idx n_occupied
          end
      | _ => cleanout_stragglers_loop n' (i + 1) idx n_occupied
      end
    else idx
  end.

Definition cleanout_stragglers (idx : accession_index) : accession_index :=
  if (accession <=? accession_base idx) ||
     bool_decide (mjoin (content_by_accession idx !! O) = None)
  then idx
  else
    let n_direct := u32 (accession - accession_base idx) in
    if n_direct <? 1000 then idx
    else
      let n_occupied :=
        u32 (Z.of_nat (size tab) - Z.of_nat (size (sparse_straggler_tab idx))) in
      if n_occupied >=? n_direct / 8 then idx
      else
        (* The direct lookup table is too sparse, so sweep stragglers *)
        cleanout_stragglers_loop (length (content_by_accession idx)) 0 idx
          n_occupied.

(** [while (i < window && a[i] == NULL) i++] *)
Fixpoint leading_empties (a : list (option bytes)) : Z :=
  match a with
  | None :: a' => 1 + leading_empties a'
  | _ => 0
  end.

(** The two copy loops shift the window down by [i] slots and clear the
    slots that become free at its end. *)
Definition cleanout_empties (idx : accession_index) : accession_index * Z :=
  match content_by_accession idx with
  | [] => (idx, -1) (* a == NULL *)
  | _ =>
    let idx := cleanout_stragglers idx in
    let a := content_by_accession idx in
    let i := leading_empties a in
    if i =? 0 then (idx, -1)
    else
      let idx := set_accession_base (u32 (accession_base idx + i)) idx in
      (set_content_by_accession
         (drop (Z.to_nat i) a ++ replicate (Z.to_nat i) None) idx, 0)
  end.

(** [content] is the entry with key [ck] and accession number [acc].  The
    result is [None] if the store at the end would be outside the array;
    calloc is taken to succeed. *)
Definition enroll_content (idx : accession_index) (ck : bytes) (acc : Z)
    : option accession_index :=
  let store idx :=
    let i := u32 (acc - accession_base idx) in
    if i <? content_by_accession_window idx then
      Some (set_content_by_accession
              (<[Z.to_nat i := Some ck]> (content_by_accession idx)) idx)
    else None in
  if u32 (acc - accession_base idx) >=? content_by_accession_window idx then
    let '(idx, res) := cleanout_empties idx in
    if res <? 0 then
      if acc <? accession_base idx then Some idx
      else
        let window := content_by_accession_window idx in
        let old_array := content_by_accession idx in
        let new_window := u32 ((window + 20) * 3) / 2 in
        if new_window <? window then Some idx
        else
          let i := leading_empties old_array in
          let idx := set_accession_base (u32 (accession_base idx + i)) idx in
          let kept := drop (Z.to_nat i) old_array in
          let idx :=
            set_content_by_accession
              (kept ++ replicate (Z.to_nat new_window - length kept) None) idx in
          store idx
    else store idx
  else store idx.

(** The part of finalize_content that works on the index; the result says
    also whether the content was an orphan (in neither place). *)
Definition finalize_content (idx : accession_index) (ck : bytes) (acc : Z)
    : accession_index * bool :=
  let i := u32 (acc - accession_base idx) in
  if (i <? content_by_accession_window idx) &&
     bool_decide (content_by_accession idx !! Z.to_nat i = Some (Some ck))
  then
    (set_content_by_accession
       (<[Z.to_nat i := None]> (content_by_accession idx)) idx, false)
  else
    (set_sparse_straggler_tab (delete acc (sparse_straggler_tab idx)) idx,
     bool_decide (sparse_straggler_tab idx !! acc = None)).

(** Every entry of the window sits at the slot of its accession number,
    and the stragglers are below the window. *)
Definition index_ok (idx : accession_index) : Prop :=
  0 ≤ accession_base idx ∧
  (∀ i ck, content_by_accession idx !! i = Some (Some ck) →
     ce_accession <$> tab !! ck = Some (accession_base idx + Z.of_nat i)) ∧
  (∀ acc o, sparse_straggler_tab idx !! acc = Some o →
     0 ≤ acc < accession_base idx).

(** The slot of the window for an accession number, and the lookup that
    tries the stragglers first whatever the number is. *)
Definition slot (idx : accession_index) (acc : Z) : option bytes :=
  if accession_base idx <=? acc
  then mjoin (content_by_accession idx !! Z.to_nat (acc - accession_base idx))
  else None.

Definition any_lookup (idx : accession_index) (acc : Z) : option bytes :=
  match mjoin (sparse_straggler_tab idx !! acc) with
  | Some ck => Some ck
  | None => slot idx acc
  end.

End index.
End window.

(** ** The content cleaner *)

Section cleaner.
Context `{L : ccn_lib} `{W : content_walk}.

(** [content] is the key of the entry, NULL as [None].  The result is [None]
    where the source calls abort(). *)
Definition remove_content (h : ccnd_handle) (content : option bytes)
    : option (ccnd_handle * Z) :=
  match content with
  | None => Some (h, -1)
  | Some ck =>
    match content_tab h !! ck with
    | None => None (* res != HT_OLD_ENTRY *)
    | Some c =>
      let h := emit_if 4 (ccnd_debug_ccnb 1539 "remove" None
                            (ck ++ extdata c)) h in
      Some (delete_content h ck, 0)
    end
  end.

(** The first loop of clean_deamon, which cleans out stale content.  The
    result has the handle, [a], [min_stale], [check_limit] and [ev->evint]
    as the loop leaves them. *)
Fixpoint clean_stale_loop (check_limit : nat) (h : ccnd_handle)
    (limit a n min_stale evint : Z) : option (ccnd_handle * Z * Z * Z * Z) :=
  if (a <=? limit) && (n >? capacity h) then
    match check_limit with
    | O => Some (h, a, min_stale, -1, a)
    | S check_limit' =>
      match content_from_accession h a
            ≫= (λ ck, pair ck <$> content_tab h !! ck) with
      | Some (ck, content) =>
        if flag_set (content_flags content) CCN_CONTENT_ENTRY_STALE then
          '(h, res) ← remove_content h (Some ck);
          if res <? 0 then
            clean_stale_loop check_limit' h limit (u32 (a + 1)) n
              (if a <? min_stale then a else min_stale) evint
          else
            clean_stale_loop check_limit' h limit (u32 (a + 1)) (n - 1)
              min_stale evint
        else
          clean_stale_loop check_limit' h limit (u32 (a + 1)) n min_stale evint
      | None =>
        clean_stale_loop check_limit' h limit (u32 (a + 1)) n min_stale evint
      end
    end
  else Some (h, a, min_stale, Z.of_nat check_limit, evint).

(** The second loop of clean_deamon, which makes oldish content stale.  The
    source has no bound on its rounds: the result is [None] if the loop has
    not ended after [fuel] rounds. *)
Fixpoint clean_mark_loop (fuel : nat) (h : ccnd_handle) (limit a n : Z)
    : option ccnd_handle :=
  if (a <=? limit) && (n >? capacity h) then
    match fuel with
    | O => None
    | S fuel' =>
      match content_from_accession h a
            ≫= (λ ck, pair ck <$> content_tab h !! ck) with
      | Some (ck, content) =>
        if Z.land (content_flags content)
             (Z.lor CCN_CONTENT_ENTRY_STALE CCN_CONTENT_ENTRY_PRECIOUS) =? 0
        then clean_mark_loop fuel' (mark_stale h ck) limit (u32 (a + 1)) (n - 1)
        else clean_mark_loop fuel' h limit (u32 (a + 1)) n
      | None => clean_mark_loop fuel' h limit (u32 (a + 1)) n
      end
    end
  else Some h.

(** Periodic content cleaning.  [accession_base] is [h->accession_base] and
    [evint] is [ev->evint]; the result has the handle, [ev->evint] and the
    value returned.  [h->clean], which the cancelled call clears, is not
    part of the handle.  The second loop gets a round for each accession
    number from the base to the limit. *)
Definition clean_deamon (h : ccnd_handle) (accession_base : Z) (evint : Z)
    (cancel : bool) : option (ccnd_handle * Z * Z) :=
  if cancel then Some (h, evint, 0)
  else
    let n := Z.of_nat (size (content_tab h)) in
    if n <=? capacity h then Some (h, evint, 15000000)
    else if min_stale h <=? max_stale h then
      (* clean out stale content first *)
      let limit :=
        if max_stale h >? h_accession h then h_accession h else max_stale h in
      let a := u32 evint in
      let '(a, min_stale0) :=
        if (a <=? min_stale h) || (a >? max_stale h)
        then (min_stale h, 2 ^ 32 - 1) else (a, min_stale h) in
      '(h, a, min_stale', check_limit, evint) ←
        clean_stale_loop 500 h limit a n min_stale0 evint;
      let h :=
        if min_stale' <? a then set_min_stale min_stale' h
        else if a >? limit then set_max_stale 0 (set_min_stale (2 ^ 32 - 1) h)
        else set_min_stale a h in
      if check_limit <=? 0 then Some (h, evint, 5000)
      else Some (h, 0, 15000000)
    else
      (* Make oldish content stale, for cleanup on next round *)
      let limit := h_accession h in
      h ← clean_mark_loop (Z.to_nat (limit - accession_base + 1)) h limit
            accession_base n;
      Some (h, 0, 1000000).

(** Scheduled event that makes content stale when its FreshnessSeconds has
    expired; [evint] is [ev->evint]. *)
Definition expire_content (h : ccnd_handle) (evint : Z) (cancel : bool)
    : option (ccnd_handle * Z) :=
  if cancel then Some (h, 0)
  else
    let accession := u32 evint in
    match content_from_accession h accession with
    | Some ck =>
      let n := u32 (Z.of_nat (size (content_tab h))) in
      (* The fancy test here lets existing stale content go away, too. *)
      if (n - Z.shiftr n 3 >? capacity h) ||
         ((n >? capacity h) && (min_stale h >? max_stale h))
      then
        '(h', res) ← remove_content h (Some ck);
        if res =? 0 then Some (h', 0) else Some (mark_stale h' ck, 0)
      else Some (mark_stale h ck, 0)
    | None => Some (h, 0)
    end.

(** Every content entry is found under its accession number, which is not
    above the last one given out. *)
Definition accession_index_ok (h : ccnd_handle) : Prop :=
  ∀ ck c, content_tab h !! ck = Some c →
    content_by_accession h !! ce_accession c = Some ck ∧
    0 ≤ ce_accession c ≤ h_accession h.

(** The stale content is between [min_stale] and [max_stale]. *)
Definition stale_window_ok (h : ccnd_handle) : Prop :=
  0 ≤ min_stale h < 2 ^ 32 ∧ 0 ≤ max_stale h < 2 ^ 32 ∧
  ∀ ck c, content_tab h !! ck = Some c →
    flag_set (content_flags c) CCN_CONTENT_ENTRY_STALE = true →
    min_stale h ≤ ce_accession c ≤ max_stale h.

(** The part of the handle that the content store and its cleaner use. *)
Definition store (h : ccnd_handle)
    : gmap bytes content_entry * gmap Z bytes * Z * Z * Z * Z :=
  (content_tab h, content_by_accession h, h_accession h, min_stale h,
   max_stale h, capacity h).

End cleaner.

(** ** Writing to the socket of a face *)

Module socket.

(** What send or sendto answers: the count of bytes the socket took, or -1
    with errno EAGAIN, EPIPE or another value. *)
Inductive send_result := Sent (n : Z) | EAGAIN | EPIPE | Efail.

(** The fields of struct face that do_write and do_deferred_write use, and
    the bytes the socket of the face has taken so far. *)
Record face := mk_face {
  flags : Z;
  faceid : Z;
  surplus : Z;
  outbuf : option bytes;
  outbufindex : Z;
  wire : bytes
}.

Definition set_flags (x : Z) (f : face) : face :=
  mk_face x (faceid f) (surplus f) (outbuf f) (outbufindex f) (wire f).
Definition set_surplus (x : Z) (f : face) : face :=
  mk_face (flags f) (faceid f) x (outbuf f) (outbufindex f) (wire f).
Definition set_outbuf (x : option bytes) (f : face) : face :=
  mk_face (flags f) (faceid f) (surplus f) x (outbufindex f) (wire f).
Definition set_outbufindex (x : Z) (f : face) : face :=
  mk_face (flags f) (faceid f) (surplus f) (outbuf f) x (wire f).
Definition set_wire (x : bytes) (f : face) : face :=
  mk_face (flags f) (faceid f) (surplus f) (outbuf f) (outbufindex f) x.

(** send, with the answer [res] of the socket: the socket takes the first
    [n] bytes when it answers [n]. *)
Definition send (f : face) (data : bytes) (res : send_result) : face :=
  match res with
  | Sent n => set_wire (wire f ++ take (Z.to_nat n) data) f
  | _ => f
  end.

(** [face0] says that the face is [h->face0], whose bytes go to the internal
    client (recorded as output); [res] is the answer of the socket, if it
    is asked.  The result has the log lines. *)
Definition do_write (face0 : bool) (f : face) (data : bytes)
    (res : send_result) : face * list output :=
  let size := nelem data in
  if flag_set (flags f) CCN_FACE_NOSEND then (f, [])
  else
    let f := set_surplus (surplus f + 1) f in
    match outbuf f with
    | Some b => (set_outbuf (Some (b ++ data)) f, [])
    | None =>
      if face0 then (f, [do_write_out (faceid f) data])
      else
        let f := send f data res in
        let deferred (res : Z) :=
          if flag_set (flags f) CCN_FACE_DGRAM
          then (f, [ccnd_msg "sendto short" []])
          else
            (set_outbufindex 0
               (set_outbuf (Some (drop (Z.to_nat res) data)) f), []) in
        match res with
        | Sent n => if n =? size then (f, []) else deferred n
        | EAGAIN => deferred 0
        | EPIPE =>
          (set_outbuf None
             (set_outbufindex 0
                (set_flags (Z.lor (flags f) CCN_FACE_NOSEND) f)), [])
        | Efail =>
          (f, [ccnd_msg "send to face %u failed: %s" [faceid f]])
        end
    end.

(** [f] is the face of the descriptor, if there is one.  The result says
    also whether shutdown_client_fd is called. *)
Definition do_deferred_write (f : option face) (fd : Z) (res : send_result)
    : option face * list output * bool :=
  let fishy :=
    [ccnd_msg "ccnd:do_deferred_write: something fishy on %d" [fd]] in
  match f with
  | Some face =>
    match outbuf face with
    | Some b =>
      let sendlen := nelem b - outbufindex face in
      if sendlen >? 0 then
        let face' :=
          send face (drop (Z.to_nat (outbufindex face)) b) res in
        match res with
        | EPIPE =>
          (Some (set_outbuf None
                   (set_outbufindex 0
                      (set_flags (Z.lor (flags face) CCN_FACE_NOSEND) face))),
           [], false)
        | EAGAIN | Efail => (Some face, [], true)
        | Sent n =>
          if n =? sendlen
          then (Some (set_outbuf None (set_outbufindex 0 face')), [], false)
          else (Some (set_outbufindex (outbufindex face + n) face'), [], false)
        end
      else (Some (set_outbuf None (set_outbufindex 0 face)), fishy, false)
    | None => (f, fishy, false)
    end
  | None => (f, fishy, false)
  end.

(** The bytes of the buffer that are still to be sent, and the stream of the
    face: what the socket has taken, then what is waiting. *)
Definition pending (f : face) : bytes :=
  match outbuf f with
  | Some b => drop (Z.to_nat (outbufindex f)) b
  | None => []
  end.

Definition stream (f : face) : bytes := wire f ++ pending f.

(** A step of the life of a connected face: a message is written, or the
    descriptor has become writable. *)
Inductive step :=
| Write (data : bytes) (res : send_result)
| Writable (res : send_result).

Definition run_step (f : face) (s : step) : face :=
  match s with
  | Write data res => (do_write false f data res).1
  | Writable res => default f (do_deferred_write (Some f) 0 res).1.1
  end.

(** The socket takes no more bytes than it is given, and answers no error
    but EAGAIN to a send of do_write. *)
Definition step_ok (f : face) (s : step) : Prop :=
  match s with
  | Write data (Sent n) => 0 ≤ n ≤ nelem data
  | Write data EAGAIN => True
  | Write data _ => False
  | Writable (Sent n) => 0 ≤ n ≤ nelem (pending f)
  | Writable _ => False
  end.

Fixpoint steps_ok (f : face) (l : list step) : Prop :=
  match l with
  | [] => True
  | s :: l' => step_ok f s ∧ steps_ok (run_step f s) l'
  end.

Definition written (l : list step) : bytes :=
  mjoin ((λ s, match s with Write data _ => data | Writable _ => [] end) <$> l).

End socket.

(** ** Sending queued content *)

Section sender.
Context `{L : ccn_lib} `{W : content_walk}.

(** The queue [face->q[c]] of the face in slot [p], and an update of it in
    place. *)
Definition the_q (h : ccnd_handle) (p c : nat) : option content_queue :=
  face_at h p ≫= λ f, mjoin (q f !! c).

Definition update_q (p c : nat) (g : content_queue → content_queue)
    (h : ccnd_handle) : ccnd_handle :=
  update_face p (λ f, set_q (alter (fmap g) c (q f)) f) h.

(** [ck] is the key of the content entry.  The result is [None] where the
    source calls abort().  [h->content_items_sent] is not part of the
    handle. *)
Definition send_content (h : ccnd_handle) (face : face) (ck : bytes)
    : option ccnd_handle :=
  match content_tab h !! ck with
  | None => Some h
  | Some content =>
    if flag_set (face_flags face) CCN_FACE_NOSEND then Some h
    else
      let msg := ck ++ extdata content in
      let size := content_size content in
      let h := emit_if 4 (ccnd_debug_ccnb 930 "content_to"
                            (Some (faceid face)) msg) h in
      let link := flag_set (face_flags face) CCN_FACE_LINK in
      let c :=
        if link then ccn_charbuf_append_tt CCN_DTAG_CCNProtocolDataUnit CCN_DTAG
        else [] in
      (* Excise the message-digest name component *)
      let n := ncomps content in
      if n <? 2 then None
      else
        let cs := default [] (comps content) in
        let a := buf cs (n - 2) in
        let b := buf cs (n - 1) in
        let h :=
          if negb (b - a =? 36)
          then emit (ccnd_debug_ccnb 940 "strange_digest"
                       (Some (faceid face)) msg) h
          else h in
        let c := c ++ subbytes msg 0 a ++ subbytes msg b size in
        let '(h, c, _) := ccn_stuff_interest h face c in
        let c := if link then c ++ ccn_charbuf_append_closer else c in
        Some (do_write h face c)
  end.

(** The loop of content_sender that sends the content at the head of the
    queue, [n] rounds to go.  The result has the handle, [i], [nsec] and
    whether the face has vanished. *)
Fixpoint content_sender_burst (n : nat) (h : ccnd_handle) (fid : Z)
    (p c : nat) (i burst_max nsec burst : Z)
    : option (ccnd_handle * Z * Z * bool) :=
  match n with
  | O => Some (h, i, nsec, false)
  | S n' =>
    if (i <? burst_max) && (nsec <? 1000000) then
      match the_q h p c, face_at h p with
      | Some cq, Some face =>
        match content_from_accession h (buf (send_queue cq) i) with
        | None =>
          content_sender_burst n' (update_q p c (set_nrun 0) h) fid p c
            (i + 1) burst_max nsec burst
        | Some ck =>
          h ← send_content h face ck;
          (* face may have vanished, bail out if it did *)
          match face_from_faceid h fid with
          | None => Some (h, i, nsec, true)
          | Some _ =>
            let size := from_option content_size 0 (content_tab h !! ck) in
            let nsec := s32 (nsec + burst * u32 ((size + 1023) / 1024)) in
            content_sender_burst n'
              (update_q p c (λ cq, set_nrun (u32 (nrun cq + 1)) cq) h) fid p c
              (i + 1) burst_max nsec burst
          end
        end
      | _, _ => Some (h, i, nsec, true)
      end
    else Some (h, i, nsec, false)
  end.

(** The scheduled callback of a content queue: [ev->evint] is the faceid and
    [ev->evdata] the queue, here the index of its delay class; [surplus] is
    [face->surplus], which shows in the log lines only.  Returns the handle
    and the delay until the next call (0 for none); [None] where the source
    calls abort(). *)
Definition content_sender (h : ccnd_handle) (ev : ccn_scheduled_event)
    (surplus : Z) (cancel : bool) : option (ccnd_handle * Z) :=
  let fid := u32 (evint ev) in
  let c := Z.to_nat (buf (evdata ev) 0) in
  match face_from_faceid h fid with
  | None => Some (h, 0)
  | Some face =>
    let p := face_slot face in
    let bail h := Some (update_q p c (set_sender false) h, 0) in
    match mjoin (q face !! c) with
    | None => Some (h, 0)
    | Some cq =>
      if cancel then bail h
      else if flag_set (face_flags face) CCN_FACE_NOSEND then bail h
      else
        (* Send the content at the head of the queue *)
        let n := nelem (send_queue cq) in
        let ready :=
          if (cq_ready cq >? n) ||
             ((cq_ready cq =? 0) && (nrun cq >=? 8) && (nrun cq <? 200))
          then n else cq_ready cq in
        let h := update_q p c (set_cq_ready ready) h in
        let burst := burst_nsec cq in
        let burst_max := if ready <? 2 then ready else 2 in
        let h := if burst_max =? 0 then update_q p c (set_nrun 0) h else h in
        '(h, i, nsec, vanished) ←
          content_sender_burst (Z.to_nat burst_max) h fid p c 0 burst_max 0
            burst;
        if vanished : bool then bail h
        else
          match the_q h p c with
          | None => Some (h, 0)
          | Some cq =>
            if cq_ready cq <? i then None
            else
              (* Update queue *)
              let sq := drop (Z.to_nat i) (send_queue cq) in
              let j := nelem sq in
              let h :=
                update_q p c
                  (λ cq, set_send_queue sq (set_cq_ready (cq_ready cq - i) cq))
                  h in
              (* Do a poll before going on to allow others to preempt send. *)
              let delay := Z.quot (nsec + 499) 1000 + 1 in
              if cq_ready cq - i >? 0 then
                Some (emit_if 8
                        (ccnd_msg "face %u ready %u delay %i nrun %u"
                           [fid; cq_ready cq - i; delay; nrun cq; surplus]) h,
                      delay)
              else
                let h := update_q p c (set_cq_ready j) h in
                if (nrun cq >=? 8) && (nrun cq <? 200) then
                  (* We seem to be a preferred provider, forgo the
                     randomized delay *)
                  let delay :=
                    if j =? 0 then delay + Z.quot burst 50 else delay in
                  Some (emit_if 8
                          (ccnd_msg
                             "face %u ready %u delay %i nrun %u surplus %u"
                             [fid; j; delay; nrun cq; surplus]) h,
                        delay)
                else if
                  (* Determine when to run again *)
                  existsb
                    (λ a, bool_decide (is_Some (content_from_accession h a)))
                    sq
                then
                  let h := update_q p c (set_nrun 0) h in
                  let '(h, delay) := randomize_content_delay h cq in
                  Some (emit_if 8
                          (ccnd_msg "face %u queued %u delay %i"
                             [fid; j; delay]) h,
                        delay)
                else
                  bail (update_q p c
                          (λ cq, set_cq_ready 0 (set_send_queue [] cq)) h)
          end
    end
  end.

(** The number of writes to a face among the output. *)
Definition is_write_to (fid : Z) (o : output) : bool :=
  match o with do_write_out f _ => f =? fid | _ => false end.

Definition writes_to (fid : Z) (l : list output) : nat :=
  length (filter (λ o, is_write_to fid o = true) l).

(** From [h] to [h'] the faces and the content store are as they were,
    and [n] writes to the face [fid] have been added to the output. *)
Definition sent_to (fid : Z) (n : nat) (h h' : ccnd_handle) : Prop :=
  faces_by_faceid h' = faces_by_faceid h ∧ content_tab h' = content_tab h ∧
  content_by_accession h' = content_by_accession h ∧
  ∃ l, out h' = out h ++ l ∧ writes_to fid l = n.

(** The same without the faces, which a change of a queue touches. *)
Definition delivered (fid : Z) (n : nat) (h h' : ccnd_handle) : Prop :=
  content_tab h' = content_tab h ∧
  content_by_accession h' = content_by_accession h ∧
  ∃ l, out h' = out h ++ l ∧ writes_to fid l = n.

(** The face in slot [p] has the id [fid] and the flags [flags], and its
    queue of class [c] is [cq]. *)
Definition queue_at (h : ccnd_handle) (p c : nat) (fid flags : Z)
    (cq : content_queue) : Prop :=
  ∃ f, face_at h p = Some f ∧ faceid f = fid ∧ face_flags f = flags ∧
       q f !! c = Some (Some cq).

(** The queued accession numbers that name content. *)
Definition with_content_of (h : ccnd_handle) (l : list Z) : list Z :=
  filter (λ a, is_Some (content_from_accession h a)) l.

(** The test of consume_matching_interests on the entry with key [pk]: a
    live interest that the content matches, from a face that exists (or
    from the given face). *)
Definition wants (h : ccnd_handle) (fp : option nat) (content_msg : bytes)
    (pk : bytes) : bool :=
  match propagating_tab h !! pk with
  | Some p =>
    match interest_msg p with
    | Some imsg =>
      match fp with
      | None => bool_decide (is_Some (face_from_faceid h (pe_faceid p)))
      | Some fp' =>
        match face_at h fp' with
        | Some face => pe_faceid p =? faceid face
        | None => false
        end
      end && ccn_content_matches_interest content_msg imsg
    | None => false
    end
  | None => false
  end.

(** What consume leaves of an entry. *)
Definition consumed (pe : propagating_entry) : propagating_entry :=
  set_pe_usec 0 (set_pe_link None
    (set_interest_msg None (finished_propagating pe))).

(** The faceids of the face table, slot by slot. *)
Definition face_ids (h : ccnd_handle) : list (option Z) :=
  fmap (M := list) (fmap (M := option) faceid) (faces_by_faceid h).

End sender.

(** *** More states of the example daemon *)

(** A connection that has not spoken yet is enrolled after the two faces. *)
Definition with_undecided `{L : ccn_lib} : ccnd_handle :=
  fst (enroll_face two_faces (new_face 7 CCN_FACE_UNDECIDED)).

(** The two faces of a daemon that does not flood: no prefix is registered. *)
Definition plain_faces `{L : ccn_lib} : ccnd_handle :=
  let h := started 0 in
  let h := fst (enroll_face h (new_face 5 (Z.lor CCN_FACE_GG CCN_FACE_LOCAL))) in
  fst (enroll_face h (new_face 6 CCN_FACE_INET)).

(** A store of three entries with the accession numbers 5, 6 and 7, and an
    index whose window of two slots starts at 5 and holds the second. *)
Definition three_contents : gmap bytes content_entry :=
  {[ [7] := mk_content_entry 5 (Some [0]) 1 0 1 2 [8];
     [8] := mk_content_entry 6 (Some [0]) 1 0 1 2 [8];
     [9] := mk_content_entry 7 (Some [0]) 1 0 1 2 [8] ]}.

Definition window_of_two : window.accession_index :=
  window.mk_index 5 [None; Some [8]] ∅.

(** A daemon with room for one content entry that holds three: the second
    is stale and the third is precious. *)
Definition stale_contents : gmap bytes content_entry :=
  {[ [7] := mk_content_entry 5 (Some [0]) 1 0 1 2 [8];
     [8] := mk_content_entry 6 (Some [0]) 1 CCN_CONTENT_ENTRY_STALE 1 2 [8];
     [9] := mk_content_entry 7 (Some [0]) 1 CCN_CONTENT_ENTRY_PRECIOUS 1 2 [8] ]}.

Definition over_capacity : ccnd_handle :=
  let h := ccnd_create [] 0 1 0 0 10000 1 (-1) (-1) in
  let h := set_content_tab stale_contents h in
  let h := set_content_by_accession {[5 := [7]; 6 := [8]; 7 := [9]]} h in
  set_max_stale 6 (set_min_stale 6 (set_h_accession 7 h)).

(** A connected face with nothing buffered, and a short write of three
    bytes, a write into the buffer and two deferred writes. *)
Definition stream_face : socket.face := socket.mk_face CCN_FACE_INET 5 0 None 0 [].

Definition stream_steps : list socket.step :=
  [socket.Write [1; 2; 3] (socket.Sent 1); socket.Write [4; 5] socket.EAGAIN;
   socket.Writable (socket.Sent 2); socket.Writable (socket.Sent 2)].

(** Two content entries, with the accession numbers 1 and 2, are stored,
    and then queued for the TCP peer (face 2). *)
Definition queued_contents : gmap bytes content_entry :=
  {[ [7] := mk_content_entry 1 (Some [0; 1]) 2 0 1 2 [8];
     [9] := mk_content_entry 2 (Some [0; 1]) 2 0 1 2 [8] ]}.

Definition stored_two `{L : ccn_lib} : ccnd_handle :=
  let h := set_h_accession 2 plain_faces in
  let h := set_content_by_accession {[1 := [7]; 2 := [9]]} h in
  set_content_tab queued_contents h.

Definition queued_content `{L : ccn_lib} : ccnd_handle :=
  let h := fst (face_send_queue_insert stored_two (Some 2%nat) (Some [7])) in
  fst (face_send_queue_insert h (Some 2%nat) (Some [9])).

(** The local client is waiting for [interest_any], and a content object
    (key [7], accession 1) that matches it is in the store. *)
Definition answering_lib : ccn_lib :=
  example_lib
    (mk_canned [(interest_any, (parsed_interest 0 (-1), [1]))] [] []
       [([7; 8], [interest_any])] [] [] [] [] []).

Definition pending_and_stored : ccnd_handle :=
  let h := one_pending (L := answering_lib) (W := example_walk []) in
  let h := set_h_accession 1 h in
  let h := set_content_by_accession {[1 := [7]]} h in
  set_content_tab {[[7] := mk_content_entry 1 (Some [0]) 1 0 1 2 [8]]} h.

(** *** Stuffing *)

(** The pending interests of [h'] are those of [h], some with outbound
    faces taken out: messages and sizes are the same. *)
Definition thinned (h h' : ccnd_handle) : Prop :=
  ∀ pk p', propagating_tab h' !! pk = Some p' →
    ∃ p, propagating_tab h !! pk = Some p ∧
         interest_msg p' = interest_msg p ∧ pe_size p' = pe_size p ∧
         ∀ ob', outbound p' = Some ob' →
           ∃ ob, outbound p = Some ob ∧ ob' ⊆ ob.

(** [pe->size] is the size of [pe->interest_msg]. *)
Definition sized (h : ccnd_handle) : Prop :=
  ∀ pk p m, propagating_tab h !! pk = Some p → interest_msg p = Some m →
    pe_size p = nelem m.

(** [m] is the message of a pending interest that is still to go to the
    face [fid]. *)
Definition bound_for (h : ccnd_handle) (fid : Z) (m : bytes) : Prop :=
  ∃ pk p ob, propagating_tab h !! pk = Some p ∧ interest_msg p = Some m ∧
             outbound p = Some ob ∧ fid ∈ ob.

(** A daemon with an MTU of 1500 and the faces of [two_faces], where the
    local client is waiting for [interest_any]. *)
Definition stuffing_daemon : ccnd_handle :=
  let L := answering_lib in
  let h := fst (enroll_face (ccnd_create [] 0 10 1500 1 10000 1 (-1) (-1)) face0) in
  let h := fst (enroll_face h (new_face 5 (Z.lor CCN_FACE_GG CCN_FACE_LOCAL))) in
  let h := fst (enroll_face h (new_face 6 CCN_FACE_INET)) in
  process_incoming_interest (W := example_walk []) h 1 interest_any.

(** *** The entries on the way to a name *)

(** The parent links of the entries for the prefixes of the name go along
    the components of the name, as nameprefix_seek makes them. *)
Definition linked_along (tab : gmap bytes nameprefix_entry) (msg : bytes)
    (cs : list Z) (ncomps : Z) : Prop :=
  ∀ j e, 0 < j ≤ ncomps →
    tab !! subbytes msg (buf cs 0) (buf cs j) = Some e →
    parent e = Some (subbytes msg (buf cs 0) (buf cs (j - 1))).

(** * Properties *)

Section properties.
Context `{L : ccn_lib} `{W : content_walk}.

(** ** Output leaves the tables alone *)

Lemma emit_if_cases mask o h : emit_if mask o h = h ∨ emit_if mask o h = emit o h.
Proof. unfold emit_if. destruct (flag_set _ _); auto. Qed.

Ltac frame_emit :=
  repeat match goal with
  | |- context [emit_if ?m ?o ?h] =>
    destruct (emit_if_cases m o h) as [-> | ->]
  end; try reflexivity.

Lemma emit_if_nameprefix_tab mask o h :
  nameprefix_tab (emit_if mask o h) = nameprefix_tab h.
Proof. frame_emit. Qed.

Lemma emit_if_propagating_tab mask o h :
  propagating_tab (emit_if mask o h) = propagating_tab h.
Proof. frame_emit. Qed.

Lemma emit_if_content_tab mask o h :
  content_tab (emit_if mask o h) = content_tab h.
Proof. frame_emit. Qed.

Lemma emit_if_faces mask o h :
  faces_by_faceid (emit_if mask o h) = faces_by_faceid h.
Proof. frame_emit. Qed.

Lemma emit_if_sched mask o h : sched (emit_if mask o h) = sched h.
Proof. frame_emit. Qed.

Lemma emit_if_seed mask o h : seed (emit_if mask o h) = seed h.
Proof. frame_emit. Qed.

Lemma emit_if_forward_to_gen mask o h :
  forward_to_gen (emit_if mask o h) = forward_to_gen h.
Proof. frame_emit. Qed.

Lemma emit_if_face_from_faceid mask o h fid :
  face_from_faceid (emit_if mask o h) fid = face_from_faceid h fid.
Proof. unfold face_from_faceid. by rewrite emit_if_faces. Qed.

Lemma emit_if_debug mask o h : debug (emit_if mask o h) = debug h.
Proof. frame_emit. Qed.

(** ** The name-prefix table and registration *)

Lemma nameprefix_seek_loop_entry n i h msg cs par res h' res' e :
  nameprefix_seek_loop n i h msg cs par res = (h', res', e) →
  (∀ pk p, par = Some (pk, p) → nameprefix_tab h !! pk = Some p) →
  n ≠ O ∨ (is_Some par ∧ (res = HT_OLD_ENTRY ∨ res = HT_NEW_ENTRY)) →
  ∃ k npe, e = Some k ∧ nameprefix_tab h' !! k = Some npe ∧
    (res' = HT_OLD_ENTRY ∨ res' = HT_NEW_ENTRY).
Proof.
  revert i h par res. induction n as [|n IH]; intros i h par res Heq Hpar Hn.
  - simpl in Heq. injection Heq as <- <- <-.
    destruct Hn as [Hn | [[[pk p] ->] Hres]]; [done|].
    exists pk, p. eauto.
  - simpl in Heq.
    destruct (nameprefix_tab h !! subbytes msg (buf cs 0) (buf cs i))
      as [npe|] eqn:Hk.
    + apply IH in Heq; [done| |right; eauto].
      intros pk p [= <- <-]. done.
    + destruct (new_nameprefix h par) as [npe h1] eqn:Hnew.
      apply IH in Heq; [done| |right; eauto].
      intros pk p [= <- <-]. simpl. by rewrite lookup_insert_eq.
Qed.

Lemma nameprefix_seek_entry h msg cs ncomps h' res e :
  nameprefix_seek h msg cs ncomps = (h', res, e) → 0 ≤ res →
  ∃ k npe, e = Some k ∧ nameprefix_tab h' !! k = Some npe.
Proof.
  unfold nameprefix_seek. intros Heq Hres.
  destruct (ncomps + 1 >? nelem cs); [injection Heq as <- <- <-; lia|].
  destruct (Z.to_nat (ncomps + 1)) eqn:Hn.
  - simpl in Heq. injection Heq as <- <- <-. lia.
  - apply nameprefix_seek_loop_entry in Heq as (k & npe & -> & Hk & _);
      [eauto|done|by left].
Qed.

Lemma forwarding_index_spec l fid i :
  forwarding_index l fid = Some i →
  ∃ f, l !! i = Some f ∧ forw_faceid f = fid.
Proof.
  revert i. induction l as [|f l IH]; intros i; simpl; [done|].
  destruct (forw_faceid f =? fid) eqn:Hf.
  - intros [= <-]. exists f. split; [done|]. lia.
  - destruct (forwarding_index l fid) as [j|]; [|done].
    intros [= <-]. apply (IH j eq_refl).
Qed.

Lemma seek_forwarding_spec npe fid npe' i :
  seek_forwarding npe fid = (npe', i) →
  ∃ f, forwarding npe' !! i = Some f ∧ forw_faceid f = fid.
Proof.
  unfold seek_forwarding.
  destruct (forwarding_index (forwarding npe) fid) as [j|] eqn:Hj.
  - intros [= <- <-]. by apply forwarding_index_spec.
  - intros [= <- <-]. simpl. eauto.
Qed.

Lemma lor_active_set a b :
  flag_set (Z.lor a (Z.lor (Z.lor CCN_FORW_REFRESHED CCN_FORW_ACTIVE) b))
    CCN_FORW_ACTIVE = true.
Proof.
  unfold flag_set. apply negb_true_iff, Z.eqb_neq. intros Hz.
  apply (f_equal (λ z, Z.testbit z 0)) in Hz.
  rewrite Z.land_spec, !Z.lor_spec in Hz.
  change (Z.testbit CCN_FORW_ACTIVE 0) with true in Hz.
  change (Z.testbit 0 0) with false in Hz.
  destruct (Z.testbit a 0), (Z.testbit CCN_FORW_REFRESHED 0), (Z.testbit b 0);
    discriminate.
Qed.

(** A registration that succeeds leaves a forwarding record for the face
    with the lifetime it was given, flagged active. *)
Lemma ccnd_reg_prefix_registers h msg cs ncomps fid flags exp h' res :
  ccnd_reg_prefix h msg cs ncomps fid flags exp = (h', res) → 0 ≤ res →
  ∃ k npe f, nameprefix_tab h' !! k = Some npe ∧ f ∈ forwarding npe ∧
    forw_faceid f = fid ∧ expires f = exp ∧
    flag_set (forw_flags f) CCN_FORW_ACTIVE = true.
Proof.
  unfold ccnd_reg_prefix. intros Heq Hres.
  destruct (negb _); [injection Heq as <- <-; lia|].
  destruct (face_from_faceid h fid) as [face|]; [|injection Heq as <- <-; lia].
  destruct (nameprefix_seek h msg cs ncomps) as [[h1 res1] e] eqn:Hseek.
  destruct (res1 >=? 0) eqn:Hres1; [|injection Heq as <- <-; lia].
  apply nameprefix_seek_entry in Hseek as (k & npe & -> & Hk); [|lia].
  rewrite Hk in Heq.
  destruct (seek_forwarding npe fid) as [npe1 i] eqn:Hsf.
  apply seek_forwarding_spec in Hsf as (f & Hf & Hfid).
  injection Heq as <- <-. simpl.
  eexists k, _, _. rewrite lookup_insert_eq. split; [done|]. simpl.
  split.
  { apply list_elem_of_lookup. exists i.
    rewrite list_lookup_alter_eq, Hf. reflexivity. }
  simpl. repeat split; [done|]. apply lor_active_set.
Qed.
(** C10: ccnd_req_prefixreg normalizes the requested lifetime before it
    registers the prefix.  For a request that is granted, the forwarding
    record of the named face expires after 60 seconds when the requested
    lifetime is negative, after 300 seconds when it is above 3600 and below
    2^30, and after the requested lifetime otherwise (0 to 3600, or 2^30 and
    more). *)
Theorem prefixreg_lifetime_normalized h msg pco cs req fe h' reply :
  ccn_parse_ContentObject msg = Some (pco, cs) →
  ccn_content_get_value msg pco = Some req →
  ccn_forwarding_entry_parse req = Some fe →
  ccnd_req_prefixreg h msg = (h', Some reply) →
  ∃ k npe f,
    nameprefix_tab h' !! k = Some npe ∧ f ∈ forwarding npe ∧
    forw_faceid f = fe_faceid fe ∧
    (fe_lifetime fe < 0 → expires f = 60) ∧
    (3600 < fe_lifetime fe < 2 ^ 30 → expires f = 300) ∧
    (0 ≤ fe_lifetime fe ≤ 3600 ∨ 2 ^ 30 ≤ fe_lifetime fe →
     expires f = fe_lifetime fe).
Proof.
  intros Hp Hv Hfe. unfold ccnd_req_prefixreg. rewrite Hp, Hv, Hfe.
  destruct (fe_action fe) as [act|]; [|done].
  destruct (fe_name_prefix fe) as [name|]; [|done].
  destruct (negb (String.eqb act "prefixreg")); [done|].
  match goal with |- context [if ?c then (h, None) else _] => destruct c end;
    [done|].
  destruct (face_from_faceid h (fe_faceid fe)) as [face|] eqn:Hface; [|done].
  destruct (face_from_faceid h (interest_faceid h)) as [reqface|]; [|done].
  destruct (negb (flag_set (face_flags reqface) CCN_FACE_GG)); [done|].
  destruct (ccn_name_split name) as [comps|]; [|done].
  match goal with |- context [ccnd_reg_prefix ?a ?b ?c ?d ?e ?f ?g] =>
    destruct (ccnd_reg_prefix a b c d e f g) as [h1 res] eqn:Hreg end.
  destruct (res <? 0) eqn:Hres; [done|]. intros [= <- _].
  apply ccnd_reg_prefix_registers in Hreg as (k & npe & f & Hk & Hf & Hid & Hexp & _);
    [|lia].
  exists k, npe, f. split; [done|]. split; [done|]. split.
  { rewrite Hid. unfold face_from_faceid in Hface.
    destruct (faces_by_faceid h !! _) as [[f'|]|]; try done.
    destruct (faceid f' =? fe_faceid fe) eqn:E; [|done].
    injection Hface as <-. lia. }
  rewrite Hexp. change (Z.shiftl 1 30) with (2 ^ 30).
  repeat split; intros Hl.
  - destruct (fe_lifetime fe <? 0) eqn:E; [done|lia].
  - destruct (fe_lifetime fe <? 0) eqn:E; [lia|].
    destruct (fe_lifetime fe >? 3600) eqn:E1; [|lia].
    destruct (fe_lifetime fe <? 2 ^ 30) eqn:E2; [done|lia].
  - destruct (fe_lifetime fe <? 0) eqn:E; [lia|].
    destruct (fe_lifetime fe >? 3600) eqn:E1; [|done].
    destruct (fe_lifetime fe <? 2 ^ 30) eqn:E2; [lia|done].
Qed.

End properties.

(** A request with a lifetime of 5000 seconds leaves a record that expires
    after 300. *)
Lemma prefixreg_lifetime_witness :
  ∃ (k : bytes) npe f,
    nameprefix_tab
      (fst (ccnd_req_prefixreg (L := prefixreg_lib) (started (L := prefixreg_lib) 0) [1])) !! k
      = Some npe ∧
    f ∈ forwarding npe ∧ forw_faceid f = 0 ∧ expires f = 300.
Proof.
  destruct (prefixreg_lifetime_normalized (L := prefixreg_lib) (started (L := prefixreg_lib) 0) [1]
              (mk_parsed_ContentObject 20090415 0 0 0 0 1) [] [2]
              (mk_forwarding_entry (Some "prefixreg"%string) (Some [242; 0])
                 [] 0 0 5000)
              (fst (ccnd_req_prefixreg (L := prefixreg_lib) (started (L := prefixreg_lib) 0) [1]))
              [242; 0] eq_refl eq_refl eq_refl)
    as (k & npe & f & Hk & Hf & Hid & _ & H300 & _).
  - vm_compute. reflexivity.
  - exists k, npe, f. repeat split; try assumption.
    apply H300. simpl. lia.
Defined.

Section interests.
Context `{L : ccn_lib} `{W : content_walk}.

(** ** Interests that are dropped on arrival *)

(** C2, as amended: an incoming Interest with scope 0 or 1 that arrives on a
    face without the GG flag is dropped with one debug line and nothing
    else: the content store is not consulted, no PIT entry is made, nothing
    is scheduled, and the interest is not counted as accepted. *)
Theorem out_of_scope_interest_dropped h fp face msg pi cs :
  face_at h fp = Some face →
  nelem msg ≤ 65535 →
  ccn_parse_interest msg = Some (pi, cs) →
  scope pi = 0 ∨ scope pi = 1 →
  flag_set (face_flags face) CCN_FACE_GG = false →
  let h' := process_incoming_interest h fp msg in
  h' = emit (ccnd_debug_ccnb 2592 "interest_outofscope"
               (Some (faceid face)) msg) h ∧
  propagating_tab h' = propagating_tab h ∧
  sched h' = sched h ∧
  content_tab h' = content_tab h ∧
  faces_by_faceid h' = faces_by_faceid h ∧
  nameprefix_tab h' = nameprefix_tab h ∧
  interests_accepted h' = interests_accepted h.
Proof.
  intros Hface Hsize Hparse Hscope Hgg h'.
  assert (h' = emit (ccnd_debug_ccnb 2592 "interest_outofscope"
                       (Some (faceid face)) msg) h) as ->; [|done].
  unfold h', process_incoming_interest. rewrite Hface, Hparse, Hgg.
  destruct (nelem msg >? 65535) eqn:E; [lia|].
  destruct Hscope as [-> | ->]; reflexivity.
Qed.

Lemma remove_element_spec ob fid x :
  x ∈ ccn_indexbuf_remove_element ob fid ↔ x ∈ ob ∧ x ≠ fid.
Proof. unfold ccn_indexbuf_remove_element. rewrite list_elem_of_filter. tauto. Qed.

(** C1, as amended: an incoming Interest that passes the scope check and
    whose Nonce already keys a PIT entry takes the arriving face out of that
    entry's outbound set and is dropped: the PIT keeps its keys, the entry
    keeps its message and origin, nothing is scheduled, and no face counter
    moves. *)
Theorem duplicate_nonce_dropped h fp face msg pi cs pe :
  face_at h fp = Some face →
  nelem msg ≤ 65535 →
  ccn_parse_interest msg = Some (pi, cs) →
  scope pi < 0 ∨ 2 ≤ scope pi ∨ flag_set (face_flags face) CCN_FACE_GG = true →
  B_Nonce pi ≠ E_Nonce pi →
  propagating_tab h !! subbytes msg (B_Nonce pi) (E_Nonce pi) = Some pe →
  let h' := process_incoming_interest h fp msg in
  let nonce := subbytes msg (B_Nonce pi) (E_Nonce pi) in
  (∃ pe', propagating_tab h' !! nonce = Some pe' ∧
     outbound pe' =
       (λ ob, ccn_indexbuf_remove_element ob (faceid face)) <$> outbound pe ∧
     (∀ ob', outbound pe' = Some ob' → faceid face ∉ ob') ∧
     interest_msg pe' = interest_msg pe ∧ pe_faceid pe' = pe_faceid pe ∧
     pe_usec pe' = pe_usec pe) ∧
  dom (propagating_tab h') = dom (propagating_tab h) ∧
  (∀ k, k ≠ nonce → propagating_tab h' !! k = propagating_tab h !! k) ∧
  sched h' = sched h ∧
  faces_by_faceid h' = faces_by_faceid h ∧
  nameprefix_tab h' = nameprefix_tab h ∧
  content_tab h' = content_tab h ∧
  interests_accepted h' = interests_accepted h ∧
  interests_dropped h' = interests_dropped h + 1.
Proof.
  intros Hface Hsize Hparse Hscope Hnonce Hpe h' nonce.
  set (g := λ pe : propagating_entry,
         set_outbound
           ((λ ob, ccn_indexbuf_remove_element ob (faceid face)) <$> outbound pe)
           pe).
  assert (h' = set_interests_dropped (interests_dropped h + 1)
                 (emit_if 16 (ccnd_debug_ccnb 2596 "interest_dup"
                                (Some (faceid face)) msg)
                    (update_pe nonce g h))) as ->.
  { unfold h', process_incoming_interest. rewrite Hface, Hparse.
    destruct (nelem msg >? 65535) eqn:E; [lia|].
    replace ((scope pi >=? 0) && (scope pi <? 2) &&
             negb (flag_set (face_flags face) CCN_FACE_GG)) with false.
    2:{ symmetry. destruct Hscope as [Hs | [Hs | ->]].
        - destruct (scope pi >=? 0) eqn:E1; [lia|done].
        - destruct (scope pi <? 2) eqn:E1; [lia|]. by rewrite andb_false_r.
        - by rewrite andb_false_r. }
    unfold is_duplicate_flooded.
    destruct (E_Nonce pi - B_Nonce pi =? 0) eqn:E1; [lia|].
    replace (B_Nonce pi + (E_Nonce pi - B_Nonce pi)) with (E_Nonce pi) by lia.
    fold nonce. unfold nonce at 1. rewrite Hpe.
    unfold emit_if. simpl. destruct (flag_set (debug h) 16); reflexivity. }
  destruct (emit_if_cases 16 (ccnd_debug_ccnb 2596 "interest_dup"
              (Some (faceid face)) msg) (update_pe nonce g h)) as [-> | ->];
    simpl.
  all: repeat split; try reflexivity.
  all: try (exists (g pe); rewrite lookup_alter_eq; fold nonce; unfold nonce at 1;
            rewrite Hpe; repeat split; try reflexivity;
            intros ob'; simpl; destruct (outbound pe) as [ob|]; simpl; [|done];
            intros [= <-]; rewrite remove_element_spec; tauto).
  all: try (apply dom_alter_L).
  all: intros k Hk; by rewrite lookup_alter_ne.
Qed.

End interests.

(** An interest with scope 0 from a GG face is not rejected: it is counted
    as accepted, a PIT entry is made for its nonce (and consumed at once),
    and the matching content is queued on the face. *)
Lemma scope0_from_gg_face_answered :
  let h := process_incoming_interest (L := scope0_lib) (W := scope0_walk)
             (with_content (L := scope0_lib)) 1 interest_scope0 in
  (fst <$> ccn_parse_interest (ccn_lib := scope0_lib) interest_scope0)
    = Some (parsed_interest 1 0) ∧
  scope (parsed_interest 1 0) = 0 ∧
  interests_accepted h = 1 ∧
  pe_faceid <$> propagating_tab h !! [98] = Some 1 ∧
  (face_at h 1 ≫= λ f, mjoin (q f !! 0%nat) ≫= λ cq, Some (send_queue cq))
    = Some [1] ∧
  length (sched h) = 2%nat.
Proof. vm_compute. repeat split. Qed.

(** The same interest on the TCP peer (face 2, not GG) is dropped. *)
Lemma out_of_scope_witness :
  let h := with_content (L := scope0_lib) in
  let h' := process_incoming_interest (L := scope0_lib) (W := scope0_walk)
              h 2 interest_scope0 in
  propagating_tab h' = propagating_tab h ∧ sched h' = sched h ∧
  interests_accepted h' = interests_accepted h.
Proof.
  destruct (out_of_scope_interest_dropped (L := scope0_lib) (W := scope0_walk)
              (with_content (L := scope0_lib)) 2 (set_faceid 2 (new_face 6 CCN_FACE_INET)) interest_scope0 (parsed_interest 1 0) [1])
    as (_ & Hp & Hs & _ & _ & _ & Ha).
  - vm_compute. reflexivity.
  - vm_compute. discriminate.
  - vm_compute. reflexivity.
  - left. reflexivity.
  - vm_compute. reflexivity.
  - exact (conj Hp (conj Hs Ha)).
Defined.

(** A duplicate of a propagating interest that is out of scope on its face
    is dropped before the nonce is looked up: face 2 stays in the outbound
    set of the entry. *)
Lemma out_of_scope_duplicate_keeps_outbound :
  let h := one_pending (L := nonce_lib) (W := example_walk []) in
  let h' := process_incoming_interest (L := nonce_lib) (W := example_walk [])
              h 2 interest_scope1 in
  faceid <$> face_at h 2 = Some 2 ∧
  (fst <$> ccn_parse_interest (ccn_lib := nonce_lib) interest_scope1)
    = Some (parsed_interest 0 1) ∧
  subbytes interest_scope1 1 2 = [99] ∧
  outbound <$> propagating_tab h !! [99] = Some (Some [2]) ∧
  outbound <$> propagating_tab h' !! [99] = Some (Some [2]).
Proof. vm_compute. repeat split. Qed.

(** The duplicate of the same interest with no scope, from face 2: face 2
    leaves the outbound set. *)
Lemma duplicate_nonce_witness :
  let h := one_pending (L := nonce_lib) (W := example_walk []) in
  let h' := process_incoming_interest (L := nonce_lib) (W := example_walk [])
              h 2 interest_any in
  outbound <$> propagating_tab h' !! [99] = Some (Some []) ∧
  sched h' = sched h ∧ faces_by_faceid h' = faces_by_faceid h.
Proof.
  destruct (duplicate_nonce_dropped (L := nonce_lib) (W := example_walk [])
              (one_pending (L := nonce_lib) (W := example_walk [])) 2
              (set_faceid 2 (new_face 6 CCN_FACE_INET)) interest_any
              (parsed_interest 0 (-1)) [1]
              (mk_propagating (Some []) (Some [2]) (Some interest_any) 3 0 1
                 3998905))
    as ((pe' & Hk & Hob & _) & _ & _ & Hs & Hf & _).
  - vm_compute. reflexivity.
  - vm_compute. discriminate.
  - vm_compute. reflexivity.
  - left. vm_compute. reflexivity.
  - vm_compute. discriminate.
  - vm_compute. reflexivity.
  - refine (conj _ (conj Hs Hf)).
    change (subbytes interest_any (B_Nonce (parsed_interest 0 (-1)))
              (E_Nonce (parsed_interest 0 (-1)))) with [99] in Hk.
    cbv zeta. rewrite Hk. cbn [fmap option_fmap option_map]. rewrite Hob.
    reflexivity.
Defined.

Section content.
Context `{L : ccn_lib}.

(** ** Incoming content *)

(** C9: an arriving ContentObject whose key bytes equal those of a stored
    entry while the bytes after the key differ is taken for a name
    collision: the stored entry is deleted and the arrival is not inserted,
    so the content table has no entry under that key afterwards (and, but
    for the log, nothing else changes). *)
Theorem name_collision_discards_both h fp wire_msg obj0 cs0 obj cs content :
  let msg := explicit_digest wire_msg cs0 (ccn_digest_ContentObject wire_msg) in
  let ck := subbytes msg 0 (B_Content obj) in
  ccn_parse_ContentObject wire_msg = Some (obj0, cs0) →
  1 ≤ nelem cs0 →
  buf cs0 (nelem cs0 - 1) ≤ 65535 - 36 →
  nelem (ccn_digest_ContentObject wire_msg) = 32 →
  ccn_parse_ContentObject msg = Some (obj, cs) →
  content_tab h !! ck = Some content →
  subbytes msg (B_Content obj) (nelem msg) ≠ extdata content →
  let h' := process_incoming_content h fp wire_msg in
  content_tab h' !! ck = None ∧
  content_tab h' = delete ck (content_tab h) ∧
  content_by_accession h' =
    delete (ce_accession content) (content_by_accession h) ∧
  faces_by_faceid h' = faces_by_faceid h ∧
  propagating_tab h' = propagating_tab h ∧
  sched h' = sched h.
Proof.
  intros msg ck Hp0 Hn Hk Hd Hp Hc Htail h'.
  set (h1 := emit_if 4 (ccnd_debug_ccnb 2866 "content_from"
                          (faceid <$> face_at h fp) msg)
               (count_old_format_content h obj)).
  assert (content_tab h1 = content_tab h ∧
          content_by_accession h1 = content_by_accession h ∧
          faces_by_faceid h1 = faces_by_faceid h ∧
          propagating_tab h1 = propagating_tab h ∧ sched h1 = sched h)
    as (Hct & Hca & Hf & Hpt & Hs).
  { unfold h1, emit_if, count_old_format_content.
    destruct (flag_set _ 4), (negb _); simpl; try done;
      destruct (_ =? _); done. }
  assert (h' = delete_content
                 (emit (ccnd_debug_ccnb 2878 "old" None (ck ++ extdata content))
                    (emit (ccnd_debug_ccnb 2877 "new" (faceid <$> face_at h fp) msg)
                       (emit (ccnd_msg "ContentObject name collision!!!!!" [])
                          h1))) ck) as ->.
  { unfold h', process_incoming_content. rewrite Hp0.
    destruct (nelem cs0 <? 1) eqn:E1; [lia|].
    destruct (buf cs0 (nelem cs0 - 1) >? 65535 - 36) eqn:E2; [lia|]. simpl.
    rewrite Hd. simpl. fold msg. rewrite Hp. fold h1 ck. rewrite Hct, Hc.
    replace (negb (bool_decide (subbytes msg (B_Content obj) (nelem msg)
                                = extdata content))) with true.
    2:{ symmetry. apply negb_true_iff, bool_decide_eq_false. done. }
    rewrite orb_true_r. reflexivity. }
  clearbody h1. unfold delete_content, emit. simpl. rewrite Hct, Hc. simpl.
  rewrite ?Hct, ?Hca, ?Hf, ?Hpt, ?Hs. rewrite lookup_delete_eq. done.
Qed.

(** The test that decides the SLOWSEND flag, as the source writes it with
    the logical and: it holds exactly when the face has no flag at all. *)
Lemma slowsend_test_is_zero_flags flags :
  negb (negb (flags =? 0) && negb (CCN_FACE_GG =? 0)) = (flags =? 0).
Proof. destruct (flags =? 0); reflexivity. Qed.

End content.

(** Two objects with the same key bytes and different tails: the second
    arrival removes the first and is not stored. *)
Lemma name_collision_witness :
  let h := process_incoming_content (L := collision_lib)
             (two_faces (L := collision_lib)) 2 content_wire in
  let h' := process_incoming_content (L := collision_lib) h 2 collider_wire in
  size (content_tab h) = 1%nat ∧ content_tab h' = ∅.
Proof.
  split; [vm_compute; reflexivity|].
  destruct (name_collision_discards_both (L := collision_lib)
              (process_incoming_content (L := collision_lib)
                 (two_faces (L := collision_lib)) 2 content_wire)
              2 collider_wire
              (mk_parsed_ContentObject 20090415 0 1 0 0 2) [1]
              (mk_parsed_ContentObject 20090415 0 37 0 0 38) [1; 37]
              (mk_content_entry 1 (Some [1; 37]) 2 0 37 38 [31]))
    as (_ & Hd & _).
  - vm_compute. reflexivity.
  - vm_compute. discriminate.
  - vm_compute. discriminate.
  - vm_compute. reflexivity.
  - vm_compute. reflexivity.
  - vm_compute. reflexivity.
  - vm_compute. discriminate.
  - rewrite Hd. vm_compute. reflexivity.
Defined.

(** C5, the code at a failing input: a new ContentObject arrives on face 2,
    a TCP peer whose only flag is CCN_FACE_INET (so it has no GG flag), and
    consumes no pending interest; the entry is stored with no flag, SLOWSEND
    included.  A later send toward a LINK face then uses the NORMAL class. *)
Theorem slowsend_not_set_for_inet_face :
  let h := two_faces (L := content_lib) in
  let h' := process_incoming_content (L := content_lib) h 2 content_wire in
  (face_flags <$> face_at h 2) = Some CCN_FACE_INET ∧
  flag_set CCN_FACE_INET CCN_FACE_GG = false ∧
  propagating_tab h = ∅ ∧
  (content_flags <$> content_tab h' !! subbytes content_internal 0 37) = Some 0 ∧
  flag_set 0 CCN_CONTENT_ENTRY_SLOWSEND = false.
Proof. vm_compute. repeat split. Qed.

Section propagation.
Context `{L : ccn_lib} `{W : content_walk}.

(** ** Similar interests *)

Lemma set_out_id h : set_out (out h) h = h.
Proof. by destruct h. Qed.

Lemma emit_if_set_out mask x h : ∃ o, emit_if mask x h = set_out o h.
Proof.
  unfold emit_if, emit. destruct (flag_set _ _); [eauto|].
  exists (out h). by rewrite set_out_id.
Qed.

Lemma adjust_outbound_loop_set_out face msg pi npe maxr ps :
  ∀ h k ob extra h' ob' extra',
  adjust_outbound_loop h face msg pi npe maxr ps k ob extra = (h', ob', extra') →
  ∃ o, h' = set_out o h.
Proof.
  induction ps as [|pk ps IH]; intros h k ob extra h' ob' extra'; simpl.
  { intros [= <- <- <-]. exists (out h). by rewrite set_out_id. }
  destruct (nelem ob >? 0);
    [|intros [= <- <- <-]; exists (out h); by rewrite set_out_id].
  destruct (propagating_tab h !! pk) as [p|]; [|by apply IH].
  destruct (similar_interest msg pi p); [|by apply IH].
  destruct (emit_if_set_out 32
              (ccnd_debug_ccnb 2279 "similar_interest"
                 (faceid <$> face_from_faceid h (pe_faceid p))
                 (default [] (interest_msg p))) h) as [o ->].
  assert (∀ h'', (∃ o', h'' = set_out o' (set_out o h)) → ∃ o', h'' = set_out o' h)
    as Hcomp by (intros h'' [o' ->]; by exists o').
  destruct (faceid face =? pe_faceid p).
  - destruct (k + 1 <? maxr).
    + intros Heq. apply Hcomp. by eapply IH.
    + intros [= <- <- <-]. eauto.
  - destruct (face_from_faceid (set_out o h) (pe_faceid p)).
    + destruct (negb _); intros Heq; apply Hcomp; by eapply IH.
    + intros Heq. apply Hcomp. by eapply IH.
Qed.

Lemma s32_small z : 0 ≤ z < 2 ^ 31 → s32 z = z.
Proof.
  intros Hz. unfold s32. rewrite Z.mod_small by lia.
  destruct (z <? 2 ^ 31) eqn:E; lia.
Qed.

Lemma similar_count_cons tab msg pi pk ps :
  Z.of_nat (length (filter (λ pk, is_similar tab msg pi pk = true) (pk :: ps)))
  = (if is_similar tab msg pi pk then 1 else 0) +
    Z.of_nat (length (filter (λ pk, is_similar tab msg pi pk = true) ps)).
Proof.
  rewrite filter_cons. destruct (is_similar tab msg pi pk) eqn:E.
  - rewrite decide_True by done. simpl length. lia.
  - rewrite decide_False by done. lia.
Qed.

Lemma adjust_outbound_loop_same_face face msg pi npe maxr ps :
  0 ≤ npe_usec npe ≤ 1000000 → maxr ≤ 3 →
  ∀ h k ob extra h' ob' extra',
  (∀ pk p, pk ∈ ps → propagating_tab h !! pk = Some p →
     similar_interest msg pi p = true → pe_faceid p = faceid face) →
  ob ≠ [] → 0 ≤ k →
  extra = k * (npe_usec npe + 20000) →
  adjust_outbound_loop h face msg pi npe maxr ps k ob extra = (h', ob', extra') →
  let c := Z.of_nat
             (length (filter (λ pk, is_similar (propagating_tab h) msg pi pk = true) ps)) in
  (k + c < maxr ∨ c = 0 → ob' = ob ∧ extra' = (k + c) * (npe_usec npe + 20000)) ∧
  (maxr ≤ k + c ∧ 0 < c → ob' = [] ∧ extra' = 0).
Proof.
  intros Husec Hmax. induction ps as [|pk ps IH];
    intros h k ob extra h' ob' extra' Hsame Hob Hk Hextra;
    cbn [adjust_outbound_loop]; cbv zeta.
  { intros [= <- <- <-]. rewrite filter_nil. change (Z.of_nat (length [])) with 0.
    rewrite Z.add_0_r.
    split; [intros _; by subst | lia]. }
  destruct (nelem ob >? 0) eqn:Hn.
  2:{ unfold nelem in Hn. destruct ob as [|x ob]; [done|].
      simpl length in Hn. rewrite Z.gtb_ltb in Hn. apply Z.ltb_ge in Hn. lia. }
  rewrite similar_count_cons.
  destruct (propagating_tab h !! pk) as [p|] eqn:Hp.
  2:{ replace (is_similar (propagating_tab h) msg pi pk) with false
        by (unfold is_similar; by rewrite Hp).
      rewrite Z.add_0_l. intros Heq. eapply (IH h k ob extra); eauto.
      intros pk' p' Hin. apply Hsame. by right. }
  destruct (similar_interest msg pi p) eqn:Hsim.
  2:{ replace (is_similar (propagating_tab h) msg pi pk) with false
        by (unfold is_similar; by rewrite Hp).
      rewrite Z.add_0_l. intros Heq. eapply (IH h k ob extra); eauto.
      intros pk' p' Hin. apply Hsame. by right. }
  replace (is_similar (propagating_tab h) msg pi pk) with true
    by (unfold is_similar; by rewrite Hp).
  destruct (emit_if_set_out 32
              (ccnd_debug_ccnb 2279 "similar_interest"
                 (faceid <$> face_from_faceid h (pe_faceid p))
                 (default [] (interest_msg p))) h) as [o ->].
  rewrite (Hsame pk p), Z.eqb_refl by (done || by left).
  set (c := Z.of_nat (length (filter
         (λ pk0, is_similar (propagating_tab h) msg pi pk0 = true) ps))).
  assert (0 ≤ c) by lia.
  destruct (k + 1 <? maxr) eqn:Hlt.
  - intros Heq.
    assert (∀ pk' p', pk' ∈ ps → propagating_tab (set_out o h) !! pk' = Some p' →
              similar_interest msg pi p' = true → pe_faceid p' = faceid face)
      as Hsame' by (intros pk' p' Hin; simpl; apply Hsame; by right).
    assert (s32 (extra + (npe_usec npe + 20000))
            = (k + 1) * (npe_usec npe + 20000)) as Hextra'.
    { apply Z.ltb_lt in Hlt. subst extra.
      assert (k = 0 ∨ k = 1) as [-> | ->] by lia; rewrite s32_small; lia. }
    pose proof (IH (set_out o h) (k + 1) ob _ h' ob' extra' Hsame' Hob
                  ltac:(lia) Hextra' Heq) as [Hkeep Hdrop].
    simpl in Hkeep, Hdrop. fold c in Hkeep, Hdrop. split.
    + intros Hc. replace (k + (1 + c)) with (k + 1 + c) by lia.
      apply Hkeep. lia.
    + intros Hc. apply Hdrop. lia.
  - intros [= <- <- <-]. split; [lia|done].
Qed.

(** The rule for the same face, where every similar interest on the list of
    the prefix comes from the arriving face F and [c] of them are live.
    For a face with neither MCAST nor LINK the new interest keeps its
    outbound set while [c < 3], with [c] times [npe.usec + 20 ms] of extra
    delay; with [c >= 3] the outbound set is emptied and the extra delay is
    zero.  For a MCAST or LINK face any [c >= 1] empties the outbound
    set. *)
Theorem redundant_interests_from_same_face h face msg pi npe ps ob :
  propagating_head npe = Some ps →
  ob ≠ [] →
  0 ≤ npe_usec npe ≤ 1000000 →
  (∀ pk p, pk ∈ ps → propagating_tab h !! pk = Some p →
     similar_interest msg pi p = true → pe_faceid p = faceid face) →
  let c := Z.of_nat
             (length (filter (λ pk, is_similar (propagating_tab h) msg pi pk = true) ps)) in
  let max_redundant :=
    if flag_set (face_flags face) (Z.lor CCN_FACE_MCAST CCN_FACE_LINK)
    then 0 else 3 in
  let r := adjust_outbound_for_existing_interests h face msg pi npe (Some ob) in
  (c < max_redundant ∨ c = 0 →
     snd (fst r) = Some ob ∧ snd r = c * (npe_usec npe + 20000)) ∧
  (max_redundant ≤ c ∧ 0 < c → snd (fst r) = Some [] ∧ snd r = 0).
Proof.
  intros Hps Hob Husec Hsame c maxr r.
  unfold r, adjust_outbound_for_existing_interests. rewrite Hps.
  fold maxr.
  destruct (adjust_outbound_loop h face msg pi npe maxr ps 0 ob 0)
    as [[h' ob'] extra'] eqn:Heq.
  eapply adjust_outbound_loop_same_face in Heq; try done.
  - simpl. fold c in Heq. destruct Heq as [Hkeep Hdrop]. split.
    + intros Hc. destruct (Hkeep Hc) as [-> ->]. done.
    + intros Hc. destruct (Hdrop Hc) as [-> ->]. done.
  - unfold maxr. destruct (flag_set _ _); lia.
Qed.

(** ** The nonce of an interest that has none *)

Lemma nonce_bytes_spec n : ∀ i s,
  length (fst (nonce_bytes n i s)) = n ∧
  Forall (λ b, 0 ≤ b < 256) (fst (nonce_bytes n i s)).
Proof.
  induction n as [|n IH]; intros i s; simpl; [by split|].
  destruct (nrand48 s) as [r s1]. specialize (IH (i + 1) s1).
  destruct (nonce_bytes n (i + 1) s1) as [l s2]. simpl in *.
  destruct IH as [-> IH]. split; [done|]. constructor; [|done].
  apply Z.mod_pos_bound. lia.
Qed.

Lemma adjust_outbound_set_out h face msg pi npe ob h' ob' extra' :
  adjust_outbound_for_existing_interests h face msg pi npe ob = (h', ob', extra') →
  ∃ o, h' = set_out o h.
Proof.
  unfold adjust_outbound_for_existing_interests.
  destruct (propagating_head npe) as [ps|], ob as [ob|];
    try (intros [= <- <- <-]; exists (out h); by rewrite set_out_id).
  destruct (adjust_outbound_loop _ _ _ _ _ _ _ _ _ _) as [[h1 ob1] e1] eqn:Heq.
  intros [= <- <- <-]. by eapply adjust_outbound_loop_set_out.
Qed.

(** The bytes of the Nonce are the six draws from the seed, the i-th
    shifted right by i and cut to a byte. *)
Lemma nonce_bytes_draws s :
  let d0 := nrand48 s in
  let d1 := nrand48 d0.2 in
  let d2 := nrand48 d1.2 in
  let d3 := nrand48 d2.2 in
  let d4 := nrand48 d3.2 in
  let d5 := nrand48 d4.2 in
  nonce_bytes 6 0 s
  = ([Z.shiftr d0.1 0 mod 256; Z.shiftr d1.1 1 mod 256;
      Z.shiftr d2.1 2 mod 256; Z.shiftr d3.1 3 mod 256;
      Z.shiftr d4.1 4 mod 256; Z.shiftr d5.1 5 mod 256], d5.2).
Proof.
  cbv zeta. cbn [nonce_bytes].
  destruct (nrand48 s) as [r0 s0]. cbn [fst snd].
  destruct (nrand48 s0) as [r1 s1]. cbn [fst snd].
  destruct (nrand48 s1) as [r2 s2]. cbn [fst snd].
  destruct (nrand48 s2) as [r3 s3]. cbn [fst snd].
  destruct (nrand48 s3) as [r4 s4]. cbn [fst snd].
  destruct (nrand48 s4) as [r5 s5]. cbn [fst snd].
  reflexivity.
Qed.

(** The interest has no Nonce and the element made for it keys no entry:
    the new entry. *)
Lemma propagate_interest_new_nonce h fp face msg pi n npe ob h' res :
  let rnd := fst (nonce_bytes 6 0 (seed h)) in
  let nonce :=
    ccn_charbuf_append_tt CCN_DTAG_Nonce CCN_DTAG ++
    ccn_charbuf_append_tt 6 CCN_BLOB ++ rnd ++ ccn_charbuf_append_closer in
  face_at h fp = Some face →
  nameprefix_tab h !! n = Some npe →
  B_Nonce pi = E_Nonce pi →
  propagating_tab h !! nonce = None →
  propagate_interest h fp msg pi n ob = (h', res) →
  res = 0 ∧ length rnd = 6%nat ∧ Forall (λ b, 0 ≤ b < 256) rnd ∧
  ∃ pe ev,
    propagating_tab h' !! nonce = Some pe ∧
    interest_msg pe =
      Some (subbytes msg 0 (B_Nonce pi) ++ nonce ++
            subbytes msg (B_OTHER pi) (PI_E pi)) ∧
    pe_faceid pe = faceid face ∧
    ev ∈ sched h' ∧ action ev = cb_do_propagate ∧ evdata ev = nonce ∧
    pe_usec pe + ev_delay ev = CCN_INTEREST_LIFETIME_MICROSEC ∧
    CCN_INTEREST_LIFETIME_MICROSEC = 4 * 1000000 ∧
    dom (propagating_tab h') = {[nonce]} ∪ dom (propagating_tab h).
Proof.
  intros rnd nonce Hface Hnpe Hno Hfresh.
  destruct (nonce_bytes_spec 6 0 (seed h)) as [Hlen Hrange].
  unfold propagate_interest. rewrite Hface, Hnpe.
  set (adj := match ob with
              | Some _ =>
                let '(h1, ob1, extra_delay) :=
                  adjust_outbound_for_existing_interests h face msg pi npe ob in
                match ob1 with
                | Some ob2 =>
                  if nelem ob2 =? 0 then (h1, None, extra_delay)
                  else (h1, Some (reorder_outbound_using_history npe ob2),
                        extra_delay)
                | None => (h1, None, extra_delay)
                end
              | None => (h, None, 0)
              end).
  assert (∃ o, fst (fst adj) = set_out o h) as [o Ho].
  { unfold adj. destruct ob as [ob0|]; [|exists (out h); by rewrite set_out_id].
    destruct (adjust_outbound_for_existing_interests h face msg pi npe (Some ob0))
      as [[h1 ob1] e1] eqn:Hadj.
    apply adjust_outbound_set_out in Hadj as [o ->].
    destruct ob1 as [ob2|]; [destruct (nelem ob2 =? 0)|]; simpl; eauto. }
  destruct adj as [[h1 ob1] extra_delay]. simpl in Ho. subst h1.
  rewrite Hno, Z.eqb_refl. unfold add_nonce. simpl seed.
  change (Z.to_nat 6) with 6%nat.
  destruct (nonce_bytes 6 0 (seed h)) as [rnd' s'] eqn:Hnb.
  simpl in rnd. subst rnd. fold nonce. simpl propagating_tab.
  rewrite Hfresh.
  set (usec_h := match ob1 with
                 | None => _
                 | Some _ => _
                 end).
  destruct usec_h as [usec h2] eqn:Husec.
  destruct (pe_next_usec h2 nonce usec 2419) as [h3 usec'] eqn:Hnext.
  intros [= <- <-]. split; [done|]. split; [done|]. split; [done|].
  (* the entry as it stands before pe_next_usec *)
  set (pe0 := mk_propagating None ob1
                (Some (subbytes msg 0 (B_Nonce pi) ++ nonce ++
                       subbytes msg (B_OTHER pi) (PI_E pi)))
                (nelem (subbytes msg 0 (B_Nonce pi) ++ nonce ++
                        subbytes msg (B_OTHER pi) (PI_E pi)))
                (if match ob1 with
                    | Some ob => (nelem ob >? 0) &&
                                 (buf ob (nelem ob - 1) =? src npe) &&
                                 (extra_delay =? 0)
                    | None => false
                    end then CCN_PR_UNSENT else 0)
                (faceid face) CCN_INTEREST_LIFETIME_MICROSEC) in *.
  assert (propagating_tab h2 !! nonce = Some (set_pe_link (Some n) pe0) ∧
          dom (propagating_tab h2) = {[nonce]} ∪ dom (propagating_tab h) ∧
          sched h2 = sched h) as (Hk2 & Hdom2 & Hs2).
  { unfold usec_h in Husec.
    destruct ob1 as [ob2|]; [destruct (nrand48 _) as [r s'']|];
      injection Husec as <- <-; unfold link_propagating_interest_to_nameprefix;
      simpl; rewrite lookup_alter_eq, lookup_insert_eq; simpl;
      (split; [done|]); rewrite dom_alter_L, dom_insert_L; done. }
  clearbody usec_h. clear Husec.
  unfold pe_next_usec in Hnext. rewrite Hk2 in Hnext. simpl interest_msg in Hnext.
  set (d := if usec >? pe_usec (set_pe_link (Some n) pe0)
            then pe_usec (set_pe_link (Some n) pe0) else usec) in *.
  assert (propagating_tab h3 !! nonce
          = Some (set_pe_usec (CCN_INTEREST_LIFETIME_MICROSEC - d)
                    (set_pe_link (Some n) pe0)) ∧
          dom (propagating_tab h3) = {[nonce]} ∪ dom (propagating_tab h) ∧
          sched h3 = sched h ∧ usec' = d) as (Hk3 & Hdom3 & Hs3 & ->).
  { injection Hnext as <- <-.
    rewrite emit_if_propagating_tab, emit_if_sched. simpl.
    rewrite lookup_alter_eq, Hk2, dom_alter_L. done. }
  eexists _, (mk_event d cb_do_propagate nonce (npe_usec npe)).
  simpl. rewrite Hk3, Hs3, Hdom3. split; [reflexivity|]. simpl.
  split; [by rewrite Hno|]. split; [done|].
  split; [apply elem_of_app; right; apply list_elem_of_singleton; done|].
  repeat split. lia.
Qed.


(** The interest has no Nonce and the element made for it keys an entry
    already: nothing is made. *)
Lemma propagate_interest_old_nonce h fp face msg pi n npe ob old :
  let rnd := fst (nonce_bytes 6 0 (seed h)) in
  let nonce :=
    ccn_charbuf_append_tt CCN_DTAG_Nonce CCN_DTAG ++
    ccn_charbuf_append_tt 6 CCN_BLOB ++ rnd ++ ccn_charbuf_append_closer in
  let r := propagate_interest h fp msg pi n ob in
  face_at h fp = Some face →
  nameprefix_tab h !! n = Some npe →
  B_Nonce pi = E_Nonce pi →
  propagating_tab h !! nonce = Some old →
  r.2 = -1 ∧
  dom (propagating_tab r.1) = dom (propagating_tab h) ∧
  sched r.1 = sched h ∧ faces_by_faceid r.1 = faces_by_faceid h ∧
  propagating_tab r.1 !! nonce
  = Some (set_outbound
            ((λ ob, ccn_indexbuf_remove_element ob (faceid face))
               <$> outbound old) old).
Proof.
  intros rnd nonce r Hface Hnpe Hno Hold. unfold r, propagate_interest.
  rewrite Hface, Hnpe.
  set (adj := match ob with
              | Some _ =>
                let '(h1, ob1, extra_delay) :=
                  adjust_outbound_for_existing_interests h face msg pi npe ob in
                match ob1 with
                | Some ob2 =>
                  if nelem ob2 =? 0 then (h1, None, extra_delay)
                  else (h1, Some (reorder_outbound_using_history npe ob2),
                        extra_delay)
                | None => (h1, None, extra_delay)
                end
              | None => (h, None, 0)
              end).
  assert (∃ o, fst (fst adj) = set_out o h) as [o Ho].
  { unfold adj. destruct ob as [ob0|]; [|exists (out h); by rewrite set_out_id].
    destruct (adjust_outbound_for_existing_interests h face msg pi npe (Some ob0))
      as [[h1 ob1] e1] eqn:Hadj.
    apply adjust_outbound_set_out in Hadj as [o ->].
    destruct ob1 as [ob2|]; [destruct (nelem ob2 =? 0)|]; simpl; eauto. }
  destruct adj as [[h1 ob1] extra_delay]. simpl in Ho. subst h1.
  rewrite Hno, Z.eqb_refl. unfold add_nonce. simpl seed.
  change (Z.to_nat 6) with 6%nat.
  destruct (nonce_bytes 6 0 (seed h)) as [rnd' s'] eqn:Hnb.
  simpl in rnd. subst rnd. fold nonce. simpl propagating_tab.
  rewrite Hold. cbn [fst snd]. split; [done|].
  unfold update_pe. cbn. rewrite dom_alter_L, lookup_alter_eq, Hold.
  done.
Qed.

(** C6, as amended: when an interest that carries no Nonce is propagated,
    six bytes are drawn from the seed with nrand48 (the i-th draw shifted
    right by i, cut to a byte), wrapped as a Nonce element, and spliced into
    the message.  Where no PIT entry has that element as its key, a new
    entry is made under it, with the message that holds the Nonce, and its
    lifetime is 4 seconds: what remains in the entry and the delay of the
    first scheduled do_propagate add up to CCN_INTEREST_LIFETIME_MICROSEC.
    Where an entry has that key already, no entry is made and nothing is
    scheduled: the arriving face is taken out of the outbound set of the
    entry that is there, and the result is -1. *)
Theorem missing_nonce_synthesized h fp face msg pi n npe ob :
  let d0 := nrand48 (seed h) in
  let d1 := nrand48 d0.2 in
  let d2 := nrand48 d1.2 in
  let d3 := nrand48 d2.2 in
  let d4 := nrand48 d3.2 in
  let d5 := nrand48 d4.2 in
  let rnd :=
    [Z.shiftr d0.1 0 mod 256; Z.shiftr d1.1 1 mod 256;
     Z.shiftr d2.1 2 mod 256; Z.shiftr d3.1 3 mod 256;
     Z.shiftr d4.1 4 mod 256; Z.shiftr d5.1 5 mod 256] in
  let nonce :=
    ccn_charbuf_append_tt CCN_DTAG_Nonce CCN_DTAG ++
    ccn_charbuf_append_tt 6 CCN_BLOB ++ rnd ++ ccn_charbuf_append_closer in
  let r := propagate_interest h fp msg pi n ob in
  face_at h fp = Some face →
  nameprefix_tab h !! n = Some npe →
  B_Nonce pi = E_Nonce pi →
  (propagating_tab h !! nonce = None →
     r.2 = 0 ∧
     ∃ pe ev,
       propagating_tab r.1 !! nonce = Some pe ∧
       interest_msg pe =
         Some (subbytes msg 0 (B_Nonce pi) ++ nonce ++
               subbytes msg (B_OTHER pi) (PI_E pi)) ∧
       pe_faceid pe = faceid face ∧
       ev ∈ sched r.1 ∧ action ev = cb_do_propagate ∧ evdata ev = nonce ∧
       pe_usec pe + ev_delay ev = CCN_INTEREST_LIFETIME_MICROSEC ∧
       CCN_INTEREST_LIFETIME_MICROSEC = 4 * 1000000 ∧
       dom (propagating_tab r.1) = {[nonce]} ∪ dom (propagating_tab h)) ∧
  (∀ old, propagating_tab h !! nonce = Some old →
     r.2 = -1 ∧
     dom (propagating_tab r.1) = dom (propagating_tab h) ∧
     sched r.1 = sched h ∧ faces_by_faceid r.1 = faces_by_faceid h ∧
     propagating_tab r.1 !! nonce
     = Some (set_outbound
               ((λ ob, ccn_indexbuf_remove_element ob (faceid face))
                  <$> outbound old) old)).
Proof.
  intros d0 d1 d2 d3 d4 d5 rnd nonce r Hface Hnpe Hno.
  assert (fst (nonce_bytes 6 0 (seed h)) = rnd) as Hrnd
    by (by rewrite nonce_bytes_draws).
  split.
  - intros Hfresh.
    destruct (propagate_interest_new_nonce h fp face msg pi n npe ob r.1 r.2)
      as (Hres & _ & _ & pe & ev & Hpe); try done.
    + by rewrite Hrnd.
    + apply surjective_pairing.
    + rewrite Hrnd in Hpe. split; [done|]. by exists pe, ev.
  - intros old Hold.
    pose proof (propagate_interest_old_nonce h fp face msg pi n npe ob old
                  Hface Hnpe Hno) as Hcoll.
    cbv zeta in Hcoll. rewrite Hrnd in Hcoll. by apply Hcoll.
Qed.

End propagation.

(** One similar interest of the same face is propagating: on an ordinary
    face, a second copy goes out with the extra delay of one round. *)
Lemma redundant_interests_witness :
  let h := one_pending (L := nonce_lib) (W := example_walk []) in
  let face := mk_face 5 5 (Z.lor CCN_FACE_GG CCN_FACE_LOCAL) 1 0 [None; None; None] 1 in
  let npe := default (mk_nameprefix None None [] None 0 0 0 0 0)
               (nameprefix_tab h !! []) in
  let r := adjust_outbound_for_existing_interests h face interest_again
             (parsed_interest 0 (-1)) npe (Some [2]) in
  snd (fst r) = Some [2] ∧ snd r = 1 * (12150 + 20000).
Proof.
  cbv zeta.
  refine (proj1 (redundant_interests_from_same_face
            (one_pending (L := nonce_lib) (W := example_walk []))
            (mk_face 5 5 (Z.lor CCN_FACE_GG CCN_FACE_LOCAL) 1 0 [None; None; None] 1)
            interest_again (parsed_interest 0 (-1))
            (default (mk_nameprefix None None [] None 0 0 0 0 0)
               (nameprefix_tab (one_pending (L := nonce_lib) (W := example_walk []))
                  !! [])) [[99]] [2] _ _ _ _) _).
  - vm_compute. reflexivity.
  - discriminate.
  - vm_compute. split; discriminate.
  - intros pk p Hin%list_elem_of_singleton. subst pk.
    vm_compute. intros [= <-] _. reflexivity.
  - left. vm_compute. reflexivity.
Defined.

(** The same on a face with the LINK flag: the one similar interest already
    empties the outbound set, with no extra delay. *)
Lemma link_face_allows_no_redundant_copy :
  let h := one_pending (L := nonce_lib) (W := example_walk []) in
  let face := mk_face 5 5 (Z.lor CCN_FACE_LOCAL CCN_FACE_LINK) 1 0 [None; None; None] 1 in
  let npe := default (mk_nameprefix None None [] None 0 0 0 0 0)
               (nameprefix_tab h !! []) in
  let r := adjust_outbound_for_existing_interests h face interest_again
             (parsed_interest 0 (-1)) npe (Some [2]) in
  propagating_head npe = Some [[99]] ∧
  is_similar (propagating_tab h) interest_again (parsed_interest 0 (-1)) [99]
    = true ∧
  (pe_faceid <$> propagating_tab h !! [99]) = Some (faceid face) ∧
  npe_usec npe = 12150 ∧
  snd (fst r) = Some [] ∧ snd r = 0.
Proof. vm_compute. repeat split. Qed.

(** An interest with no Nonce from face 1 gets one: its PIT entry is keyed
    by a Nonce element of ten bytes, six of them drawn from the seed. *)
Lemma missing_nonce_witness :
  let h := two_faces (L := nonce_lib) in
  let r := propagate_interest (L := nonce_lib) h 1 interest_no_nonce
             parsed_no_nonce [] (Some [2]) in
  r.2 = 0 ∧
  ∃ nonce pe, length nonce = 10%nat ∧
    propagating_tab (fst r) !! nonce = Some pe ∧
    interest_msg pe = Some ([26] ++ nonce ++ [27]).
Proof.
  cbv zeta.
  destruct (missing_nonce_synthesized (L := nonce_lib)
              (two_faces (L := nonce_lib)) 1
              (set_faceid 1 (new_face 5 (Z.lor CCN_FACE_GG CCN_FACE_LOCAL)))
              interest_no_nonce parsed_no_nonce []
              (default (mk_nameprefix None None [] None 0 0 0 0 0)
                 (nameprefix_tab (two_faces (L := nonce_lib)) !! []))
              (Some [2]))
    as [Hnew _].
  - vm_compute. reflexivity.
  - vm_compute. reflexivity.
  - reflexivity.
  - destruct Hnew as (Hres & pe & ev & Hk & Hmsg & _).
    + vm_compute. reflexivity.
    + split; [exact Hres|]. eexists _, pe.
      split; [|split; [exact Hk|exact Hmsg]]. vm_compute. reflexivity.
Defined.

(** The local client has sent an interest whose Nonce is the element that
    is synthesized next.  The interest without Nonce that follows gets no
    PIT entry: the table keeps its one key, nothing is scheduled, and the
    result is -1. *)
Lemma synthesized_nonce_collides :
  let h := nonce_taken (L := nonce_lib) in
  let r := propagate_interest (L := nonce_lib) h 1 interest_no_nonce
             parsed_no_nonce [] (Some [2]) in
  is_Some (face_at h 1) ∧ is_Some (nameprefix_tab h !! []) ∧
  B_Nonce parsed_no_nonce = E_Nonce parsed_no_nonce ∧
  r.2 = -1 ∧
  dom (propagating_tab r.1) = dom (propagating_tab h) ∧
  size (propagating_tab r.1) = 1%nat ∧
  sched r.1 = sched h.
Proof.
  cbv zeta. split; [vm_compute; eauto|]. split; [vm_compute; eauto|].
  split; [reflexivity|]. split; [vm_compute; reflexivity|].
  split; [vm_compute; reflexivity|]. split; vm_compute; reflexivity.
Qed.

(** C7, the code at a failing input: the local client (face 1, neither
    MCAST nor LINK) has an interest and two redundant copies of it
    propagating, each with face 2 to go to.  The third redundant copy has
    its outbound set emptied, with no extra delay, and its PIT entry is
    made with no face to go to: the test is [++k < max_redundant] with
    max_redundant = 3, so only two redundant copies are let through. *)
Lemma third_redundant_copy_refused :
  let h := three_pending (L := nonce_lib) in
  let pi := parsed_interest 0 (-1) in
  let face := default face0 (face_at h 1) in
  let npe := default (mk_nameprefix None None [] None 0 0 0 0 0)
               (nameprefix_tab h !! []) in
  let r := adjust_outbound_for_existing_interests h face interest_fourth pi
             npe (Some [2]) in
  let h' := fst (propagate_interest (L := nonce_lib) h 1 interest_fourth pi []
                   (Some [2])) in
  flag_set (face_flags face) (Z.lor CCN_FACE_MCAST CCN_FACE_LINK) = false ∧
  propagating_head npe = Some [[99]; [77]; [55]] ∧
  Forall (λ k, is_similar (propagating_tab h) interest_fourth pi k = true ∧
               (pe_faceid <$> propagating_tab h !! k) = Some (faceid face) ∧
               (outbound <$> propagating_tab h !! k) = Some (Some [2]))
    [[99]; [77]; [55]] ∧
  snd (fst r) = Some [] ∧ snd r = 0 ∧
  (outbound <$> propagating_tab h' !! [33]) = Some None.
Proof.
  cbv zeta. split; [vm_compute; reflexivity|].
  split; [vm_compute; reflexivity|]. split.
  { repeat constructor; vm_compute; reflexivity. }
  split; [vm_compute; reflexivity|]. split; vm_compute; reflexivity.
Qed.

Section input.
Context `{L : ccn_lib} `{W : content_walk}.

(** ** Unwrapping protocol data units *)

Lemma pdu_loop_ext fuel (r1 r2 : ccnd_handle → bytes → ccnd_handle) :
  (∀ h m, r1 h m = r2 h m) →
  ∀ h msg size d,
    pdu_loop fuel r1 h msg size d = pdu_loop fuel r2 h msg size d.
Proof.
  intros Hr. induction fuel as [|fuel IH]; intros h msg size d; [done|].
  cbn [pdu_loop]. destruct (d_index d <? size); [|done].
  destruct (ccn_skeleton_decode d _) as [d' dres].
  destruct (negb _); [done|]. rewrite Hr. apply IH.
Qed.

(** Called with pdu_ok = 0, the function never gets to call itself. *)
Lemma process_input_message_body_no_pdu recur h fp msg :
  process_input_message_body recur h fp msg false
  = dispatch_message h fp msg (outer_decode msg).
Proof.
  unfold process_input_message_body, outer_decode.
  destruct (ccn_skeleton_decode _ msg) as [d dres]. simpl.
  by rewrite andb_false_r.
Qed.

(** The loop over a PDU goes on only while the decoder completes elements.
    If each completed element moves the decoder forward, the bytes left
    bound the rounds, and fuel beyond them changes nothing. *)
Lemma pdu_loop_fuel recur :
  (∀ d m, d_state (fst (ccn_skeleton_decode d m)) = 0 →
          d_index d < d_index (fst (ccn_skeleton_decode d m))) →
  ∀ fuel h msg size d,
    (Z.to_nat (size - d_index d) ≤ fuel)%nat →
    pdu_loop fuel recur h msg size d
    = pdu_loop (Z.to_nat (size - d_index d)) recur h msg size d.
Proof.
  intros Hprog fuel.
  induction (lt_wf fuel) as [fuel _ IH]. intros h msg size d Hfuel.
  destruct (Z.to_nat (size - d_index d)) as [|n] eqn:Hn.
  { destruct fuel; [done|]. cbn [pdu_loop].
    destruct (d_index d <? size) eqn:E; [lia|done]. }
  destruct fuel as [|fuel]; [lia|]. cbn [pdu_loop].
  destruct (d_index d <? size); [|done].
  pose proof (Hprog d (subbytes msg (d_index d) size)) as Hp.
  destruct (ccn_skeleton_decode d _) as [d' dres]. simpl in Hp.
  destruct (d_state d' =? 0) eqn:E; [|done]. simpl.
  apply Z.eqb_eq in E. specialize (Hp E).
  rewrite (IH fuel) by lia. symmetry. apply (IH n); lia.
Qed.

(** The loop over a PDU hands the messages of the PDU to [recur], one
    after the other; fuel for the bytes of the body is enough. *)
Lemma pdu_loop_messages recur body size d ms :
  pdu_messages body size d ms →
  ∀ fuel h, (Z.to_nat (size - d_index d) ≤ fuel)%nat →
    pdu_loop fuel recur h body size d = foldl recur h ms.
Proof.
  induction 1 as [d Hend|d d' dres Hin Hdec Hstate
                 |d d' dres ms Hin Hdec Hstate Hmove _ IH];
    intros fuel h Hfuel.
  - destruct fuel as [|fuel]; [done|]. cbn [pdu_loop].
    destruct (Z.ltb_spec (d_index d) size); [lia|done].
  - destruct fuel as [|fuel]; [lia|]. cbn [pdu_loop].
    destruct (Z.ltb_spec (d_index d) size); [|lia]. rewrite Hdec.
    by rewrite (proj2 (Z.eqb_neq _ _) Hstate).
  - destruct fuel as [|fuel]; [lia|]. cbn [pdu_loop].
    destruct (Z.ltb_spec (d_index d) size); [|lia]. rewrite Hdec.
    rewrite (proj2 (Z.eqb_eq _ _) Hstate). cbn [negb foldl].
    apply IH. lia.
Qed.

(** C8: process_input_message unwraps a CCNProtocolDataUnit one level deep.
    With pdu_ok = 0 it only dispatches on the outermost tag, whatever the
    recursive call would do, and a message tagged as a PDU is then discarded
    as unknown with one log line.  With pdu_ok = 1 a PDU is unwrapped: the
    face is marked as a link, and the messages that the decoder finds in
    the body are handled one after the other, in their order, each by that
    dispatch with pdu_ok = 0.  So a PDU found there is discarded, while a
    message tagged Interest, ContentObject (either version) or Inject goes
    to process_incoming_interest, process_incoming_content or
    process_incoming_inject. *)
Theorem pdu_unwrapped_one_level h fp msg :
  tags_distinct →
  let d := outer_decode msg in
  let inner := λ h m, dispatch_message h fp m (outer_decode m) in
  (∀ recur, process_input_message_body recur h fp msg false
            = dispatch_message h fp msg d) ∧
  process_input_message h fp msg false = dispatch_message h fp msg d ∧
  (is_dtag d CCN_DTAG_CCNProtocolDataUnit = true →
     (∀ ms, pdu_messages (pdu_body msg) (pdu_size msg) (mk_decoder 0 0 0) ms →
        process_input_message h fp msg true
        = foldl inner (mark_link_face fp h) ms) ∧
     dispatch_message h fp msg d
     = emit (ccnd_msg "discarding unknown message; size = %lu" [nelem msg]) h) ∧
  (is_dtag d CCN_DTAG_CCNProtocolDataUnit = false →
     process_input_message h fp msg true = dispatch_message h fp msg d) ∧
  (is_dtag d CCN_DTAG_Interest = true →
     dispatch_message h fp msg d = process_incoming_interest h fp msg) ∧
  (is_dtag d CCN_DTAG_ContentObject = true ∨
   is_dtag d CCN_DTAG_ContentObjectV20080711 = true →
     dispatch_message h fp msg d = process_incoming_content h fp msg) ∧
  (is_dtag d CCN_DTAG_Inject = true →
     dispatch_message h fp msg d = process_incoming_inject h fp msg).
Proof.
  intros Htags d inner.
  assert (CCN_DTAG_Interest ≠ CCN_DTAG_ContentObject ∧
          CCN_DTAG_Interest ≠ CCN_DTAG_ContentObjectV20080711 ∧
          CCN_DTAG_Interest ≠ CCN_DTAG_Inject ∧
          CCN_DTAG_Interest ≠ CCN_DTAG_CCNProtocolDataUnit ∧
          CCN_DTAG_ContentObject ≠ CCN_DTAG_Inject ∧
          CCN_DTAG_ContentObject ≠ CCN_DTAG_CCNProtocolDataUnit ∧
          CCN_DTAG_ContentObjectV20080711 ≠ CCN_DTAG_Inject ∧
          CCN_DTAG_ContentObjectV20080711 ≠ CCN_DTAG_CCNProtocolDataUnit ∧
          CCN_DTAG_Inject ≠ CCN_DTAG_CCNProtocolDataUnit)
    as (H1 & H2 & H3 & H4 & H5 & H6 & H7 & H8 & H9).
  { unfold tags_distinct in Htags.
    rewrite !NoDup_cons, !not_elem_of_cons in Htags.
    destruct_and!; repeat split; congruence. }
  assert (∀ t, is_dtag d t = true →
            (d_state d >=? 0) &&
            (CCN_GET_TT_FROM_DSTATE (d_state d) =? CCN_DTAG) = true ∧
            d_numval d = t) as Htag.
  { intros t [Ha Hb%Z.eqb_eq]%andb_true_iff. done. }
  assert (process_input_message h fp msg true
          = if is_dtag d CCN_DTAG_CCNProtocolDataUnit
            then pdu_loop (Z.to_nat (pdu_size msg)) inner (mark_link_face fp h)
                   (pdu_body msg) (pdu_size msg) (mk_decoder 0 0 0)
            else dispatch_message h fp msg d) as Hpdu.
  { unfold process_input_message, process_input_message_body at 1.
    rewrite (surjective_pairing (ccn_skeleton_decode _ msg)).
    unfold is_dtag, pdu_size, pdu_body, mark_link_face.
    fold (outer_decode msg). fold d. rewrite andb_true_r.
    destruct ((d_state d >=? 0) && _ && _); [|done].
    apply pdu_loop_ext. intros. apply process_input_message_body_no_pdu. }
  split; [intros; apply process_input_message_body_no_pdu|].
  split; [apply process_input_message_body_no_pdu|].
  split; [intros Hd; split|].
  { intros ms Hms. rewrite Hpdu, Hd.
    apply (pdu_loop_messages _ _ _ _ _ Hms). cbn [d_index]. lia. }
  { apply Htag in Hd as [Ha Hb]. unfold dispatch_message. rewrite Ha, Hb.
    rewrite (proj2 (Z.eqb_neq _ CCN_DTAG_Interest)) by congruence.
    rewrite (proj2 (Z.eqb_neq _ CCN_DTAG_ContentObject)) by congruence.
    rewrite (proj2 (Z.eqb_neq _ CCN_DTAG_ContentObjectV20080711)) by congruence.
    rewrite (proj2 (Z.eqb_neq _ CCN_DTAG_Inject)) by congruence.
    done. }
  split; [intros Hd; by rewrite Hpdu, Hd|].
  split; [|split].
  - intros [Ha Hb]%Htag. unfold dispatch_message.
    by rewrite Ha, Hb, Z.eqb_refl.
  - intros [[Ha Hb]%Htag|[Ha Hb]%Htag]; unfold dispatch_message;
      rewrite Ha, Hb;
      rewrite (proj2 (Z.eqb_neq _ CCN_DTAG_Interest)) by congruence;
      rewrite Z.eqb_refl; by rewrite ?orb_true_r.
  - intros [Ha Hb]%Htag. unfold dispatch_message. rewrite Ha, Hb.
    rewrite (proj2 (Z.eqb_neq _ CCN_DTAG_Interest)) by congruence.
    rewrite (proj2 (Z.eqb_neq _ CCN_DTAG_ContentObject)) by congruence.
    rewrite (proj2 (Z.eqb_neq _ CCN_DTAG_ContentObjectV20080711)) by congruence.
    by rewrite Z.eqb_refl.
Qed.

End input.

(** The messages of the example PDUs: the two interests of [pdu_two], and
    the one PDU inside [pdu_nested]. *)
Lemma pdu_two_messages :
  pdu_messages (L := pdu_two_lib) (pdu_body (L := pdu_two_lib) pdu_two)
    (pdu_size (L := pdu_two_lib) pdu_two) (mk_decoder 0 0 0)
    [interest_any; interest_again].
Proof.
  apply (pdu_next (L := pdu_two_lib) (pdu_body (L := pdu_two_lib) pdu_two)
           (pdu_size (L := pdu_two_lib) pdu_two) (mk_decoder 0 0 0)
           (mk_decoder 0 0 3) 3 [interest_again]); [vm_compute; reflexivity..|].
  apply (pdu_next (L := pdu_two_lib) (pdu_body (L := pdu_two_lib) pdu_two)
           (pdu_size (L := pdu_two_lib) pdu_two) (mk_decoder 0 0 3)
           (mk_decoder 0 0 6) 3 []); [vm_compute; reflexivity..|].
  apply pdu_end. vm_compute. discriminate.
Qed.

Lemma pdu_nested_messages :
  pdu_messages (L := pdu_lib) (pdu_body (L := pdu_lib) pdu_nested)
    (pdu_size (L := pdu_lib) pdu_nested) (mk_decoder 0 0 0) [pdu_one].
Proof.
  apply (pdu_next (L := pdu_lib) (pdu_body (L := pdu_lib) pdu_nested)
           (pdu_size (L := pdu_lib) pdu_nested) (mk_decoder 0 0 0)
           (mk_decoder 0 0 5) 5 []); [vm_compute; reflexivity..|].
  apply pdu_end. vm_compute. discriminate.
Qed.

(** A PDU that holds two interests hands each of them to
    process_incoming_interest, which accepts both; a PDU that holds a PDU
    has it discarded with one log line, and the Interest inside is never
    looked at. *)
Lemma nested_pdu_witness :
  let h2 := two_faces (L := pdu_two_lib) in
  let two :=
    process_input_message (L := pdu_two_lib) (W := example_walk []) h2 1
      pdu_two true in
  let h := two_faces (L := pdu_lib) in
  let twice :=
    process_input_message (L := pdu_lib) (W := example_walk []) h 1 pdu_nested true in
  tags_distinct (L := pdu_lib) ∧
  two = process_incoming_interest (L := pdu_two_lib) (W := example_walk [])
          (process_incoming_interest (L := pdu_two_lib) (W := example_walk [])
             (mark_link_face 1 h2) 1 interest_any) 1 interest_again ∧
  (interests_accepted two = 2 ∧
   dom (propagating_tab two) = {[ [99]; [77] ]}) ∧
  twice = emit (ccnd_msg "discarding unknown message; size = %lu" [5])
            (mark_link_face 1 h).
Proof.
  cbv zeta.
  assert (tags_distinct (L := pdu_lib)) as Htags.
  { apply (bool_decide_unpack _). vm_compute. reflexivity. }
  assert (tags_distinct (L := pdu_two_lib)) as Htags2.
  { apply (bool_decide_unpack _). vm_compute. reflexivity. }
  split; [exact Htags|].
  assert (process_input_message (L := pdu_two_lib) (W := example_walk [])
            (two_faces (L := pdu_two_lib)) 1 pdu_two true
          = process_incoming_interest (L := pdu_two_lib) (W := example_walk [])
              (process_incoming_interest (L := pdu_two_lib) (W := example_walk [])
                 (mark_link_face 1 (two_faces (L := pdu_two_lib))) 1
                 interest_any) 1 interest_again) as Htwo.
  { destruct (pdu_unwrapped_one_level (L := pdu_two_lib) (W := example_walk [])
                (two_faces (L := pdu_two_lib)) 1 pdu_two Htags2)
      as (_ & _ & Hpdu & _).
    destruct Hpdu as [Hall _]; [vm_compute; reflexivity|].
    rewrite (Hall _ pdu_two_messages). cbn [foldl].
    destruct (pdu_unwrapped_one_level (L := pdu_two_lib) (W := example_walk [])
                (mark_link_face 1 (two_faces (L := pdu_two_lib))) 1
                interest_any Htags2) as (_ & _ & _ & _ & Hint1 & _).
    rewrite Hint1 by (vm_compute; reflexivity).
    destruct (pdu_unwrapped_one_level (L := pdu_two_lib) (W := example_walk [])
                (process_incoming_interest (L := pdu_two_lib)
                   (W := example_walk [])
                   (mark_link_face 1 (two_faces (L := pdu_two_lib))) 1
                   interest_any) 1 interest_again Htags2)
      as (_ & _ & _ & _ & Hint2 & _).
    by rewrite Hint2 by (vm_compute; reflexivity). }
  split; [exact Htwo|]. split.
  - split; vm_compute; reflexivity.
  - destruct (pdu_unwrapped_one_level (L := pdu_lib) (W := example_walk [])
                (two_faces (L := pdu_lib)) 1 pdu_nested Htags)
      as (_ & _ & Hpdu & _).
    destruct Hpdu as [Hall _]; [vm_compute; reflexivity|].
    rewrite (Hall _ pdu_nested_messages). cbn [foldl].
    destruct (pdu_unwrapped_one_level (L := pdu_lib) (W := example_walk [])
                (mark_link_face 1 (two_faces (L := pdu_lib))) 1 pdu_one Htags)
      as (_ & _ & Hdisc & _).
    destruct Hdisc as [_ ->]; [vm_compute; reflexivity|].
    reflexivity.
Defined.

Section forwarding.
Context `{L : ccn_lib} `{W : content_walk}.

(** ** The cached outbound set *)

Lemma land_pow2 x n :
  0 ≤ n → Z.land x (2 ^ n) = if Z.testbit x n then 2 ^ n else 0.
Proof.
  intros Hn. apply Z.bits_inj'. intros m Hm.
  rewrite Z.land_spec, Z.pow2_bits_eqb by done.
  destruct (Z.eqb_spec n m) as [->|Hne].
  - rewrite andb_true_r. destruct (Z.testbit x m) eqn:E.
    + by rewrite Z.pow2_bits_true.
    + by rewrite Z.bits_0.
  - rewrite andb_false_r. destruct (Z.testbit x n).
    + by rewrite Z.pow2_bits_false.
    + by rewrite Z.bits_0.
Qed.

Lemma flag_set_bit x n : 0 ≤ n → flag_set x (2 ^ n) = Z.testbit x n.
Proof.
  intros Hn. unfold flag_set. rewrite land_pow2 by done.
  destruct (Z.testbit x n); [|done].
  apply negb_true_iff, Z.eqb_neq. apply Z.pow_nonzero; lia.
Qed.

Lemma wantflags_both x :
  (Z.land x (Z.lor CCN_FORW_CHILD_INHERIT CCN_FORW_ACTIVE)
   =? Z.lor CCN_FORW_CHILD_INHERIT CCN_FORW_ACTIVE)
  = flag_set x CCN_FORW_ACTIVE && flag_set x CCN_FORW_CHILD_INHERIT.
Proof.
  change CCN_FORW_ACTIVE with (2 ^ 0). change CCN_FORW_CHILD_INHERIT with (2 ^ 1).
  rewrite !flag_set_bit by lia.
  change (Z.lor (2 ^ 1) (2 ^ 0)) with (Z.ones 2).
  destruct (Z.eqb_spec (Z.land x (Z.ones 2)) (Z.ones 2)) as [E|E].
  - pose proof (f_equal (λ z, Z.testbit z 0) E) as E0.
    pose proof (f_equal (λ z, Z.testbit z 1) E) as E1.
    cbv beta in E0, E1. rewrite Z.land_spec in E0, E1.
    change (Z.testbit (Z.ones 2) 0) with true in E0.
    change (Z.testbit (Z.ones 2) 1) with true in E1.
    rewrite andb_true_r in E0, E1. by rewrite E0, E1.
  - symmetry. apply not_true_is_false. intros [E0 E1]%andb_true_iff.
    apply E. apply Z.bits_inj'. intros m Hm.
    rewrite Z.land_spec, Z.testbit_ones by lia.
    destruct (Z.leb_spec 0 m); [|lia]. simpl.
    destruct (Z.ltb_spec m 2); [|by rewrite andb_false_r].
    rewrite andb_true_r.
    assert (m = 0 ∨ m = 1) as [-> | ->] by lia; done.
Qed.

Lemma member_from_spec x v : ∀ i,
  ccn_indexbuf_member_from i x v = -1 ∨ i ≤ ccn_indexbuf_member_from i x v.
Proof.
  induction x as [|y x IH]; intros i; simpl; [by left|].
  destruct (y =? v); [right; lia|].
  destruct (IH (i + 1)); [by left|right; lia].
Qed.

Lemma member_from_absent x v : ∀ i,
  0 ≤ i → (ccn_indexbuf_member_from i x v =? -1) = bool_decide (v ∉ x).
Proof.
  induction x as [|y x IH]; intros i Hi; simpl.
  - done.
  - destruct (Z.eqb_spec y v) as [->|Hne].
    + rewrite (proj2 (Z.eqb_neq _ _)) by lia.
      symmetry. apply bool_decide_eq_false. intros Hn. apply Hn. left.
    + rewrite IH by lia. apply bool_decide_ext.
      rewrite not_elem_of_cons. split; [intros ?; split; [congruence|done]|by intros [_ ?]].
Qed.

Lemma set_insert_elem x v y :
  y ∈ ccn_indexbuf_set_insert x v ↔ y ∈ x ∨ y = v.
Proof.
  unfold ccn_indexbuf_set_insert, ccn_indexbuf_member,
    ccn_indexbuf_append_element.
  rewrite member_from_absent by lia.
  case_bool_decide as Hv.
  - rewrite elem_of_app, list_elem_of_singleton. done.
  - split; [by left|]. intros [?| ->]; done.
Qed.

Lemma set_insert_NoDup x v : NoDup x → NoDup (ccn_indexbuf_set_insert x v).
Proof.
  intros Hx. unfold ccn_indexbuf_set_insert, ccn_indexbuf_member,
    ccn_indexbuf_append_element.
  rewrite member_from_absent by lia.
  case_bool_decide as Hv; [|done].
  apply NoDup_app. split; [done|]. split; [|apply NoDup_singleton].
  intros y Hy ->%list_elem_of_singleton. done.
Qed.

Lemma face_from_faceid_set_out o h fid :
  face_from_faceid (set_out o h) fid = face_from_faceid h fid.
Proof. done. Qed.

Lemma add_active_spec l : ∀ h x,
  ∃ o, fst (add_active h l x) = set_out o h ∧
    (NoDup x → NoDup (snd (add_active h l x))) ∧
    ∀ fid, fid ∈ snd (add_active h l x) ↔
      fid ∈ x ∨ ∃ f, f ∈ l ∧ forw_faceid f = fid ∧ active_record h f.
Proof.
  induction l as [|f l IH]; intros h x; cbn [add_active].
  { exists (out h). rewrite set_out_id. split; [done|]. split; [done|].
    intros fid. split; [by left|]. intros [?|(f & Hf & _)]; [done|].
    by apply elem_of_nil in Hf. }
  destruct (flag_set (forw_flags f) CCN_FORW_ACTIVE &&
            bool_decide (is_Some (face_from_faceid h (forw_faceid f)))) eqn:E.
  - apply andb_true_iff in E as [Ea Ef%bool_decide_eq_true].
    destruct (emit_if_set_out 32
                (ccnd_msg "at %d adding %u" [2090; forw_faceid f]) h)
      as [o1 ->].
    destruct (IH (set_out o1 h) (ccn_indexbuf_set_insert x (forw_faceid f)))
      as (o & -> & Hnd & Hin).
    exists o. split; [done|]. split; [auto using set_insert_NoDup|].
    intros fid. rewrite Hin, set_insert_elem. unfold active_record.
    setoid_rewrite face_from_faceid_set_out. split.
    + intros [[?| ->]|(g & Hg & Hfid & Hact)]; [by left| |].
      * right. exists f. split; [left|]. done.
      * right. exists g. split; [by right|]. done.
    + intros [?|(g & [->|Hg]%elem_of_cons & Hfid & Hact)]; [by left; left| |].
      * left. by right.
      * right. by exists g.
  - destruct (IH h x) as (o & -> & Hnd & Hin).
    exists o. split; [done|]. split; [done|].
    intros fid. rewrite Hin. split.
    + intros [?|(g & Hg & Hfid & Hact)]; [by left|].
      right. exists g. split; [by right|]. done.
    + intros [?|(g & [->|Hg]%elem_of_cons & Hfid & Hact)]; [by left| |].
      * destruct Hact as [Ha Hf]. rewrite Ha in E. simpl in E.
        apply bool_decide_eq_false in E. done.
      * right. by exists g.
Qed.

Lemma add_inherited_spec l : ∀ h x,
  ∃ o, fst (add_inherited h l x) = set_out o h ∧
    (NoDup x → NoDup (snd (add_inherited h l x))) ∧
    ∀ fid, fid ∈ snd (add_inherited h l x) ↔
      fid ∈ x ∨ ∃ f, f ∈ l ∧ forw_faceid f = fid ∧ inheritable_record h f.
Proof.
  induction l as [|f l IH]; intros h x; cbn [add_inherited].
  { exists (out h). rewrite set_out_id. split; [done|]. split; [done|].
    intros fid. split; [by left|]. intros [?|(f & Hf & _)]; [done|].
    by apply elem_of_nil in Hf. }
  cbv zeta. rewrite wantflags_both.
  destruct (flag_set (forw_flags f) CCN_FORW_ACTIVE &&
            flag_set (forw_flags f) CCN_FORW_CHILD_INHERIT &&
            bool_decide (is_Some (face_from_faceid h (forw_faceid f)))) eqn:E.
  - apply andb_true_iff in E as [[Ea Ec]%andb_true_iff Ef%bool_decide_eq_true].
    destruct (emit_if_set_out 32
                (ccnd_msg "at %d adding %u" [2066; forw_faceid f]) h)
      as [o1 ->].
    destruct (IH (set_out o1 h) (ccn_indexbuf_set_insert x (forw_faceid f)))
      as (o & -> & Hnd & Hin).
    exists o. split; [done|]. split; [auto using set_insert_NoDup|].
    intros fid. rewrite Hin, set_insert_elem. unfold inheritable_record.
    setoid_rewrite face_from_faceid_set_out. split.
    + intros [[?| ->]|(g & Hg & Hfid & Hact)]; [by left| |].
      * right. exists f. split; [left|]. done.
      * right. exists g. split; [by right|]. done.
    + intros [?|(g & [->|Hg]%elem_of_cons & Hfid & Hact)]; [by left; left| |].
      * left. by right.
      * right. by exists g.
  - destruct (IH h x) as (o & -> & Hnd & Hin).
    exists o. split; [done|]. split; [done|].
    intros fid. rewrite Hin. split.
    + intros [?|(g & Hg & Hfid & Hact)]; [by left|].
      right. exists g. split; [by right|]. done.
    + intros [?|(g & [->|Hg]%elem_of_cons & Hfid & Hact)]; [by left| |].
      * destruct Hact as (Ha & Hc & Hf). rewrite Ha, Hc in E. simpl in E.
        apply bool_decide_eq_false in E. done.
      * right. by exists g.
Qed.

Lemma wf_parents_shorter tab k e p :
  wf_parents tab → tab !! k = Some e → parent e = Some p →
  (length p < length k)%nat.
Proof.
  intros Hwf Hk Hp. specialize (Hwf k e Hk). unfold parent_shorter in Hwf.
  rewrite Hp in Hwf. by apply Nat.ltb_lt in Hwf.
Qed.

(** The walk up the parent links collects the inheritable records of every
    entry on the way; the fuel is enough when it exceeds the length of the
    key the walk starts from. *)
Lemma update_inherited_spec fuel : ∀ h p x,
  wf_parents (nameprefix_tab h) → (length p < fuel)%nat →
  ∃ o, fst (update_inherited fuel h (Some p) x) = set_out o h ∧
    (NoDup x → NoDup (snd (update_inherited fuel h (Some p) x))) ∧
    ∀ fid, fid ∈ snd (update_inherited fuel h (Some p) x) ↔
      fid ∈ x ∨
      ∃ a e f, (a = p ∨ ancestor (nameprefix_tab h) p a) ∧
               nameprefix_tab h !! a = Some e ∧ f ∈ forwarding e ∧
               forw_faceid f = fid ∧ inheritable_record h f.
Proof.
  induction fuel as [|fuel IH]; intros h p x Hwf Hlen; [lia|].
  cbn [update_inherited].
  destruct (nameprefix_tab h !! p) as [e|] eqn:Hp.
  2:{ exists (out h). rewrite set_out_id. split; [done|]. split; [done|].
      intros fid. split; [by left|].
      intros [?|(a & ea & f & [->|Hanc] & Ha & _)]; [done|congruence|].
      inversion Hanc; congruence. }
  destruct (add_inherited_spec (forwarding e) h x) as (o1 & Ho1 & Hnd1 & Hin1).
  destruct (add_inherited h (forwarding e) x) as [h1 x1].
  simpl in Ho1, Hnd1, Hin1. subst h1.
  destruct (parent e) as [q|] eqn:Hq.
  - pose proof (wf_parents_shorter _ _ _ _ Hwf Hp Hq) as Hlt.
    destruct (IH (set_out o1 h) q x1) as (o & Ho & Hnd & Hin); [done|lia|].
    exists o. split; [by rewrite Ho|]. split; [auto|].
    intros fid. rewrite Hin, Hin1. unfold inheritable_record.
    setoid_rewrite face_from_faceid_set_out.
    change (nameprefix_tab (set_out o1 h)) with (nameprefix_tab h). split.
    + intros [[?|(f & Hf & Hfid & Hi)]|(a & ea & f & Ha & Hea & Hf & Hfid & Hi)].
      * by left.
      * right. exists p, e, f. split; [by left|done].
      * right. exists a, ea, f. split; [|done]. right.
        destruct Ha as [->|Ha].
        -- by eapply ancestor_parent.
        -- by eapply ancestor_further.
    + intros [?|(a & ea & f & [->|Ha] & Hea & Hf & Hfid & Hi)].
      * by left; left.
      * left; right. exists f. split; [congruence|done].
      * right. exists a, ea, f. split; [|done].
        inversion Ha as [k0 e0 p0 Hk0 Hp0|k0 e0 p0 a0 Hk0 Hp0 Hrest]; subst.
        -- left. congruence.
        -- right. congruence.
  - destruct fuel; cbn [update_inherited]; cbn [fst snd].
    all: exists o1; split; [done|]; split; [done|].
    all: intros fid; rewrite Hin1; split.
    all: try (intros [?|(f & Hf & Hfid & Hi)];
              [by left|right; exists p, e, f; split; [by left|done]]).
    all: intros [?|(a & ea & f & [->|Ha] & Hea & Hf & Hfid & Hi)];
      [by left|right; exists f; split; [congruence|done]|].
    all: inversion Ha; congruence.
Qed.

Lemma ancestor_of_parent tab k e a :
  tab !! k = Some e →
  ancestor tab k a ↔ ∃ p, parent e = Some p ∧ (a = p ∨ ancestor tab p a).
Proof.
  intros Hk. split.
  - intros Ha. inversion Ha as [k0 e0 p0 Hk0 Hp0|k0 e0 p0 a0 Hk0 Hp0 Hrest]; subst.
    + exists a. split; [congruence|by left].
    + exists p0. split; [congruence|by right].
  - intros (p & Hp & [->|Ha]).
    + by eapply ancestor_parent.
    + by eapply ancestor_further.
Qed.

(** update_forward_to leaves in the entry the records that count there. *)
Lemma update_forward_to_spec h k npe :
  wf_parents (nameprefix_tab h) →
  nameprefix_tab h !! k = Some npe →
  ∃ o x,
    update_forward_to h k
    = update_npe k (λ npe,
        set_forward_to (if nelem x =? 0 then None else Some x)
          (set_fgen (forward_to_gen h) npe)) (set_out o h) ∧
    NoDup x ∧ ∀ fid, fid ∈ x ↔ forwards_to h k fid.
Proof.
  intros Hwf Hk. unfold update_forward_to. rewrite Hk.
  destruct (add_active_spec (forwarding npe) h []) as (o1 & Ho1 & Hnd1 & Hin1).
  destruct (add_active h (forwarding npe) []) as [h1 x1].
  simpl in Ho1, Hnd1, Hin1. subst h1. specialize (Hnd1 (NoDup_nil_2)).
  assert (∀ fid, fid ∈ x1 ↔
            ∃ f, f ∈ forwarding npe ∧ forw_faceid f = fid ∧ active_record h f)
    as Hown.
  { intros fid. rewrite Hin1. split; [|by right].
    intros [Hnil|?]; [by apply elem_of_nil in Hnil|done]. }
  destruct (parent npe) as [p|] eqn:Hp.
  - pose proof (wf_parents_shorter _ _ _ _ Hwf Hk Hp) as Hlt.
    destruct (update_inherited_spec (S (length k)) (set_out o1 h) p x1)
      as (o & Ho & Hnd & Hin); [done|lia|].
    destruct (update_inherited _ _ _ _) as [h2 x2].
    simpl in Ho, Hnd, Hin. subst h2.
    exists o, x2. split; [done|]. split; [auto|].
    intros fid. rewrite Hin, Hown. unfold forwards_to, inheritable_record.
    setoid_rewrite face_from_faceid_set_out.
    change (nameprefix_tab (set_out o1 h)) with (nameprefix_tab h).
    setoid_rewrite (ancestor_of_parent _ _ _ _ Hk). split.
    + intros [(f & Hf)|(a & e & f & Ha & Hrest)].
      * left. by exists npe, f.
      * right. exists a, e, f. split; [by exists p|done].
    + intros [(e & f & He & Hf)|(a & e & f & (q & Hq & Ha) & Hrest)].
      * left. exists f. by simplify_eq.
      * right. exists a, e, f. by simplify_eq.
  - cbn [update_inherited].
    exists o1, x1. split; [done|]. split; [done|].
    intros fid. rewrite Hown. unfold forwards_to.
    setoid_rewrite (ancestor_of_parent _ _ _ _ Hk). split.
    + intros (f & Hf). left. by exists npe, f.
    + intros [(e & f & He & Hf)|(a & e & f & (q & Hq & Ha) & Hrest)].
      * exists f. by simplify_eq.
      * congruence.
Qed.

Lemma face_from_faceid_faceid h fid face :
  face_from_faceid h fid = Some face → faceid face = fid.
Proof.
  unfold face_from_faceid.
  destruct (faces_by_faceid h !! _) as [[f|]|]; [|done..].
  destruct (Z.eqb_spec (faceid f) fid); [|done]. by intros [= <-].
Qed.

Lemma outbound_loop_spec from checkmask l : ∀ h x,
  ∃ o, fst (outbound_loop h from checkmask l x) = set_out o h ∧
    ∀ fid, fid ∈ snd (outbound_loop h from checkmask l x) ↔
      fid ∈ x ∨
      (fid ∈ l ∧ ∃ face, face_from_faceid h fid = Some face ∧
                         Some (face_slot face) ≠ from ∧
                         Z.land (face_flags face) checkmask = checkmask).
Proof.
  induction l as [|fid0 l IH]; intros h x; cbn [outbound_loop].
  { exists (out h). rewrite set_out_id. split; [done|].
    intros fid. split; [by left|]. intros [?|[Hnil _]]; [done|].
    by apply elem_of_nil in Hnil. }
  destruct (face_from_faceid h fid0) as [face|] eqn:Hface.
  - pose proof (face_from_faceid_faceid _ _ _ Hface) as Hid.
    destruct (bool_decide (Some (face_slot face) ≠ from) &&
              (Z.land (face_flags face) checkmask =? checkmask)) eqn:E.
    + apply andb_true_iff in E as [Efrom%bool_decide_eq_true Emask%Z.eqb_eq].
      destruct (emit_if_set_out 32
                  (ccnd_msg "at %d adding %u" [2136; faceid face]) h)
        as [o1 ->].
      destruct (IH (set_out o1 h) (ccn_indexbuf_append_element x (faceid face)))
        as (o & -> & Hin).
      exists o. split; [done|]. intros fid. rewrite Hin.
      unfold ccn_indexbuf_append_element.
      rewrite elem_of_app, list_elem_of_singleton, elem_of_cons.
      setoid_rewrite face_from_faceid_set_out. rewrite Hid. split.
      * intros [[?| ->]|[Hl Hrest]]; [by left| |by right; split; [right|]].
        right. split; [by left|]. by exists face.
      * intros [?|[[->|Hl] Hrest]]; [by left; left|by left; right|by right].
    + destruct (IH h x) as (o & -> & Hin).
      exists o. split; [done|]. intros fid. rewrite Hin, elem_of_cons. split.
      * intros [?|[Hl Hrest]]; [by left|by right; split; [right|]].
      * intros [?|[[->|Hl] (f & Hf & Hfrom & Hmask)]]; [by left| |right; eauto].
        rewrite Hface in Hf. injection Hf as <-.
        apply andb_false_iff in E as [E%bool_decide_eq_false|E%Z.eqb_neq]; done.
  - destruct (IH h x) as (o & -> & Hin).
    exists o. split; [done|]. intros fid. rewrite Hin, elem_of_cons. split.
    + intros [?|[Hl Hrest]]; [by left|by right; split; [right|]].
    + intros [?|[[->|Hl] (f & Hf & Hrest)]]; [by left|congruence|].
      right. split; [done|]. by exists f.
Qed.

(** C4: after update_forward_to the entry's forward_to holds, without
    repetition, exactly the faceids of the ACTIVE records of the entry and
    of the ACTIVE and CHILD_INHERIT records of its ancestors whose faces are
    alive (and no buffer at all when there are none), and the entry is
    stamped with the current generation.  So when get_outbound_faces finds
    the entry out of date, a face that an ancestor forwards to by such a
    record is in the outbound set, provided it is not the face the interest
    came from and the scope of the interest admits it. *)
Theorem forward_to_is_union h k npe :
  wf_parents (nameprefix_tab h) →
  nameprefix_tab h !! k = Some npe →
  (∃ npe',
     nameprefix_tab (update_forward_to h k) !! k = Some npe' ∧
     fgen npe' = forward_to_gen h ∧
     forward_to npe' ≠ Some [] ∧
     NoDup (default [] (forward_to npe')) ∧
     ∀ fid, fid ∈ default [] (forward_to npe') ↔ forwards_to h k fid) ∧
  (∀ from pi a e f face,
     fgen npe ≠ forward_to_gen h →
     ancestor (nameprefix_tab h) k a →
     nameprefix_tab h !! a = Some e →
     f ∈ forwarding e →
     inheritable_record h f →
     face_from_faceid h (forw_faceid f) = Some face →
     Some (face_slot face) ≠ from →
     scope pi ≠ 0 →
     (scope pi = 1 → flag_set (face_flags face) CCN_FACE_GG = true) →
     forw_faceid f ∈ snd (get_outbound_faces h from pi k)).
Proof.
  intros Hwf Hk.
  destruct (update_forward_to_spec h k npe Hwf Hk) as (o & x & Hup & Hnd & Hin).
  assert (nameprefix_tab (update_forward_to h k) !! k
          = Some (set_forward_to (if nelem x =? 0 then None else Some x)
                    (set_fgen (forward_to_gen h) npe))) as Hk'.
  { rewrite Hup. unfold update_npe. simpl.
    by rewrite lookup_alter_eq, Hk. }
  split.
  - eexists. split; [exact Hk'|]. simpl. split; [done|].
    unfold nelem. destruct x as [|y x]; simpl.
    + split; [done|]. split; [apply NoDup_nil_2|]. intros fid. apply Hin.
    + split; [done|]. split; [done|]. intros fid. apply Hin.
  - intros from pi a e f face Hgen Ha He Hf Hinh Hface Hfrom Hscope Hgg.
    assert (forw_faceid f ∈ x) as Hfx.
    { apply Hin. right. by exists a, e, f. }
    unfold get_outbound_faces. rewrite Hk.
    rewrite (proj2 (Z.eqb_neq _ _) Hgen). cbn [negb].
    rewrite Hk'. cbn [fmap option_fmap option_map].
    assert ((nelem x =? 0) = false) as Hx.
    { apply Z.eqb_neq. unfold nelem. destruct x; [|simpl; lia].
      by apply elem_of_nil in Hfx. }
    rewrite Hx. cbn [forward_to set_forward_to].
    rewrite (proj2 (Z.eqb_neq _ _) Hscope), Hx. cbn [orb].
    destruct (outbound_loop_spec from
                (if scope pi =? 1 then CCN_FACE_GG else 0) (rev x)
                (update_forward_to h k) []) as (o' & _ & Hout).
    apply Hout. right. split; [rewrite rev_alt; by apply elem_of_reverse_2|].
    exists face. split; [by rewrite Hup|]. split; [done|].
    destruct (Z.eqb_spec (scope pi) 1) as [E|E]; [|apply Z.land_0_r].
    specialize (Hgg E). change CCN_FACE_GG with (2 ^ 2) in *.
    rewrite flag_set_bit in Hgg by lia. rewrite land_pow2 by lia.
    by rewrite Hgg.
Qed.

(** *** The parent links that nameprefix_seek makes

    The entries for a name are made from its prefixes, shortest first, each
    with the one before as its parent.  When the offsets of the components
    do not decrease, as in a parsed name, the key of a new entry is longer
    than the key of its parent. *)

Lemma subbytes_longer (msg : bytes) lo hi1 hi2 :
  hi1 ≤ hi2 →
  subbytes msg lo hi1 ≠ subbytes msg lo hi2 →
  (length (subbytes msg lo hi1) < length (subbytes msg lo hi2))%nat.
Proof.
  unfold subbytes. intros Hle Hne.
  destruct (decide (Z.to_nat (hi1 - lo) = Z.to_nat (hi2 - lo))) as [E|E];
    [by rewrite E in Hne|].
  rewrite !length_take.
  destruct (decide (length (drop (Z.to_nat lo) msg) ≤ Z.to_nat (hi1 - lo))%nat)
    as [Hshort|Hlong]; [|lia].
  exfalso. apply Hne. rewrite !take_ge by lia. done.
Qed.

Lemma wf_parents_insert tab k e :
  wf_parents tab → parent_shorter k e = true → wf_parents (<[k := e]> tab).
Proof. intros Hwf He. by apply map_Forall_insert_2. Qed.

Lemma nameprefix_seek_loop_wf n : ∀ i h msg cs par res,
  (∀ a b, a ≤ b → buf cs a ≤ buf cs b) →
  wf_parents (nameprefix_tab h) →
  (∀ pk p, par = Some (pk, p) →
     ∃ j, j ≤ i ∧ pk = subbytes msg (buf cs 0) (buf cs j) ∧
          is_Some (nameprefix_tab h !! pk) ∧ parent_shorter pk p = true) →
  wf_parents (nameprefix_tab (nameprefix_seek_loop n i h msg cs par res).1.1).
Proof.
  induction n as [|n IH]; intros i h msg cs par res Hmono Hwf Hpar; [done|].
  cbn [nameprefix_seek_loop]. cbv zeta.
  set (k := subbytes msg (buf cs 0) (buf cs i)).
  destruct (nameprefix_tab h !! k) as [npe|] eqn:Hk.
  { apply IH; [done|done|]. intros pk p [= <- <-].
    exists i. split; [lia|]. split; [done|]. split; [by rewrite Hk|].
    by apply (Hwf k). }
  destruct (new_nameprefix h par) as [npe h1] eqn:Hnew.
  assert (nameprefix_tab h1 = nameprefix_tab h ∧
          parent npe = fst <$> par) as [Htab Hparent].
  { unfold new_nameprefix in Hnew. destruct par as [[pk p]|].
    - by injection Hnew as <- <-.
    - destruct (nrand48 (seed h)) as [r s']. by injection Hnew as <- <-. }
  assert (parent_shorter k npe = true) as Hshort.
  { unfold parent_shorter. rewrite Hparent. destruct par as [[pk p]|]; [|done].
    destruct (Hpar pk p eq_refl) as (j & Hj & -> & [e He] & _). simpl.
    apply Nat.ltb_lt, subbytes_longer; [by apply Hmono|].
    fold k. intros Heq. rewrite Heq in He. congruence. }
  apply IH; [done| |].
  - destruct par as [[pk p]|]; cbn [nameprefix_tab set_nameprefix_tab].
    + destruct (Hpar pk p eq_refl) as (j & Hj & Hpk & He & Hp).
      rewrite Htab. apply wf_parents_insert; [|done].
      by apply wf_parents_insert.
    + rewrite Htab. by apply wf_parents_insert.
  - intros pk p [= <- <-]. exists i. split; [lia|]. split; [done|].
    split; [|done].
    destruct par as [[pk p]|]; cbn [nameprefix_tab set_nameprefix_tab];
      by rewrite lookup_insert_eq.
Qed.

Lemma nameprefix_seek_wf h msg cs ncomps :
  (∀ a b, a ≤ b → buf cs a ≤ buf cs b) →
  wf_parents (nameprefix_tab h) →
  wf_parents (nameprefix_tab (nameprefix_seek h msg cs ncomps).1.1).
Proof.
  intros Hmono Hwf. unfold nameprefix_seek.
  destruct (ncomps + 1 >? nelem cs); [done|].
  by apply nameprefix_seek_loop_wf.
Qed.

End forwarding.

(** The prefix /a is registered for face 2 with CHILD_INHERIT; the entry of
    /a/b/c has no forwarding record of its own, and an interest that comes
    in from face 1 goes out to face 2. *)
Lemma fib_inheritance_witness :
  let h := fib_example (L := example_lib no_canned) in
  (forwarding <$> nameprefix_tab h !! name_abc) = Some [] ∧
  (forward_to <$> nameprefix_tab (update_forward_to h name_abc) !! name_abc)
  = Some (Some [2]) ∧
  2 ∈ snd (get_outbound_faces h (Some 1%nat) (parsed_interest 0 (-1)) name_abc).
Proof.
  cbv zeta.
  destruct (forward_to_is_union
              (fib_example (L := example_lib no_canned)) name_abc
              (default (mk_nameprefix None None [] None 0 0 0 0 0)
                 (nameprefix_tab (fib_example (L := example_lib no_canned))
                    !! name_abc)))
    as [_ Hout].
  - apply (bool_decide_unpack _). vm_compute. reflexivity.
  - vm_compute. reflexivity.
  - split; [vm_compute; reflexivity|]. split; [vm_compute; reflexivity|].
    refine (Hout (Some 1%nat) (parsed_interest 0 (-1)) [1]
              (default (mk_nameprefix None None [] None 0 0 0 0 0)
                 (nameprefix_tab (fib_example (L := example_lib no_canned))
                    !! [1]))
              (mk_forwarding 2 65539 100)
              (set_faceid 2 (new_face 6 CCN_FACE_INET)) _ _ _ _ _ _ _ _ _).
    + vm_compute. discriminate.
    + eapply ancestor_further; [vm_compute; reflexivity|reflexivity|].
      eapply ancestor_parent; [vm_compute; reflexivity|reflexivity].
    + vm_compute. reflexivity.
    + vm_compute. left.
    + split; [reflexivity|]. split; [reflexivity|]. vm_compute. eauto.
    + vm_compute. reflexivity.
    + vm_compute. discriminate.
    + vm_compute. discriminate.
    + vm_compute. discriminate.
Defined.

(** ** Counting pending interests *)

Lemma origin_count_insert (m : gmap bytes Z) k v fid :
  m !! k = None →
  origin_count (<[k := v]> m) fid
  = origin_count m fid + (if decide (v = fid) then 1 else 0).
Proof.
  intros Hk. unfold origin_count. destruct (decide (v = fid)) as [E|E].
  - rewrite map_filter_insert_True by done.
    rewrite map_size_insert_None; [lia|].
    apply map_lookup_filter_None_2. by left.
  - rewrite map_filter_insert_False by done.
    rewrite delete_id by done. lia.
Qed.

Lemma origin_count_delete (m : gmap bytes Z) k v fid :
  m !! k = Some v →
  origin_count m fid
  = origin_count (delete k m) fid + (if decide (v = fid) then 1 else 0).
Proof.
  intros Hk. rewrite <- (insert_delete_id m k v Hk) at 1.
  apply origin_count_insert, lookup_delete_eq.
Qed.

Lemma origin_count_nonneg m fid : 0 ≤ origin_count m fid.
Proof. unfold origin_count. lia. Qed.

Lemma origin_count_pos (m : gmap bytes Z) k v :
  m !! k = Some v → 1 ≤ origin_count m v.
Proof.
  intros Hk. rewrite (origin_count_delete m k v v Hk).
  pose proof (origin_count_nonneg (delete k m) v).
  destruct (decide (v = v)); [lia|done].
Qed.

Lemma origin_count_empty fid : origin_count ∅ fid = 0.
Proof. unfold origin_count. by rewrite map_filter_empty, map_size_empty. Qed.

Lemma sumZ_plus {A} (g g' : A → Z) l :
  sumZ (λ x, g x + g' x) l = sumZ g l + sumZ g' l.
Proof. unfold sumZ. induction l as [|x l IH]; simpl; [done|]. rewrite IH. lia. Qed.

Lemma sumZ_ext {A} (g g' : A → Z) l :
  (∀ x, x ∈ l → g x = g' x) → sumZ g l = sumZ g' l.
Proof.
  unfold sumZ. induction l as [|x l IH]; intros Hg; simpl; [done|].
  rewrite Hg by left. rewrite IH; [done|]. intros y Hy. apply Hg. by right.
Qed.

Lemma sumZ_zero {A} (l : list A) : sumZ (λ _, 0) l = 0.
Proof. unfold sumZ. induction l as [|x l IH]; simpl; [done|]. by rewrite IH. Qed.

Lemma sumZ_fmap {A B} (f : A → B) (g : B → Z) l :
  sumZ g (f <$> l) = sumZ (λ x, g (f x)) l.
Proof. unfold sumZ. induction l as [|x l IH]; simpl; [done|]. f_equal. apply IH. Qed.

Lemma sumZ_indicator (v : Z) (ids : list Z) :
  NoDup ids →
  sumZ (λ i, if decide (v = i) then 1 else 0) ids
  = if decide (v ∈ ids) then 1 else 0.
Proof.
  unfold sumZ. induction 1 as [|i ids Hi Hnd IH]; simpl.
  { destruct (decide (v ∈ [])) as [Hv|]; [by apply elem_of_nil in Hv|done]. }
  rewrite IH. destruct (decide (v = i)) as [->|Hne].
  - destruct (decide (i ∈ ids)); [done|].
    destruct (decide (i ∈ i :: ids)) as [|Hn]; [done|].
    exfalso. apply Hn. left.
  - destruct (decide (v ∈ ids)) as [Hv|Hv].
    + destruct (decide (v ∈ i :: ids)) as [|Hn]; [done|].
      exfalso. apply Hn. by right.
    + destruct (decide (v ∈ i :: ids)) as [[?|?]%elem_of_cons|]; done.
Qed.

(** Summing, over a list of distinct ids, the entries that have each id as
    origin counts the entries whose origin is in the list. *)
Lemma sum_origin_count (ids : list Z) (m : gmap bytes Z) :
  NoDup ids →
  sumZ (origin_count m) ids = Z.of_nat (size (filter (λ kv, kv.2 ∈ ids) m)).
Proof.
  intros Hnd. induction m as [|k v m Hk IH] using map_ind.
  { rewrite map_filter_empty, map_size_empty.
    rewrite (sumZ_ext _ (λ _, 0)); [apply sumZ_zero|].
    intros. apply origin_count_empty. }
  rewrite (sumZ_ext _ (λ i, origin_count m i + if decide (v = i) then 1 else 0))
    by (intros; by apply origin_count_insert).
  rewrite sumZ_plus, IH, sumZ_indicator by done.
  destruct (decide (v ∈ ids)) as [Hv|Hv].
  - rewrite map_filter_insert_True by done.
    rewrite map_size_insert_None; [lia|].
    apply map_lookup_filter_None_2. by left.
  - rewrite map_filter_insert_False by done.
    rewrite delete_id by done. lia.
Qed.

Section pending.
Context `{L : ccn_lib} `{W : content_walk}.

(** *** What leaves the views alone *)

Lemma pending_inv_views ofp h h' :
  views h' = views h → pending_inv ofp h → pending_inv ofp h'.
Proof.
  unfold views, pending_inv, counters_ok, origins_ok, table_ok, decided,
    pending_count.
  intros [= -> -> -> ->]. done.
Qed.

Lemma views_emit_if mask o h : views (emit_if mask o h) = views h.
Proof. unfold emit_if. by destruct (flag_set _ _). Qed.

Lemma views_update_pe k g h :
  (∀ pe, live_origin (g pe) = live_origin pe) →
  views (update_pe k g h) = views h.
Proof.
  intros Hg. unfold views, pit_view. simpl. f_equal. f_equal. f_equal.
  apply map_eq. intros i. rewrite !lookup_omap.
  destruct (decide (i = k)) as [->|Hne].
  - rewrite lookup_alter_eq. destruct (propagating_tab h !! k); simpl; [|done].
    apply Hg.
  - by rewrite lookup_alter_ne.
Qed.

Lemma views_update_face p g h :
  (∀ f, face_sight (g f) = face_sight f) →
  views (update_face p g h) = views h.
Proof.
  intros Hg. unfold views, face_view. simpl. f_equal. f_equal. f_equal.
  apply list_eq. intros i. rewrite !list_lookup_fmap.
  destruct (decide (i = p)) as [->|Hne].
  - rewrite list_lookup_alter_eq.
    destruct (faces_by_faceid h !! p) as [[f|]|]; simpl; [|done..].
    by rewrite Hg.
  - by rewrite list_lookup_alter_ne.
Qed.

(** The flags that process_input_message and process_incoming_inject set
    and clear are not CCN_FACE_UNDECIDED. *)
Lemma sight_link_face f :
  face_sight
    (set_face_flags
       (flag_clear (Z.lor (face_flags f) CCN_FACE_LINK) CCN_FACE_GG) f)
  = face_sight f.
Proof.
  unfold face_sight. cbn [faceid pending_interests face_flags set_face_flags].
  f_equal. change CCN_FACE_UNDECIDED with (2 ^ 9).
  rewrite !flag_set_bit by lia. unfold flag_clear.
  rewrite Z.land_spec, Z.lor_spec, Z.lnot_spec by lia.
  change (Z.testbit CCN_FACE_LINK 9) with false.
  change (Z.testbit CCN_FACE_GG 9) with false.
  by rewrite orb_false_r, andb_true_r.
Qed.

Lemma sight_dc_face f :
  face_sight (set_face_flags (Z.lor (face_flags f) CCN_FACE_DC) f)
  = face_sight f.
Proof.
  unfold face_sight. cbn [faceid pending_interests face_flags set_face_flags].
  f_equal. change CCN_FACE_UNDECIDED with (2 ^ 9).
  rewrite !flag_set_bit by lia. rewrite Z.lor_spec.
  change (Z.testbit CCN_FACE_DC 9) with false.
  by rewrite orb_false_r.
Qed.

End pending.

(** Rewriting to the views of the handle a function started from. *)
Ltac back_to_call :=
  match goal with
  | E : ?t = (?h2, _, _, _) |- context [views ?h2] =>
    is_var h2; replace h2 with (t.1.1.1) by (by rewrite E); clear E
  | E : ?t = (?h2, _, _) |- context [views ?h2] =>
    is_var h2; replace h2 with (t.1.1) by (by rewrite E); clear E
  | E : ?t = (?h2, _) |- context [views ?h2] =>
    is_var h2; replace h2 with (t.1) by (by rewrite E); clear E
  | E : ?t = (_, ?h2) |- context [views ?h2] =>
    is_var h2; replace h2 with (t.2) by (by rewrite E); clear E
  end.

Create Rewrite HintDb views.
#[global] Hint Rewrite @views_emit_if : views.
#[global] Hint Rewrite @views_update_pe using (intros; reflexivity) : views.
#[global] Hint Rewrite @views_update_face
  using (intros; first [reflexivity | apply sight_link_face | apply sight_dc_face])
  : views.

Ltac views_step :=
  first
    [ progress cbn [fst snd]
    | progress autorewrite with views
    | match goal with
      | |- context [views (?f ?h)] => progress change (views (f h)) with (views h)
      end
    | back_to_call ].

Ltac case_step :=
  match goal with
  | |- context [match ?t with _ => _ end] => destruct t eqn:?
  end.

Ltac views_tac := repeat case_step; repeat views_step; try reflexivity.

Ltac views_hyp :=
  match goal with
  | H : context [views _ = views _] |- _ => rewrite H
  end.

Ltac views_solve :=
  repeat first [case_step | views_step | views_hyp]; try reflexivity.

Ltac inv_back :=
  match goal with
  | E : ?t = (?h2, _, _, _) |- pending_inv _ ?h2 =>
    is_var h2; replace h2 with (t.1.1.1) by (by rewrite E); clear E
  | E : ?t = (?h2, _, _) |- pending_inv _ ?h2 =>
    is_var h2; replace h2 with (t.1.1) by (by rewrite E); clear E
  | E : ?t = (?h2, _) |- pending_inv _ ?h2 =>
    is_var h2; replace h2 with (t.1) by (by rewrite E); clear E
  end.

Ltac inv_views :=
  match goal with
  | |- pending_inv _ _ =>
    eapply pending_inv_views;
    [progress (repeat first [views_step | views_hyp]); reflexivity|]
  end.

Ltac head_scrutinee e :=
  lazymatch e with
  | fst ?e' => head_scrutinee e'
  | snd ?e' => head_scrutinee e'
  | match ?t with _ => _ end => t
  end.

(** A step of the proof that a function keeps the invariant.  Where the
    function goes on with the handle that a call returns, the invariant is
    shown for that handle first, and the rest is done from there.  The
    lemmas of the functions that are called are hypotheses of the goal. *)
Ltac inv_step :=
  first
    [ assumption
    | progress cbn [fst snd]
    | match goal with IH : ∀ _, _ |- pending_inv _ _ => apply IH end
    | inv_back
    | inv_views
    | inv_seq
    | case_step ]
with inv_seq :=
  lazymatch goal with
  | |- pending_inv ?o ?e =>
    let t := head_scrutinee e in
    let H := fresh "Hinv" in
    lazymatch type of t with
    | (ccnd_handle * _ * _ * _)%type =>
      assert (pending_inv o t.1.1.1) as H by (repeat inv_step);
      destruct t as [[[? ?] ?] ?]; cbn [fst snd] in H
    | (ccnd_handle * _ * _)%type =>
      assert (pending_inv o t.1.1) as H by (repeat inv_step);
      destruct t as [[? ?] ?]; cbn [fst snd] in H
    | (ccnd_handle * _)%type =>
      assert (pending_inv o t.1) as H by (repeat inv_step);
      destruct t as [? ?]; cbn [fst snd] in H
    | _ => destruct t eqn:?
    end
  end.

Ltac inv_solve := intros; repeat inv_step.

Section pending_interests.
Context `{L : ccn_lib} `{W : content_walk}.

Lemma views_new_nameprefix h par : views (new_nameprefix h par).2 = views h.
Proof. unfold new_nameprefix. views_solve. Qed.
#[local] Hint Rewrite views_new_nameprefix : views.

Lemma views_nameprefix_seek_loop n : ∀ i h msg comps par res,
  views (nameprefix_seek_loop n i h msg comps par res).1.1 = views h.
Proof.
  induction n as [|n IH]; intros; cbn [nameprefix_seek_loop]; views_solve.
Qed.
#[local] Hint Rewrite views_nameprefix_seek_loop : views.

Lemma views_nameprefix_seek h msg comps ncomps :
  views (nameprefix_seek h msg comps ncomps).1.1 = views h.
Proof. unfold nameprefix_seek. views_solve. Qed.
#[local] Hint Rewrite views_nameprefix_seek : views.

Lemma views_ccnd_reg_prefix h msg comps ncomps fid flags expires :
  views (ccnd_reg_prefix h msg comps ncomps fid flags expires).1 = views h.
Proof. unfold ccnd_reg_prefix. views_solve. Qed.
#[local] Hint Rewrite views_ccnd_reg_prefix : views.

Lemma views_ccnd_reg_uri h uri fid flags expires :
  views (ccnd_reg_uri h uri fid flags expires).1 = views h.
Proof. unfold ccnd_reg_uri. views_solve. Qed.
#[local] Hint Rewrite views_ccnd_reg_uri : views.

Lemma views_register_new_face h f : views (register_new_face h f) = views h.
Proof. unfold register_new_face. views_solve. Qed.
#[local] Hint Rewrite views_register_new_face : views.

Lemma views_ccnd_req_prefixreg h msg :
  views (ccnd_req_prefixreg h msg).1 = views h.
Proof. unfold ccnd_req_prefixreg. views_solve. Qed.
#[local] Hint Rewrite views_ccnd_req_prefixreg : views.

Lemma views_add_inherited l : ∀ h x, views (add_inherited h l x).1 = views h.
Proof. induction l as [|f l IH]; intros; cbn [add_inherited]; views_solve. Qed.
#[local] Hint Rewrite views_add_inherited : views.

Lemma views_update_inherited fuel : ∀ h npe x,
  views (update_inherited fuel h npe x).1 = views h.
Proof.
  induction fuel as [|fuel IH]; intros; cbn [update_inherited]; views_solve.
Qed.
#[local] Hint Rewrite views_update_inherited : views.

Lemma views_add_active l : ∀ h x, views (add_active h l x).1 = views h.
Proof. induction l as [|f l IH]; intros; cbn [add_active]; views_solve. Qed.
#[local] Hint Rewrite views_add_active : views.

Lemma views_update_forward_to h k : views (update_forward_to h k) = views h.
Proof. unfold update_forward_to. views_solve. Qed.
#[local] Hint Rewrite views_update_forward_to : views.

Lemma views_outbound_loop from checkmask l : ∀ h x,
  views (outbound_loop h from checkmask l x).1 = views h.
Proof. induction l as [|f l IH]; intros; cbn [outbound_loop]; views_solve. Qed.
#[local] Hint Rewrite views_outbound_loop : views.

Lemma views_get_outbound_faces h from pi k :
  views (get_outbound_faces h from pi k).1 = views h.
Proof. unfold get_outbound_faces. views_solve. Qed.
#[local] Hint Rewrite views_get_outbound_faces : views.

Lemma views_link_propagating h k n :
  views (link_propagating_interest_to_nameprefix h k n) = views h.
Proof. unfold link_propagating_interest_to_nameprefix. views_solve. Qed.
#[local] Hint Rewrite views_link_propagating : views.

Lemma views_pe_next_usec h k next_delay lineno :
  views (pe_next_usec h k next_delay lineno).1 = views h.
Proof. unfold pe_next_usec. views_solve. Qed.
#[local] Hint Rewrite views_pe_next_usec : views.

Lemma views_adjust_outbound h face msg pi npe ob :
  views (adjust_outbound_for_existing_interests h face msg pi npe ob).1.1
  = views h.
Proof.
  destruct (adjust_outbound_for_existing_interests h face msg pi npe ob)
    as [[h1 ob1] e1] eqn:E.
  by apply adjust_outbound_set_out in E as [o ->].
Qed.
#[local] Hint Rewrite views_adjust_outbound : views.

Lemma views_is_duplicate_flooded h msg pi fid :
  views (is_duplicate_flooded h msg pi fid).1 = views h.
Proof. unfold is_duplicate_flooded. views_solve. Qed.
#[local] Hint Rewrite views_is_duplicate_flooded : views.

Lemma views_randomize_content_delay h cq :
  views (randomize_content_delay h cq).1 = views h.
Proof. unfold randomize_content_delay. views_solve. Qed.
#[local] Hint Rewrite views_randomize_content_delay : views.

Lemma views_face_send_queue_insert h fp ck :
  views (face_send_queue_insert h fp ck).1 = views h.
Proof. unfold face_send_queue_insert. views_solve. Qed.
#[local] Hint Rewrite views_face_send_queue_insert : views.

Lemma views_mark_stale h ck : views (mark_stale h ck) = views h.
Proof. unfold mark_stale. views_solve. Qed.
#[local] Hint Rewrite views_mark_stale : views.

Lemma views_count_old_format_interest h pi :
  views (count_old_format_interest h pi) = views h.
Proof. unfold count_old_format_interest. views_solve. Qed.
#[local] Hint Rewrite views_count_old_format_interest : views.

Lemma views_count_old_format_content h obj :
  views (count_old_format_content h obj) = views h.
Proof. unfold count_old_format_content. views_solve. Qed.
#[local] Hint Rewrite views_count_old_format_content : views.

Lemma views_set_content_timer h ck pco :
  views (set_content_timer h ck pco) = views h.
Proof. unfold set_content_timer. views_solve. Qed.
#[local] Hint Rewrite views_set_content_timer : views.

Lemma views_delete_content h ck : views (delete_content h ck) = views h.
Proof. unfold delete_content. views_solve. Qed.
#[local] Hint Rewrite views_delete_content : views.

Lemma views_enroll_content h accession ck :
  views (enroll_content h accession ck) = views h.
Proof. unfold enroll_content. views_solve. Qed.
#[local] Hint Rewrite views_enroll_content : views.

Lemma views_content_nosend qs : ∀ h acc fid msg,
  views (content_nosend h qs acc fid msg).1 = views h.
Proof. induction qs as [|oq qs IH]; intros; cbn [content_nosend]; views_solve. Qed.
#[local] Hint Rewrite views_content_nosend : views.

Lemma views_do_write h face data : views (do_write h face data) = views h.
Proof. unfold do_write. views_solve. Qed.
#[local] Hint Rewrite views_do_write : views.

Lemma views_stuff_prefix face ps : ∀ h c remaining_space,
  views (stuff_prefix h face ps c remaining_space).1.1.1 = views h.
Proof. induction ps as [|pk ps IH]; intros; cbn [stuff_prefix]; views_solve. Qed.
#[local] Hint Rewrite views_stuff_prefix : views.

Lemma views_stuff_prefixes face ns : ∀ h c remaining_space n_stuffed,
  views (stuff_prefixes h face ns c remaining_space n_stuffed).1.1 = views h.
Proof. induction ns as [|n ns IH]; intros; cbn [stuff_prefixes]; views_solve. Qed.
#[local] Hint Rewrite views_stuff_prefixes : views.

Lemma views_ccn_stuff_interest h face c :
  views (ccn_stuff_interest h face c).1.1 = views h.
Proof. unfold ccn_stuff_interest. views_solve. Qed.
#[local] Hint Rewrite views_ccn_stuff_interest : views.

Lemma views_stuff_and_send h face data :
  views (stuff_and_send h face data) = views h.
Proof. unfold stuff_and_send. views_solve. Qed.
#[local] Hint Rewrite views_stuff_and_send : views.

Lemma views_adjust_predicted_response h k up :
  views (adjust_predicted_response h k up) = views h.
Proof. unfold adjust_predicted_response. views_solve. Qed.
#[local] Hint Rewrite views_adjust_predicted_response : views.

Lemma views_reap_needed h d : views (reap_needed h d) = views h.
Proof. unfold reap_needed. views_solve. Qed.
#[local] Hint Rewrite views_reap_needed : views.

Lemma views_process_incoming_inject h fp msg :
  views (process_incoming_inject h fp msg) = views h.
Proof. unfold process_incoming_inject. views_solve. Qed.
#[local] Hint Rewrite views_process_incoming_inject : views.

(** *** Entries that come and go *)

Lemma pit_view_update_pe k g h :
  (∀ pe, live_origin (g pe) = live_origin pe) →
  pit_view (update_pe k g h) = pit_view h.
Proof.
  intros Hg. pose proof (views_update_pe k g h Hg) as Hv.
  unfold views in Hv. by injection Hv.
Qed.

Lemma pit_view_kill k h :
  pit_view (update_pe k (set_interest_msg None) h) = delete k (pit_view h).
Proof.
  unfold pit_view. simpl. apply map_eq. intros i.
  destruct (decide (i = k)) as [->|Hne].
  - rewrite lookup_delete_eq, lookup_omap, lookup_alter_eq.
    by destruct (propagating_tab h !! k).
  - by rewrite lookup_delete_ne, !lookup_omap, lookup_alter_ne.
Qed.

Lemma pit_view_lookup h k fid :
  pit_view h !! k = Some fid ↔
  ∃ pe, propagating_tab h !! k = Some pe ∧ is_Some (interest_msg pe) ∧
        pe_faceid pe = fid.
Proof.
  unfold pit_view. rewrite lookup_omap_Some. unfold live_origin. split.
  - intros (pe & Hlive & Hk). exists pe. split; [done|].
    destruct (interest_msg pe); [|done]. split; [eauto|congruence].
  - intros (pe & Hk & [m Hm] & Hfid). exists pe. split; [|done].
    rewrite Hm. congruence.
Qed.

Lemma face_view_lookup h p fid c u :
  face_view h !! p = Some (Some (fid, c, u)) ↔
  ∃ f, faces_by_faceid h !! p = Some (Some f) ∧ face_sight f = (fid, c, u).
Proof.
  unfold face_view. rewrite list_lookup_fmap. split.
  - destruct (faces_by_faceid h !! p) as [[f|]|];
      cbn [fmap option_fmap option_map list_fmap]; [|done..].
    intros [= <- <- <-]. by exists f.
  - intros (f & -> & <-). done.
Qed.

Lemma face_view_update_face h p fid c0 u c :
  face_view h !! p = Some (Some (fid, c0, u)) →
  face_view (update_face p (set_pending_interests c) h)
  = <[p := Some (fid, c, u)]> (face_view h).
Proof.
  intros Hp. pose proof (lookup_lt_Some _ _ _ Hp) as Hlt.
  apply face_view_lookup in Hp as (f & Hp & [= <- <- <-]).
  unfold face_view, update_face. simpl.
  apply list_eq. intros i. rewrite list_lookup_fmap.
  destruct (decide (i = p)) as [->|Hne].
  - rewrite list_lookup_alter_eq, Hp. simpl.
    by rewrite list_lookup_insert_eq.
  - rewrite list_lookup_alter_ne, list_lookup_insert_ne by done.
    by rewrite list_lookup_fmap.
Qed.

Lemma face_from_faceid_slot h fid f :
  face_from_faceid h fid = Some f ↔
  faces_by_faceid h !! Z.to_nat (Z.land fid MAXFACES) = Some (Some f) ∧
  faceid f = fid.
Proof.
  unfold face_from_faceid.
  destruct (faces_by_faceid h !! _) as [[g|]|].
  - destruct (Z.eqb_spec (faceid g) fid) as [E|E].
    + split; [by intros [= ->]|by intros [[= ->] _]].
    + split; [done|]. intros [[= ->] ?]. done.
  - split; [done|by intros [? _]].
  - split; [done|by intros [? _]].
Qed.

(** Under the invariant, the faces that are enrolled are found by their
    ids. *)
Lemma live_face_found h p fid c u :
  counters_ok h → face_view h !! p = Some (Some (fid, c, u)) →
  ∃ f, face_from_faceid h fid = Some f ∧ face_slot f = p ∧
       face_sight f = (fid, c, u).
Proof.
  intros Hok Hp. destruct (Hok p fid c u Hp) as [Hslot _].
  apply face_view_lookup in Hp as (f & Hf & Hs).
  injection Hs as Hfid Hc Hu.
  exists f. split; [|split].
  - apply face_from_faceid_slot. by rewrite Hslot.
  - unfold face_slot. by rewrite Hfid.
  - unfold face_sight. by rewrite Hfid, Hc, Hu.
Qed.

Lemma origin_count_zero (m : gmap bytes Z) fid :
  origin_count m fid = 0 ↔ ∀ k, m !! k ≠ Some fid.
Proof.
  split.
  - intros Hz k Hk. pose proof (origin_count_pos m k fid Hk). lia.
  - intros Hno. unfold origin_count.
    rewrite (proj2 (map_size_empty_iff _)); [done|].
    apply map_empty. intros k. apply map_lookup_filter_None_2.
    destruct (m !! k) as [v|] eqn:Hk; [right|by left].
    intros ? [= <-] Hv. simpl in Hv. subst v. by apply (Hno k).
Qed.

(** One live entry with origin [fid] goes away, and the counter of the
    face with that id, if there is one, goes down by one. *)
Lemma pending_inv_kill ofp h h' k fid :
  pending_inv ofp h →
  pit_view h !! k = Some fid →
  pit_view h' = delete k (pit_view h) →
  face_view h' = match face_from_faceid h fid with
                 | Some f =>
                   <[face_slot f :=
                       Some (fid, pending_interests f - 1,
                             flag_set (face_flags f) CCN_FACE_UNDECIDED)]>
                     (face_view h)
                 | None => face_view h
                 end →
  face_gen h' = face_gen h → face_rover h' = face_rover h →
  pending_inv ofp h'.
Proof.
  intros (Hok & Horig & Htab & Hdec) Hk Hpit Hfv Hgen Hrov.
  assert (∀ fid', pending_count h' fid'
                  = pending_count h fid' - if decide (fid = fid') then 1 else 0)
    as Hcount.
  { intros fid'. unfold pending_count. rewrite Hpit.
    rewrite (origin_count_delete _ _ _ fid' Hk). lia. }
  assert (1 ≤ pending_count h fid) as Hpos
    by (by eapply origin_count_pos).
  assert (length (face_view h') = length (face_view h)) as Hlen.
  { rewrite Hfv. destruct (face_from_faceid h fid); [|done].
    by rewrite length_insert. }
  assert (origins_ok h') as Horig'.
  { intros k' fid' Hk'. rewrite Hgen, Hrov. rewrite Hpit in Hk'.
    apply lookup_delete_Some in Hk' as [_ Hk']. by eapply Horig. }
  assert (table_ok h') as Htab'.
  { unfold table_ok in *. by rewrite Hgen, Hrov, Hlen. }
  split; [|split; [done|split; [done|]]].
  - intros p fid' c u Hp. rewrite Hcount, Hgen, Hrov.
    destruct (face_from_faceid h fid) as [f|] eqn:Hf.
    + apply face_from_faceid_slot in Hf as [Hf Hfid].
      assert (face_view h !! face_slot f
              = Some (Some (fid, pending_interests f,
                            flag_set (face_flags f) CCN_FACE_UNDECIDED)))
        as Hview.
      { apply face_view_lookup. exists f. unfold face_slot, face_sight.
        by rewrite Hfid. }
      destruct (Hok _ _ _ _ Hview) as (Hslot & Hc & Hlt & Hu).
      rewrite Hfv in Hp. destruct (decide (p = face_slot f)) as [->|Hne].
      * rewrite list_lookup_insert_eq in Hp by (by eapply lookup_lt_Some).
        injection Hp as <- <- <-. split; [done|].
        destruct (decide (fid = fid)); [|done].
        split; [lia|]. split; [done|]. intros Hund. specialize (Hu Hund). lia.
      * rewrite list_lookup_insert_ne in Hp by done.
        destruct (Hok _ _ _ _ Hp) as (Hslot' & Hc' & Hlt' & Hu').
        split; [done|].
        destruct (decide (fid = fid')) as [->|]; [congruence|].
        split; [lia|]. done.
    + rewrite Hfv in Hp. destruct (Hok _ _ _ _ Hp) as (Hslot' & Hc' & Hlt' & Hu').
      split; [done|]. destruct (decide (fid = fid')) as [->|].
      * destruct (live_face_found h p fid' c u Hok Hp) as (f & Hff & _).
        congruence.
      * split; [lia|]. done.
  - intros fp Hfp fid' c u Hp. rewrite Hfv in Hp.
    destruct (face_from_faceid h fid) as [f|] eqn:Hf; [|by eapply Hdec].
    apply face_from_faceid_slot in Hf as [Hf Hfid].
    assert (face_view h !! face_slot f
            = Some (Some (fid, pending_interests f,
                          flag_set (face_flags f) CCN_FACE_UNDECIDED)))
      as Hview.
    { apply face_view_lookup. exists f. unfold face_slot, face_sight.
      by rewrite Hfid. }
    destruct (decide (fp = face_slot f)) as [->|Hne].
    + rewrite list_lookup_insert_eq in Hp by (by eapply lookup_lt_Some).
      injection Hp as <- <- <-. by eapply Hdec.
    + rewrite list_lookup_insert_ne in Hp by done. by eapply Hdec.
Qed.


Lemma consume_pending_inv ofp h k :
  pending_inv ofp h → pending_inv ofp (consume h k).
Proof.
  intros Hinv. unfold consume.
  destruct (propagating_tab h !! k) as [pe|] eqn:Hk; [|done].
  destruct (interest_msg pe) as [m|] eqn:Hm.
  2:{ revert Hinv. apply pending_inv_views. views_solve. }
  cbv zeta.
  change (face_from_faceid (update_pe k (set_interest_msg None)
            (update_pe k finished_propagating h)) (pe_faceid pe))
    with (face_from_faceid h (pe_faceid pe)).
  apply (pending_inv_kill ofp h _ k (pe_faceid pe) Hinv).
  - apply pit_view_lookup. exists pe. rewrite Hm. eauto.
  - destruct (face_from_faceid h (pe_faceid pe)), (pe_link pe);
      rewrite ?pit_view_update_pe by done;
      repeat match goal with
        | |- context [pit_view (update_npe ?a ?b ?x)] =>
          change (pit_view (update_npe a b x)) with (pit_view x)
        | |- context [pit_view (update_face ?a ?b ?x)] =>
          change (pit_view (update_face a b x)) with (pit_view x)
        end;
      rewrite ?pit_view_update_pe by done;
      by rewrite pit_view_kill, pit_view_update_pe.
  - destruct (face_from_faceid h (pe_faceid pe)) as [f|] eqn:Hf.
    + apply face_from_faceid_slot in Hf as [Hf Hfid].
      assert (face_view h !! face_slot f
              = Some (Some (pe_faceid pe, pending_interests f,
                            flag_set (face_flags f) CCN_FACE_UNDECIDED)))
        as Hslot.
      { apply face_view_lookup. exists f. unfold face_slot, face_sight.
        by rewrite Hfid. }
      rewrite <- (face_view_update_face h _ _ _ _ _ Hslot).
      by destruct (pe_link pe).
    + by destruct (pe_link pe).
  - by destruct (face_from_faceid h (pe_faceid pe)), (pe_link pe).
  - by destruct (face_from_faceid h (pe_faceid pe)), (pe_link pe).
Qed.

Lemma pit_view_consume h k : pit_view (consume h k) = delete k (pit_view h).
Proof.
  unfold consume.
  destruct (propagating_tab h !! k) as [pe|] eqn:Hk.
  2:{ rewrite delete_id; [done|]. unfold pit_view. by rewrite lookup_omap, Hk. }
  assert (∀ x, pit_view
            (update_pe k (set_pe_usec 0)
               match pe_link pe with
               | Some n =>
                 update_pe k (set_pe_link None)
                   (update_npe n (λ npe,
                      set_propagating_head
                        (filter (λ k', k' ≠ k) <$> propagating_head npe) npe) x)
               | None => x
               end) = pit_view x) as Hlink.
  { intros x. destruct (pe_link pe); rewrite !pit_view_update_pe by done; done. }
  rewrite Hlink. destruct (interest_msg pe) as [m|] eqn:Hm.
  - transitivity (pit_view (update_pe k (set_interest_msg None)
                              (update_pe k finished_propagating h))).
    { by destruct (face_from_faceid _ _). }
    by rewrite pit_view_kill, pit_view_update_pe.
  - rewrite pit_view_update_pe by done. rewrite delete_id; [done|].
    unfold pit_view. rewrite lookup_omap, Hk. simpl. unfold live_origin.
    by rewrite Hm.
Qed.

Lemma delete_propagating_pending_inv ofp h k :
  pending_inv ofp h → pending_inv ofp (delete_propagating h k).
Proof.
  intros Hinv. unfold delete_propagating, finalize_propagating.
  apply (pending_inv_views ofp (consume h k)); [|by apply consume_pending_inv].
  unfold views. f_equal. f_equal. f_equal.
  unfold pit_view at 1. cbn [propagating_tab set_propagating_tab].
  rewrite omap_delete. fold (pit_view (consume h k)).
  rewrite pit_view_consume. apply delete_id, lookup_delete_eq.
Qed.

(** A live entry with origin [fid] comes in under a key that was free, and
    the counter of the face in slot [fp], which has that id and is not
    undecided, goes up by one. *)
Lemma pending_inv_new h h' fp fid c u k :
  pending_inv (Some fp) h →
  face_view h !! fp = Some (Some (fid, c, u)) →
  pit_view h !! k = None →
  views h' = (<[k := fid]> (pit_view h),
              <[fp := Some (fid, c + 1, u)]> (face_view h),
              face_gen h, face_rover h) →
  pending_inv (Some fp) h'.
Proof.
  intros (Hok & Horig & Htab & Hdec) Hfp Hk Hv. unfold views in Hv.
  injection Hv as Hpit Hfv Hgen Hrov.
  assert (∀ fid', pending_count h' fid'
                  = pending_count h fid' + if decide (fid = fid') then 1 else 0)
    as Hcount.
  { intros fid'. unfold pending_count. rewrite Hpit.
    by apply origin_count_insert. }
  destruct (Hok _ _ _ _ Hfp) as (Hslot & Hc & Hlt & Hu).
  assert (u = false) as -> by (by eapply (Hdec fp)).
  split; [|split; [|split]].
  - intros p fid' c' u' Hp. rewrite Hcount, Hgen, Hrov. rewrite Hfv in Hp.
    destruct (decide (p = fp)) as [->|Hne].
    + rewrite list_lookup_insert_eq in Hp by (by eapply lookup_lt_Some).
      injection Hp as <- <- <-. split; [done|].
      destruct (decide (fid = fid)); [|done]. split; [lia|]. done.
    + rewrite list_lookup_insert_ne in Hp by done.
      destruct (Hok _ _ _ _ Hp) as (Hslot' & Hc' & Hlt' & Hu').
      split; [done|].
      destruct (decide (fid = fid')) as [->|]; [congruence|].
      split; [lia|]. done.
  - intros k' fid' Hk'. rewrite Hgen, Hrov. rewrite Hpit in Hk'.
    apply lookup_insert_Some in Hk' as [[_ <-]|[_ Hk']]; [done|].
    by eapply Horig.
  - unfold table_ok in *. by rewrite Hgen, Hrov, Hfv, length_insert.
  - intros ? [= <-] fid' c' u' Hp. rewrite Hfv in Hp.
    rewrite list_lookup_insert_eq in Hp by (by eapply lookup_lt_Some).
    by injection Hp as <- <- <-.
Qed.

Lemma propagate_interest_pending_inv h fp msg pi n ob :
  pending_inv (Some fp) h →
  pending_inv (Some fp) (propagate_interest h fp msg pi n ob).1.
Proof.
  intros Hinv. unfold propagate_interest.
  destruct (face_at h fp) as [face|] eqn:Hface; [|done].
  destruct (nameprefix_tab h !! n) as [npe|]; [|done].
  match goal with
  | |- context [match ?t with _ => _ end] =>
    match type of t with (ccnd_handle * _ * _)%type => idtac end;
    assert (views t.1.1 = views h) as Hadj by views_solve;
    destruct t as [[h1 ob1] extra_delay]
  end.
  cbn [fst] in Hadj.
  match goal with
  | |- context [match ?t with _ => _ end] =>
    match type of t with (_ * _ * _ * ccnd_handle)%type => idtac end;
    assert (views t.2 = views h) as Hseed by views_solve;
    destruct t as [[[msg_out msg_out_size] nonce] h2]
  end.
  cbn [snd] in Hseed.
  assert (pending_inv (Some fp) h2) as Hinv2
    by (by apply (pending_inv_views _ h)).
  destruct (propagating_tab h2 !! nonce) as [old|] eqn:Hnonce.
  { cbn [fst]. revert Hinv2. apply pending_inv_views. views_solve. }
  cbv zeta.
  set (pe := mk_propagating None ob1 (Some msg_out) msg_out_size _
               (faceid face) CCN_INTEREST_LIFETIME_MICROSEC).
  set (h4 := update_face fp
               (set_pending_interests (pending_interests face + 1))
               (set_propagating_tab (<[nonce := pe]> (propagating_tab h2)) h2)).
  assert (face_view h2 !! fp
          = Some (Some (faceid face, pending_interests face,
                        flag_set (face_flags face) CCN_FACE_UNDECIDED)))
    as Hfp.
  { replace (face_view h2) with (face_view h)
      by (unfold views in Hseed; by injection Hseed).
    apply face_view_lookup. exists face. split; [|done].
    unfold face_at in Hface. by destruct (faces_by_faceid h !! fp) as [[?|]|];
      simplify_eq/=. }
  match goal with
  | |- pending_inv _ ?t.1 => assert (views t.1 = views h4) as Hv by views_solve
  end.
  apply (pending_inv_new h2 _ fp (faceid face) (pending_interests face)
           (flag_set (face_flags face) CCN_FACE_UNDECIDED) nonce);
    [done|done|..].
  - unfold pit_view. by rewrite lookup_omap, Hnonce.
  - rewrite Hv. unfold views.
    replace (pit_view h4) with (<[nonce := faceid face]> (pit_view h2)).
    2:{ unfold h4, pit_view.
        cbn [propagating_tab update_face set_faces_by_faceid set_propagating_tab].
        by rewrite (omap_insert_Some _ _ _ _ (faceid face)). }
    replace (face_view h4)
      with (<[fp := Some (faceid face, pending_interests face + 1,
                          flag_set (face_flags face) CCN_FACE_UNDECIDED)]>
              (face_view h2)); [done|].
    unfold h4. symmetry.
    by apply (face_view_update_face
                (set_propagating_tab (<[nonce := pe]> (propagating_tab h2)) h2)
                fp (faceid face) (pending_interests face)).
Qed.

(** *** The invariant is kept *)

Lemma consume_matching_loop_pending_inv ofp ps :
  ∀ h ck content_msg fp matches,
  pending_inv ofp h →
  pending_inv ofp (consume_matching_loop h ps ck content_msg fp matches).1.
Proof.
  pose proof consume_pending_inv.
  induction ps as [|pk ps IH]; intros; cbn [consume_matching_loop]; inv_solve.
Qed.

Lemma consume_matching_interests_pending_inv ofp h n ck fp :
  pending_inv ofp h → pending_inv ofp (consume_matching_interests h n ck fp).1.
Proof.
  pose proof consume_matching_loop_pending_inv.
  unfold consume_matching_interests. inv_solve.
Qed.

Lemma match_interests_loop_pending_inv ofp n :
  ∀ h ci ck content_msg cs fp from_face cm n_matched,
  pending_inv ofp h →
  pending_inv ofp
    (match_interests_loop h n ci ck content_msg cs fp from_face cm n_matched).1.
Proof.
  pose proof consume_matching_interests_pending_inv.
  induction n as [|n IH]; intros; cbn [match_interests_loop]; inv_solve.
Qed.

Lemma match_interests_pending_inv ofp h ck fp from_face :
  pending_inv ofp h → pending_inv ofp (match_interests h ck fp from_face).1.
Proof.
  pose proof match_interests_loop_pending_inv.
  unfold match_interests. inv_solve.
Qed.

Lemma accept_interest_pending_inv h fp msg pi cs :
  pending_inv (Some fp) h → pending_inv (Some fp) (accept_interest h fp msg pi cs).
Proof.
  pose proof propagate_interest_pending_inv.
  pose proof match_interests_pending_inv.
  unfold accept_interest. inv_solve.
Qed.

Lemma process_incoming_interest_pending_inv h fp msg :
  pending_inv (Some fp) h →
  pending_inv (Some fp) (process_incoming_interest h fp msg).
Proof.
  pose proof accept_interest_pending_inv.
  unfold process_incoming_interest. inv_solve.
Qed.

Lemma content_arrived_pending_inv ofp h fp ck res msg :
  pending_inv ofp h → pending_inv ofp (content_arrived h fp ck res msg).
Proof.
  pose proof match_interests_pending_inv.
  unfold content_arrived. inv_solve.
Qed.

Lemma process_incoming_content_pending_inv ofp h fp wire_msg :
  pending_inv ofp h → pending_inv ofp (process_incoming_content h fp wire_msg).
Proof.
  pose proof content_arrived_pending_inv.
  unfold process_incoming_content. inv_solve.
Qed.

Lemma dispatch_message_pending_inv h fp msg d :
  pending_inv (Some fp) h → pending_inv (Some fp) (dispatch_message h fp msg d).
Proof.
  pose proof process_incoming_interest_pending_inv.
  pose proof process_incoming_content_pending_inv.
  unfold dispatch_message. inv_solve.
Qed.

Lemma pdu_loop_pending_inv ofp fuel recur :
  (∀ h m, pending_inv ofp h → pending_inv ofp (recur h m)) →
  ∀ h msg size d,
    pending_inv ofp h → pending_inv ofp (pdu_loop fuel recur h msg size d).
Proof.
  intros Hrecur. induction fuel as [|fuel IH]; intros; cbn [pdu_loop];
    inv_solve.
Qed.

Lemma process_input_message_body_pending_inv recur h fp msg pdu_ok :
  (∀ h m ok, pending_inv (Some fp) h → pending_inv (Some fp) (recur h fp m ok)) →
  pending_inv (Some fp) h →
  pending_inv (Some fp) (process_input_message_body recur h fp msg pdu_ok).
Proof.
  intros Hrecur Hinv. unfold process_input_message_body.
  repeat case_step; try (by apply dispatch_message_pending_inv).
  all: apply pdu_loop_pending_inv; [intros; by apply Hrecur|].
  all: revert Hinv; apply pending_inv_views; views_solve.
Qed.

Lemma process_input_message_pending_inv h fp msg pdu_ok :
  pending_inv (Some fp) h →
  pending_inv (Some fp) (process_input_message h fp msg pdu_ok).
Proof.
  unfold process_input_message.
  apply process_input_message_body_pending_inv. intros.
  by apply process_input_message_body_pending_inv.
Qed.

Lemma do_propagate_pending_inv ofp h ev cancel :
  pending_inv ofp h → pending_inv ofp (do_propagate h ev cancel).1.
Proof.
  pose proof consume_pending_inv.
  unfold do_propagate. inv_solve.
Qed.

Lemma check_propagating_entry_pending_inv ofp hc k :
  pending_inv ofp hc.1 → pending_inv ofp (check_propagating_entry hc k).1.
Proof.
  pose proof delete_propagating_pending_inv.
  unfold check_propagating_entry. destruct hc as [h c]. inv_solve.
Qed.

Lemma check_propagating_pending_inv ofp h :
  pending_inv ofp h → pending_inv ofp (check_propagating h).1.
Proof.
  unfold check_propagating. generalize 0.
  generalize (map_to_list (propagating_tab h)).*1. intros ks. revert h.
  induction ks as [|k ks IH]; intros h c Hinv; [done|]. cbn [foldl].
  pose proof (check_propagating_entry_pending_inv ofp (h, c) k Hinv) as Hstep.
  destruct (check_propagating_entry (h, c) k) as [h1 c1]. by apply IH.
Qed.

End pending_interests.

#[global] Hint Rewrite
  @views_new_nameprefix
  @views_nameprefix_seek_loop
  @views_nameprefix_seek
  @views_ccnd_reg_prefix
  @views_ccnd_reg_uri
  @views_register_new_face
  @views_ccnd_req_prefixreg
  @views_add_inherited
  @views_update_inherited
  @views_add_active
  @views_update_forward_to
  @views_outbound_loop
  @views_get_outbound_faces
  @views_link_propagating
  @views_pe_next_usec
  @views_adjust_outbound
  @views_is_duplicate_flooded
  @views_randomize_content_delay
  @views_face_send_queue_insert
  @views_mark_stale
  @views_count_old_format_interest
  @views_count_old_format_content
  @views_set_content_timer
  @views_delete_content
  @views_enroll_content
  @views_content_nosend
  @views_do_write
  @views_stuff_prefix
  @views_stuff_prefixes
  @views_ccn_stuff_interest
  @views_stuff_and_send
  @views_adjust_predicted_response
  @views_reap_needed
  @views_process_incoming_inject : views.

Section faces.
Context `{L : ccn_lib} `{W : content_walk}.

(** *** Faces that come and go *)

Lemma pending_inv_None ofp h : pending_inv ofp h → pending_inv None h.
Proof. intros (? & ? & ? & _). split; [done|]. split; [done|]. by split. Qed.

Lemma land_slot i :
  0 ≤ i ≤ MAXFACES → Z.land i MAXFACES = i.
Proof.
  intros Hi. change MAXFACES with (Z.ones 18) in *.
  rewrite Z.land_ones by lia. apply Z.mod_small.
  change (Z.ones 18) with (2 ^ 18 - 1) in Hi. lia.
Qed.

Lemma lor_slot i gen :
  0 ≤ i ≤ MAXFACES → Z.land gen MAXFACES = 0 →
  Z.land (Z.lor i gen) MAXFACES = i.
Proof.
  intros Hi Hgen. by rewrite Z.land_lor_distr_l, Hgen, Z.lor_0_r, land_slot.
Qed.

(** An id is the sum of the slot and the generation. *)
Lemma lor_add_slot i gen :
  0 ≤ i ≤ MAXFACES → Z.land gen MAXFACES = 0 → Z.lor i gen = i + gen.
Proof.
  intros Hi Hgen.
  assert (Z.land i gen = 0) as Hdisj.
  { rewrite <- (land_slot i Hi), <- Z.land_assoc, (Z.land_comm MAXFACES), Hgen.
    apply Z.land_0_r. }
  by rewrite Z.add_nocarry_lxor, Z.lxor_lor.
Qed.

Lemma pending_inv_remove_face ofp h h' p :
  pending_inv ofp h →
  views h' = (pit_view h, <[p := None]> (face_view h), face_gen h,
              face_rover h) →
  pending_inv ofp h'.
Proof.
  intros (Hok & Horig & Htab & Hdec) Hv. unfold views in Hv.
  injection Hv as Hpit Hfv Hgen Hrov.
  assert (∀ q fid c u, face_view h' !! q = Some (Some (fid, c, u)) →
            face_view h !! q = Some (Some (fid, c, u))) as Hold.
  { intros q fid c u Hq. rewrite Hfv in Hq.
    destruct (decide (q = p)) as [->|Hne].
    - pose proof (lookup_lt_Some _ _ _ Hq) as Hlt.
      rewrite length_insert in Hlt.
      by rewrite list_lookup_insert_eq in Hq.
    - by rewrite list_lookup_insert_ne in Hq. }
  split; [|split; [|split]].
  - intros q fid c u Hq%Hold. unfold pending_count.
    rewrite Hpit, Hgen, Hrov. by apply Hok.
  - intros k fid Hk. rewrite Hgen, Hrov. rewrite Hpit in Hk. by eapply Horig.
  - unfold table_ok in *. by rewrite Hgen, Hrov, Hfv, length_insert.
  - intros fp Hfp fid c u Hq%Hold. by eapply Hdec.
Qed.

(** The face that got the last id is undecided and goes away: its id is
    given out again. *)
Lemma pending_inv_recycle ofp h h' p fid c :
  pending_inv ofp h →
  face_view h !! p = Some (Some (fid, c, true)) →
  fid = Z.lor (u32 (face_rover h - 1)) (face_gen h) →
  views h' = (pit_view h, <[p := None]> (face_view h), face_gen h,
              u32 (face_rover h - 1)) →
  pending_inv ofp h'.
Proof.
  intros (Hok & Horig & Htab & Hdec) Hp Hfid Hv. unfold views in Hv.
  injection Hv as Hpit Hfv Hgen Hrov.
  destruct Htab as (Hg & Hg32 & Hr & Hlen).
  destruct (Hok _ _ _ _ Hp) as (Hslot & Hc & Hlt & Hu).
  specialize (Hu eq_refl). pose proof (lookup_lt_Some _ _ _ Hp) as Hplt.
  assert (Z.of_nat (length (face_view h)) ≤ MAXFACES) as HlenZ.
  { rewrite <- (Z2Nat.id MAXFACES) by done. by apply Nat2Z.inj_le. }
  assert (1 ≤ face_rover h) as Hr1.
  { destruct (decide (face_rover h = 0)) as [Hr0|]; [|lia]. exfalso.
    rewrite Hr0 in Hfid.
    assert (Z.land fid MAXFACES = MAXFACES) as Hall.
    { rewrite Hfid, Z.land_lor_distr_l, Hg, Z.lor_0_r. by vm_compute. }
    rewrite Hall in Hslot. lia. }
  assert (u32 (face_rover h - 1) = face_rover h - 1) as Hu32.
  { unfold u32. apply Z.mod_small. split; [lia|].
    assert (MAXFACES < 2 ^ 32) by (by vm_compute). lia. }
  rewrite Hu32 in *.
  rewrite (lor_add_slot (face_rover h - 1) (face_gen h)) in Hfid;
    [|lia|exact Hg].
  assert (∀ q fid' c' u', face_view h' !! q = Some (Some (fid', c', u')) →
            face_view h !! q = Some (Some (fid', c', u')) ∧ q ≠ p) as Hold.
  { intros q fid' c' u' Hq. rewrite Hfv in Hq.
    destruct (decide (q = p)) as [->|Hne].
    - pose proof (lookup_lt_Some _ _ _ Hq) as Hlt'.
      rewrite length_insert in Hlt'.
      by rewrite list_lookup_insert_eq in Hq.
    - by rewrite list_lookup_insert_ne in Hq. }
  split; [|split; [|split]].
  - intros q fid' c' u' [Hq Hne]%Hold. unfold pending_count.
    rewrite Hpit, Hgen, Hrov.
    destruct (Hok _ _ _ _ Hq) as (Hslot' & Hc' & Hlt' & Hu').
    split; [done|]. split; [done|]. split; [|done].
    assert (fid' ≠ fid) by congruence. lia.
  - intros k fid' Hk. rewrite Hgen, Hrov. rewrite Hpit in Hk.
    pose proof (Horig _ _ Hk) as Hlt'.
    assert (fid' ≠ fid); [|lia]. intros ->.
    unfold pending_count in Hc. rewrite Hu in Hc. symmetry in Hc.
    by apply (proj1 (origin_count_zero _ _) Hc k).
  - unfold table_ok. rewrite Hgen, Hrov, Hfv, length_insert.
    split; [done|]. split; [done|]. split; [lia|done].
  - intros fp Hfp fid' c' u' [Hq _]%Hold. by eapply Hdec.
Qed.

Lemma finalize_face_pending_inv ofp h p :
  pending_inv ofp h → pending_inv ofp (finalize_face h p).
Proof.
  intros Hinv. unfold finalize_face.
  destruct (face_at h p) as [face|] eqn:Hface; [|done].
  destruct (Z.land (faceid face) MAXFACES =? Z.of_nat p); [|done].
  cbv zeta. cbn [face_rover face_gen set_faces_by_faceid].
  destruct (flag_set (face_flags face) CCN_FACE_UNDECIDED &&
            (faceid face =? Z.lor (u32 (face_rover h - 1)) (face_gen h)))
    eqn:Hrec.
  - apply andb_true_iff in Hrec as [Hund Hid%Z.eqb_eq].
    apply (pending_inv_recycle ofp h _ p (faceid face)
             (pending_interests face) Hinv); [|done|].
    + apply face_view_lookup. exists face. unfold face_sight.
      rewrite Hund. split; [|done]. unfold face_at in Hface.
      by destruct (faces_by_faceid h !! p) as [[?|]|]; simplify_eq/=.
    + unfold views, face_view. simpl. by rewrite list_fmap_insert.
  - apply (pending_inv_remove_face ofp h _ p Hinv).
    unfold views, face_view. simpl. by rewrite list_fmap_insert.
Qed.

Lemma shutdown_client_fd_pending_inv ofp h p :
  pending_inv ofp h → pending_inv ofp (shutdown_client_fd h p).
Proof.
  intros Hinv. unfold shutdown_client_fd.
  destruct (face_at h p); [|done].
  apply (pending_inv_views ofp
           (finalize_face
              (emit (ccnd_msg "shutdown client fd=%d id=%d"
                       [recv_fd f; faceid f]) h) p));
    [views_solve|].
  by apply finalize_face_pending_inv.
Qed.

Lemma scan_null_spec a : ∀ s i,
  scan_null a s = Some i →
  ∃ j : nat, i = s + Z.of_nat j ∧ a !! j = Some None.
Proof.
  induction a as [|o a IH]; intros s i; simpl; [done|].
  destruct o as [f|].
  - intros (j & -> & Hj)%IH. exists (S j). split; [lia|done].
  - intros [= <-]. exists O. split; [lia|done].
Qed.

(** A face with a counter of 0 is put into a free slot, under an id that
    names the slot and is not below the next id of the table before. *)
Lemma pending_inv_add_face h h' (i : nat) fid u gen' rover' ext :
  pending_inv None h →
  (face_view h ++ replicate ext None) !! i = Some None →
  Z.to_nat (Z.land fid MAXFACES) = i →
  face_gen h + face_rover h ≤ fid → fid < gen' + rover' →
  Z.land gen' MAXFACES = 0 → 0 ≤ gen' < 2 ^ 32 →
  0 ≤ rover' ≤ Z.of_nat (length (face_view h) + ext) →
  (length (face_view h) + ext ≤ Z.to_nat MAXFACES)%nat →
  views h' = (pit_view h,
              <[i := Some (fid, 0, u)]> (face_view h ++ replicate ext None),
              gen', rover') →
  pending_inv None h'.
Proof.
  intros (Hok & Horig & Htab & _) Hi Hslot Hfresh Hnext Hgen Hg32 Hrov Hlen Hv.
  unfold views in Hv. injection Hv as Hpit Hfv Hgen' Hrov'.
  assert (pending_count h' fid = 0) as Hzero.
  { unfold pending_count. rewrite Hpit. apply origin_count_zero.
    intros k Hk. apply Horig in Hk. lia. }
  split; [|split; [|split]].
  - intros q fid' c u' Hq. rewrite Hgen', Hrov'. rewrite Hfv in Hq.
    destruct (decide (q = i)) as [->|Hne].
    + rewrite list_lookup_insert_eq in Hq by (by eapply lookup_lt_Some).
      injection Hq as <- <- <-. by rewrite Hzero.
    + rewrite list_lookup_insert_ne in Hq by done.
      apply lookup_app_Some in Hq as [Hq|[_ Hq]].
      2:{ by apply lookup_replicate in Hq as [? _]. }
      destruct (Hok _ _ _ _ Hq) as (Hslot' & Hc' & Hlt' & Hu').
      unfold pending_count in *. rewrite Hpit.
      split; [done|]. split; [done|]. split; [lia|done].
  - intros k fid' Hk. rewrite Hgen', Hrov'. rewrite Hpit in Hk.
    apply Horig in Hk. lia.
  - unfold table_ok. rewrite Hgen', Hrov', Hfv.
    by rewrite length_insert, length_app, length_replicate.
  - done.
Qed.

Lemma enroll_face_use_pending_inv h0 h a (i : nat) f ext :
  pending_inv None h0 →
  views h = (pit_view h0, face_view h0, face_gen h, face_rover h0) →
  Z.land (face_gen h) MAXFACES = 0 → 0 ≤ face_gen h < 2 ^ 32 →
  face_gen h0 + face_rover h0 ≤ Z.of_nat i + face_gen h →
  a = faces_by_faceid h0 ++ replicate ext None →
  a !! i = Some None →
  (length a ≤ Z.to_nat MAXFACES)%nat →
  pending_interests f = 0 →
  pending_inv None (enroll_face_use h a (Z.of_nat i) f).1.
Proof.
  intros Hinv Hv Hgen Hg32 Hfresh -> Hi Hlen Hf. unfold enroll_face_use.
  cbn [fst snd].
  pose proof (lookup_lt_Some _ _ _ Hi) as Hlt.
  assert (0 ≤ Z.of_nat i ≤ MAXFACES) as Hrange.
  { split; [lia|]. rewrite <- (Z2Nat.id MAXFACES) by done. lia. }
  eapply (pending_inv_views None
            (set_face_rover (Z.of_nat i + 1)
               (set_faces_by_faceid
                  (<[Z.to_nat (Z.of_nat i) :=
                       Some (set_faceid (Z.lor (Z.of_nat i) (face_gen h)) f)]>
                     (faces_by_faceid h0 ++ replicate ext None)) h)));
    [views_solve|].
  rewrite length_app, length_replicate in Hlen, Hlt.
  apply (pending_inv_add_face h0 _ i (Z.lor (Z.of_nat i) (face_gen h))
           (flag_set (face_flags f) CCN_FACE_UNDECIDED)
           (face_gen h) (Z.of_nat i + 1) ext Hinv).
  - replace (face_view h0 ++ replicate ext None)
      with (fmap (M := list) (fmap (M := option) face_sight)
              (faces_by_faceid h0 ++ replicate ext None))
      by (by rewrite fmap_app, fmap_replicate).
    by rewrite list_lookup_fmap, Hi.
  - rewrite lor_slot by done. lia.
  - rewrite lor_add_slot by done. lia.
  - rewrite lor_add_slot by done. lia.
  - done.
  - done.
  - unfold face_view. rewrite length_fmap. lia.
  - unfold face_view. by rewrite length_fmap.
  - unfold views, face_view. simpl. rewrite Nat2Z.id.
    rewrite list_fmap_insert, fmap_app, fmap_replicate. simpl.
    unfold views in Hv. injection Hv as Hpit _. unfold face_sight at 1.
    cbn [faceid pending_interests face_flags set_faceid]. rewrite Hf.
    change (pit_view (set_face_rover ?r (set_faces_by_faceid ?x h)))
      with (pit_view h). by rewrite Hpit.
Qed.

Lemma enroll_face_pending_inv h f :
  pending_inv None h → pending_interests f = 0 →
  face_gen h + (MAXFACES + 1) < 2 ^ 32 →
  pending_inv None (enroll_face h f).1.
Proof.
  intros Hinv Hf Hwrap.
  pose proof Hinv as (_ & _ & (Hgen & Hg32 & Hrov & Hlen) & _).
  unfold face_view in Hlen, Hrov. rewrite length_fmap in Hlen, Hrov.
  assert (Z.of_nat (length (faces_by_faceid h)) ≤ MAXFACES) as HlenZ.
  { rewrite <- (Z2Nat.id MAXFACES) by done. by apply Nat2Z.inj_le. }
  unfold enroll_face.
  destruct (scan_null (drop _ _) _) as [i|] eqn:E1.
  { apply scan_null_spec in E1 as (j & -> & Hj). rewrite lookup_drop in Hj.
    replace (face_rover h + Z.of_nat j)
      with (Z.of_nat (Z.to_nat (face_rover h) + j)) by lia.
    apply (enroll_face_use_pending_inv h h _ _ f 0); try done.
    - lia.
    - by rewrite app_nil_r.
  }
  destruct (scan_null (faces_by_faceid h) 0) as [i|] eqn:E2.
  { apply scan_null_spec in E2 as (j & -> & Hj).
    replace (0 + Z.of_nat j) with (Z.of_nat j) by lia.
    assert (u32 (face_gen h + (MAXFACES + 1)) = face_gen h + (MAXFACES + 1))
      as Hnext by (unfold u32; apply Z.mod_small; lia).
    apply (enroll_face_use_pending_inv h _ _ _ f 0); try done.
    - cbn [face_gen set_face_gen]. rewrite Hnext.
      rewrite <- (Z.add_0_l (face_gen h + _)), Z.add_assoc.
      change (MAXFACES + 1) with (1 * 2 ^ 18).
      change MAXFACES with (Z.ones 18) in *. rewrite Z.land_ones in * by lia.
      by rewrite Z.add_0_l, Z_mod_plus_full.
    - cbn [face_gen set_face_gen]. rewrite Hnext. lia.
    - cbn [face_gen set_face_gen]. rewrite Hnext. lia.
    - by rewrite app_nil_r.
  }
  cbv zeta.
  set (n := Z.of_nat (length (faces_by_faceid h))) in *.
  set (i := if (n + 1) * 3 / 2 >? MAXFACES then MAXFACES else (n + 1) * 3 / 2).
  destruct (Z.leb_spec i n) as [Hle|Hgt]; [done|].
  assert (i ≤ MAXFACES) as Hi.
  { unfold i. destruct (Z.gtb_spec ((n + 1) * 3 / 2) MAXFACES); lia. }
  apply (enroll_face_use_pending_inv h h _ _ f (Z.to_nat (i - n))); try done.
  - unfold n. lia.
  - rewrite lookup_app_r by done. rewrite Nat.sub_diag.
    apply lookup_replicate_2. lia.
  - rewrite length_app, length_replicate.
    apply Nat2Z.inj_le. rewrite Z2Nat.id by done. unfold n in *. lia.
Qed.

Lemma ccnd_create_pending_inv id dbg cap mtu0 flood0 pause s u4 u6 :
  pending_inv None (ccnd_create id dbg cap mtu0 flood0 pause s u4 u6).
Proof.
  split; [|split; [|split]].
  - intros p fid c u Hp. apply face_view_lookup in Hp as (f & Hp & _).
    unfold ccnd_create in Hp. cbn [faces_by_faceid] in Hp.
    by apply lookup_replicate in Hp as [? _].
  - intros k fid Hk. unfold pit_view, ccnd_create in Hk.
    cbn [propagating_tab] in Hk. by rewrite omap_empty, lookup_empty in Hk.
  - unfold table_ok, face_view, ccnd_create.
    cbn [faces_by_faceid face_gen face_rover].
    rewrite length_fmap, length_replicate.
    split; [done|]. split; [done|]. split; [done|].
    apply Nat2Z.inj_le. rewrite Z2Nat.id by done. by vm_compute.
  - done.
Qed.

(** process_input takes a face to be a ccn peer. *)
Lemma decide_pending_inv h fp :
  pending_inv None h →
  pending_inv None
    (update_face fp (λ f,
       set_face_flags (flag_clear (face_flags f) CCN_FACE_UNDECIDED) f) h).
Proof.
  intros (Hok & Horig & Htab & _).
  set (h' := update_face fp _ h).
  assert (∀ q fid c u, face_view h' !! q = Some (Some (fid, c, u)) →
            ∃ u0, face_view h !! q = Some (Some (fid, c, u0)) ∧
                  (u = true → u0 = true)) as Hold.
  { intros q fid c u Hq. unfold h', face_view, update_face in Hq.
    cbn [faces_by_faceid set_faces_by_faceid] in Hq.
    rewrite list_lookup_fmap in Hq.
    destruct (decide (q = fp)) as [->|Hne].
    - rewrite list_lookup_alter_eq in Hq.
      destruct (faces_by_faceid h !! fp) as [[f|]|] eqn:Hf; [|done..].
      cbn in Hq. injection Hq as <- <- <-.
      exists (flag_set (face_flags f) CCN_FACE_UNDECIDED). split.
      + apply face_view_lookup. by exists f.
      + change CCN_FACE_UNDECIDED with (2 ^ 9). rewrite !flag_set_bit by lia.
        unfold flag_clear. rewrite Z.land_spec, Z.lnot_spec by lia.
        rewrite Z.pow2_bits_true by lia. by rewrite andb_false_r.
    - rewrite list_lookup_alter_ne in Hq by done.
      exists u. split; [|done]. unfold face_view.
      by rewrite list_lookup_fmap. }
  assert (length (face_view h') = length (face_view h)) as Hlen.
  { unfold h', face_view, update_face.
    cbn [faces_by_faceid set_faces_by_faceid].
    by rewrite !length_fmap, length_alter. }
  split; [|split; [|split]].
  - intros q fid c u (u0 & Hq & Hu)%Hold.
    destruct (Hok _ _ _ _ Hq) as (Hslot & Hc & Hlt & Hu0).
    split; [done|]. split; [done|]. split; [done|]. auto.
  - done.
  - unfold table_ok in *. by rewrite Hlen.
  - done.
Qed.

Lemma reachable_pending_inv h : reachable h → pending_inv None h.
Proof.
  induction 1 as [| h f _ IH Hf Hwrap | h fp _ IH
                  | h fp msg ok _ IH Hdec | h ev c _ IH | h _ IH
                  | h p _ IH | h p _ IH | h msg _ IH | h uri fid fl ex _ IH].
  - apply ccnd_create_pending_inv.
  - by apply enroll_face_pending_inv.
  - by apply decide_pending_inv.
  - apply (pending_inv_None (Some fp)).
    apply process_input_message_pending_inv.
    destruct IH as (Hok & Horig & Htab & _).
    split; [done|]. split; [done|]. split; [done|].
    intros ? [= <-] fid c u (f & Hf & [= _ _ <-])%face_view_lookup.
    apply Hdec. unfold face_at. by rewrite Hf.
  - by apply do_propagate_pending_inv.
  - by apply check_propagating_pending_inv.
  - by apply shutdown_client_fd_pending_inv.
  - by apply finalize_face_pending_inv.
  - revert IH. apply pending_inv_views. views_solve.
  - revert IH. apply pending_inv_views. views_solve.
Qed.

(** *** The counters of the enrolled faces *)

Lemma live_faces_elem h f :
  f ∈ live_faces h ↔ ∃ p, faces_by_faceid h !! p = Some (Some f).
Proof.
  unfold live_faces. rewrite list_elem_of_omap. split.
  - intros (o & [p Hp]%list_elem_of_lookup & Ho). simpl in Ho. subst o. eauto.
  - intros [p Hp]. exists (Some f). split; [|done].
    by eapply list_elem_of_lookup_2.
Qed.

Lemma NoDup_ids (l : list (option face)) :
  (∀ p q f g, l !! p = Some (Some f) → l !! q = Some (Some g) →
              faceid f = faceid g → p = q) →
  NoDup (faceid <$> omap id l).
Proof.
  induction l as [|o l IH]; intros Hinj; [constructor|].
  assert (NoDup (faceid <$> omap id l)) as Hnd.
  { apply IH. intros p q f g Hp Hq Hfg.
    by injection (Hinj (S p) (S q) f g Hp Hq Hfg). }
  destruct o as [f|]; [|done]. cbn [omap list_omap id fmap list_fmap].
  apply NoDup_cons. split; [|done].
  intros (g & Hfg & (o & [q Hq]%list_elem_of_lookup & Ho)%list_elem_of_omap)
    %list_elem_of_fmap.
  simpl in Ho. subst o. by specialize (Hinj O (S q) f g eq_refl Hq Hfg).
Qed.

Lemma face_view_of_face h p f :
  faces_by_faceid h !! p = Some (Some f) →
  face_view h !! p
  = Some (Some (faceid f, pending_interests f,
                flag_set (face_flags f) CCN_FACE_UNDECIDED)).
Proof. intros Hp. apply face_view_lookup. by exists f. Qed.

Lemma live_ids_NoDup h : counters_ok h → NoDup (faceid <$> live_faces h).
Proof.
  intros Hok. apply NoDup_ids. intros p q f g Hp%face_view_of_face
    Hq%face_view_of_face Hfg.
  destruct (Hok _ _ _ _ Hp) as [<- _]. destruct (Hok _ _ _ _ Hq) as [<- _].
  by rewrite Hfg.
Qed.

Lemma live_id_found h fid :
  counters_ok h →
  fid ∈ faceid <$> live_faces h ↔ is_Some (face_from_faceid h fid).
Proof.
  intros Hok. rewrite list_elem_of_fmap. split.
  - intros (f & -> & [p Hp%face_view_of_face]%live_faces_elem).
    destruct (live_face_found h p _ _ _ Hok Hp) as (g & Hg & _). eauto.
  - intros [f [Hf Hfid]%face_from_faceid_slot].
    exists f. split; [done|]. apply live_faces_elem. eauto.
Qed.

(** What does hold of the counters, in the states that the steps of
    [reachable] lead to: the pending_interests counter of each enrolled
    face is the number of live PIT entries whose origin is the id of that
    face; a live PIT entry whose origin face is still enrolled finds the
    counter of that face at 1 or more; and the sum of the counters over the
    enrolled faces is the number of live PIT entries whose origin face is
    still enrolled.  The entries of a face that is gone are counted
    nowhere. *)
Theorem pending_interests_counted h :
  reachable h →
  (∀ p f, face_at h p = Some f →
     pending_interests f = pending_count h (faceid f)) ∧
  (∀ k pe f, propagating_tab h !! k = Some pe → is_Some (interest_msg pe) →
     face_from_faceid h (pe_faceid pe) = Some f →
     1 ≤ pending_interests f) ∧
  sum_pending h = live_entries_of_live_faces h.
Proof.
  intros (Hok & _)%reachable_pending_inv.
  assert (∀ p f, faces_by_faceid h !! p = Some (Some f) →
            pending_interests f = pending_count h (faceid f)) as Hcount.
  { intros p f Hp%face_view_of_face. by apply (Hok _ _ _ _ Hp). }
  split; [|split].
  - intros p f Hp. apply (Hcount p). unfold face_at in Hp.
    by destruct (faces_by_faceid h !! p) as [[?|]|]; simplify_eq/=.
  - intros k pe f Hk Hlive [Hf Hfid]%face_from_faceid_slot.
    rewrite (Hcount _ _ Hf), Hfid. unfold pending_count.
    apply (origin_count_pos _ k). apply pit_view_lookup. eauto.
  - unfold sum_pending, live_entries_of_live_faces.
    rewrite (sumZ_ext _ (λ f, origin_count (pit_view h) (faceid f))).
    2:{ intros f [p Hp]%live_faces_elem. by apply (Hcount p). }
    rewrite <- (sumZ_fmap faceid (origin_count (pit_view h))).
    rewrite sum_origin_count by (by apply live_ids_NoDup).
    f_equal. f_equal. apply map_filter_ext. intros k fid _. simpl.
    by apply live_id_found.
Qed.

End faces.

(** The daemon with its two faces is a state that is reached: ccnd_create,
    then face 0, the local client and the peer are enrolled. *)
Lemma two_faces_reachable :
  reachable (L := pdu_lib) (W := example_walk []) (two_faces (L := pdu_lib)).
Proof.
  unfold two_faces, started. cbv zeta.
  repeat (apply reach_enroll; [|reflexivity|vm_compute; reflexivity]).
  apply reach_create.
Qed.

(** The local client, face 1, is not an undecided connection. *)
Lemma local_client_decided f :
  face_at (two_faces (L := pdu_lib)) 1 = Some f →
  flag_set (face_flags f) CCN_FACE_UNDECIDED = false.
Proof. vm_compute. by intros [= <-]. Qed.

(** The local client (face 1) sends [interest_any]: the counter of face 1
    is 1, as is the number of live entries with origin 1 and the sum of the
    counters. *)
Lemma pending_interests_witness :
  let h := process_input_message (L := pdu_lib) (W := example_walk [])
             (two_faces (L := pdu_lib)) 1 interest_any false in
  (pending_interests <$> face_at h 1) = Some 1 ∧
  pending_count h 1 = 1 ∧
  sum_pending h = live_entries_of_live_faces h ∧
  sum_pending h = 1.
Proof.
  cbv zeta.
  destruct (pending_interests_counted (L := pdu_lib) (W := example_walk [])
              (process_input_message (L := pdu_lib) (W := example_walk [])
                 (two_faces (L := pdu_lib)) 1 interest_any false))
    as (_ & _ & Hsum).
  - apply reach_input; [apply two_faces_reachable|apply local_client_decided].
  - split; [vm_compute; reflexivity|]. split; [vm_compute; reflexivity|].
    split; [exact Hsum|]. vm_compute. reflexivity.
Defined.

(** C3, the code at a failing input: the local client (face 1) has sent
    [interest_any], which is propagating, and then its connection is
    closed.  finalize_face takes the face away and leaves the PIT alone:
    the interest is still live, with origin 1, but no face has that id any
    more.  The counters of the faces that are left add up to 0, and there
    is one live entry. *)
Lemma closed_face_leaves_live_entry :
  let h := shutdown_client_fd
             (process_input_message (L := pdu_lib) (W := example_walk [])
                (two_faces (L := pdu_lib)) 1 interest_any false) 1 in
  reachable (L := pdu_lib) (W := example_walk []) h ∧
  (∃ pe, propagating_tab h !! [99] = Some pe ∧ is_Some (interest_msg pe) ∧
         pe_faceid pe = 1) ∧
  face_from_faceid h 1 = None ∧
  live_entries h = 1 ∧
  sum_pending h = 0.
Proof.
  cbv zeta. split.
  { apply reach_shutdown, reach_input;
      [apply two_faces_reachable|apply local_client_decided]. }
  split.
  { eexists. split; [vm_compute; reflexivity|].
    split; [eexists; reflexivity|reflexivity]. }
  split; [vm_compute; reflexivity|]. split; vm_compute; reflexivity.
Qed.

(** * The face table: enroll_face, face_from_faceid, finalize_face *)

Section face_table.
Context `{L : ccn_lib} `{W : content_walk}.

Lemma face_at_lookup h p f :
  face_at h p = Some f ↔ faces_by_faceid h !! p = Some (Some f).
Proof.
  unfold face_at. destruct (faces_by_faceid h !! p) as [[g|]|]; simpl;
    split; congruence.
Qed.

(** Registration of prefixes leaves the face table alone. *)
Lemma faces_nameprefix_seek_loop n : ∀ i h msg cs par res,
  faces_by_faceid (nameprefix_seek_loop n i h msg cs par res).1.1
  = faces_by_faceid h.
Proof.
  induction n as [|n IH]; intros i h msg cs par res; [done|].
  cbn [nameprefix_seek_loop]. cbv zeta.
  destruct (nameprefix_tab h !! _); [apply IH|].
  destruct (new_nameprefix h par) as [npe h1] eqn:Hnew.
  rewrite IH.
  assert (faces_by_faceid h1 = faces_by_faceid h) as <-.
  { unfold new_nameprefix in Hnew. destruct par as [[pk p]|].
    - by injection Hnew as _ <-.
    - destruct (nrand48 (seed h)) as [r s']. by injection Hnew as _ <-. }
  by destruct par as [[pk p]|].
Qed.

Lemma faces_nameprefix_seek h msg cs ncomps :
  faces_by_faceid (nameprefix_seek h msg cs ncomps).1.1 = faces_by_faceid h.
Proof.
  unfold nameprefix_seek. destruct (_ >? _); [done|].
  apply faces_nameprefix_seek_loop.
Qed.

Lemma faces_ccnd_reg_prefix h msg cs ncomps fid flags exp :
  faces_by_faceid (ccnd_reg_prefix h msg cs ncomps fid flags exp).1
  = faces_by_faceid h.
Proof.
  unfold ccnd_reg_prefix. destruct (negb _); [done|].
  destruct (face_from_faceid h fid); [|done].
  pose proof (faces_nameprefix_seek h msg cs ncomps) as Hs.
  destruct (nameprefix_seek h msg cs ncomps) as [[h1 res] e].
  cbn [fst] in Hs. destruct (res >=? 0); [|done].
  destruct e as [k|]; [|done].
  destruct (nameprefix_tab h1 !! k) as [npe|]; [|done].
  by destruct (seek_forwarding npe fid).
Qed.

Lemma faces_register_new_face h f :
  faces_by_faceid (register_new_face h f) = faces_by_faceid h.
Proof.
  unfold register_new_face, ccnd_reg_uri. destruct (_ && _); [|done].
  destruct (ccn_name_from_uri _) as [[name cs]|]; [|done].
  apply faces_ccnd_reg_prefix.
Qed.

Lemma scan_null_None a : ∀ s,
  scan_null a s = None → ∀ j, a !! j ≠ Some None.
Proof.
  induction a as [|o a IH]; intros s Hs j; [done|].
  destruct o as [f|]; [|done]. simpl in Hs.
  destruct j as [|j]; [done|]. by apply (IH _ Hs).
Qed.

Lemma scan_null_full a s :
  (∀ j, a !! j ≠ Some None) → scan_null a s = None.
Proof.
  revert s. induction a as [|o a IH]; intros s Hfull; [done|].
  destruct o as [f|].
  - simpl. apply IH. intros j. apply (Hfull (S j)).
  - by destruct (Hfull O).
Qed.

(** What enroll_face_use leaves in the table. *)
Lemma enroll_face_use_faces h a i f :
  faces_by_faceid (enroll_face_use h a i f).1
  = <[Z.to_nat i := Some (set_faceid (Z.lor i (face_gen h)) f)]> a.
Proof. unfold enroll_face_use. cbn [fst]. by rewrite faces_register_new_face. Qed.

Lemma gen_bump_aligned gen :
  Z.land gen MAXFACES = 0 → Z.land (u32 (gen + (MAXFACES + 1))) MAXFACES = 0.
Proof.
  change MAXFACES with (Z.ones 18). rewrite !Z.land_ones by lia.
  intros Hgen. unfold u32.
  rewrite Z.mod_mod_divide by (by exists (2 ^ 14)).
  change (Z.ones 18 + 1) with (1 * 2 ^ 18).
  by rewrite Z_mod_plus_full.
Qed.

Lemma table_limit h :
  table_ok h → Z.of_nat (length (faces_by_faceid h)) ≤ MAXFACES.
Proof.
  intros (_ & _ & _ & Hlen). unfold face_view in Hlen.
  rewrite length_fmap in Hlen.
  rewrite <- (Z2Nat.id MAXFACES) by done. by apply Nat2Z.inj_le.
Qed.

(** The three ways through enroll_face: a free slot from the rover on, a
    free slot before it (with the next generation), or a longer table; and
    the overflow. *)
Lemma enroll_face_cases h f :
  table_ok h →
  (enroll_face h f = (h, -1) ∧
   Z.of_nat (length (faces_by_faceid h)) = MAXFACES ∧
   ∀ j, faces_by_faceid h !! j ≠ Some None) ∨
  ∃ h0 (i ext : nat),
    enroll_face h f
    = enroll_face_use h0 (faces_by_faceid h ++ replicate ext None)
        (Z.of_nat i) f ∧
    (faces_by_faceid h ++ replicate ext None) !! i = Some None ∧
    Z.of_nat i ≤ MAXFACES ∧
    Z.land (face_gen h0) MAXFACES = 0 ∧ 0 ≤ face_gen h0 ∧
    (face_gen h0 = face_gen h ∧ face_rover h ≤ Z.of_nat i ∨
     face_gen h0 = u32 (face_gen h + (MAXFACES + 1))).
Proof.
  intros Htab. pose proof (table_limit h Htab) as HlenZ.
  destruct Htab as (Hgen & Hg32 & Hrov & _).
  unfold face_view in Hrov. rewrite length_fmap in Hrov.
  unfold enroll_face.
  destruct (scan_null (drop _ _) _) as [i|] eqn:E1.
  { apply scan_null_spec in E1 as (j & -> & Hj). rewrite lookup_drop in Hj.
    right. exists h, (Z.to_nat (face_rover h) + j)%nat, O.
    rewrite app_nil_r. pose proof (lookup_lt_Some _ _ _ Hj) as Hlt.
    split; [f_equal; lia|]. split; [done|]. split; [lia|].
    split; [done|]. split; [lia|]. left. split; [done|lia]. }
  destruct (scan_null (faces_by_faceid h) 0) as [i|] eqn:E2.
  { apply scan_null_spec in E2 as (j & -> & Hj).
    right. exists (set_face_gen (u32 (face_gen h + (MAXFACES + 1))) h), j, O.
    rewrite app_nil_r. pose proof (lookup_lt_Some _ _ _ Hj) as Hlt.
    split; [f_equal; lia|]. split; [done|]. split; [lia|].
    cbn [face_gen set_face_gen].
    split; [by apply gen_bump_aligned|].
    split; [unfold u32; apply Z.mod_pos_bound; lia|]. by right. }
  cbv zeta.
  set (n := Z.of_nat (length (faces_by_faceid h))) in *.
  set (i := if (n + 1) * 3 / 2 >? MAXFACES then MAXFACES else (n + 1) * 3 / 2).
  assert (n + 1 ≤ (n + 1) * 3 / 2) as Hgrow.
  { apply Z.div_le_lower_bound; lia. }
  assert (i ≤ MAXFACES) as Hi.
  { unfold i. destruct (Z.gtb_spec ((n + 1) * 3 / 2) MAXFACES); lia. }
  destruct (Z.leb_spec i n) as [Hle|Hgt].
  { left. split; [done|]. split; [|by eapply scan_null_None].
    unfold i in Hle. destruct (Z.gtb_spec ((n + 1) * 3 / 2) MAXFACES); lia. }
  right. exists h, (length (faces_by_faceid h)), (Z.to_nat (i - n)).
  split; [done|]. split.
  { rewrite lookup_app_r by done. rewrite Nat.sub_diag.
    apply lookup_replicate_2. lia. }
  split; [lia|]. split; [done|]. split; [lia|]. left. split; [done|].
  fold n. lia.
Qed.

(** X1: a face that enroll_face accepts is found again under the id that
    enroll_face returned, with that id written into it, and the lookup of
    every other id gives what it gave before. *)
Theorem enroll_face_lookup h f h' id :
  table_ok h → enroll_face h f = (h', id) → id ≠ -1 →
  face_from_faceid h' id = Some (set_faceid id f) ∧
  ∀ id', id' ≠ id → face_from_faceid h' id' = face_from_faceid h id'.
Proof.
  intros Htab Henroll Hid.
  destruct (enroll_face_cases h f Htab)
    as [(Hfail & _)|(h0 & i & ext & Huse & Hi & Hle & Hgen & Hg0 & _)].
  { rewrite Hfail in Henroll. by injection Henroll as _ <-. }
  rewrite Huse in Henroll.
  pose proof (enroll_face_use_faces h0
                (faces_by_faceid h ++ replicate ext None) (Z.of_nat i) f)
    as Hfaces.
  rewrite Henroll in Hfaces. cbn [fst] in Hfaces. rewrite Nat2Z.id in Hfaces.
  assert (id = Z.lor (Z.of_nat i) (face_gen h0)) as ->.
  { unfold enroll_face_use in Henroll. by injection Henroll as _ <-. }
  assert (Z.land (Z.lor (Z.of_nat i) (face_gen h0)) MAXFACES = Z.of_nat i)
    as Hslot by (apply lor_slot; [lia|done]).
  pose proof (lookup_lt_Some _ _ _ Hi) as Hlt.
  split.
  - apply face_from_faceid_slot. rewrite Hslot, Nat2Z.id, Hfaces.
    by rewrite list_lookup_insert_eq.
  - intros id' Hne. unfold face_from_faceid. rewrite Hfaces.
    destruct (decide (Z.to_nat (Z.land id' MAXFACES) = i)) as [E|E].
    + rewrite E, list_lookup_insert_eq by done.
      cbn [faceid set_faceid].
      destruct (Z.eqb_spec (Z.lor (Z.of_nat i) (face_gen h0)) id'); [done|].
      destruct (faces_by_faceid h !! i) as [o|] eqn:Hold; [|done].
      rewrite (lookup_app_l_Some _ _ _ _ Hold) in Hi. by injection Hi as ->.
    + rewrite list_lookup_insert_ne by done.
      destruct (faces_by_faceid h !! _) as [o|] eqn:Hold.
      * by rewrite (lookup_app_l_Some _ _ _ _ Hold).
      * apply lookup_ge_None in Hold. rewrite lookup_app_r by done.
        destruct (replicate ext None !! _) as [o|] eqn:Hrep; [|done].
        by apply lookup_replicate in Hrep as [-> _].
Qed.

(** X2: enroll_face refuses a face exactly when the table has reached
    MAXFACES slots and every slot holds a face; the handle is then as it
    was. *)
Theorem enroll_face_overflow h f :
  table_ok h →
  ((enroll_face h f).2 = -1 ↔
   Z.of_nat (length (faces_by_faceid h)) = MAXFACES ∧
   ∀ p, (p < length (faces_by_faceid h))%nat → is_Some (face_at h p)) ∧
  ((enroll_face h f).2 = -1 → (enroll_face h f).1 = h).
Proof.
  intros Htab.
  assert ((enroll_face h f).2 = -1 →
          enroll_face h f = (h, -1) ∧
          Z.of_nat (length (faces_by_faceid h)) = MAXFACES ∧
          ∀ j, faces_by_faceid h !! j ≠ Some None) as Hfail.
  { intros Hres.
    destruct (enroll_face_cases h f Htab)
      as [?|(h0 & i & ext & Huse & Hi & Hle & Hgen & Hg0 & _)]; [done|].
    rewrite Huse in Hres. unfold enroll_face_use in Hres. cbn [snd] in Hres.
    cbn [faceid set_faceid] in Hres.
    assert (0 ≤ Z.lor (Z.of_nat i) (face_gen h0)) by (apply Z.lor_nonneg; lia).
    lia. }
  split; [split|].
  - intros (_ & Hlen & Hfull)%Hfail. split; [done|].
    intros p Hp. apply lookup_lt_is_Some in Hp as [o Ho].
    destruct o as [g|]; [|by destruct (Hfull p)].
    exists g. by apply face_at_lookup.
  - intros [Hlen Hfull].
    assert (∀ j, faces_by_faceid h !! j ≠ Some None) as Hno.
    { intros j Hj. destruct (Hfull j (lookup_lt_Some _ _ _ Hj)) as [g Hg].
      apply face_at_lookup in Hg. congruence. }
    unfold enroll_face.
    rewrite scan_null_full by (intros j; rewrite lookup_drop; apply Hno).
    rewrite scan_null_full by done. cbv zeta. rewrite Hlen.
    by vm_compute.
  - by intros (-> & _)%Hfail.
Qed.

(** X3: after finalize_face the id of the face names no face any more; the
    other slots of the table and the lookup of every other id are as they
    were. *)
Theorem finalize_face_forgets h p f :
  face_at h p = Some f → Z.land (faceid f) MAXFACES = Z.of_nat p →
  face_from_faceid (finalize_face h p) (faceid f) = None ∧
  (∀ id, id ≠ faceid f →
     face_from_faceid (finalize_face h p) id = face_from_faceid h id) ∧
  (∀ q, q ≠ p → face_at (finalize_face h p) q = face_at h q).
Proof.
  intros Hf Hslot.
  assert (faces_by_faceid (finalize_face h p) = <[p := None]> (faces_by_faceid h))
    as Hfaces.
  { unfold finalize_face. rewrite Hf. cbv zeta. rewrite Hslot, Z.eqb_refl.
    by destruct (_ && _). }
  apply face_at_lookup in Hf. pose proof (lookup_lt_Some _ _ _ Hf) as Hlt.
  split; [|split].
  - unfold face_from_faceid. rewrite Hfaces, Hslot, Nat2Z.id.
    by rewrite list_lookup_insert_eq.
  - intros id Hne. unfold face_from_faceid. rewrite Hfaces.
    destruct (decide (Z.to_nat (Z.land id MAXFACES) = p)) as [E|E].
    + rewrite E, list_lookup_insert_eq, Hf by done.
      by destruct (Z.eqb_spec (faceid f) id).
    + by rewrite list_lookup_insert_ne.
  - intros q Hne. unfold face_at. rewrite Hfaces.
    by rewrite list_lookup_insert_ne.
Qed.

(** X4: the id of a connection that never spoke is given out again.  When
    the face enrolled last is still undecided and is finalized, the next
    face that is enrolled gets the same id. *)
Theorem undecided_face_id_recycled h p f g :
  table_ok h →
  face_at h p = Some f →
  flag_set (face_flags f) CCN_FACE_UNDECIDED = true →
  face_rover h = Z.of_nat p + 1 →
  faceid f = Z.lor (Z.of_nat p) (face_gen h) →
  (enroll_face (finalize_face h p) g).2 = faceid f.
Proof.
  intros Htab Hf Hund Hrov Hid.
  pose proof (table_limit h Htab) as HlenZ.
  destruct Htab as (Hgen & Hg32 & _ & _).
  pose proof Hf as Hp%face_at_lookup.
  pose proof (lookup_lt_Some _ _ _ Hp) as Hlt.
  assert (Z.land (faceid f) MAXFACES = Z.of_nat p) as Hslot.
  { rewrite Hid. apply lor_slot; [lia|done]. }
  assert (u32 (face_rover h - 1) = Z.of_nat p) as Hback.
  { rewrite Hrov. unfold u32. rewrite Z.mod_small; [lia|].
    change MAXFACES with (2 ^ 18 - 1) in HlenZ. lia. }
  unfold finalize_face. rewrite Hf. cbv zeta. rewrite Hslot, Z.eqb_refl.
  cbn [face_rover face_gen set_faces_by_faceid]. rewrite Hund, Hback, Hid.
  rewrite Z.eqb_refl. cbn [andb].
  unfold enroll_face.
  cbn [face_rover face_gen faces_by_faceid set_face_rover cancel_senders
       set_sched emit set_out set_faces_by_faceid].
  rewrite Nat2Z.id.
  assert (scan_null (drop p (<[p := None]> (faces_by_faceid h))) (Z.of_nat p)
          = Some (Z.of_nat p)) as ->.
  { rewrite <- (take_drop_middle (<[p := None]> (faces_by_faceid h)) p None)
      by (by rewrite list_lookup_insert_eq).
    rewrite drop_app_length'; [done|].
    rewrite length_take, length_insert. lia. }
  unfold enroll_face_use. cbn [snd faceid set_faceid face_gen set_face_rover
    cancel_senders set_sched emit set_out set_faces_by_faceid]. done.
Qed.

(** X5: in every state of the daemon an enrolled face is the face that
    face_from_faceid finds for its id, it sits in the slot that the low
    bits of its id name, and no other slot holds a face with that id. *)
Theorem enrolled_face_found_by_id h p f :
  reachable h → face_at h p = Some f →
  face_from_faceid h (faceid f) = Some f ∧
  Z.land (faceid f) MAXFACES = Z.of_nat p ∧
  ∀ q g, face_at h q = Some g → faceid g = faceid f → q = p.
Proof.
  intros Hreach Hf. apply reachable_pending_inv in Hreach as (Hok & _).
  assert (∀ q g, face_at h q = Some g →
            Z.to_nat (Z.land (faceid g) MAXFACES) = q) as Hslots.
  { intros q g Hg%face_at_lookup%face_view_of_face.
    by destruct (Hok _ _ _ _ Hg) as [? _]. }
  pose proof (Hslots p f Hf) as Hp.
  split; [|split].
  - apply face_from_faceid_slot. rewrite Hp. split; [|done].
    by apply face_at_lookup.
  - rewrite <- Hp. rewrite Z2Nat.id; [done|].
    apply Z.land_nonneg. right. done.
  - intros q g Hg Hfg. rewrite <- (Hslots q g Hg), Hfg. done.
Qed.

(** X6: the id that enroll_face gives to a new face is larger than the id
    of every face in the table and than the origin of every live entry of
    the PIT, as long as the generation count has not wrapped around: a new
    face does not take over the pending interests of a face that is
    gone. *)
Theorem enroll_face_fresh_id h f h' id :
  reachable h → face_gen h + (MAXFACES + 1) < 2 ^ 32 →
  enroll_face h f = (h', id) → id ≠ -1 →
  (∀ p g, face_at h p = Some g → faceid g < id) ∧
  (∀ k pe, propagating_tab h !! k = Some pe → is_Some (interest_msg pe) →
     pe_faceid pe < id).
Proof.
  intros Hreach Hwrap Henroll Hid.
  apply reachable_pending_inv in Hreach as (Hok & Horig & Htab & _).
  pose proof (table_limit h Htab) as HlenZ.
  assert (face_gen h + face_rover h ≤ id) as Hfresh.
  { destruct (enroll_face_cases h f Htab)
      as [(Hfail & _)|(h0 & i & ext & Huse & Hi & Hle & Hgen & Hg0 & Hcase)].
    { rewrite Hfail in Henroll. by injection Henroll as _ <-. }
    rewrite Huse in Henroll. unfold enroll_face_use in Henroll.
    injection Henroll as _ <-. cbn [faceid set_faceid].
    rewrite lor_add_slot by (done || lia).
    destruct Htab as (_ & Hg32 & Hrov & _).
    unfold face_view in Hrov. rewrite length_fmap in Hrov.
    destruct Hcase as [[-> Hr]| ->]; [lia|].
    unfold u32. rewrite Z.mod_small by lia. lia. }
  split.
  - intros p g Hg%face_at_lookup%face_view_of_face.
    destruct (Hok _ _ _ _ Hg) as (_ & _ & Hlt & _). lia.
  - intros k pe Hk Hlive.
    assert (pit_view h !! k = Some (pe_faceid pe)) as Hv.
    { apply pit_view_lookup. by exists pe. }
    apply Horig in Hv. lia.
Qed.

End face_table.
(** The daemon with its two faces, and the table it has. *)
Lemma two_faces_table_ok :
  table_ok (two_faces (L := pdu_lib)).
Proof.
  destruct (reachable_pending_inv (L := pdu_lib) (W := example_walk []) _
              two_faces_reachable) as (_ & _ & Htab & _).
  exact Htab.
Qed.

Lemma with_undecided_reachable :
  reachable (L := pdu_lib) (W := example_walk [])
    (with_undecided (L := pdu_lib)).
Proof.
  apply reach_enroll; [apply two_faces_reachable|reflexivity|].
  vm_compute. reflexivity.
Qed.

Lemma with_undecided_table_ok :
  table_ok (with_undecided (L := pdu_lib)).
Proof.
  destruct (reachable_pending_inv (L := pdu_lib) (W := example_walk []) _
              with_undecided_reachable) as (_ & _ & Htab & _).
  exact Htab.
Qed.

(** A third face is enrolled with the two: it gets the id 3 and is found
    under it. *)
Lemma enroll_face_lookup_witness :
  let h := two_faces (L := pdu_lib) in
  let f := new_face 7 CCN_FACE_INET in
  (enroll_face (L := pdu_lib) h f).2 = 3 ∧
  face_from_faceid (enroll_face (L := pdu_lib) h f).1 3 = Some (set_faceid 3 f) ∧
  ∀ id', id' ≠ 3 →
    face_from_faceid (enroll_face (L := pdu_lib) h f).1 id' = face_from_faceid h id'.
Proof.
  cbv zeta. split; [vm_compute; reflexivity|].
  apply (enroll_face_lookup (L := pdu_lib)
           (two_faces (L := pdu_lib)) (new_face 7 CCN_FACE_INET)).
  - apply two_faces_table_ok.
  - vm_compute. reflexivity.
  - done.
Defined.

(** The table of the two faces has room: enroll_face does not refuse. *)
Lemma enroll_face_overflow_witness :
  let h := two_faces (L := pdu_lib) in
  let f := new_face 7 CCN_FACE_INET in
  (enroll_face (L := pdu_lib) h f).2 ≠ -1 ∧
  ((enroll_face (L := pdu_lib) h f).2 = -1 ↔
   Z.of_nat (length (faces_by_faceid h)) = MAXFACES ∧
   ∀ p, (p < length (faces_by_faceid h))%nat → is_Some (face_at h p)).
Proof.
  cbv zeta. split; [by vm_compute|].
  apply (enroll_face_overflow (L := pdu_lib)
           (two_faces (L := pdu_lib)) (new_face 7 CCN_FACE_INET)).
  apply two_faces_table_ok.
Defined.

(** The peer, face 2, is finalized. *)
Lemma finalize_face_forgets_witness :
  let h := two_faces (L := pdu_lib) in
  is_Some (face_from_faceid h 2) ∧
  face_from_faceid (finalize_face h 2) 2 = None ∧
  face_from_faceid (finalize_face h 2) 1 = face_from_faceid h 1.
Proof.
  cbv zeta. split; [vm_compute; eauto|].
  destruct (finalize_face_forgets (two_faces (L := pdu_lib)) 2%nat
              (set_faceid 2 (new_face 6 CCN_FACE_INET)))
    as (Hgone & Hother & _).
  - vm_compute. reflexivity.
  - vm_compute. reflexivity.
  - split; [exact Hgone|]. by apply Hother.
Defined.

(** The undecided connection has the id 3; it is finalized, and the next
    face gets the id 3. *)
Lemma undecided_face_id_recycled_witness :
  let h := with_undecided (L := pdu_lib) in
  (faceid <$> face_at h 3) = Some 3 ∧
  (enroll_face (L := pdu_lib) (finalize_face h 3) (new_face 8 CCN_FACE_INET)).2 = 3.
Proof.
  cbv zeta. split; [vm_compute; reflexivity|].
  apply (undecided_face_id_recycled (L := pdu_lib)
           (with_undecided (L := pdu_lib)) 3%nat
           (set_faceid 3 (new_face 7 CCN_FACE_UNDECIDED))
           (new_face 8 CCN_FACE_INET)).
  - apply with_undecided_table_ok.
  - vm_compute. reflexivity.
  - vm_compute. reflexivity.
  - vm_compute. reflexivity.
  - vm_compute. reflexivity.
Defined.

(** The local client is face 1 and sits in slot 1. *)
Lemma enrolled_face_found_by_id_witness :
  let h := two_faces (L := pdu_lib) in
  let f := set_faceid 1 (new_face 5 (Z.lor CCN_FACE_GG CCN_FACE_LOCAL)) in
  face_at h 1 = Some f ∧ face_from_faceid h 1 = Some f.
Proof.
  cbv zeta. split; [vm_compute; reflexivity|].
  destruct (enrolled_face_found_by_id (L := pdu_lib) (W := example_walk [])
              (two_faces (L := pdu_lib)) 1%nat
              (set_faceid 1 (new_face 5 (Z.lor CCN_FACE_GG CCN_FACE_LOCAL))))
    as (Hfound & _).
  - apply two_faces_reachable.
  - vm_compute. reflexivity.
  - exact Hfound.
Defined.

(** The third face gets an id above the ids 0, 1 and 2 that are in use. *)
Lemma enroll_face_fresh_id_witness :
  let h := two_faces (L := pdu_lib) in
  let f := new_face 7 CCN_FACE_INET in
  (enroll_face (L := pdu_lib) h f).2 = 3 ∧ ∀ p g, face_at h p = Some g → faceid g < 3.
Proof.
  cbv zeta. split; [vm_compute; reflexivity|].
  destruct (enroll_face_fresh_id (L := pdu_lib) (W := example_walk [])
              (two_faces (L := pdu_lib)) (new_face 7 CCN_FACE_INET)
              (enroll_face (L := pdu_lib) (two_faces (L := pdu_lib))
                 (new_face 7 CCN_FACE_INET)).1 3)
    as (Hfaces & _).
  - apply two_faces_reachable.
  - vm_compute. reflexivity.
  - vm_compute. reflexivity.
  - done.
  - exact Hfaces.
Defined.

(** * The life of a propagating interest: do_propagate, check_propagating *)

Section pit_life.
Context `{L : ccn_lib} `{W : content_walk}.

(** consume works on the entry it is given; the other entries of the table
    of propagating interests are as they were. *)
Lemma consume_other h k k' :
  k' ≠ k → propagating_tab (consume h k) !! k' = propagating_tab h !! k'.
Proof.
  intros Hne. unfold consume.
  destruct (propagating_tab h !! k) as [pe|]; [|done]. cbv zeta.
  destruct (interest_msg pe) as [m|], (pe_link pe) as [n|];
    try destruct (face_from_faceid _ _) as [f|];
    cbn [propagating_tab update_pe update_npe update_face set_propagating_tab
         set_nameprefix_tab set_faces_by_faceid];
    by rewrite ?lookup_alter_ne.
Qed.

(** What consume leaves of the entry: no message, no outbound faces, no time
    left, and no link to a prefix. *)
Lemma consume_entry h k pe :
  propagating_tab h !! k = Some pe →
  propagating_tab (consume h k) !! k
  = Some (set_pe_usec 0 (set_pe_link None
            (set_interest_msg None (finished_propagating pe)))).
Proof.
  intros Hk. unfold consume. rewrite Hk. cbv zeta.
  destruct (interest_msg pe) as [m|] eqn:Hm, (pe_link pe) as [n|] eqn:Hn;
    try destruct (face_from_faceid _ _) as [f|];
    cbn [propagating_tab update_pe update_npe update_face set_propagating_tab
         set_nameprefix_tab set_faces_by_faceid];
    rewrite ?lookup_alter_eq, Hk; cbn [fmap option_fmap option_map];
    destruct pe; simplify_eq/=; reflexivity.
Qed.

(** A consumed entry is the origin of no count: consuming it again changes
    no face. *)
Lemma consume_consumed_faces h k pe :
  propagating_tab h !! k = Some pe → interest_msg pe = None →
  faces_by_faceid (consume h k) = faces_by_faceid h.
Proof.
  intros Hk Hm. unfold consume. rewrite Hk, Hm. cbv zeta.
  by destruct (pe_link pe).
Qed.

Lemma check_propagating_entry_lookup h c k k' :
  propagating_tab (check_propagating_entry (h, c) k).1 !! k'
  = if decide (k' = k) then check_result (propagating_tab h !! k)
    else propagating_tab h !! k'.
Proof.
  unfold check_propagating_entry, check_result.
  destruct (propagating_tab h !! k) as [pe|] eqn:Hk.
  2:{ cbn [fst]. case_decide; [by subst|done]. }
  destruct (interest_msg pe) as [m|] eqn:Hm.
  { cbn [fst]. case_decide; [by subst|done]. }
  destruct (pe_size pe =? 0); cbn [fst].
  - unfold delete_propagating, finalize_propagating.
    cbn [propagating_tab set_propagating_tab]. case_decide as E.
    + subst. by rewrite lookup_delete_eq.
    + rewrite lookup_delete_ne by done. by apply consume_other.
  - cbn [propagating_tab update_pe set_propagating_tab]. case_decide as E.
    + subst. by rewrite lookup_alter_eq, Hk.
    + by rewrite lookup_alter_ne.
Qed.

Lemma check_propagating_entry_faces h c k :
  faces_by_faceid (check_propagating_entry (h, c) k).1 = faces_by_faceid h.
Proof.
  unfold check_propagating_entry.
  destruct (propagating_tab h !! k) as [pe|] eqn:Hk; [|done].
  destruct (interest_msg pe) as [m|] eqn:Hm; [done|].
  destruct (pe_size pe =? 0); [|done]. cbn [fst].
  unfold delete_propagating, finalize_propagating.
  cbn [faces_by_faceid set_propagating_tab].
  by eapply consume_consumed_faces.
Qed.

(** The count goes up by one for each entry that goes away. *)
Lemma check_propagating_entry_count h c k :
  (check_propagating_entry (h, c) k).2
  + Z.of_nat (size (propagating_tab (check_propagating_entry (h, c) k).1))
  = c + Z.of_nat (size (propagating_tab h)).
Proof.
  unfold check_propagating_entry.
  destruct (propagating_tab h !! k) as [pe|] eqn:Hk; [|done].
  destruct (interest_msg pe) as [m|] eqn:Hm; [done|].
  destruct (pe_size pe =? 0); cbn [fst snd].
  - unfold delete_propagating, finalize_propagating.
    cbn [propagating_tab set_propagating_tab].
    assert (delete k (propagating_tab (consume h k))
            = delete k (propagating_tab h)) as ->.
    { apply map_eq. intros i. destruct (decide (i = k)) as [->|Hne].
      - by rewrite !lookup_delete_eq.
      - rewrite !lookup_delete_ne by done. by apply consume_other. }
    rewrite map_size_delete, Hk.
    assert (size (propagating_tab h) ≠ 0%nat).
    { intros Hz%map_size_empty_inv. by rewrite Hz in Hk. }
    lia.
  - cbn [propagating_tab update_pe set_propagating_tab].
    set (g := set_pe_size _).
    assert (alter g k (propagating_tab h) = <[k := g pe]> (propagating_tab h))
      as ->.
    { apply map_eq. intros i. destruct (decide (i = k)) as [->|Hne].
      - by rewrite lookup_alter_eq, lookup_insert_eq, Hk.
      - by rewrite lookup_alter_ne, lookup_insert_ne. }
    by rewrite map_size_insert_Some.
Qed.

Lemma check_propagating_fold ks : ∀ h c,
  NoDup ks →
  let r := foldl check_propagating_entry (h, c) ks in
  (∀ k, propagating_tab r.1 !! k
        = if decide (k ∈ ks) then check_result (propagating_tab h !! k)
          else propagating_tab h !! k) ∧
  faces_by_faceid r.1 = faces_by_faceid h ∧
  r.2 + Z.of_nat (size (propagating_tab r.1))
  = c + Z.of_nat (size (propagating_tab h)).
Proof.
  induction ks as [|k0 ks IH]; intros h c Hnd; cbv zeta.
  { split; [|done]. intros k. case_decide as E; [|done].
    by apply elem_of_nil in E. }
  apply NoDup_cons in Hnd as [Hk0 Hnd]. cbn [foldl].
  pose proof (check_propagating_entry_lookup h c k0) as Hl.
  pose proof (check_propagating_entry_faces h c k0) as Hf.
  pose proof (check_propagating_entry_count h c k0) as Hc.
  destruct (check_propagating_entry (h, c) k0) as [h1 c1].
  cbn [fst snd] in Hl, Hf, Hc.
  destruct (IH h1 c1 Hnd) as (IHl & IHf & IHc). cbv zeta in IHl, IHf, IHc.
  split; [|split]; [|congruence|lia].
  intros k. rewrite IHl, !Hl.
  destruct (decide (k = k0)) as [->|Hne].
  - rewrite decide_False by done.
    rewrite decide_True by (apply elem_of_cons; by left). done.
  - destruct (decide (k ∈ ks)) as [Hin|Hout].
    + rewrite decide_True by (apply elem_of_cons; by right). done.
    + rewrite decide_False; [done|]. by intros [?|?]%elem_of_cons.
Qed.

(** X7: one pass of check_propagating leaves every live entry as it is,
    deletes a consumed entry (one without a message) whose size has been
    counted down to 0, and counts down the size of the other consumed
    entries, from more than 1 to 1 and from 1 to 0; it deletes nothing
    else, changes no face, and returns the number of entries it deleted.
    So a consumed entry, whose nonce still marks duplicates, is gone after
    the third pass at the latest. *)
Theorem check_propagating_passes h :
  let pass := λ h, (check_propagating h).1 in
  (∀ k, propagating_tab (pass h) !! k
        = match propagating_tab h !! k with
          | Some pe =>
            match interest_msg pe with
            | Some _ => Some pe
            | None =>
              if pe_size pe =? 0 then None
              else Some (set_pe_size (if pe_size pe >? 1 then 1 else 0) pe)
            end
          | None => None
          end) ∧
  faces_by_faceid (pass h) = faces_by_faceid h ∧
  (check_propagating h).2
  = Z.of_nat (size (propagating_tab h))
    - Z.of_nat (size (propagating_tab (pass h))) ∧
  (∀ k pe, propagating_tab h !! k = Some pe → interest_msg pe = None →
     propagating_tab (pass (pass (pass h))) !! k = None).
Proof.
  cbv zeta.
  assert (∀ h, (∀ k, propagating_tab (check_propagating h).1 !! k
                     = check_result (propagating_tab h !! k)) ∧
               faces_by_faceid (check_propagating h).1 = faces_by_faceid h ∧
               (check_propagating h).2
               = Z.of_nat (size (propagating_tab h))
                 - Z.of_nat (size (propagating_tab (check_propagating h).1)))
    as Hpass.
  { intros h0. unfold check_propagating.
    destruct (check_propagating_fold (map_to_list (propagating_tab h0)).*1
                h0 0 (NoDup_fst_map_to_list _)) as (Hl & Hf & Hc).
    cbv zeta in Hl, Hf, Hc. split; [|split]; [|done|lia].
    intros k. rewrite Hl. case_decide as E; [done|].
    destruct (propagating_tab h0 !! k) as [pe|] eqn:Hk; [|done].
    destruct E. apply list_elem_of_fmap. exists (k, pe). split; [done|].
    by apply elem_of_map_to_list. }
  destruct (Hpass h) as (Hl & Hf & Hc).
  split; [exact Hl|]. split; [exact Hf|]. split; [exact Hc|].
  intros k pe Hk Hm.
  destruct (Hpass (check_propagating h).1) as (Hl2 & _).
  destruct (Hpass (check_propagating (check_propagating h).1).1) as (Hl3 & _).
  rewrite Hl3, Hl2, Hl, Hk. unfold check_result at 3. rewrite Hm.
  destruct (Z.eqb_spec (pe_size pe) 0) as [E0|E0]; [done|].
  unfold check_result at 2. cbn [interest_msg set_pe_size pe_size]. rewrite Hm.
  destruct (Z.gtb_spec (pe_size pe) 1) as [E1|E1]; cbn [Z.eqb].
  - unfold check_result. cbn [interest_msg set_pe_size pe_size]. by rewrite Hm.
  - done.
Qed.

(** *** The time a propagating interest has left *)

Lemma pit_clock_frame h h' :
  propagating_tab h' = propagating_tab h → pit_clock h' = pit_clock h.
Proof. unfold pit_clock. by intros ->. Qed.

Lemma pit_clock_update_pe k g h :
  (∀ pe, pe_usec (g pe) = pe_usec pe ∧ interest_msg (g pe) = interest_msg pe) →
  pit_clock (update_pe k g h) = pit_clock h.
Proof.
  intros Hg. unfold pit_clock. cbn [propagating_tab update_pe set_propagating_tab].
  apply map_eq. intros i. rewrite !lookup_fmap.
  destruct (decide (i = k)) as [->|Hne].
  - rewrite lookup_alter_eq. destruct (propagating_tab h !! k) as [pe|]; [|done].
    simpl. by destruct (Hg pe) as [-> ->].
  - by rewrite lookup_alter_ne.
Qed.

Lemma pit_clock_lookup h k pe :
  propagating_tab h !! k = Some pe →
  pit_clock h !! k = Some (pe_usec pe, interest_msg pe).
Proof. intros Hk. unfold pit_clock. by rewrite lookup_fmap, Hk. Qed.

Lemma pit_clock_lookup_inv h k u m :
  pit_clock h !! k = Some (u, m) →
  ∃ pe, propagating_tab h !! k = Some pe ∧ pe_usec pe = u ∧ interest_msg pe = m.
Proof.
  unfold pit_clock. rewrite lookup_fmap.
  destruct (propagating_tab h !! k) as [pe|]; [|done].
  intros [= <- <-]. by exists pe.
Qed.

Lemma pit_clock_frame_lookup mask o k h :
  propagating_tab (emit_if mask o h) !! k = propagating_tab h !! k.
Proof. unfold emit_if. by destruct (flag_set _ _). Qed.

Lemma pit_clock_emit_if mask o h : pit_clock (emit_if mask o h) = pit_clock h.
Proof. unfold emit_if. by destruct (flag_set _ _). Qed.

Lemma pit_clock_do_write h f data : pit_clock (do_write h f data) = pit_clock h.
Proof. unfold do_write. by destruct (flag_set _ _). Qed.

Lemma pit_clock_stuff_prefix f ps : ∀ h c space,
  pit_clock (stuff_prefix h f ps c space).1.1.1 = pit_clock h.
Proof.
  induction ps as [|pk ps IH]; intros h c space; [done|].
  cbn [stuff_prefix].
  destruct (propagating_tab h !! pk) as [p|]; [|apply IH].
  destruct (outbound p) as [ob|]; [|apply IH].
  destruct (interest_msg p) as [imsg|]; [|apply IH].
  destruct (_ && _); [|apply IH]. cbn [fst].
  rewrite pit_clock_emit_if. by apply pit_clock_update_pe.
Qed.

Lemma pit_clock_stuff_prefixes f ns : ∀ h c space n,
  pit_clock (stuff_prefixes h f ns c space n).1.1 = pit_clock h.
Proof.
  induction ns as [|k ns IH]; intros h c space n; [done|].
  cbn [stuff_prefixes]. destruct (space >=? 20); [|done].
  destruct (_ ≫= _) as [ps|]; [|apply IH].
  pose proof (pit_clock_stuff_prefix f (rev ps) h c space) as Hp.
  destruct (stuff_prefix h f (rev ps) c space) as [[[h1 c1] s1] k1].
  cbn [fst] in Hp. by rewrite IH.
Qed.

Lemma pit_clock_ccn_stuff_interest h f c :
  pit_clock (ccn_stuff_interest h f c).1.1 = pit_clock h.
Proof.
  unfold ccn_stuff_interest. destruct (_ || _); [done|].
  apply pit_clock_stuff_prefixes.
Qed.

Lemma pit_clock_stuff_and_send h f data :
  pit_clock (stuff_and_send h f data) = pit_clock h.
Proof.
  unfold stuff_and_send. destruct (flag_set _ _).
  - pose proof (pit_clock_ccn_stuff_interest h f
                  (ccn_charbuf_append_tt CCN_DTAG_CCNProtocolDataUnit CCN_DTAG
                   ++ data)) as Hs.
    destruct (ccn_stuff_interest _ _ _) as [[h1 c1] n1]. cbn [fst] in Hs.
    by rewrite pit_clock_do_write.
  - destruct (_ >? _); [|apply pit_clock_do_write].
    pose proof (pit_clock_ccn_stuff_interest h f data) as Hs.
    destruct (ccn_stuff_interest _ _ _) as [[h1 c1] n1]. cbn [fst] in Hs.
    by rewrite pit_clock_do_write.
Qed.

Lemma pit_clock_adjust_predicted_response h k up :
  pit_clock (adjust_predicted_response h k up) = pit_clock h.
Proof.
  unfold adjust_predicted_response.
  destruct (_ ≫= _) as [imsg|]; [|done].
  destruct (ccn_parse_interest imsg) as [[pi cs]|]; [|done].
  destruct (_ >=? _); [done|]. destruct (_ <? _); [done|].
  by destruct (_ >? _).
Qed.

Lemma pit_clock_set_seed s h : pit_clock (set_seed s h) = pit_clock h.
Proof. done. Qed.
Lemma pit_clock_set_interest_faceid x h :
  pit_clock (set_interest_faceid x h) = pit_clock h.
Proof. done. Qed.
Lemma pit_clock_set_interests_sent x h :
  pit_clock (set_interests_sent x h) = pit_clock h.
Proof. done. Qed.

Create Rewrite HintDb clock.
#[local] Hint Rewrite pit_clock_emit_if pit_clock_stuff_and_send
  pit_clock_adjust_predicted_response pit_clock_set_seed
  pit_clock_set_interest_faceid pit_clock_set_interests_sent : clock.
#[local] Hint Rewrite pit_clock_update_pe using (intros; split; reflexivity)
  : clock.

Ltac case_inner :=
  match goal with
  | |- context [match ?t with _ => _ end] =>
    lazymatch t with
    | context [match _ with _ => _ end] => fail
    | _ => destruct t eqn:?
    end
  end; cbv beta iota.

(** While the interest has time left, do_propagate ends in pe_next_usec,
    with a delay that is not negative, and up to there the time left and
    the message of every entry are as they were. *)
Lemma do_propagate_live h ev pe m :
  propagating_tab h !! evdata ev = Some pe → interest_msg pe = Some m →
  0 < pe_usec pe → 0 ≤ evint ev →
  ∃ h4 nd, do_propagate h ev false = pe_next_usec h4 (evdata ev) nd 2238 ∧
           pit_clock h4 = pit_clock h ∧ 0 ≤ nd.
Proof.
  intros Hk Hm Hu Hev. unfold do_propagate. cbv zeta. rewrite Hk, Hm.
  cbv beta iota.
  destruct (Z.leb_spec (pe_usec pe) 0) as [?|_]; [lia|].
  repeat case_inner;
    (eexists _, _; split; [reflexivity|]; split;
     [autorewrite with clock; reflexivity|]);
    unfold CCN_INTEREST_LIFETIME_MICROSEC;
    change (4000000 / 4) with 1000000;
    repeat match goal with
      | |- context [?r mod 8192] =>
        lazymatch goal with
        | _ : 0 ≤ r mod 8192 < 8192 |- _ => fail
        | _ => pose proof (Z.mod_pos_bound r 8192 eq_refl)
        end
      end;
    lia.
Qed.

(** X8: the time a propagating interest has left is spent by the delays
    that do_propagate returns, where the face that the interest goes to
    next is not face 0 (a write to face 0 runs the internal client, which
    may consume the interest on the spot).  While time is left, the call
    returns a delay that is not negative and not more than the time left,
    takes exactly that delay off the time left, and keeps the interest;
    when no time is left, the call consumes the interest, makes sure that
    the reaper is scheduled, and returns 0, so that it is not called
    again. *)
Theorem do_propagate_spends_lifetime h ev pe m :
  propagating_tab h !! evdata ev = Some pe → interest_msg pe = Some m →
  0 ≤ evint ev →
  last (default [] (outbound pe)) ≠ Some 0 →
  let r := do_propagate h ev false in
  (pe_usec pe ≤ 0 →
     r.2 = 0 ∧ reaper r.1 = true ∧
     ∃ pe', propagating_tab r.1 !! evdata ev = Some pe' ∧
            interest_msg pe' = None ∧ outbound pe' = None ∧ pe_usec pe' = 0) ∧
  (0 < pe_usec pe →
     0 ≤ r.2 ≤ pe_usec pe ∧
     ∃ pe', propagating_tab r.1 !! evdata ev = Some pe' ∧
            interest_msg pe' = Some m ∧ pe_usec pe' = pe_usec pe - r.2).
Proof.
  intros Hk Hm Hev _. cbv zeta. split.
  - intros Hu. unfold do_propagate. cbv zeta. rewrite Hk, Hm. cbv beta iota.
    set (h1 := if flag_set (pe_flags pe) CCN_PR_WAIT1 then _ else _).
    assert (pit_clock h1.1 = pit_clock h) as Hclock.
    { unfold h1. destruct (flag_set _ _); [|done]. cbn [fst].
      by autorewrite with clock. }
    destruct h1 as [h1 flags]. cbn [fst] in Hclock.
    destruct (Z.leb_spec (pe_usec pe) 0) as [_|?]; [|lia]. cbn [fst snd].
    split; [done|]. split.
    { unfold reap_needed.
      match goal with
      | |- reaper (if reaper ?x then _ else _) = _ => destruct (reaper x) eqn:E
      end; [exact E|reflexivity]. }
    set (h2 := emit_if _ _ h1).
    assert (pit_clock h2 = pit_clock h) as Hclock2.
    { unfold h2. by rewrite pit_clock_emit_if. }
    pose proof (pit_clock_lookup h _ _ Hk) as Hc. rewrite <- Hclock2 in Hc.
    apply pit_clock_lookup_inv in Hc as (pe2 & Hk2 & _ & _).
    eexists. split.
    { unfold reap_needed.
      match goal with
      | |- propagating_tab (if reaper ?x then _ else _) !! _ = _ =>
        destruct (reaper x)
      end;
        cbn [propagating_tab set_reaper ccn_schedule_event set_sched];
        by apply consume_entry. }
    done.
  - intros Hu.
    destruct (do_propagate_live h ev pe m Hk Hm Hu Hev)
      as (h4 & nd & -> & Hclock & Hnd).
    pose proof (pit_clock_lookup h _ _ Hk) as Hc. rewrite <- Hclock in Hc.
    apply pit_clock_lookup_inv in Hc as (pe4 & Hk4 & Hu4 & Hm4).
    unfold pe_next_usec. rewrite Hk4, Hu4, Hm4, Hm. cbn [fst snd].
    split; [destruct (Z.gtb_spec nd (pe_usec pe)); lia|].
    eexists. split.
    { rewrite (pit_clock_frame_lookup _ _ (evdata ev)).
      cbn [propagating_tab update_pe set_propagating_tab].
      by rewrite lookup_alter_eq, Hk4. }
    cbn [fmap option_fmap option_map interest_msg pe_usec set_pe_usec].
    by rewrite Hm4, Hm.
Qed.

End pit_life.

(** The interest of the local client is consumed; its entry, of size 3, is
    still in the table after one pass and gone after three. *)
Lemma check_propagating_passes_witness :
  let h := consume (one_pending (L := pdu_lib) (W := example_walk [])) [99] in
  let pass := λ h, (check_propagating h).1 in
  (pe_size <$> propagating_tab h !! [99]) = Some 3 ∧
  (pe_size <$> propagating_tab (pass h) !! [99]) = Some 1 ∧
  propagating_tab (pass (pass (pass h))) !! [99] = None.
Proof.
  cbv zeta. split; [vm_compute; reflexivity|]. split; [vm_compute; reflexivity|].
  destruct (check_propagating_passes
              (consume (one_pending (L := pdu_lib) (W := example_walk [])) [99]))
    as (_ & _ & _ & Hgone).
  apply (Hgone [99] (mk_propagating None None None 3 0 1 0)).
  - vm_compute. reflexivity.
  - reflexivity.
Defined.

(** The interest of the local client has 3998905 microseconds left when
    do_propagate is called for it: the call sends it to face 2 and returns
    a delay that is taken off the time left. *)
Lemma do_propagate_spends_lifetime_witness :
  let h := one_pending (L := pdu_lib) (W := example_walk []) in
  let r := do_propagate (L := pdu_lib) h
             (mk_event 1095 cb_do_propagate [99] 12150) false in
  0 ≤ r.2 ≤ 3998905 ∧
  ∃ pe', propagating_tab r.1 !! [99] = Some pe' ∧
         interest_msg pe' = Some interest_any ∧ pe_usec pe' = 3998905 - r.2.
Proof.
  cbv zeta.
  destruct (do_propagate_spends_lifetime (L := pdu_lib)
              (one_pending (L := pdu_lib) (W := example_walk []))
              (mk_event 1095 cb_do_propagate [99] 12150)
              (mk_propagating (Some []) (Some [2]) (Some interest_any) 3 0 1
                 3998905) interest_any) as [_ Hlive].
  - vm_compute. reflexivity.
  - reflexivity.
  - done.
  - discriminate.
  - apply Hlive. done.
Defined.

(** * The name-prefix table: entries, parents, forwarding records *)

Section prefix_table.
Context `{L : ccn_lib} `{W : content_walk}.

Lemma buf_nat (x : list Z) (a : nat) : buf x (Z.of_nat a) = default 0 (x !! a).
Proof.
  unfold buf. destruct (Z.ltb_spec (Z.of_nat a) 0); [lia|]. by rewrite Nat2Z.id.
Qed.

(** *** check_forward_to *)

Lemma check_forward_to_scan_spec h ft : ∀ n (a : nat),
  let alive := λ fid, is_Some (face_from_faceid h fid) in
  (a ≤ length ft)%nat →
  filter alive (take a ft) = take a ft →
  ∃ r : nat,
    check_forward_to_scan h ft (Z.of_nat a) n = Z.of_nat r ∧
    (r ≤ length ft)%nat ∧
    filter alive (take r ft) = take r ft ∧
    ((r < length ft)%nat → (length ft - a ≤ n)%nat →
     ∃ x, ft !! r = Some x ∧ face_from_faceid h x = None).
Proof.
  cbv zeta. induction n as [|n IH]; intros a Ha Hlive.
  { exists a. split; [done|]. split; [done|]. split; [done|]. lia. }
  cbn [check_forward_to_scan]. unfold nelem.
  destruct (Z.ltb_spec (Z.of_nat a) (Z.of_nat (length ft))) as [Hlt|Hge].
  2:{ exists a. split; [done|]. split; [done|]. split; [done|]. lia. }
  destruct (lookup_lt_is_Some_2 ft a ltac:(lia)) as [x Hx].
  rewrite buf_nat, Hx. change (default 0 (Some x)) with x.
  destruct (face_from_faceid h x) as [f|] eqn:Hf.
  - replace (Z.of_nat a + 1) with (Z.of_nat (S a)) by lia.
    destruct (IH (S a)) as (r & Hr & Hle & Hkeep & Hdead).
    + lia.
    + rewrite (take_S_r _ _ _ Hx), filter_app, Hlive.
      rewrite filter_cons_True by (by rewrite Hf). done.
    + exists r. split; [done|]. split; [done|]. split; [done|].
      intros ? ?. apply Hdead; lia.
  - exists a. split; [done|]. split; [done|]. split; [done|]. eauto.
Qed.

Lemma check_forward_to_move_spec h ft0 : ∀ n ft (a b : nat),
  let alive := λ fid, is_Some (face_from_faceid h fid) in
  (a < b)%nat → (a ≤ length ft0)%nat → length ft = length ft0 →
  take a ft = filter alive (take b ft0) →
  drop b ft = drop b ft0 →
  (length ft0 - b ≤ n)%nat →
  ∃ ft' (r : nat),
    check_forward_to_move h ft (Z.of_nat a) (Z.of_nat b) n = (ft', Z.of_nat r) ∧
    length ft' = length ft0 ∧ (r ≤ length ft0)%nat ∧
    take r ft' = filter alive ft0.
Proof.
  cbv zeta. induction n as [|n IH]; intros ft a b Hab Ha Hlen Htake Hdrop Hn.
  { exists ft, a. split; [done|]. split; [done|]. split; [done|].
    rewrite Htake, take_ge by lia. done. }
  cbn [check_forward_to_move]. unfold nelem. rewrite Hlen.
  destruct (Z.ltb_spec (Z.of_nat b) (Z.of_nat (length ft0))) as [Hlt|Hge].
  2:{ exists ft, a. split; [done|]. split; [done|]. split; [done|].
      rewrite Htake, take_ge by lia. done. }
  destruct (lookup_lt_is_Some_2 ft0 b ltac:(lia)) as [x Hx].
  assert (ft !! b = Some x) as Hxb.
  { rewrite <- (Nat.add_0_r b), <- lookup_drop, Hdrop, lookup_drop.
    by rewrite Nat.add_0_r. }
  assert (drop (S b) ft = drop (S b) ft0) as Hdrop'.
  { replace (S b) with (b + 1)%nat by lia. by rewrite <- !drop_drop, Hdrop. }
  rewrite buf_nat, Hxb. change (default 0 (Some x)) with x.
  replace (Z.of_nat b + 1) with (Z.of_nat (S b)) by lia.
  destruct (face_from_faceid h x) as [f|] eqn:Hf.
  - replace (Z.of_nat a + 1) with (Z.of_nat (S a)) by lia.
    rewrite Nat2Z.id. apply IH.
    + lia.
    + lia.
    + by rewrite length_insert.
    + rewrite (take_S_r _ _ x) by (apply list_lookup_insert_eq; lia).
      rewrite take_insert_ge by done. rewrite Htake.
      rewrite (take_S_r _ _ _ Hx), filter_app.
      rewrite filter_cons_True by (by rewrite Hf). done.
    + rewrite drop_insert_lt by lia. done.
    + lia.
  - apply IH; try done; try lia.
    rewrite Htake, (take_S_r _ _ _ Hx), filter_app.
    rewrite filter_cons_False by (rewrite Hf; by intros [? ?]).
    by rewrite app_nil_r.
Qed.

Lemma check_forward_to_spec h npe :
  check_forward_to h npe
  = set_forward_to
      match forward_to npe with
      | None => None
      | Some ft =>
        match filter (λ fid, is_Some (face_from_faceid h fid)) ft with
        | [] => None
        | l => Some l
        end
      end npe.
Proof.
  unfold check_forward_to. destruct (forward_to npe) as [ft|] eqn:Hft.
  2:{ destruct npe. cbn in Hft. by subst. }
  cbv zeta.
  destruct (check_forward_to_scan_spec h ft (length ft) O)
    as (r & Hscan & Hr & Hkeep & Hdead); [lia|done|].
  change (Z.of_nat 0) with 0 in Hscan. rewrite Hscan.
  replace (Z.of_nat r + 1) with (Z.of_nat (S r)) by lia.
  destruct (check_forward_to_move_spec h ft (length ft) ft r (S r))
    as (ft' & r' & -> & Hlen & Hr' & Htake); try done; try lia.
  { destruct (decide (r < length ft)%nat) as [Hlt|Hge].
    - destruct (Hdead Hlt ltac:(lia)) as (x & Hx & Hgone).
      rewrite (take_S_r _ _ _ Hx), filter_app, Hkeep.
      rewrite filter_cons_False by (rewrite Hgone; by intros [? ?]).
      by rewrite app_nil_r.
    - rewrite (take_ge _ (S r)) by lia. rewrite <- Hkeep.
      by rewrite take_ge by lia. }
  rewrite <- Htake. unfold nelem. rewrite Hlen.
  destruct (Z.eqb_spec (Z.of_nat r') 0) as [E|E].
  { replace r' with O by lia. done. }
  destruct (Z.ltb_spec (Z.of_nat r') (Z.of_nat (length ft))) as [Hlt|Hge].
  - rewrite Nat2Z.id. destruct (take r' ft') as [|y l] eqn:Hl; [|done].
    apply (f_equal length) in Hl. rewrite length_take in Hl. simpl in Hl. lia.
  - rewrite (take_ge ft') by lia.
    destruct ft' as [|y l]; [simpl in Hlen; lia|done].
Qed.

(** X9: check_forward_to, which compacts the buffer in place, leaves in
    forward_to exactly the faceids whose face is still there, in their
    order, and drops the buffer when none is left; the rest of the entry is
    as it was. *)
Theorem check_forward_to_keeps_live_faces h npe :
  check_forward_to h npe
  = set_forward_to
      match forward_to npe with
      | None => None
      | Some ft =>
        match filter (λ fid, is_Some (face_from_faceid h fid)) ft with
        | [] => None
        | l => Some l
        end
      end npe.
Proof. apply check_forward_to_spec. Qed.

(** *** Parents and children *)

Lemma parents_insert_new (tab : gmap bytes nameprefix_entry) k e :
  omap parent (<[k := e]> tab)
  = match parent e with
    | Some pk => <[k := pk]> (omap parent tab)
    | None => delete k (omap parent tab)
    end.
Proof.
  destruct (parent e) as [pk|] eqn:Hp.
  - by apply omap_insert_Some.
  - by apply omap_insert_None.
Qed.

Lemma child_count_insert_new tab k e x :
  tab !! k = None →
  child_count (<[k := e]> tab) x
  = child_count tab x + (if decide (parent e = Some x) then 1 else 0).
Proof.
  intros Hk. unfold child_count. rewrite parents_insert_new.
  assert (omap parent tab !! k = None) as Hk' by (by rewrite lookup_omap, Hk).
  destruct (parent e) as [pk|].
  - destruct (decide (Some pk = Some x)) as [[= ->]|Hne].
    + rewrite map_filter_insert_True by done.
      rewrite map_size_insert_None; [lia|].
      apply map_lookup_filter_None_2. by left.
    + rewrite map_filter_insert_False by (simpl; congruence).
      rewrite delete_id by done. lia.
  - rewrite delete_id by done. rewrite decide_False by done. lia.
Qed.

Lemma parents_same (tab tab' : gmap bytes nameprefix_entry) :
  (∀ k, parent <$> tab' !! k = parent <$> tab !! k) →
  omap parent tab' = omap parent tab.
Proof.
  intros Hsame. apply map_eq. intros k. rewrite !lookup_omap.
  specialize (Hsame k).
  destruct (tab' !! k) as [e'|], (tab !! k) as [e|]; simpl in *; congruence.
Qed.

Lemma child_count_same tab tab' x :
  (∀ k, parent <$> tab' !! k = parent <$> tab !! k) →
  child_count tab' x = child_count tab x.
Proof. intros Hsame. unfold child_count. by rewrite (parents_same tab tab'). Qed.

Lemma child_count_delete tab k e x :
  tab !! k = Some e →
  child_count (delete k tab) x
  = child_count tab x - (if decide (parent e = Some x) then 1 else 0).
Proof.
  intros Hk. rewrite <- (insert_delete_id tab k e Hk) at 2.
  rewrite child_count_insert_new by apply lookup_delete_eq. lia.
Qed.

Lemma child_count_nonneg tab x : 0 ≤ child_count tab x.
Proof. unfold child_count. lia. Qed.

Lemma child_count_pos tab k e pk :
  tab !! k = Some e → parent e = Some pk → 1 ≤ child_count tab pk.
Proof.
  intros Hk Hp. pose proof (child_count_delete tab k e pk Hk) as Hd.
  rewrite decide_True in Hd by done.
  pose proof (child_count_nonneg (delete k tab) pk). lia.
Qed.

Lemma child_count_zero tab x :
  (∀ k e, tab !! k = Some e → parent e ≠ Some x) → child_count tab x = 0.
Proof.
  intros Hno. unfold child_count.
  assert (filter (λ kv : bytes * bytes, kv.2 = x) (omap parent tab) = ∅) as ->.
  { apply map_empty. intros k. apply map_lookup_filter_None_2.
    destruct (omap parent tab !! k) as [pk|] eqn:Hk; [|by left].
    right. intros y [= <-]. simpl. intros ->.
    rewrite lookup_omap in Hk. destruct (tab !! k) as [e|] eqn:He; [|done].
    simpl in Hk. by apply (Hno k e). }
  by rewrite map_size_empty.
Qed.

(** An update that keeps the parent link and the count of every entry keeps
    the invariant. *)
Lemma children_ok_same tab tab' :
  (∀ k, parent <$> tab' !! k = parent <$> tab !! k) →
  (∀ k, children <$> tab' !! k = children <$> tab !! k) →
  children_ok tab → children_ok tab'.
Proof.
  intros Hp Hc Hok k e' Hk.
  pose proof (Hp k) as Hpk. pose proof (Hc k) as Hck. rewrite Hk in Hpk, Hck.
  destruct (tab !! k) as [e|] eqn:He; [|done]. simpl in Hpk, Hck.
  injection Hpk as Hpk. injection Hck as Hck.
  destruct (Hok k e He) as [Hcount Hpar].
  split; [by rewrite Hck, (child_count_same tab tab')|].
  intros pk Hpk'. rewrite Hpk in Hpk'. destruct (Hpar pk Hpk') as [p Hp'].
  specialize (Hp pk). rewrite Hp' in Hp.
  destruct (tab' !! pk); [eauto|done].
Qed.

Lemma children_ok_alter tab k g :
  (∀ e, parent (g e) = parent e ∧ children (g e) = children e) →
  children_ok tab → children_ok (alter g k tab).
Proof.
  intros Hg. apply children_ok_same; intros i;
    (destruct (decide (i = k)) as [->|Hne];
     [rewrite lookup_alter_eq; destruct (tab !! k) as [e|]; simpl; [|done];
      destruct (Hg e) as [Hgp Hgc]; by rewrite ?Hgp, ?Hgc
     |by rewrite lookup_alter_ne]).
Qed.

(** A new entry under a parent that is in the table. *)
Lemma children_ok_new_child tab k e pk p :
  children_ok tab → tab !! k = None → tab !! pk = Some p →
  parent e = Some pk → children e = 0 →
  children_ok (<[k := e]> (<[pk := set_children (children p + 1) p]> tab)).
Proof.
  intros Hok Hk Hpk Hpar Hzero.
  assert (pk ≠ k) as Hne by congruence.
  assert (∀ y, child_count
                 (<[k := e]> (<[pk := set_children (children p + 1) p]> tab)) y
               = child_count tab y + (if decide (pk = y) then 1 else 0))
    as Hcount.
  { intros y. rewrite child_count_insert_new by (by rewrite lookup_insert_ne).
    rewrite Hpar.
    rewrite (child_count_same tab (<[pk := _]> tab)).
    - destruct (decide (pk = y)) as [->|E].
      + by rewrite decide_True.
      + rewrite decide_False; [done|congruence].
    - intros i. destruct (decide (i = pk)) as [->|E].
      + by rewrite lookup_insert_eq, Hpk.
      + by rewrite lookup_insert_ne. }
  intros x e' Hx. rewrite Hcount.
  destruct (decide (x = k)) as [->|Hxk].
  - rewrite lookup_insert_eq in Hx. injection Hx as <-.
    rewrite decide_False by done. split.
    + rewrite Hzero, child_count_zero; [done|].
      intros i ei Hi Hparent. destruct (Hok i ei Hi) as [_ Hex].
      destruct (Hex k Hparent) as [? ?]. congruence.
    + intros y Hy. rewrite Hpar in Hy. injection Hy as <-.
      rewrite lookup_insert_ne, lookup_insert_eq by done. eauto.
  - rewrite lookup_insert_ne in Hx by done.
    assert (∀ y, is_Some (tab !! y) →
              is_Some ((<[k := e]> (<[pk := set_children (children p + 1) p]> tab))
                       !! y)) as Hgrow.
    { intros y [ey Hy]. destruct (decide (y = k)) as [->|?]; [congruence|].
      rewrite lookup_insert_ne by done.
      destruct (decide (y = pk)) as [->|?].
      - rewrite lookup_insert_eq. eauto.
      - rewrite lookup_insert_ne by done. eauto. }
    destruct (decide (x = pk)) as [->|Hxp].
    + rewrite lookup_insert_eq in Hx. injection Hx as <-.
      destruct (Hok pk p Hpk) as [Hc Hex]. rewrite decide_True by done.
      split; [cbn [children set_children]; lia|].
      intros y Hy. apply Hgrow. by apply Hex.
    + rewrite lookup_insert_ne in Hx by done.
      destruct (Hok x e' Hx) as [Hc Hex]. rewrite decide_False by done.
      split; [lia|]. intros y Hy. apply Hgrow. by apply Hex.
Qed.

(** A new entry without a parent. *)
Lemma children_ok_new_root tab k e :
  children_ok tab → tab !! k = None → parent e = None → children e = 0 →
  children_ok (<[k := e]> tab).
Proof.
  intros Hok Hk Hpar Hzero x e' Hx.
  rewrite child_count_insert_new by done. rewrite Hpar.
  rewrite decide_False by done.
  destruct (decide (x = k)) as [->|Hxk].
  - rewrite lookup_insert_eq in Hx. injection Hx as <-. split.
    + rewrite Hzero, child_count_zero; [done|].
      intros i ei Hi Hparent. destruct (Hok i ei Hi) as [_ Hex].
      destruct (Hex k Hparent) as [? ?]. congruence.
    + intros y Hy. congruence.
  - rewrite lookup_insert_ne in Hx by done.
    destruct (Hok x e' Hx) as [Hc Hex]. split; [lia|].
    intros y Hy. destruct (Hex y Hy) as [ey Hey].
    destruct (decide (y = k)) as [->|?]; [congruence|].
    rewrite lookup_insert_ne by done. eauto.
Qed.

Lemma new_nameprefix_spec h par npe h1 :
  new_nameprefix h par = (npe, h1) →
  nameprefix_tab h1 = nameprefix_tab h ∧ parent npe = fst <$> par ∧
  children npe = 0 ∧ forwarding npe = [] ∧ forward_to npe = None ∧
  propagating_head npe = None.
Proof.
  unfold new_nameprefix. destruct par as [[pk p]|].
  - by intros [= <- <-].
  - destruct (nrand48 (seed h)) as [r s']. by intros [= <- <-].
Qed.

Lemma nameprefix_seek_loop_children n : ∀ i h msg cs par res,
  children_ok (nameprefix_tab h) →
  (∀ pk p, par = Some (pk, p) → nameprefix_tab h !! pk = Some p) →
  children_ok (nameprefix_tab (nameprefix_seek_loop n i h msg cs par res).1.1).
Proof.
  induction n as [|n IH]; intros i h msg cs par res Hok Hpar; [done|].
  cbn [nameprefix_seek_loop]. cbv zeta.
  set (k := subbytes msg (buf cs 0) (buf cs i)).
  destruct (nameprefix_tab h !! k) as [npe|] eqn:Hk.
  { apply IH; [done|]. by intros pk p [= <- <-]. }
  destruct (new_nameprefix h par) as [npe h1] eqn:Hnew.
  apply new_nameprefix_spec in Hnew as (Htab & Hparent & Hzero & _).
  apply IH.
  - destruct par as [[pk p]|]; cbn [nameprefix_tab set_nameprefix_tab];
      rewrite Htab.
    + apply children_ok_new_child; try done. by apply Hpar.
    + by apply children_ok_new_root.
  - intros pk p [= <- <-].
    destruct par as [[pk p]|]; cbn [nameprefix_tab set_nameprefix_tab];
      by rewrite lookup_insert_eq.
Qed.

Lemma set_children_twice c c' (e : nameprefix_entry) :
  set_children c (set_children c' e) = set_children c e.
Proof. by destruct e. Qed.

Lemma set_children_same (e : nameprefix_entry) : set_children (children e) e = e.
Proof. by destruct e. Qed.

(** What the loop of nameprefix_seek makes and what it leaves. *)
Lemma nameprefix_seek_loop_spec n : ∀ (i : Z) h msg cs par res h' res' e,
  let key := λ j, subbytes msg (buf cs 0) (buf cs j) in
  nameprefix_seek_loop n i h msg cs par res = (h', res', e) →
  (∀ pk p, par = Some (pk, p) → nameprefix_tab h !! pk = Some p) →
  (∀ j, i ≤ j < i + Z.of_nat n → is_Some (nameprefix_tab h' !! key j)) ∧
  (∀ k npe, nameprefix_tab h !! k = Some npe →
     ∃ c, nameprefix_tab h' !! k = Some (set_children c npe)) ∧
  (∀ k, is_Some (nameprefix_tab h' !! k) →
     is_Some (nameprefix_tab h !! k) ∨
     ∃ j, i ≤ j < i + Z.of_nat n ∧ k = key j) ∧
  ((0 < n)%nat →
     e = Some (key (i + Z.of_nat n - 1)) ∧
     (res' = HT_OLD_ENTRY ∨ res' = HT_NEW_ENTRY) ∧
     (is_Some (nameprefix_tab h !! key (i + Z.of_nat n - 1)) →
      res' = HT_OLD_ENTRY)).
Proof.
  cbv zeta. induction n as [|n IH]; intros i h msg cs par res h' res' e Hloop Hpar.
  { cbn [nameprefix_seek_loop] in Hloop. injection Hloop as <- <- <-.
    split; [intros; lia|]. split.
    { intros k npe Hk. exists (children npe). by rewrite set_children_same. }
    split; [by left|lia]. }
  cbn [nameprefix_seek_loop] in Hloop. cbv zeta in Hloop.
  set (k0 := subbytes msg (buf cs 0) (buf cs i)) in *.
  match goal with
  | |- ?G =>
    assert (∀ h1 par1 res1,
            nameprefix_seek_loop n (i + 1) h1 msg cs par1 res1 = (h', res', e) →
            (∀ pk p, par1 = Some (pk, p) → nameprefix_tab h1 !! pk = Some p) →
            is_Some (nameprefix_tab h1 !! k0) →
            (par1 = Some (k0, default (mk_nameprefix None None [] None 0 0 0 0 0)
                                (nameprefix_tab h1 !! k0))) →
            (res1 = HT_OLD_ENTRY ∨ res1 = HT_NEW_ENTRY) →
            (is_Some (nameprefix_tab h !! k0) → res1 = HT_OLD_ENTRY) →
            (∀ k npe, nameprefix_tab h !! k = Some npe →
               ∃ c, nameprefix_tab h1 !! k = Some (set_children c npe)) →
            (∀ k, is_Some (nameprefix_tab h1 !! k) →
               is_Some (nameprefix_tab h !! k) ∨ k = k0) →
            G) as Hrest
  end.
  { intros h1 par1 res1 Hloop1 Hpar1 Hk0 Hpar0 Hres1 Hold Hkeep Hdom.
    destruct (IH _ _ _ _ _ _ _ _ _ Hloop1 Hpar1) as (Hall & Hsame & Honly & Hlast).
    split; [|split; [|split]].
    - intros j Hj. destruct (decide (j = i)) as [->|Hne].
      + destruct Hk0 as [e0 He0]. destruct (Hsame _ _ He0) as [c Hc]. eauto.
      + apply Hall. lia.
    - intros k npe Hk. destruct (Hkeep k npe Hk) as [c Hc].
      destruct (Hsame _ _ Hc) as [c' Hc']. exists c'.
      by rewrite Hc', set_children_twice.
    - intros k Hk. destruct (Honly k Hk) as [Hk1|(j & Hj & ->)].
      + destruct (Hdom k Hk1) as [?| ->]; [by left|].
        right. exists i. split; [lia|done].
      + right. exists j. split; [lia|done].
    - intros _. destruct n as [|n].
      + cbn [nameprefix_seek_loop] in Hloop1. injection Hloop1 as <- <- <-.
        replace (i + Z.of_nat 1 - 1) with i by lia. fold k0.
        split; [by rewrite Hpar0|]. by split.
      + destruct Hlast as (He & Hres & Hres_old); [lia|].
        replace (i + Z.of_nat (S (S n)) - 1) with (i + 1 + Z.of_nat (S n) - 1)
          by lia.
        split; [done|]. split; [done|].
        intros [e0 He0]. apply Hres_old.
        destruct (Hkeep _ _ He0) as [c Hc]. eauto. }
  destruct (nameprefix_tab h !! k0) as [npe|] eqn:Hk.
  { apply (Hrest h (Some (k0, npe)) HT_OLD_ENTRY Hloop).
    - by intros pk p [= <- <-].
    - by rewrite Hk.
    - by rewrite Hk.
    - by left.
    - done.
    - intros k e0 Hk'. exists (children e0). by rewrite set_children_same.
    - by left. }
  destruct (new_nameprefix h par) as [npe h1] eqn:Hnew.
  apply new_nameprefix_spec in Hnew as (Htab & Hparent & _).
  match type of Hloop with
  | nameprefix_seek_loop _ _ ?hx _ _ _ _ = _ => set (h2 := hx) in *
  end.
  assert (nameprefix_tab h2
          = <[k0 := npe]>
              match par with
              | Some (pk, p) =>
                <[pk := set_children (children p + 1) p]> (nameprefix_tab h)
              | None => nameprefix_tab h
              end) as Htab2.
  { unfold h2. destruct par as [[pk p]|];
      cbn [nameprefix_tab set_nameprefix_tab]; by rewrite Htab. }
  apply (Hrest h2 (Some (k0, npe)) HT_NEW_ENTRY Hloop).
  - intros pk p [= <- <-]. by rewrite Htab2, lookup_insert_eq.
  - rewrite Htab2, lookup_insert_eq. eauto.
  - by rewrite Htab2, lookup_insert_eq.
  - by right.
  - by intros [? ?].
  - intros k e0 Hk'. rewrite Htab2.
    assert (k ≠ k0) as Hne by congruence.
    rewrite lookup_insert_ne by done.
    destruct par as [[pk p]|].
    + destruct (decide (k = pk)) as [->|Hnp].
      * rewrite lookup_insert_eq. pose proof (Hpar pk p eq_refl) as Hp.
        assert (p = e0) as -> by congruence. eauto.
      * rewrite lookup_insert_ne by done. exists (children e0).
        by rewrite set_children_same.
    + exists (children e0). by rewrite set_children_same.
  - intros k Hk'. rewrite Htab2 in Hk'.
    destruct (decide (k = k0)) as [->|Hne]; [by right|].
    rewrite lookup_insert_ne in Hk' by done. left.
    destruct par as [[pk p]|]; [|done].
    destruct (decide (k = pk)) as [->|Hnp].
    + rewrite (Hpar pk p eq_refl). eauto.
    + by rewrite lookup_insert_ne in Hk'.
Qed.

Lemma nameprefix_seek_spec h msg cs ncomps :
  let key := λ j, subbytes msg (buf cs 0) (buf cs j) in
  let r := nameprefix_seek h msg cs ncomps in
  (nelem cs < ncomps + 1 → r = (h, -1, None)) ∧
  (0 ≤ ncomps → ncomps + 1 ≤ nelem cs →
   r.2 = Some (key ncomps) ∧
   (r.1.2 = HT_OLD_ENTRY ∨ r.1.2 = HT_NEW_ENTRY) ∧
   (is_Some (nameprefix_tab h !! key ncomps) → r.1.2 = HT_OLD_ENTRY) ∧
   (∀ j, 0 ≤ j ≤ ncomps → is_Some (nameprefix_tab r.1.1 !! key j)) ∧
   (∀ k npe, nameprefix_tab h !! k = Some npe →
      ∃ c, nameprefix_tab r.1.1 !! k = Some (set_children c npe)) ∧
   (∀ k, is_Some (nameprefix_tab r.1.1 !! k) →
      is_Some (nameprefix_tab h !! k) ∨ ∃ j, 0 ≤ j ≤ ncomps ∧ k = key j)).
Proof.
  cbv zeta. unfold nameprefix_seek. split.
  { intros Hfew. destruct (Z.gtb_spec (ncomps + 1) (nelem cs)); [done|lia]. }
  intros Hn Hlen. destruct (Z.gtb_spec (ncomps + 1) (nelem cs)); [lia|].
  destruct (nameprefix_seek_loop _ _ _ _ _ _ _) as [[h' res'] e] eqn:Hloop.
  apply nameprefix_seek_loop_spec in Hloop as (Hall & Hsame & Honly & Hlast);
    [|done].
  destruct Hlast as (He & Hres & Hold); [lia|].
  replace (0 + Z.of_nat (Z.to_nat (ncomps + 1)) - 1) with ncomps in * by lia.
  cbn [fst snd]. split; [done|]. split; [done|]. split; [done|].
  split; [intros j Hj; apply Hall; lia|]. split; [done|].
  intros k Hk. destruct (Honly k Hk) as [?|(j & Hj & ->)]; [by left|].
  right. exists j. split; [lia|done].
Qed.

(** X10: nameprefix_seek makes an entry for the prefix it is asked for and
    for every shorter prefix of the name, and leaves the enumerator at the
    entry of the prefix asked for; the result says HT_OLD_ENTRY when that
    entry was there before.  An entry that was in the table stays, changed
    at most in its count of children, and no entry is made for anything
    but these prefixes.  With fewer components than asked for the result
    is -1 and nothing is changed. *)
Theorem nameprefix_seek_makes_prefixes h msg cs ncomps :
  let key := λ j, subbytes msg (buf cs 0) (buf cs j) in
  let r := nameprefix_seek h msg cs ncomps in
  (nelem cs < ncomps + 1 → r = (h, -1, None)) ∧
  (0 ≤ ncomps → ncomps + 1 ≤ nelem cs →
   r.2 = Some (key ncomps) ∧
   (r.1.2 = HT_OLD_ENTRY ∨ r.1.2 = HT_NEW_ENTRY) ∧
   (is_Some (nameprefix_tab h !! key ncomps) → r.1.2 = HT_OLD_ENTRY) ∧
   (∀ j, 0 ≤ j ≤ ncomps → is_Some (nameprefix_tab r.1.1 !! key j)) ∧
   (∀ k npe, nameprefix_tab h !! k = Some npe →
      ∃ c, nameprefix_tab r.1.1 !! k = Some (set_children c npe)) ∧
   (∀ k, is_Some (nameprefix_tab r.1.1 !! k) →
      is_Some (nameprefix_tab h !! k) ∨ ∃ j, 0 ≤ j ≤ ncomps ∧ k = key j)).
Proof. apply nameprefix_seek_spec. Qed.

(** *** The reaper's pass over the entries *)

Lemma delete_nameprefix_tab h k npe :
  nameprefix_tab h !! k = Some npe →
  nameprefix_tab (delete_nameprefix h k)
  = delete k
      match parent npe with
      | Some pk =>
        alter (λ p, set_children (children p - 1) p) pk (nameprefix_tab h)
      | None => nameprefix_tab h
      end.
Proof.
  intros Hk. unfold delete_nameprefix, finalize_nameprefix. rewrite Hk.
  cbv zeta. apply map_eq. intros i.
  destruct (parent npe) as [pk|];
    cbn [nameprefix_tab update_npe set_nameprefix_tab];
    (destruct (decide (i = k)) as [->|Hne];
     [by rewrite !lookup_delete_eq|rewrite !lookup_delete_ne by done]).
  - rewrite lookup_alter_ne by done.
    destruct (decide (i = pk)) as [->|Hnp].
    + by rewrite !lookup_alter_eq, lookup_alter_ne.
    + by rewrite !lookup_alter_ne.
  - by rewrite lookup_alter_ne.
Qed.

(** An entry without children is taken out: the count of its parent goes
    down by one, and no link of an entry that stays is left dangling. *)
Lemma children_ok_delete tab k npe :
  children_ok tab → tab !! k = Some npe → children npe = 0 →
  children_ok
    (delete k
       match parent npe with
       | Some pk => alter (λ p, set_children (children p - 1) p) pk tab
       | None => tab
       end).
Proof.
  intros Hok Hk Hzero.
  set (tab1 := match parent npe with
               | Some pk => alter (λ p, set_children (children p - 1) p) pk tab
               | None => tab
               end).
  assert (∀ i, parent <$> tab1 !! i = parent <$> tab !! i) as Hsame.
  { intros i. unfold tab1. destruct (parent npe) as [pk|]; [|done].
    destruct (decide (i = pk)) as [->|Hne].
    - rewrite lookup_alter_eq. by destruct (tab !! pk).
    - by rewrite lookup_alter_ne. }
  assert (∃ npe1, tab1 !! k = Some npe1 ∧ parent npe1 = parent npe)
    as (npe1 & Hk1 & Hp1).
  { specialize (Hsame k). rewrite Hk in Hsame.
    destruct (tab1 !! k) as [npe1|]; [|done]. injection Hsame as Hsame. eauto. }
  assert (∀ y, child_count (delete k tab1) y
               = child_count tab y
                 - (if decide (parent npe = Some y) then 1 else 0)) as Hcount.
  { intros y. rewrite (child_count_delete tab1 k npe1 y Hk1), Hp1.
    by rewrite (child_count_same tab tab1). }
  assert (∀ i ei, tab !! i = Some ei → parent ei ≠ Some k) as Hnochild.
  { intros i ei Hi Hparent. pose proof (child_count_pos tab i ei k Hi Hparent).
    destruct (Hok k npe Hk) as [Hc _]. lia. }
  intros x e' Hx. rewrite Hcount.
  destruct (decide (x = k)) as [->|Hxk]; [by rewrite lookup_delete_eq in Hx|].
  rewrite lookup_delete_ne in Hx by done.
  assert (∃ e, tab !! x = Some e ∧ parent e' = parent e ∧
               children e'
               = children e - (if decide (parent npe = Some x) then 1 else 0))
    as (e & He & Hpe & Hce).
  { unfold tab1 in Hx. destruct (parent npe) as [pk|].
    - destruct (decide (x = pk)) as [->|Hne].
      + rewrite lookup_alter_eq in Hx.
        destruct (tab !! pk) as [e|]; [|done]. injection Hx as <-.
        exists e. rewrite decide_True by done. done.
      + rewrite lookup_alter_ne in Hx by done. exists e'.
        rewrite decide_False by congruence. split; [done|]. split; [done|lia].
    - exists e'. rewrite decide_False by done. split; [done|]. split; [done|lia]. }
  destruct (Hok x e He) as [Hc Hex]. split; [lia|].
  intros y Hy. rewrite Hpe in Hy.
  assert (y ≠ k) as Hyk by (intros ->; by apply (Hnochild x e He)).
  rewrite lookup_delete_ne by done.
  destruct (Hex y Hy) as [ey Hey]. specialize (Hsame y). rewrite Hey in Hsame.
  destruct (tab1 !! y); [eauto|done].
Qed.

Lemma check_nameprefix_entry_children h c k :
  children_ok (nameprefix_tab h) →
  children_ok (nameprefix_tab (check_nameprefix_entry (h, c) k).1).
Proof.
  intros Hok. unfold check_nameprefix_entry.
  destruct (nameprefix_tab h !! k) as [npe|] eqn:Hk; [|done].
  set (h1 := match forward_to npe with Some _ => _ | None => h end).
  assert (children_ok (nameprefix_tab h1)) as Hok1.
  { unfold h1. destruct (forward_to npe); [|done].
    cbn [nameprefix_tab update_npe set_nameprefix_tab].
    apply children_ok_alter; [|done].
    intros e. rewrite check_forward_to_spec. by destruct e. }
  clearbody h1.
  destruct (nameprefix_tab h1 !! k) as [npe1|] eqn:Hk1; [|done].
  destruct (_ && _) eqn:Htest; cbn [fst].
  - rewrite (delete_nameprefix_tab _ _ _ Hk1).
    apply children_ok_delete; [done..|].
    apply andb_prop in Htest as [Htest _].
    apply andb_prop in Htest as [Htest _].
    apply andb_prop in Htest as [_ Hz]. lia.
  - cbn [nameprefix_tab update_npe set_nameprefix_tab].
    apply children_ok_alter; [|done]. intros e. by destruct e.
Qed.

Lemma check_nameprefix_entries_children h :
  children_ok (nameprefix_tab h) →
  children_ok (nameprefix_tab (check_nameprefix_entries h).1).
Proof.
  unfold check_nameprefix_entries.
  generalize (map_to_list (nameprefix_tab h)).*1. intros ks.
  generalize 0. revert h.
  induction ks as [|k ks IH]; intros h c Hok; [done|].
  cbn [foldl]. pose proof (check_nameprefix_entry_children h c k Hok) as Hstep.
  destruct (check_nameprefix_entry (h, c) k) as [h1 c1]. by apply IH.
Qed.

Lemma children_ok_empty : children_ok ∅.
Proof. intros k e Hk. by rewrite lookup_empty in Hk. Qed.

Lemma ccnd_reg_prefix_children h msg cs ncomps fid flags exp :
  children_ok (nameprefix_tab h) →
  children_ok (nameprefix_tab (ccnd_reg_prefix h msg cs ncomps fid flags exp).1).
Proof.
  intros Hok. unfold ccnd_reg_prefix. destruct (negb _); [done|].
  destruct (face_from_faceid h fid); [|done].
  assert (children_ok (nameprefix_tab (nameprefix_seek h msg cs ncomps).1.1))
    as Hseek.
  { unfold nameprefix_seek. destruct (_ >? _); [done|].
    by apply nameprefix_seek_loop_children. }
  destruct (nameprefix_seek h msg cs ncomps) as [[h1 res] e]. cbn [fst] in Hseek.
  destruct (res >=? 0); [|done]. destruct e as [k|]; [|done].
  destruct (nameprefix_tab h1 !! k) as [npe|] eqn:Hk; [|done].
  destruct (seek_forwarding npe fid) as [npe1 i] eqn:Hsf. cbn [fst].
  cbn [nameprefix_tab set_nameprefix_tab set_forward_to_gen].
  assert (parent npe1 = parent npe ∧ children npe1 = children npe) as [Hp Hc].
  { unfold seek_forwarding in Hsf. destruct (forwarding_index _ _).
    - by injection Hsf as <- _.
    - injection Hsf as <- _. by destruct npe. }
  revert Hseek. apply children_ok_same; intros j;
    (destruct (decide (j = k)) as [->|Hne];
     [rewrite lookup_insert_eq, Hk; simpl; by rewrite ?Hp, ?Hc
     |by rewrite lookup_insert_ne]).
Qed.

(** X11: in the name-prefix table the parent link of every entry goes to
    an entry that is in the table, and the children field of an entry is
    the number of entries whose parent it is.  This holds for the empty
    table that the daemon starts with and is kept by the functions that
    make entries (nameprefix_seek, and ccnd_reg_prefix through it), by
    age_forwarding, and by check_nameprefix_entries, which deletes entries:
    an entry that is the parent of another one is never taken away. *)
Theorem children_counted h :
  children_ok (∅ : gmap bytes nameprefix_entry) ∧
  (children_ok (nameprefix_tab h) →
   (∀ msg cs ncomps,
      children_ok (nameprefix_tab (nameprefix_seek h msg cs ncomps).1.1)) ∧
   (∀ msg cs ncomps fid flags exp,
      children_ok
        (nameprefix_tab (ccnd_reg_prefix h msg cs ncomps fid flags exp).1)) ∧
   (∀ cancel, children_ok (nameprefix_tab (age_forwarding h cancel).1)) ∧
   children_ok (nameprefix_tab (check_nameprefix_entries h).1)).
Proof.
  split; [apply children_ok_empty|]. intros Hok.
  split; [|split; [|split]].
  - intros msg cs ncomps. unfold nameprefix_seek. destruct (_ >? _); [done|].
    by apply nameprefix_seek_loop_children.
  - intros. by apply ccnd_reg_prefix_children.
  - intros [|]; [done|]. unfold age_forwarding. cbn [fst].
    cbn [nameprefix_tab set_nameprefix_tab set_forward_to_gen].
    revert Hok. apply children_ok_same; intros k; rewrite lookup_fmap;
      by destruct (nameprefix_tab h !! k) as [[]|].
  - by apply check_nameprefix_entries_children.
Qed.

(** *** Forwarding records: registration and aging *)

Lemma gen_nameprefix_seek_loop n : ∀ i h msg cs par res,
  forward_to_gen (nameprefix_seek_loop n i h msg cs par res).1.1
  = forward_to_gen h.
Proof.
  induction n as [|n IH]; intros i h msg cs par res; [done|].
  cbn [nameprefix_seek_loop]. cbv zeta.
  destruct (nameprefix_tab h !! _); [apply IH|].
  destruct (new_nameprefix h par) as [npe h1] eqn:Hnew.
  rewrite IH.
  assert (forward_to_gen h1 = forward_to_gen h) as <-.
  { unfold new_nameprefix in Hnew. destruct par as [[pk p]|].
    - by injection Hnew as _ <-.
    - destruct (nrand48 (seed h)) as [r s']. by injection Hnew as _ <-. }
  by destruct par as [[pk p]|].
Qed.

Lemma gen_nameprefix_seek h msg cs ncomps :
  forward_to_gen (nameprefix_seek h msg cs ncomps).1.1 = forward_to_gen h.
Proof.
  unfold nameprefix_seek. destruct (_ >? _); [done|].
  apply gen_nameprefix_seek_loop.
Qed.

Lemma forwarding_index_found l fid :
  match forwarding_index l fid with
  | Some i => ∃ f, l !! i = Some f ∧ forw_faceid f = fid
  | None => fid ∉ forw_faceid <$> l
  end.
Proof.
  induction l as [|f l IH]; cbn [forwarding_index].
  { apply not_elem_of_nil. }
  destruct (Z.eqb_spec (forw_faceid f) fid) as [E|E]; [by exists f|].
  destruct (forwarding_index l fid) as [i|]; cbn [fmap option_fmap option_map].
  - done.
  - rewrite fmap_cons. by intros [?|?]%elem_of_cons.
Qed.

Lemma land_lor_absorb a b : Z.land (Z.lor a b) b = b.
Proof.
  apply Z.bits_inj'. intros n Hn. rewrite Z.land_spec, Z.lor_spec.
  by destruct (Z.testbit a n), (Z.testbit b n).
Qed.

Lemma flag_set_lor_active a b :
  flag_set (Z.lor a (Z.lor (Z.lor CCN_FORW_REFRESHED CCN_FORW_ACTIVE) b))
    CCN_FORW_ACTIVE = true.
Proof.
  change CCN_FORW_ACTIVE with (2 ^ 0) at 2. rewrite flag_set_bit by done.
  rewrite !Z.lor_spec. change (Z.testbit CCN_FORW_ACTIVE 0) with true.
  by destruct (Z.testbit a 0), (Z.testbit CCN_FORW_REFRESHED 0).
Qed.

(** X12: ccnd_reg_prefix refuses flags outside CCN_FORW_PUBMASK, a faceid
    that names no face, and a name with too few components: the result is
    -1 and nothing is changed.  Otherwise the entry of the prefix has a
    forwarding record for the face afterwards, with the expiry time given,
    with the flags given and CCN_FORW_ACTIVE and CCN_FORW_REFRESHED set;
    the prefix forwards to the face from then on; forward_to_gen has moved
    on, so that the cached forward_to sets are made anew; and an entry that
    had at most one record for each face still has at most one. *)
Theorem ccnd_reg_prefix_adds_record h msg cs ncomps fid flags exp :
  let key := subbytes msg (buf cs 0) (buf cs ncomps) in
  let pubmask := Z.lor (Z.lor CCN_FORW_CHILD_INHERIT CCN_FORW_ACTIVE)
                   CCN_FORW_ADVERTISE in
  let given := Z.lor (Z.lor CCN_FORW_REFRESHED CCN_FORW_ACTIVE) flags in
  let r := ccnd_reg_prefix h msg cs ncomps fid flags exp in
  (Z.land flags pubmask ≠ flags ∨ face_from_faceid h fid = None ∨
   nelem cs < ncomps + 1 → r = (h, -1)) ∧
  (Z.land flags pubmask = flags → is_Some (face_from_faceid h fid) →
   0 ≤ ncomps → ncomps + 1 ≤ nelem cs →
   0 ≤ r.2 ∧ forward_to_gen r.1 = u32 (forward_to_gen h + 1) ∧
   forwards_to r.1 key fid ∧
   ∃ npe f, nameprefix_tab r.1 !! key = Some npe ∧ f ∈ forwarding npe ∧
            forw_faceid f = fid ∧ expires f = exp ∧
            Z.land (forw_flags f) given = given ∧
            (∀ old, nameprefix_tab h !! key = Some old →
               NoDup (forw_faceid <$> forwarding old) →
               NoDup (forw_faceid <$> forwarding npe))).
Proof.
  cbv zeta. unfold ccnd_reg_prefix. split.
  { intros [Hflags|[Hface|Hfew]].
    - destruct (Z.eqb_spec (Z.land flags
        (Z.lor (Z.lor CCN_FORW_CHILD_INHERIT CCN_FORW_ACTIVE) CCN_FORW_ADVERTISE))
        flags); done.
    - rewrite Hface. by destruct (negb _).
    - destruct (negb _); [done|]. destruct (face_from_faceid h fid); [|done].
      destruct (nameprefix_seek_spec h msg cs ncomps) as [-> _]; done. }
  intros Hflags [face Hface] Hn Hlen.
  rewrite Hflags, Z.eqb_refl, Hface. cbn [negb].
  destruct (nameprefix_seek_spec h msg cs ncomps) as [_ Hseek].
  destruct (Hseek Hn Hlen) as (He & Hres & _ & Hall & Hsame & _).
  pose proof (faces_nameprefix_seek h msg cs ncomps) as Hfaces.
  assert (forward_to_gen (nameprefix_seek h msg cs ncomps).1.1 = forward_to_gen h)
    as Hgen.
  { apply gen_nameprefix_seek. }
  destruct (nameprefix_seek h msg cs ncomps) as [[h1 res] e].
  cbn [fst snd] in *. subst e.
  assert ((res >=? 0) = true) as ->.
  { destruct Hres as [-> | ->]; done. }
  destruct (Hall ncomps ltac:(lia)) as [npe0 Hk]. rewrite Hk.
  pose proof (forwarding_index_found (forwarding npe0) fid) as Hidx.
  unfold seek_forwarding.
  set (k := subbytes msg (buf cs 0) (buf cs ncomps)) in *.
  set (g := λ f : ccn_forwarding,
         set_forw_flags
           (Z.lor (forw_flags f)
              (Z.lor (Z.lor CCN_FORW_REFRESHED CCN_FORW_ACTIVE) flags))
           (set_expires exp f)).
  assert (∀ l i f0,
            l !! i = Some f0 → forw_faceid f0 = fid →
            (NoDup (forw_faceid <$> forwarding npe0) → NoDup (forw_faceid <$> l)) →
            let r := (set_nameprefix_tab
                        (<[k := set_forwarding (alter g i l) npe0]>
                           (nameprefix_tab
                              (set_forward_to_gen (u32 (forward_to_gen h1 + 1)) h1)))
                        (set_forward_to_gen (u32 (forward_to_gen h1 + 1)) h1),
                      res) in
            0 ≤ r.2 ∧ forward_to_gen r.1 = u32 (forward_to_gen h + 1) ∧
            forwards_to r.1 k fid ∧
            ∃ npe f, nameprefix_tab r.1 !! k = Some npe ∧ f ∈ forwarding npe ∧
              forw_faceid f = fid ∧ expires f = exp ∧
              Z.land (forw_flags f)
                (Z.lor (Z.lor CCN_FORW_REFRESHED CCN_FORW_ACTIVE) flags)
              = Z.lor (Z.lor CCN_FORW_REFRESHED CCN_FORW_ACTIVE) flags ∧
              (∀ old, nameprefix_tab h !! k = Some old →
                 NoDup (forw_faceid <$> forwarding old) →
                 NoDup (forw_faceid <$> forwarding npe))) as Hdone.
  { intros l i f0 Hi Hfid Hnd. cbv zeta. cbn [fst snd].
    cbn [nameprefix_tab set_nameprefix_tab set_forward_to_gen forward_to_gen].
    rewrite lookup_insert_eq.
    assert (g f0 ∈ alter g i l) as Hin.
    { apply list_elem_of_lookup. exists i.
      by rewrite list_lookup_alter_eq, Hi. }
    split; [destruct Hres as [-> | ->]; done|]. split; [by rewrite Hgen|].
    split.
    { left. exists (set_forwarding (alter g i l) npe0), (g f0).
      cbn [nameprefix_tab set_nameprefix_tab set_forward_to_gen].
      rewrite lookup_insert_eq. split; [done|]. split; [done|].
      split; [done|]. split; [apply flag_set_lor_active|].
      exists face. change (forw_faceid (g f0)) with (forw_faceid f0).
      rewrite Hfid, <- Hface. unfold face_from_faceid.
      cbn [faces_by_faceid set_nameprefix_tab set_forward_to_gen].
      by rewrite Hfaces. }
    exists (set_forwarding (alter g i l) npe0), (g f0).
    split; [done|]. split; [done|]. split; [done|]. split; [done|].
    split; [apply land_lor_absorb|].
    intros old Hold Hnodup.
    destruct (Hsame k old Hold) as [c Hc].
    assert (npe0 = set_children c old) as -> by congruence.
    cbn [forwarding set_forwarding].
    replace (forw_faceid <$> alter g i l) with (forw_faceid <$> l).
    { apply Hnd. by destruct old. }
    apply list_eq. intros j. rewrite !list_lookup_fmap.
    destruct (decide (j = i)) as [->|Hne].
    - rewrite list_lookup_alter_eq. by destruct (l !! i).
    - by rewrite list_lookup_alter_ne. }
  destruct (forwarding_index (forwarding npe0) fid) as [i|].
  - destruct Hidx as (f0 & Hi & Hfid). by apply (Hdone _ i f0).
  - apply (Hdone _ O (mk_forwarding fid 0 2147483647)); [done|done|].
    intros Hnd. cbn [forwarding set_forwarding]. rewrite fmap_cons.
    by apply NoDup_cons.
Qed.

Lemma age_forwarding_list_faces h h' l :
  faces_by_faceid h' = faces_by_faceid h →
  age_forwarding_list h' l = age_forwarding_list h l.
Proof.
  intros Hfaces. induction l as [|f l IH]; [done|].
  cbn [age_forwarding_list]. unfold face_from_faceid. by rewrite Hfaces, IH.
Qed.

Lemma age_forwarding_list_filter h fid l :
  filter (λ f, forw_faceid f = fid) (age_forwarding_list h l)
  = age_forwarding_list h (filter (λ f, forw_faceid f = fid) l).
Proof.
  induction l as [|f l IH]; [done|]. cbn [age_forwarding_list].
  destruct (decide (forw_faceid f = fid)) as [E|E].
  - rewrite (filter_cons_True _ f l) by done. cbn [age_forwarding_list].
    destruct (_ || _); [done|]. cbv zeta.
    rewrite filter_cons_True; [by rewrite IH|].
    by destruct (_ <=? _).
  - rewrite (filter_cons_False _ f l) by done.
    destruct (_ || _); [done|]. cbv zeta.
    rewrite filter_cons_False; [done|]. by destruct (_ <=? _).
Qed.

Lemma filter_no_id (l : list ccn_forwarding) fid :
  fid ∉ forw_faceid <$> l → filter (λ g, forw_faceid g = fid) l = [].
Proof.
  induction l as [|x l IH]; intros Hno; [done|].
  rewrite fmap_cons in Hno. apply not_elem_of_cons in Hno as [Hx Hno].
  rewrite filter_cons_False by congruence. by apply IH.
Qed.

Lemma filter_own_id (l : list ccn_forwarding) f :
  NoDup (forw_faceid <$> l) → f ∈ l →
  filter (λ g, forw_faceid g = forw_faceid f) l = [f].
Proof.
  induction l as [|g l IH]; intros Hnd Hin; [by apply elem_of_nil in Hin|].
  rewrite fmap_cons in Hnd. apply NoDup_cons in Hnd as [Hg Hnd].
  apply elem_of_cons in Hin as [->|Hin].
  - rewrite filter_cons_True by done. f_equal. by apply filter_no_id.
  - rewrite filter_cons_False; [by apply IH|].
    intros E. apply Hg. rewrite E. by apply list_elem_of_fmap_2.
Qed.

(** The records of an entry after [n] rounds of age_forwarding. *)
Lemma aged_records h k : ∀ n,
  let aged := λ h, (age_forwarding h false).1 in
  faces_by_faceid (Nat.iter n aged h) = faces_by_faceid h ∧
  default [] (forwarding <$> nameprefix_tab (Nat.iter n aged h) !! k)
  = Nat.iter n (age_forwarding_list h)
      (default [] (forwarding <$> nameprefix_tab h !! k)).
Proof.
  cbv zeta. induction n as [|n [IHf IHl]]; [done|].
  rewrite !Nat.iter_succ.
  set (hn := Nat.iter n (λ h, (age_forwarding h false).1) h) in *.
  unfold age_forwarding. cbn [fst].
  cbn [faces_by_faceid nameprefix_tab set_nameprefix_tab set_forward_to_gen].
  split; [done|]. rewrite lookup_fmap, <- IHl.
  destruct (nameprefix_tab hn !! k) as [npe|]; [|done].
  cbn [fmap option_fmap option_map default from_option forwarding
       set_forwarding id].
  by apply age_forwarding_list_faces.
Qed.

(** X13: a forwarding record lives as long as it was registered for, to
    within one period of age_forwarding (CCN_FWU_SECS seconds).  Take a
    record that is refreshed, whose face is there, with a time of
    [expires] seconds, in an entry that has one record for each face, and
    let age_forwarding run [n] times with no registration in between.
    While [CCN_FWU_SECS * n] is less than [expires] the record is there,
    refreshed, with that much less time left; in the round that uses up
    the time it loses CCN_FORW_REFRESHED but stays; after the next round
    the entry has no record for the face. *)
Theorem forwarding_record_ages_out h k npe f :
  nameprefix_tab h !! k = Some npe →
  NoDup (forw_faceid <$> forwarding npe) →
  f ∈ forwarding npe →
  flag_set (forw_flags f) CCN_FORW_REFRESHED = true →
  is_Some (face_from_faceid h (forw_faceid f)) →
  0 < expires f →
  let after := λ n,
    default []
      (forwarding <$>
         nameprefix_tab (Nat.iter n (λ h, (age_forwarding h false).1) h) !! k) in
  let left := λ n, expires f - CCN_FWU_SECS * Z.of_nat n in
  (∀ n, 0 < left n → set_expires (left n) f ∈ after n) ∧
  (∀ n, left n ≤ 0 → 0 < left n + CCN_FWU_SECS →
     set_forw_flags (flag_clear (forw_flags f) CCN_FORW_REFRESHED)
       (set_expires (left n) f) ∈ after n) ∧
  (∀ n g, left n + CCN_FWU_SECS ≤ 0 → g ∈ after n →
     forw_faceid g ≠ forw_faceid f).
Proof.
  intros Hk Hnd Hin Hfresh Hface Hexp. cbv zeta.
  set (fid := forw_faceid f).
  set (left := λ n, expires f - CCN_FWU_SECS * Z.of_nat n).
  set (track := λ n,
         if 0 <? left n then [set_expires (left n) f]
         else if 0 <? left n + CCN_FWU_SECS then
           [set_forw_flags (flag_clear (forw_flags f) CCN_FORW_REFRESHED)
              (set_expires (left n) f)]
         else []).
  assert (∀ n, filter (λ g, forw_faceid g = fid)
                 (default []
                    (forwarding <$>
                       nameprefix_tab
                         (Nat.iter n (λ h, (age_forwarding h false).1) h) !! k))
               = track n) as Htrack.
  { intros n. destruct (aged_records h k n) as [_ ->]. rewrite Hk.
    cbn [fmap option_fmap option_map default from_option id].
    induction n as [|n IH].
    { change (Nat.iter 0 (age_forwarding_list h) (forwarding npe))
        with (forwarding npe). unfold track, left.
      replace (expires f - CCN_FWU_SECS * Z.of_nat 0) with (expires f) by lia.
      destruct (Z.ltb_spec 0 (expires f)) as [_|?]; [|lia].
      replace (set_expires (expires f) f) with f by (by destruct f).
      by apply filter_own_id. }
    rewrite Nat.iter_succ, age_forwarding_list_filter, IH.
    unfold track, left. unfold CCN_FWU_SECS in *.
    replace (expires f - 5 * Z.of_nat (S n))
      with (expires f - 5 * Z.of_nat n - 5) by lia.
    set (e := expires f - 5 * Z.of_nat n).
    destruct (Z.ltb_spec 0 e) as [He|He].
    - cbn [age_forwarding_list forw_flags forw_faceid set_expires
           set_forw_flags expires].
      rewrite Hfresh. fold fid in Hface |- *.
      rewrite bool_decide_eq_true_2 by done. cbn [negb orb].
      unfold CCN_FWU_SECS.
      destruct (Z.leb_spec (e - 5) 0) as [Hl|Hl].
      + destruct (Z.ltb_spec 0 (e - 5)) as [?|_]; [lia|].
        destruct (Z.ltb_spec 0 (e - 5 + 5)) as [_|?]; [|lia]. done.
      + destruct (Z.ltb_spec 0 (e - 5)) as [_|?]; [|lia]. done.
    - destruct (Z.ltb_spec 0 (e - 5)) as [?|_]; [lia|].
      destruct (Z.ltb_spec 0 (e - 5 + 5)) as [?|_]; [lia|].
      destruct (Z.ltb_spec 0 (e + 5)) as [_|_]; [|done].
      cbn [age_forwarding_list forw_flags forw_faceid set_expires
           set_forw_flags expires].
      assert (flag_set (flag_clear (forw_flags f) CCN_FORW_REFRESHED)
                CCN_FORW_REFRESHED = false) as ->; [|done].
      unfold flag_set, flag_clear.
      rewrite <- Z.land_assoc, (Z.land_comm (Z.lnot _)), Z.land_lnot_diag.
      by rewrite Z.land_0_r. }
  assert (∀ n g, g ∈ track n →
            g ∈ default []
                  (forwarding <$>
                     nameprefix_tab
                       (Nat.iter n (λ h, (age_forwarding h false).1) h) !! k))
    as Hmem.
  { intros n g Hg. rewrite <- Htrack in Hg.
    by apply list_elem_of_filter in Hg as [_ ?]. }
  split; [|split].
  - intros n Hn. apply Hmem. unfold track. fold (left n).
    destruct (Z.ltb_spec 0 (left n)); [|lia]. by apply list_elem_of_singleton.
  - intros n Hn Hn'. apply Hmem. unfold track.
    destruct (Z.ltb_spec 0 (left n)); [lia|].
    destruct (Z.ltb_spec 0 (left n + CCN_FWU_SECS)); [|lia].
    by apply list_elem_of_singleton.
  - intros n g Hn Hg Hfid.
    assert (g ∈ track n) as Hgt.
    { rewrite <- Htrack. apply list_elem_of_filter. by split. }
    unfold track in Hgt.
    destruct (Z.ltb_spec 0 (left n)); [unfold CCN_FWU_SECS in *; lia|].
    destruct (Z.ltb_spec 0 (left n + CCN_FWU_SECS)); [lia|].
    by apply elem_of_nil in Hgt.
Qed.

(** The entries that the reaper's pass must keep. *)
Lemma check_nameprefix_entry_keeps h c k0 k npe :
  nameprefix_tab h !! k = Some npe →
  forwarding npe ≠ [] ∨ default [] (propagating_head npe) ≠ [] →
  ∃ npe', nameprefix_tab (check_nameprefix_entry (h, c) k0).1 !! k = Some npe' ∧
          forwarding npe' = forwarding npe ∧
          propagating_head npe' = propagating_head npe ∧
          parent npe' = parent npe.
Proof.
  intros Hk Hused. unfold check_nameprefix_entry.
  destruct (nameprefix_tab h !! k0) as [npe0|] eqn:Hk0; [|by exists npe].
  set (h1 := match forward_to npe0 with Some _ => _ | None => h end).
  assert (∃ npe1, nameprefix_tab h1 !! k = Some npe1 ∧
                  forwarding npe1 = forwarding npe ∧
                  propagating_head npe1 = propagating_head npe ∧
                  parent npe1 = parent npe) as (npe1 & Hk1 & Hf1 & Hh1 & Hp1).
  { unfold h1. destruct (forward_to npe0); [|by exists npe].
    cbn [nameprefix_tab update_npe set_nameprefix_tab].
    destruct (decide (k = k0)) as [->|Hne].
    - rewrite lookup_alter_eq, Hk. eexists. split; [done|].
      rewrite check_forward_to_spec. by destruct npe.
    - rewrite lookup_alter_ne by done. by exists npe. }
  clearbody h1.
  destruct (nameprefix_tab h1 !! k0) as [npe2|] eqn:Hk2; [|by exists npe1].
  destruct (_ && _) eqn:Htest; cbn [fst].
  - assert (k ≠ k0) as Hne.
    { intros ->. assert (npe2 = npe1) as -> by congruence.
      apply andb_prop in Htest as [Htest Hhead].
      apply andb_prop in Htest as [_ Hforw].
      apply bool_decide_eq_true in Hhead, Hforw.
      destruct Hused as [Hu|Hu]; apply Hu; congruence. }
    rewrite (delete_nameprefix_tab _ _ _ Hk2), lookup_delete_ne by done.
    destruct (parent npe2) as [pk|]; [|by exists npe1].
    destruct (decide (k = pk)) as [->|Hnp].
    + rewrite lookup_alter_eq, Hk1. eexists. split; [done|]. by destruct npe1.
    + rewrite lookup_alter_ne by done. by exists npe1.
  - cbn [nameprefix_tab update_npe set_nameprefix_tab].
    destruct (decide (k = k0)) as [->|Hne].
    + rewrite lookup_alter_eq, Hk1. eexists. split; [done|]. by destruct npe1.
    + rewrite lookup_alter_ne by done. by exists npe1.
Qed.

(** X14: the reaper's pass over the name-prefix table keeps every entry
    that has a forwarding record or a propagating interest linked to it,
    with its records, its list of interests and its parent link as they
    were: a registration is not lost to the reaper, and the link from a
    propagating interest to its prefix is not left dangling. *)
Theorem check_nameprefix_entries_keeps_used h k npe :
  nameprefix_tab h !! k = Some npe →
  forwarding npe ≠ [] ∨ default [] (propagating_head npe) ≠ [] →
  ∃ npe', nameprefix_tab (check_nameprefix_entries h).1 !! k = Some npe' ∧
          forwarding npe' = forwarding npe ∧
          propagating_head npe' = propagating_head npe ∧
          parent npe' = parent npe.
Proof.
  unfold check_nameprefix_entries.
  generalize (map_to_list (nameprefix_tab h)).*1. intros ks.
  generalize 0. revert h npe.
  induction ks as [|k0 ks IH]; intros h npe c Hk Hused; [by exists npe|].
  cbn [foldl].
  destruct (check_nameprefix_entry_keeps h c k0 k npe Hk Hused)
    as (npe1 & Hk1 & Hf1 & Hh1 & Hp1).
  destruct (check_nameprefix_entry (h, c) k0) as [h1 c1]. cbn [fst] in Hk1.
  destruct (IH h1 npe1 c1 Hk1) as (npe' & Hk' & Hf' & Hh' & Hp').
  { by rewrite Hf1, Hh1. }
  exists npe'. split; [done|]. split; [congruence|]. split; congruence.
Qed.

End prefix_table.

(** The name /a/b/c is looked up in a table that is empty: the entries of
    /, /a, /a/b and /a/b/c are made. *)
Lemma nameprefix_seek_makes_prefixes_witness :
  let h := plain_faces (L := example_lib no_canned) in
  let r := nameprefix_seek (L := example_lib no_canned) h name_abc comps_abc 3 in
  nameprefix_tab h = ∅ ∧ r.2 = Some name_abc ∧
  ∀ j, 0 ≤ j ≤ 3 →
    is_Some (nameprefix_tab r.1.1 !! subbytes name_abc 0 (buf comps_abc j)).
Proof.
  cbv zeta. split; [vm_compute; reflexivity|].
  destruct (nameprefix_seek_makes_prefixes (L := example_lib no_canned)
              (plain_faces (L := example_lib no_canned)) name_abc comps_abc 3)
    as [_ Hmade].
  destruct Hmade as (He & _ & _ & Hall & _).
  - done.
  - vm_compute. discriminate.
  - split; [exact He|exact Hall].
Defined.

(** The table with the entries of /a/b/c, made from the empty table. *)
Lemma children_counted_witness :
  let h := plain_faces (L := example_lib no_canned) in
  children_ok
    (nameprefix_tab
       (nameprefix_seek (L := example_lib no_canned) h name_abc comps_abc 3).1.1) ∧
  (children <$>
     nameprefix_tab
       (nameprefix_seek (L := example_lib no_canned) h name_abc comps_abc 3).1.1
     !! [1]) = Some 1.
Proof.
  cbv zeta. split; [|vm_compute; reflexivity].
  destruct (children_counted (L := example_lib no_canned)
              (plain_faces (L := example_lib no_canned))) as [Hempty Hkept].
  destruct Hkept as (Hseek & _).
  - replace (nameprefix_tab (plain_faces (L := example_lib no_canned)))
      with (∅ : gmap bytes nameprefix_entry) by (vm_compute; reflexivity).
    exact Hempty.
  - apply Hseek.
Defined.

(** The prefix /a is registered for face 2, for 100 seconds. *)
Lemma ccnd_reg_prefix_adds_record_witness :
  let h := plain_faces (L := example_lib no_canned) in
  let r := ccnd_reg_prefix (L := example_lib no_canned) h name_abc comps_abc 1 2
             (Z.lor CCN_FORW_CHILD_INHERIT CCN_FORW_ACTIVE) 100 in
  r.2 = HT_NEW_ENTRY ∧ forward_to_gen r.1 = 1 ∧ forwards_to r.1 [1] 2.
Proof.
  cbv zeta. split; [vm_compute; reflexivity|].
  destruct (ccnd_reg_prefix_adds_record (L := example_lib no_canned)
              (plain_faces (L := example_lib no_canned)) name_abc comps_abc 1 2
              (Z.lor CCN_FORW_CHILD_INHERIT CCN_FORW_ACTIVE) 100)
    as [_ Hreg].
  destruct Hreg as (_ & Hgen & Hfw & _).
  - vm_compute. reflexivity.
  - vm_compute. eauto.
  - done.
  - vm_compute. discriminate.
  - split; [exact Hgen|exact Hfw].
Defined.

(** The record of /a for face 2 has 100 seconds: after one round it has
    95, after 20 rounds it is no longer refreshed, and after 21 there is no
    record for face 2. *)
Lemma forwarding_record_ages_out_witness :
  let h := fib_example (L := example_lib no_canned) in
  let f := mk_forwarding 2 65539 100 in
  let after := λ n,
    default []
      (forwarding <$>
         nameprefix_tab (Nat.iter n (λ h, (age_forwarding h false).1) h) !! [1]) in
  after O = [f] ∧ set_expires 95 f ∈ after 1%nat ∧
  set_forw_flags 3 (set_expires 0 f) ∈ after 20%nat ∧
  ∀ g, g ∈ after 21%nat → forw_faceid g ≠ 2.
Proof.
  cbv zeta. split; [vm_compute; reflexivity|].
  destruct (forwarding_record_ages_out
              (fib_example (L := example_lib no_canned)) [1]
              (default (mk_nameprefix None None [] None 0 0 0 0 0)
                 (nameprefix_tab (fib_example (L := example_lib no_canned))
                    !! [1]))
              (mk_forwarding 2 65539 100)) as (Hlive & Hlast & Hgone).
  - vm_compute. reflexivity.
  - vm_compute. apply NoDup_singleton.
  - vm_compute. by apply list_elem_of_singleton.
  - vm_compute. reflexivity.
  - vm_compute. eauto.
  - done.
  - split; [apply (Hlive 1%nat); done|].
    split; [apply (Hlast 20%nat); done|].
    intros g Hg. by apply (Hgone 21%nat g).
Defined.

(** The entry of /a has a forwarding record: the reaper keeps it. *)
Lemma check_nameprefix_entries_keeps_used_witness :
  let h := fib_example (L := example_lib no_canned) in
  ∃ npe', nameprefix_tab (check_nameprefix_entries h).1 !! [1] = Some npe' ∧
          forwarding npe' = [mk_forwarding 2 65539 100].
Proof.
  cbv zeta.
  destruct (check_nameprefix_entries_keeps_used
              (fib_example (L := example_lib no_canned)) [1]
              (default (mk_nameprefix None None [] None 0 0 0 0 0)
                 (nameprefix_tab (fib_example (L := example_lib no_canned))
                    !! [1])))
    as (npe' & Hk & Hf & _).
  - vm_compute. reflexivity.
  - left. vm_compute. discriminate.
  - exists npe'. split; [exact Hk|exact Hf].
Defined.

(** * The content store: the index by accession number *)

Section accession_window.
Variable tab : gmap bytes content_entry.
Variable accession : Z.

Abbreviation look := (window.content_from_accession tab).

Lemma u32_small z : 0 ≤ z < 2 ^ 32 → u32 z = z.
Proof. intros Hz. unfold u32. by apply Z.mod_small. Qed.

(** With the entries at their slots and the stragglers below the window,
    content_from_accession is the straggler below the base and the slot
    from the base on. *)
Lemma content_from_accession_slot idx acc :
  window.index_ok tab idx →
  window.accession_base idx + window.content_by_accession_window idx < 2 ^ 32 →
  look idx acc
  = if acc <? window.accession_base idx
    then mjoin (window.sparse_straggler_tab idx !! acc)
    else window.slot idx acc.
Proof.
  intros (Hbase & Hslots & _) Hwrap. unfold window.content_from_accession.
  destruct (Z.ltb_spec acc (window.accession_base idx)) as [Hlt|Hge]; [done|].
  unfold window.slot. destruct (Z.leb_spec (window.accession_base idx) acc);
    [|lia].
  unfold window.content_by_accession_window in *.
  rewrite u32_small by lia.
  destruct (Z.ltb_spec acc (window.accession_base idx
                            + Z.of_nat (length (window.content_by_accession idx))))
    as [Hin|Hout].
  - destruct (window.content_by_accession idx
              !! Z.to_nat (acc - window.accession_base idx))
      as [[ck|]|] eqn:Hslot; [|done..].
    rewrite (Hslots _ _ Hslot), bool_decide_eq_true_2; [done|].
    f_equal. lia.
  - rewrite lookup_ge_None_2; [done|]. lia.
Qed.

Lemma any_lookup_ok idx acc :
  window.index_ok tab idx →
  window.accession_base idx + window.content_by_accession_window idx < 2 ^ 32 →
  window.any_lookup idx acc = look idx acc.
Proof.
  intros Hok Hwrap. rewrite content_from_accession_slot by done.
  destruct Hok as (Hbase & Hslots & Hstrag). unfold window.any_lookup.
  destruct (Z.ltb_spec acc (window.accession_base idx)) as [Hlt|Hge].
  - destruct (mjoin _); [done|]. unfold window.slot.
    by destruct (Z.leb_spec (window.accession_base idx) acc); [lia|].
  - destruct (window.sparse_straggler_tab idx !! acc) as [o|] eqn:Ho; [|done].
    apply Hstrag in Ho. lia.
Qed.

Lemma leading_empties_spec a :
  let i := window.leading_empties a in
  0 ≤ i ≤ Z.of_nat (length a) ∧
  (∀ j, (j < Z.to_nat i)%nat → a !! j = Some None) ∧
  (mjoin (a !! Z.to_nat i) = None → i = Z.of_nat (length a)).
Proof.
  cbv zeta. induction a as [|o a (IHr & IHe & IHl)].
  { cbn. split; [lia|]. split; [intros; lia|done]. }
  destruct o as [ck|].
  - cbn [window.leading_empties length]. split; [lia|].
    split; [intros; lia|]. done.
  - cbn [window.leading_empties length]. split; [lia|]. split.
    + intros [|j] Hj; [done|]. apply IHe. lia.
    + replace (Z.to_nat (1 + window.leading_empties a))
        with (S (Z.to_nat (window.leading_empties a))) by lia.
      intros Hn%IHl. lia.
Qed.

Lemma stragglers_below_leading (a : list (option bytes)) base (i : nat)
    (strag : gmap Z (option bytes)) :
  (∀ j, (j < i)%nat → (j < length a)%nat → a !! j = Some None) →
  (∀ acc o, strag !! acc = Some o → 0 ≤ acc < base + Z.of_nat i) →
  (i ≤ length a)%nat →
  ∀ acc o, strag !! acc = Some o → 0 ≤ acc < base + window.leading_empties a.
Proof.
  intros Hempty Hstrag Hi acc o Ho. apply Hstrag in Ho.
  destruct (leading_empties_spec a) as (Hr & He & Hl). cbv zeta in Hr, He, Hl.
  destruct (decide (Z.of_nat i ≤ window.leading_empties a)) as [?|Hless];
    [lia|].
  rewrite Hempty in Hl by lia. specialize (Hl eq_refl). lia.
Qed.

(** The sweep: the slots below [i] are empty and the stragglers are below
    [base + i]; a step moves the entry of slot [i] to the stragglers. *)
Lemma cleanout_stragglers_loop_spec n : ∀ (i : nat) idx occ,
  0 ≤ window.accession_base idx →
  window.accession_base idx + window.content_by_accession_window idx < 2 ^ 32 →
  (∀ j ck, window.content_by_accession idx !! j = Some (Some ck) →
     ce_accession <$> tab !! ck = Some (window.accession_base idx + Z.of_nat j)) →
  (∀ j, (j < i)%nat → (j < length (window.content_by_accession idx))%nat →
     window.content_by_accession idx !! j = Some None) →
  (∀ acc o, window.sparse_straggler_tab idx !! acc = Some o →
     0 ≤ acc < window.accession_base idx + Z.of_nat i) →
  (i ≤ length (window.content_by_accession idx))%nat →
  let idx' := window.cleanout_stragglers_loop n (Z.of_nat i) idx occ in
  window.accession_base idx' = window.accession_base idx ∧
  length (window.content_by_accession idx')
  = length (window.content_by_accession idx) ∧
  (∀ j ck, window.content_by_accession idx' !! j = Some (Some ck) →
     ce_accession <$> tab !! ck = Some (window.accession_base idx + Z.of_nat j)) ∧
  (∀ acc o, window.sparse_straggler_tab idx' !! acc = Some o →
     0 ≤ acc
     < window.accession_base idx
       + window.leading_empties (window.content_by_accession idx')) ∧
  (∀ acc, window.any_lookup idx' acc = window.any_lookup idx acc).
Proof.
  induction n as [|n IH]; intros i idx occ Hbase Hwrap Hslots Hempty Hstrag Hi;
    cbv zeta.
  all: pose proof (stragglers_below_leading _ _ _ _ Hempty Hstrag Hi) as Hdone.
  { cbn [window.cleanout_stragglers_loop].
    split; [done|]. split; [done|]. split; [done|]. split; [exact Hdone|done]. }
  cbn [window.cleanout_stragglers_loop]. cbv zeta.
  unfold window.content_by_accession_window in *.
  destruct (Z.ltb_spec (Z.of_nat i)
              (Z.of_nat (length (window.content_by_accession idx))))
    as [Hlt|Hge];
    [|split; [done|]; split; [done|]; split; [done|]; split; [exact Hdone|done]].
  rewrite Nat2Z.id.
  replace (Z.of_nat i + 1) with (Z.of_nat (S i)) by lia.
  destruct (window.content_by_accession idx !! i) as [[ck|]|] eqn:Hslot.
  - destruct (_ >=? _);
      [split; [done|]; split; [done|]; split; [done|]; split; [exact Hdone|done]|].
    rewrite u32_small by lia.
    destruct (mjoin (window.sparse_straggler_tab idx !! _)) as [ck'|] eqn:Hs.
    { destruct (window.sparse_straggler_tab idx
                !! (window.accession_base idx + Z.of_nat i)) as [o|] eqn:Ho;
        [|done].
      apply Hdone in Ho.
      destruct (leading_empties_spec (window.content_by_accession idx))
        as (_ & He & _). cbv zeta in He.
      rewrite (He i) in Hslot by lia. done. }
    set (idx1 := window.set_content_by_accession _ _).
    destruct (IH (S i) idx1 (u32 (occ - 1))) as (Hb & Hlen & Hsl & Hst & Hany).
    + done.
    + unfold idx1. cbn. rewrite length_insert. lia.
    + intros j ck0 Hj. unfold idx1 in Hj. cbn in Hj.
      destruct (decide (j = i)) as [->|Hne].
      * rewrite list_lookup_insert_eq in Hj by lia. done.
      * rewrite list_lookup_insert_ne in Hj by done. by apply Hslots.
    + intros j Hj Hlen. unfold idx1 in *. cbn in *.
      rewrite length_insert in Hlen.
      destruct (decide (j = i)) as [->|Hne].
      * by rewrite list_lookup_insert_eq.
      * rewrite list_lookup_insert_ne by done. apply Hempty; lia.
    + intros acc o Ho. unfold idx1 in Ho |- *. cbn in Ho |- *.
      destruct (decide (acc = window.accession_base idx + Z.of_nat i))
        as [->|Hne].
      * lia.
      * rewrite lookup_insert_ne in Ho by done. apply Hstrag in Ho. lia.
    + unfold idx1. cbn. rewrite length_insert. lia.
    + split; [done|]. split.
      { rewrite Hlen. unfold idx1. cbn. by rewrite length_insert. }
      split; [done|]. split; [done|].
      intros acc. rewrite Hany. unfold window.any_lookup, idx1. cbn.
      destruct (decide (acc = window.accession_base idx + Z.of_nat i))
        as [->|Hne].
      * rewrite lookup_insert_eq. cbn. rewrite Hs.
        unfold window.slot.
        destruct (Z.leb_spec (window.accession_base idx)
                    (window.accession_base idx + Z.of_nat i)); [|lia].
        replace (Z.to_nat (window.accession_base idx + Z.of_nat i
                           - window.accession_base idx)) with i by lia.
        by rewrite Hslot.
      * rewrite lookup_insert_ne by done.
        destruct (mjoin (window.sparse_straggler_tab idx !! acc)); [done|].
        unfold window.slot. cbn.
        destruct (Z.leb_spec (window.accession_base idx) acc); [|done].
        rewrite list_lookup_insert_ne; [done|]. lia.
  - apply IH; try done.
    + intros j Hj Hlen. destruct (decide (j = i)) as [->|Hne]; [done|].
      apply Hempty; lia.
    + intros acc o Ho. apply Hstrag in Ho. lia.
    + lia.
  - apply lookup_ge_None in Hslot. lia.
Qed.

Lemma cleanout_stragglers_spec idx :
  window.index_ok tab idx →
  window.accession_base idx + window.content_by_accession_window idx < 2 ^ 32 →
  let idx' := window.cleanout_stragglers tab accession idx in
  window.accession_base idx' = window.accession_base idx ∧
  length (window.content_by_accession idx')
  = length (window.content_by_accession idx) ∧
  (∀ j ck, window.content_by_accession idx' !! j = Some (Some ck) →
     ce_accession <$> tab !! ck = Some (window.accession_base idx + Z.of_nat j)) ∧
  (∀ acc o, window.sparse_straggler_tab idx' !! acc = Some o →
     0 ≤ acc
     < window.accession_base idx
       + window.leading_empties (window.content_by_accession idx')) ∧
  (∀ acc, window.any_lookup idx' acc = window.any_lookup idx acc).
Proof.
  intros (Hbase & Hslots & Hstrag) Hwrap. cbv zeta.
  assert (∀ acc o, window.sparse_straggler_tab idx !! acc = Some o →
            0 ≤ acc < window.accession_base idx + Z.of_nat 0) as Hstrag0.
  { intros acc o Ho. apply Hstrag in Ho. lia. }
  assert (∀ j, (j < 0)%nat → (j < length (window.content_by_accession idx))%nat →
            window.content_by_accession idx !! j = Some None) as Hempty0
    by (intros; lia).
  pose proof (stragglers_below_leading _ _ _ _ Hempty0 Hstrag0 ltac:(lia))
    as Hdone.
  unfold window.cleanout_stragglers.
  destruct (_ || _);
    [split; [done|]; split; [done|]; split; [done|]; split; [exact Hdone|done]|].
  cbv zeta. destruct (_ <? 1000);
    [split; [done|]; split; [done|]; split; [done|]; split; [exact Hdone|done]|].
  destruct (_ >=? _);
    [split; [done|]; split; [done|]; split; [done|]; split; [exact Hdone|done]|].
  apply (cleanout_stragglers_loop_spec _ O); try done. lia.
Qed.

Lemma cleanout_empties_spec idx :
  window.index_ok tab idx →
  window.accession_base idx + 2 * window.content_by_accession_window idx
  < 2 ^ 32 →
  let r := window.cleanout_empties tab accession idx in
  window.index_ok tab r.1 ∧
  window.content_by_accession_window r.1
  = window.content_by_accession_window idx ∧
  window.accession_base idx ≤ window.accession_base r.1
  ≤ window.accession_base idx + window.content_by_accession_window idx ∧
  (∀ acc, look r.1 acc = look idx acc) ∧
  (r.2 = 0 ∧ window.accession_base idx < window.accession_base r.1 ∨
   r.2 = -1 ∧ window.accession_base r.1 = window.accession_base idx ∧
   window.leading_empties (window.content_by_accession r.1) = 0).
Proof.
  intros Hok Hwrap. cbv zeta.
  unfold window.content_by_accession_window in *.
  assert (window.accession_base idx
          + Z.of_nat (length (window.content_by_accession idx)) < 2 ^ 32)
    as Hwrap1 by lia.
  unfold window.cleanout_empties.
  destruct (window.content_by_accession idx) as [|o0 a0] eqn:Ha.
  { cbn [fst snd]. rewrite Ha. split; [done|]. split; [done|].
    cbn [length]. split; [lia|]. split; [done|]. right. done. }
  rewrite <- Ha in *. clear o0 a0 Ha. cbv zeta.
  destruct (cleanout_stragglers_spec idx Hok Hwrap1)
    as (Hb & Hlen & Hsl & Hst & Hany). cbv zeta in Hb, Hlen, Hsl, Hst, Hany.
  set (swept := window.cleanout_stragglers tab accession idx) in *.
  destruct (leading_empties_spec (window.content_by_accession swept))
    as (Hr & He & _). cbv zeta in Hr, He.
  set (i0 := window.leading_empties (window.content_by_accession swept)) in *.
  pose proof Hok as (Hbase & _ & _).
  destruct (Z.eqb_spec i0 0) as [Hz|Hnz]; cbn [fst snd].
  { assert (window.index_ok tab swept) as Hok'.
    { split; [lia|]. split.
      - intros j ck Hj. rewrite Hb. by apply Hsl.
      - intros acc o Ho. apply Hst in Ho. lia. }
    split; [done|]. rewrite Hlen, Hb. split; [done|]. split; [lia|].
    split; [|right; done].
    intros acc. rewrite <- (any_lookup_ok swept), Hany.
    - by apply any_lookup_ok.
    - done.
    - unfold window.content_by_accession_window. rewrite Hlen, Hb. lia. }
  rewrite Hb, u32_small by lia.
  set (idx' := window.set_content_by_accession _ _).
  assert (window.index_ok tab idx') as Hok'.
  { split; [unfold idx'; cbn; lia|]. split.
    - intros j ck Hj. unfold idx' in Hj |- *. cbn in Hj |- *.
      apply lookup_app_Some in Hj as [Hj|[_ Hj]].
      + rewrite lookup_drop in Hj. rewrite (Hsl _ _ Hj). f_equal. lia.
      + by apply lookup_replicate in Hj as [? _].
    - intros acc o Ho. unfold idx' in Ho |- *. cbn in Ho |- *.
      apply Hst in Ho. lia. }
  assert (length (window.content_by_accession idx')
          = length (window.content_by_accession idx)) as Hlen'.
  { unfold idx'. cbn. rewrite length_app, length_drop, length_replicate. lia. }
  split; [done|]. rewrite Hlen'. split; [done|].
  split; [unfold idx'; cbn; lia|]. split; [|left; unfold idx'; cbn; lia].
  intros acc. rewrite <- (any_lookup_ok idx) by done. rewrite <- Hany.
  rewrite content_from_accession_slot; [|done|].
  2:{ unfold window.content_by_accession_window. rewrite Hlen'.
      unfold idx'. cbn. lia. }
  unfold window.any_lookup, window.slot.
  change (window.sparse_straggler_tab idx')
    with (window.sparse_straggler_tab swept).
  change (window.accession_base idx') with (window.accession_base idx + i0).
  change (window.content_by_accession idx')
    with (drop (Z.to_nat i0) (window.content_by_accession swept)
          ++ replicate (Z.to_nat i0) None).
  rewrite Hb.
  destruct (Z.ltb_spec acc (window.accession_base idx + i0)) as [Hlt|Hge].
  - destruct (mjoin (window.sparse_straggler_tab swept !! acc)); [done|].
    destruct (Z.leb_spec (window.accession_base idx) acc) as [Hle|?]; [|done].
    rewrite He by lia. done.
  - destruct (window.sparse_straggler_tab swept !! acc) as [o|] eqn:Ho.
    { apply Hst in Ho. lia. }
    cbn [mjoin option_join].
    destruct (Z.leb_spec (window.accession_base idx + i0) acc); [|lia].
    destruct (Z.leb_spec (window.accession_base idx) acc); [|lia].
    destruct (decide (Z.to_nat (acc - (window.accession_base idx + i0))
                      < length (drop (Z.to_nat i0)
                                  (window.content_by_accession swept)))%nat)
      as [Hin|Hout].
    + rewrite lookup_app_l by done. rewrite lookup_drop. do 2 f_equal. lia.
    + rewrite lookup_app_r by lia. rewrite length_drop in Hout |- *.
      rewrite (lookup_ge_None_2 (window.content_by_accession swept)) by lia.
      destruct (replicate _ _ !! _) as [o|] eqn:Hrep; [|done].
      by apply lookup_replicate in Hrep as [-> _].
Qed.

(** X15: cleanout_empties, with the sweep of cleanout_stragglers that moves
    entries of a sparse window to the straggler table, changes what
    content_from_accession finds for no accession number, and keeps the
    entries of the window at the slots of their accession numbers and the
    stragglers below the window.  It returns 0 when it has moved the base
    up, which frees slots at the end of the window, and -1 when the first
    slot is in use (or there is no window yet). *)
Theorem cleanout_empties_keeps_lookups idx :
  window.index_ok tab idx →
  window.accession_base idx + 2 * window.content_by_accession_window idx
  < 2 ^ 32 →
  let r := window.cleanout_empties tab accession idx in
  window.index_ok tab r.1 ∧
  window.content_by_accession_window r.1
  = window.content_by_accession_window idx ∧
  (∀ acc, window.content_from_accession tab r.1 acc
          = window.content_from_accession tab idx acc) ∧
  (r.2 = 0 ∧ window.accession_base idx < window.accession_base r.1 ∨
   r.2 = -1 ∧ window.accession_base r.1 = window.accession_base idx).
Proof.
  intros Hok Hwrap. cbv zeta.
  destruct (cleanout_empties_spec idx Hok Hwrap) as (? & ? & ? & ? & Hres).
  cbv zeta in *. split; [done|]. split; [done|]. split; [done|].
  destruct Hres as [?|(? & ? & _)]; [by left|by right].
Qed.

(** The store at the end of enroll_content, for an accession number inside
    the window. *)
Lemma store_spec idx ck acc :
  window.index_ok tab idx →
  window.accession_base idx + window.content_by_accession_window idx < 2 ^ 32 →
  ce_accession <$> tab !! ck = Some acc →
  window.accession_base idx ≤ acc
  < window.accession_base idx + window.content_by_accession_window idx →
  let idx' :=
    window.set_content_by_accession
      (<[Z.to_nat (acc - window.accession_base idx) := Some ck]>
         (window.content_by_accession idx)) idx in
  window.index_ok tab idx' ∧
  window.content_by_accession_window idx'
  = window.content_by_accession_window idx ∧
  window.accession_base idx' = window.accession_base idx ∧
  look idx' acc = Some ck ∧
  (∀ acc', acc' ≠ acc → look idx' acc' = look idx acc').
Proof.
  intros Hok Hwrap Hck Hacc. cbv zeta.
  unfold window.content_by_accession_window in *.
  set (idx' := window.set_content_by_accession _ _).
  pose proof Hok as (Hbase & Hslots & Hstrag).
  assert (window.index_ok tab idx') as Hok'.
  { split; [done|]. split; [|done].
    intros j ck' Hj. unfold idx' in Hj |- *. cbn in Hj |- *.
    destruct (decide (j = Z.to_nat (acc - window.accession_base idx)))
      as [->|Hne].
    - rewrite list_lookup_insert_eq in Hj by lia. simplify_eq.
      rewrite Hck. f_equal. lia.
    - rewrite list_lookup_insert_ne in Hj by done. by apply Hslots. }
  assert (length (window.content_by_accession idx')
          = length (window.content_by_accession idx)) as Hlen
    by (unfold idx'; cbn; by rewrite length_insert).
  split; [done|]. split; [by rewrite Hlen|]. split; [done|].
  assert (∀ a, look idx' a
               = if a <? window.accession_base idx
                 then mjoin (window.sparse_straggler_tab idx !! a)
                 else window.slot idx' a) as Hlook.
  { intros a. rewrite content_from_accession_slot; [done|done|].
    unfold window.content_by_accession_window. rewrite Hlen.
    unfold idx'. cbn. lia. }
  split.
  - rewrite Hlook. destruct (Z.ltb_spec acc (window.accession_base idx)); [lia|].
    unfold window.slot, idx'. cbn.
    destruct (Z.leb_spec (window.accession_base idx) acc); [|lia].
    by rewrite list_lookup_insert_eq by lia.
  - intros acc' Hne. rewrite Hlook, content_from_accession_slot by done.
    destruct (Z.ltb_spec acc' (window.accession_base idx)); [done|].
    unfold window.slot, idx'. cbn.
    destruct (Z.leb_spec (window.accession_base idx) acc'); [|lia].
    rewrite list_lookup_insert_ne by lia. done.
Qed.

(** A longer window with the new slots empty. *)
Lemma grow_spec idx k :
  window.index_ok tab idx →
  window.accession_base idx + window.content_by_accession_window idx
  + Z.of_nat k < 2 ^ 32 →
  let idx' :=
    window.set_content_by_accession
      (window.content_by_accession idx ++ replicate k None) idx in
  window.index_ok tab idx' ∧
  window.content_by_accession_window idx'
  = window.content_by_accession_window idx + Z.of_nat k ∧
  (∀ acc, look idx' acc = look idx acc).
Proof.
  intros Hok Hwrap. cbv zeta.
  unfold window.content_by_accession_window in *.
  set (idx' := window.set_content_by_accession _ _).
  pose proof Hok as (Hbase & Hslots & Hstrag).
  assert (window.index_ok tab idx') as Hok'.
  { split; [done|]. split; [|done].
    intros j ck' Hj. unfold idx' in Hj |- *. cbn in Hj |- *.
    apply lookup_app_Some in Hj as [Hj|[_ Hj]]; [by apply Hslots|].
    by apply lookup_replicate in Hj as [? _]. }
  assert (length (window.content_by_accession idx')
          = (length (window.content_by_accession idx) + k)%nat) as Hlen
    by (unfold idx'; cbn; by rewrite length_app, length_replicate).
  split; [done|]. split; [rewrite Hlen; lia|].
  intros acc. rewrite (content_from_accession_slot idx);
    [|done|unfold window.content_by_accession_window; lia].
  rewrite (content_from_accession_slot idx'); [|done|].
  2:{ unfold window.content_by_accession_window. rewrite Hlen.
      unfold idx'. cbn. lia. }
  change (window.accession_base idx') with (window.accession_base idx).
  destruct (Z.ltb_spec acc (window.accession_base idx)); [done|].
  unfold window.slot, idx'. cbn.
  destruct (Z.leb_spec (window.accession_base idx) acc); [|lia].
  destruct (decide (Z.to_nat (acc - window.accession_base idx)
                    < length (window.content_by_accession idx))%nat).
  - by rewrite lookup_app_l.
  - rewrite lookup_app_r by lia.
    rewrite (lookup_ge_None_2 (window.content_by_accession idx)) by lia.
    destruct (replicate _ _ !! _) as [o|] eqn:Hrep; [|done].
    by apply lookup_replicate in Hrep as [-> _].
Qed.

(** X16: enroll_content makes a content entry whose accession number is in
    the window, or is the next one after it, the one content_from_accession
    finds for its number, and changes what is found for no other number; to
    make room it shifts the window up over its empty slots or allocates a
    longer one.  The bound keeps the unsigned arithmetic from wrapping. *)
Theorem enroll_content_lookup idx ck acc :
  window.index_ok tab idx →
  ce_accession <$> tab !! ck = Some acc →
  window.accession_base idx ≤ acc
  ≤ window.accession_base idx + window.content_by_accession_window idx →
  window.accession_base idx
  + 3 * (window.content_by_accession_window idx + 20) < 2 ^ 32 →
  ∃ idx', window.enroll_content tab accession idx ck acc = Some idx' ∧
    window.index_ok tab idx' ∧
    window.content_from_accession tab idx' acc = Some ck ∧
    ∀ acc', acc' ≠ acc →
      window.content_from_accession tab idx' acc'
      = window.content_from_accession tab idx acc'.
Proof.
  intros Hok Hck Hacc Hwrap.
  pose proof Hok as (Hbase & _ & _).
  assert (0 ≤ window.content_by_accession_window idx) as Hw0
    by (unfold window.content_by_accession_window; lia).
  unfold window.enroll_content.
  rewrite (u32_small (acc - window.accession_base idx)) by lia.
  destruct (Z.geb_spec (acc - window.accession_base idx)
              (window.content_by_accession_window idx)) as [Hfull|Hroom].
  2:{ destruct (Z.ltb_spec (acc - window.accession_base idx)
                  (window.content_by_accession_window idx)); [|lia].
      destruct (store_spec idx ck acc Hok ltac:(lia) Hck ltac:(lia))
        as (? & _ & _ & ? & ?). eauto. }
  destruct (cleanout_empties_spec idx Hok ltac:(lia))
    as (Hok1 & Hw1 & Hb1 & Hlook1 & Hres). cbv zeta in Hok1, Hw1, Hb1, Hlook1, Hres.
  destruct (window.cleanout_empties tab accession idx) as [idx1 res].
  cbn [fst snd] in *.
  destruct Hres as [[-> Hup]|(-> & Hsame & Hlead)].
  - change (0 <? 0) with false. cbv iota.
    rewrite (u32_small (acc - window.accession_base idx1)) by lia.
    destruct (Z.ltb_spec (acc - window.accession_base idx1)
                (window.content_by_accession_window idx1)); [|lia].
    destruct (store_spec idx1 ck acc Hok1 ltac:(lia) Hck ltac:(lia))
      as (? & _ & _ & ? & Hother).
    eexists. split; [done|]. split; [done|]. split; [done|].
    intros acc' Hne. by rewrite Hother, Hlook1.
  - change (-1 <? 0) with true. cbv iota.
    destruct (Z.ltb_spec acc (window.accession_base idx1)); [lia|].
    cbv zeta. rewrite Hlead, Z.add_0_r, (u32_small (window.accession_base idx1))
      by lia.
    rewrite (u32_small ((window.content_by_accession_window idx1 + 20) * 3))
      by lia.
    set (w := window.content_by_accession_window idx1) in *.
    assert (w + 1 ≤ (w + 20) * 3 / 2) as Hgrow.
    { apply Z.div_le_lower_bound; lia. }
    assert ((w + 20) * 3 / 2 ≤ (w + 20) * 3) as Hhalf.
    { apply Z.div_le_upper_bound; lia. }
    destruct (Z.ltb_spec ((w + 20) * 3 / 2) w); [lia|].
    change (Z.to_nat 0) with O. rewrite drop_0.
    set (k := (Z.to_nat ((w + 20) * 3 / 2)
               - length (window.content_by_accession idx1))%nat).
    assert (Z.of_nat k = (w + 20) * 3 / 2 - w) as Hk.
    { assert (w = Z.of_nat (length (window.content_by_accession idx1))) as Hw
        by done.
      unfold k. clear k. remember ((w + 20) * 3 / 2) as q. clear Heqq.
      clearbody w. lia. }
    replace (window.set_accession_base (window.accession_base idx1) idx1)
      with idx1 by (by destruct idx1).
    destruct (grow_spec idx1 k Hok1 ltac:(fold w; lia))
      as (Hok2 & Hw2 & Hlook2). cbv zeta in Hok2, Hw2, Hlook2.
    set (idx2 := window.set_content_by_accession _ idx1) in *.
    change (window.accession_base idx2) with (window.accession_base idx1).
    rewrite (u32_small (acc - window.accession_base idx1)) by lia.
    fold w in Hw2.
    destruct (Z.ltb_spec (acc - window.accession_base idx1)
                (window.content_by_accession_window idx2)); [|lia].
    destruct (store_spec idx2 ck acc Hok2) as (? & _ & _ & ? & Hother);
      [change (window.accession_base idx2) with (window.accession_base idx1);
       lia|done|
       change (window.accession_base idx2) with (window.accession_base idx1);
       lia|].
    eexists. split; [done|]. split; [done|]. split; [done|].
    intros acc' Hne. by rewrite Hother, Hlook2, Hlook1.
Qed.

(** X17: finalize_content takes a content entry out of the index: after it
    content_from_accession finds nothing for the accession number of an
    entry that it found before, what is found for the other numbers is
    unchanged, and an entry reported as orphaned was not in the index. *)
Theorem finalize_content_forgets idx ck acc :
  window.index_ok tab idx →
  window.accession_base idx + window.content_by_accession_window idx < 2 ^ 32 →
  0 ≤ acc < 2 ^ 32 →
  let r := window.finalize_content idx ck acc in
  window.index_ok tab r.1 ∧
  (window.content_from_accession tab idx acc = Some ck →
   window.content_from_accession tab r.1 acc = None ∧ r.2 = false) ∧
  (∀ acc', acc' ≠ acc →
     window.content_from_accession tab r.1 acc'
     = window.content_from_accession tab idx acc') ∧
  (r.2 = true → window.content_from_accession tab idx acc ≠ Some ck).
Proof.
  intros Hok Hwrap Hacc. cbv zeta.
  pose proof Hok as (Hbase & Hslots & Hstrag).
  assert (0 ≤ window.content_by_accession_window idx) as Hw0
    by (unfold window.content_by_accession_window; lia).
  unfold window.finalize_content.
  destruct (Z.ltb_spec (u32 (acc - window.accession_base idx))
              (window.content_by_accession_window idx)) as [Hin|Hout];
    cbn [andb].
  - assert (window.accession_base idx ≤ acc) as Hge.
    { destruct (decide (window.accession_base idx ≤ acc)); [done|].
      unfold u32 in Hin.
      replace (acc - window.accession_base idx)
        with (acc - window.accession_base idx + 2 ^ 32 + (-1) * 2 ^ 32) in Hin
        by lia.
      rewrite Z.mod_add, Z.mod_small in Hin; lia. }
    rewrite u32_small in * by lia.
    case_bool_decide as Hslot; cbn [fst snd].
    + set (idx' := window.set_content_by_accession _ _).
      assert (window.index_ok tab idx') as Hok'.
      { split; [done|]. split; [|done].
        intros j ck' Hj. unfold idx' in Hj |- *. cbn in Hj |- *.
        destruct (decide (j = Z.to_nat (acc - window.accession_base idx)))
          as [->|Hne].
        - rewrite list_lookup_insert_eq in Hj; [done|].
          by apply lookup_lt_Some in Hslot.
        - rewrite list_lookup_insert_ne in Hj by done. by apply Hslots. }
      assert (∀ a, look idx' a
                   = if a <? window.accession_base idx
                     then mjoin (window.sparse_straggler_tab idx !! a)
                     else window.slot idx' a) as Hlook.
      { intros a. rewrite content_from_accession_slot; [done|done|].
        unfold window.content_by_accession_window, idx'. cbn.
        rewrite length_insert.
        unfold window.content_by_accession_window in Hwrap. lia. }
      split; [done|]. split; [|split; [|done]].
      * intros _. split; [|done]. rewrite Hlook.
        destruct (Z.ltb_spec acc (window.accession_base idx)); [lia|].
        unfold window.slot, idx'. cbn.
        destruct (Z.leb_spec (window.accession_base idx) acc); [|lia].
        rewrite list_lookup_insert_eq; [done|].
        by apply lookup_lt_Some in Hslot.
      * intros acc' Hne. rewrite Hlook, content_from_accession_slot by done.
        destruct (Z.ltb_spec acc' (window.accession_base idx)); [done|].
        unfold window.slot, idx'. cbn.
        destruct (Z.leb_spec (window.accession_base idx) acc'); [|lia].
        rewrite list_lookup_insert_ne by lia. done.
    + assert (look idx acc ≠ Some ck) as Hnot.
      { rewrite content_from_accession_slot by done.
        destruct (Z.ltb_spec acc (window.accession_base idx)); [lia|].
        unfold window.slot.
        destruct (Z.leb_spec (window.accession_base idx) acc); [|lia].
        intros Hfound. apply Hslot.
        destruct (window.content_by_accession idx !! _) as [[?|]|];
          by simplify_eq/=. }
      assert (window.sparse_straggler_tab idx !! acc = None) as Hnone.
      { destruct (window.sparse_straggler_tab idx !! acc) eqn:Ho; [|done].
        apply Hstrag in Ho. lia. }
      rewrite delete_id by done.
      replace (window.set_sparse_straggler_tab _ idx) with idx
        by (by destruct idx).
      split; [done|]. split; [done|]. split; [done|]. done.
  - cbn [fst snd].
    set (idx' := window.set_sparse_straggler_tab _ _).
    assert (window.index_ok tab idx') as Hok'.
    { split; [done|]. split; [done|].
      intros a o Ho. unfold idx' in Ho. cbn in Ho.
      apply lookup_delete_Some in Ho as [_ Ho]. by apply Hstrag in Ho. }
    assert (∀ a, look idx' a
                 = if a <? window.accession_base idx
                   then mjoin (delete acc (window.sparse_straggler_tab idx) !! a)
                   else window.slot idx a) as Hlook.
    { intros a. by rewrite content_from_accession_slot. }
    split; [done|]. split; [|split].
    + rewrite content_from_accession_slot by done. rewrite Hlook.
      destruct (Z.ltb_spec acc (window.accession_base idx)) as [Hlt|Hge].
      * rewrite lookup_delete_eq. intros Hfound. split; [done|].
        apply bool_decide_eq_false_2. intros Hn. by rewrite Hn in Hfound.
      * rewrite u32_small in Hout by lia. unfold window.slot.
        destruct (Z.leb_spec (window.accession_base idx) acc); [|lia].
        rewrite lookup_ge_None_2; [done|].
        unfold window.content_by_accession_window in Hout. lia.
    + intros acc' Hne. rewrite Hlook, content_from_accession_slot by done.
      by rewrite lookup_delete_ne.
    + intros Horphan%bool_decide_eq_true_1.
      rewrite content_from_accession_slot by done.
      destruct (Z.ltb_spec acc (window.accession_base idx)) as [Hlt|Hge].
      * by rewrite Horphan.
      * rewrite u32_small in Hout by lia. unfold window.slot.
        destruct (Z.leb_spec (window.accession_base idx) acc); [|lia].
        rewrite lookup_ge_None_2; [done|].
        unfold window.content_by_accession_window in Hout. lia.
Qed.

End accession_window.

Lemma window_of_two_ok : window.index_ok three_contents window_of_two.
Proof.
  split; [done|]. split.
  - intros [|[|[|i]]] ck Hi; simplify_eq/=. vm_compute. reflexivity.
  - intros acc o Ho. done.
Qed.

(** The first slot of the window is empty: the base moves up to 6, and
    accession number 6 is still found. *)
Lemma cleanout_empties_keeps_lookups_witness :
  let r := window.cleanout_empties three_contents 8 window_of_two in
  window.index_ok three_contents r.1 ∧
  window.content_by_accession_window r.1
  = window.content_by_accession_window window_of_two ∧
  (∀ acc, window.content_from_accession three_contents r.1 acc
          = window.content_from_accession three_contents window_of_two acc) ∧
  (r.2 = 0 ∧ window.accession_base window_of_two < window.accession_base r.1 ∨
   r.2 = -1 ∧ window.accession_base r.1 = window.accession_base window_of_two).
Proof.
  apply (cleanout_empties_keeps_lookups three_contents 8 window_of_two).
  - exact window_of_two_ok.
  - vm_compute. reflexivity.
Defined.

(** The entry with accession number 7 is the next one after the window. *)
Lemma enroll_content_lookup_witness :
  ∃ idx', window.enroll_content three_contents 8 window_of_two [9] 7
          = Some idx' ∧
    window.index_ok three_contents idx' ∧
    window.content_from_accession three_contents idx' 7 = Some [9] ∧
    ∀ acc', acc' ≠ 7 →
      window.content_from_accession three_contents idx' acc'
      = window.content_from_accession three_contents window_of_two acc'.
Proof.
  apply (enroll_content_lookup three_contents 8 window_of_two [9] 7).
  - exact window_of_two_ok.
  - vm_compute. reflexivity.
  - vm_compute. split; discriminate.
  - vm_compute. reflexivity.
Defined.

(** The entry with accession number 6 is taken out of the window. *)
Lemma finalize_content_forgets_witness :
  let r := window.finalize_content window_of_two [8] 6 in
  window.index_ok three_contents r.1 ∧
  (window.content_from_accession three_contents window_of_two 6 = Some [8] →
   window.content_from_accession three_contents r.1 6 = None ∧ r.2 = false) ∧
  (∀ acc', acc' ≠ 6 →
     window.content_from_accession three_contents r.1 acc'
     = window.content_from_accession three_contents window_of_two acc') ∧
  (r.2 = true →
   window.content_from_accession three_contents window_of_two 6 ≠ Some [8]).
Proof.
  apply (finalize_content_forgets three_contents window_of_two [8] 6).
  - exact window_of_two_ok.
  - vm_compute. reflexivity.
  - vm_compute. split; [discriminate|reflexivity].
Defined.

(** * The content cleaner *)

Section cleaning.
Context `{L : ccn_lib} `{W : content_walk}.

Abbreviation is_stale c :=
  (flag_set (content_flags c) CCN_CONTENT_ENTRY_STALE = true).
Abbreviation made_stale c :=
  (set_content_flags (Z.lor (content_flags c) CCN_CONTENT_ENTRY_STALE) c).
Abbreviation ignored :=
  (Z.lor CCN_CONTENT_ENTRY_STALE CCN_CONTENT_ENTRY_PRECIOUS).

Lemma made_stale_is_stale c : is_stale (made_stale c).
Proof.
  destruct c. cbn. unfold flag_set. by rewrite land_lor_absorb.
Qed.

Lemma not_ignored_not_stale f :
  Z.land f ignored = 0 → flag_set f CCN_CONTENT_ENTRY_STALE = false.
Proof.
  intros Hf. unfold flag_set.
  replace (Z.land f CCN_CONTENT_ENTRY_STALE)
    with (Z.land (Z.land f ignored) CCN_CONTENT_ENTRY_STALE).
  - by rewrite Hf.
  - by rewrite <- Z.land_assoc.
Qed.

Lemma content_from_accession_found h a ck :
  content_from_accession h a = Some ck →
  content_by_accession h !! a = Some ck ∧
  ∃ c, content_tab h !! ck = Some c ∧ ce_accession c = a.
Proof.
  unfold content_from_accession.
  destruct (content_by_accession h !! a) as [k|]; [|done].
  destruct (content_tab h !! k) as [c|] eqn:Hc; [|done].
  destruct (Z.eqb_spec (ce_accession c) a); [|done].
  intros [= <-]. eauto.
Qed.

Lemma content_from_accession_complete h ck c :
  accession_index_ok h → content_tab h !! ck = Some c →
  content_from_accession h (ce_accession c) = Some ck.
Proof.
  intros Hok Hc. destruct (Hok _ _ Hc) as [Hi _].
  unfold content_from_accession. by rewrite Hi, Hc, Z.eqb_refl.
Qed.

(** What the loops of clean_deamon get for an accession number. *)
Lemma found_content h a :
  match content_from_accession h a ≫= (λ ck, pair ck <$> content_tab h !! ck)
  with
  | Some (ck, c) =>
    content_from_accession h a = Some ck ∧ content_tab h !! ck = Some c ∧
    ce_accession c = a
  | None => content_from_accession h a = None
  end.
Proof.
  destruct (content_from_accession h a) as [ck|] eqn:Hf; [|done].
  destruct (content_from_accession_found _ _ _ Hf) as (_ & c & Hc & Ha).
  cbn. rewrite Hc. cbn. done.
Qed.

Lemma remove_content_found h ck c :
  content_tab h !! ck = Some c →
  ∃ h', remove_content h (Some ck) = Some (h', 0) ∧
    content_tab h' = delete ck (content_tab h) ∧
    content_by_accession h'
    = delete (ce_accession c) (content_by_accession h) ∧
    capacity h' = capacity h ∧ min_stale h' = min_stale h ∧
    max_stale h' = max_stale h ∧ h_accession h' = h_accession h.
Proof.
  intros Hc. unfold remove_content. rewrite Hc.
  destruct (emit_if_set_out 4
              (ccnd_debug_ccnb 1539 "remove" None (ck ++ extdata c)) h)
    as [o ->].
  eexists. split; [done|]. unfold delete_content.
  change (content_tab (set_out o h)) with (content_tab h). rewrite Hc.
  done.
Qed.

Lemma mark_stale_fresh h ck c :
  content_tab h !! ck = Some c →
  flag_set (content_flags c) CCN_CONTENT_ENTRY_STALE = false →
  content_tab (mark_stale h ck) = <[ck := made_stale c]> (content_tab h) ∧
  content_by_accession (mark_stale h ck) = content_by_accession h ∧
  capacity (mark_stale h ck) = capacity h ∧
  h_accession (mark_stale h ck) = h_accession h ∧
  min_stale (mark_stale h ck) = Z.min (min_stale h) (ce_accession c) ∧
  max_stale (mark_stale h ck) = Z.max (max_stale h) (ce_accession c).
Proof.
  intros Hc Hfresh. unfold mark_stale. rewrite Hc, Hfresh.
  destruct (emit_if_set_out 4
              (ccnd_debug_ccnb 2733 "stale" None (ck ++ extdata c)) h)
    as [o ->].
  cbv zeta.
  destruct (Z.ltb_spec (ce_accession c)
              (min_stale (set_content_tab
                 (<[ck := made_stale c]> (content_tab (set_out o h)))
                 (set_out o h)))) as [Hlt|Hge];
    match goal with |- context [?a >? max_stale ?x] =>
      destruct (Z.gtb_spec a (max_stale x)) as [Hgt|Hle]
    end; cbn in *; repeat split; lia.
Qed.

Lemma mark_stale_again h ck c :
  content_tab h !! ck = Some c → is_stale c → mark_stale h ck = h.
Proof. intros Hc Hs. unfold mark_stale. by rewrite Hc, Hs. Qed.

Lemma index_ok_delete h h' ck c :
  accession_index_ok h → content_tab h !! ck = Some c →
  content_tab h' = delete ck (content_tab h) →
  content_by_accession h'
  = delete (ce_accession c) (content_by_accession h) →
  h_accession h' = h_accession h →
  accession_index_ok h'.
Proof.
  intros Hok Hc Htab Hidx Hacc ck1 c1 H1. rewrite Htab in H1.
  apply lookup_delete_Some in H1 as [Hne H1].
  destruct (Hok _ _ H1) as [Hi Hr]. rewrite Hidx, Hacc. split; [|done].
  rewrite lookup_delete_ne; [done|]. intros Heq.
  destruct (Hok _ _ Hc) as [Hi' _]. rewrite Heq in Hi'. congruence.
Qed.

Lemma index_ok_mark h ck c :
  accession_index_ok h → content_tab h !! ck = Some c →
  flag_set (content_flags c) CCN_CONTENT_ENTRY_STALE = false →
  accession_index_ok (mark_stale h ck).
Proof.
  intros Hok Hc Hfresh.
  destruct (mark_stale_fresh _ _ _ Hc Hfresh) as (Htab & Hidx & _ & Hacc & _).
  intros ck1 c1 H1. rewrite Htab in H1. rewrite Hidx, Hacc.
  destruct (decide (ck1 = ck)) as [->|Hne].
  - rewrite lookup_insert_eq in H1. simplify_eq.
    destruct c; cbn. by apply (Hok _ _ Hc).
  - rewrite lookup_insert_ne in H1 by done. by apply Hok.
Qed.

Lemma window_ok_mark h ck c :
  accession_index_ok h → stale_window_ok h → h_accession h < 2 ^ 32 →
  content_tab h !! ck = Some c →
  flag_set (content_flags c) CCN_CONTENT_ENTRY_STALE = false →
  stale_window_ok (mark_stale h ck).
Proof.
  intros Hok (Hmin & Hmax & Hwin) Hacc Hc Hfresh.
  destruct (mark_stale_fresh _ _ _ Hc Hfresh)
    as (Htab & _ & _ & _ & Hmin' & Hmax').
  destruct (Hok _ _ Hc) as [_ Hr].
  unfold stale_window_ok. rewrite Hmin', Hmax', Htab.
  split; [lia|]. split; [lia|]. intros ck1 c1 H1 Hs.
  destruct (decide (ck1 = ck)) as [->|Hne].
  - rewrite lookup_insert_eq in H1. simplify_eq. destruct c; cbn. lia.
  - rewrite lookup_insert_ne in H1 by done. specialize (Hwin _ _ H1 Hs). lia.
Qed.

(** The loop that cleans out stale content. *)
Lemma clean_stale_loop_spec cl : ∀ h limit a n ms ev,
  n = Z.of_nat (size (content_tab h)) →
  ∃ h' a' cl' ev',
    clean_stale_loop cl h limit a n ms ev = Some (h', a', ms, cl', ev') ∧
    capacity h' = capacity h ∧ min_stale h' = min_stale h ∧
    max_stale h' = max_stale h ∧ h_accession h' = h_accession h ∧
    (∀ ck, content_tab h' !! ck = content_tab h !! ck ∨
       content_tab h' !! ck = None ∧
       ∃ c, content_tab h !! ck = Some c ∧ is_stale c) ∧
    Z.min n (capacity h) ≤ Z.of_nat (size (content_tab h')) ≤ n ∧
    (accession_index_ok h → accession_index_ok h') ∧
    (0 ≤ a → limit < 2 ^ 32 - 1 → a ≤ a' ≤ Z.max a (limit + 1)) ∧
    (accession_index_ok h → 0 ≤ a → limit < 2 ^ 32 - 1 →
     (∀ ck c, content_tab h !! ck = Some c → is_stale c → a ≤ ce_accession c) →
     ∀ ck c, content_tab h' !! ck = Some c → is_stale c → a' ≤ ce_accession c).
Proof.
  induction cl as [|cl IH]; intros h limit a n ms ev Hn.
  all: cbn [clean_stale_loop].
  all: destruct ((a <=? limit) && (n >? capacity h)) eqn:Hcond.
  all: try (do 4 eexists; split; [done|]; do 4 (split; [done|]);
            split; [by left|]; split; [lia|]; split; [done|];
            split; [lia|done]).
  apply andb_true_iff in Hcond as [Hle%Z.leb_le Hcap%Z.gtb_lt].
  (* one round, then the rest of the loop *)
  assert (∀ h1 n1,
    n1 = Z.of_nat (size (content_tab h1)) → n - 1 ≤ n1 ≤ n →
    capacity h1 = capacity h ∧ min_stale h1 = min_stale h ∧
    max_stale h1 = max_stale h ∧ h_accession h1 = h_accession h →
    (∀ ck, content_tab h1 !! ck = content_tab h !! ck ∨
       content_tab h1 !! ck = None ∧
       ∃ c, content_tab h !! ck = Some c ∧ is_stale c) →
    (accession_index_ok h → accession_index_ok h1) →
    (accession_index_ok h →
     (∀ ck c, content_tab h !! ck = Some c → is_stale c → a ≤ ce_accession c) →
     ∀ ck c, content_tab h1 !! ck = Some c → is_stale c →
       a + 1 ≤ ce_accession c) →
    ∃ h' a' cl' ev',
      clean_stale_loop cl h1 limit (u32 (a + 1)) n1 ms ev
      = Some (h', a', ms, cl', ev') ∧
      capacity h' = capacity h ∧ min_stale h' = min_stale h ∧
      max_stale h' = max_stale h ∧ h_accession h' = h_accession h ∧
      (∀ ck, content_tab h' !! ck = content_tab h !! ck ∨
         content_tab h' !! ck = None ∧
         ∃ c, content_tab h !! ck = Some c ∧ is_stale c) ∧
      Z.min n (capacity h) ≤ Z.of_nat (size (content_tab h')) ≤ n ∧
      (accession_index_ok h → accession_index_ok h') ∧
      (0 ≤ a → limit < 2 ^ 32 - 1 → a ≤ a' ≤ Z.max a (limit + 1)) ∧
      (accession_index_ok h → 0 ≤ a → limit < 2 ^ 32 - 1 →
       (∀ ck c, content_tab h !! ck = Some c → is_stale c →
          a ≤ ce_accession c) →
       ∀ ck c, content_tab h' !! ck = Some c → is_stale c →
         a' ≤ ce_accession c)) as Hrest.
  { intros h1 n1 Hn1 Hsz (Hc1 & Hmin1 & Hmax1 & Hacc1) Hrel1 Hok1 Hst1.
    destruct (IH h1 limit (u32 (a + 1)) n1 ms ev Hn1)
      as (h' & a' & cl' & ev' & Hrun & Hc & Hmin & Hmax & Hacc & Hrel & Hsize
          & Hok & Hrange & Hst).
    exists h', a', cl', ev'. split; [done|].
    split; [congruence|]. split; [congruence|]. split; [congruence|].
    split; [congruence|]. split.
    { intros ck. destruct (Hrel ck) as [Heq|(Hnone & c & Hc' & Hs)].
      - rewrite Heq. apply Hrel1.
      - destruct (Hrel1 ck) as [Heq1|(Hnone1 & _)]; [|congruence].
        right. split; [done|]. exists c. by rewrite <- Heq1. }
    split; [rewrite Hc1 in Hsize; lia|]. split; [by auto|]. split.
    - intros Ha Hlim. rewrite u32_small in Hrange by lia.
      specialize (Hrange ltac:(lia) Hlim). lia.
    - intros Hi Ha Hlim Hlow. rewrite u32_small in Hst by lia.
      apply (Hst (Hok1 Hi) ltac:(lia) Hlim (Hst1 Hi Hlow)). }
  pose proof (found_content h a) as Hfound.
  destruct (content_from_accession h a ≫= _) as [[ck c]|].
  - destruct Hfound as (Hf & Hc & Hacc).
    destruct (flag_set (content_flags c) CCN_CONTENT_ENTRY_STALE) eqn:Hs.
    + destruct (remove_content_found h ck c Hc)
        as (h1 & -> & Htab & Hidx & Hc1 & Hmin1 & Hmax1 & Hacc1).
      cbn. apply (Hrest h1 (n - 1)).
      * rewrite Htab, map_size_delete, Hc.
        assert (size (content_tab h) ≠ O).
        { intros Hz. apply map_size_empty_inv in Hz. by rewrite Hz in Hc. }
        lia.
      * lia.
      * done.
      * intros k. rewrite Htab. destruct (decide (k = ck)) as [->|Hne].
        -- right. rewrite lookup_delete_eq. eauto.
        -- left. by rewrite lookup_delete_ne.
      * intros Hi. by apply (index_ok_delete h h1 ck c).
      * intros Hi Hlow k c1 Hk Hs1. rewrite Htab in Hk.
        apply lookup_delete_Some in Hk as [Hne H1].
        specialize (Hlow _ _ H1 Hs1).
        destruct (decide (ce_accession c1 = a)) as [Heq|?]; [|lia].
        pose proof (content_from_accession_complete _ _ _ Hi H1) as Hf1.
        rewrite Heq, Hf in Hf1. congruence.
    + apply (Hrest h n); [done|lia|done|by left|done|].
      intros Hi Hlow k c1 H1 Hs1. specialize (Hlow _ _ H1 Hs1).
      destruct (decide (ce_accession c1 = a)) as [Heq|?]; [|lia].
      pose proof (content_from_accession_complete _ _ _ Hi H1) as Hf1.
      rewrite Heq, Hf in Hf1. simplify_eq. congruence.
  - apply (Hrest h n); [done|lia|done|by left|done|].
    intros Hi Hlow k c1 H1 Hs1. specialize (Hlow _ _ H1 Hs1).
    destruct (decide (ce_accession c1 = a)) as [Heq|?]; [|lia].
    pose proof (content_from_accession_complete _ _ _ Hi H1) as Hf1.
    rewrite Heq, Hfound in Hf1. done.
Qed.

(** The loop that makes oldish content stale. *)
Lemma clean_mark_loop_spec fuel : ∀ h limit a n,
  0 ≤ a → limit < 2 ^ 32 - 1 → limit - a + 1 ≤ Z.of_nat fuel →
  ∃ h', clean_mark_loop fuel h limit a n = Some h' ∧
    capacity h' = capacity h ∧ h_accession h' = h_accession h ∧
    (∀ ck, content_tab h' !! ck = content_tab h !! ck ∨
       ∃ c, content_tab h !! ck = Some c ∧
         Z.land (content_flags c) ignored = 0 ∧
         content_tab h' !! ck = Some (made_stale c)) ∧
    size (content_tab h') = size (content_tab h) ∧
    (accession_index_ok h → stale_window_ok h → h_accession h < 2 ^ 32 →
     accession_index_ok h' ∧ stale_window_ok h').
Proof.
  induction fuel as [|fuel IH]; intros h limit a n Ha Hlim Hfuel.
  all: cbn [clean_mark_loop].
  all: destruct ((a <=? limit) && (n >? capacity h)) eqn:Hcond.
  all: try (eexists; split; [done|]; do 2 (split; [done|]);
            split; [by left|]; split; done).
  { apply andb_true_iff in Hcond as [Hle%Z.leb_le _]. lia. }
  apply andb_true_iff in Hcond as [Hle%Z.leb_le Hcap%Z.gtb_lt].
  rewrite u32_small by lia.
  pose proof (found_content h a) as Hfound.
  destruct (content_from_accession h a ≫= _) as [[ck c]|];
    [|apply IH; lia].
  destruct Hfound as (Hf & Hc & Hacc).
  destruct (Z.eqb_spec (Z.land (content_flags c) ignored) 0) as [Hfresh|?];
    [|apply IH; lia].
  pose proof (not_ignored_not_stale _ Hfresh) as Hns.
  destruct (mark_stale_fresh _ _ _ Hc Hns) as (Htab & _ & Hcap1 & Hacc1 & _).
  destruct (IH (mark_stale h ck) limit (a + 1) (n - 1))
    as (h' & Hrun & Hc' & Hacc' & Hrel & Hsize & Hinv); [lia..|].
  exists h'. split; [done|]. split; [congruence|]. split; [congruence|].
  split; [|split].
  - intros k. destruct (Hrel k) as [Heq|(c1 & H1 & Hf1 & Hm)].
    + rewrite Heq, Htab. destruct (decide (k = ck)) as [->|Hne].
      * right. exists c. by rewrite lookup_insert_eq.
      * left. by rewrite lookup_insert_ne.
    + rewrite Htab in H1. destruct (decide (k = ck)) as [->|Hne].
      * rewrite lookup_insert_eq in H1. simplify_eq.
        apply not_ignored_not_stale in Hf1.
        by rewrite made_stale_is_stale in Hf1.
      * rewrite lookup_insert_ne in H1 by done. right. eauto.
  - rewrite Hsize, Htab. by apply map_size_insert_Some.
  - intros Hi Hw Hlt. apply Hinv.
    + by apply (index_ok_mark h ck c).
    + by apply (window_ok_mark h ck c).
    + by rewrite Hacc1.
Qed.

Lemma clean_deamon_spec h accession_base evint :
  0 ≤ accession_base → h_accession h < 2 ^ 32 - 1 →
  ∃ h' evint' r,
    clean_deamon h accession_base evint false = Some (h', evint', r) ∧
    (r = 5000 ∨ r = 1000000 ∨ r = 15000000) ∧
    (Z.of_nat (size (content_tab h)) ≤ capacity h → h' = h) ∧
    (∀ ck, content_tab h' !! ck = content_tab h !! ck ∨
       (∃ c, content_tab h !! ck = Some c ∧ is_stale c ∧
          content_tab h' !! ck = None) ∨
       (∃ c, content_tab h !! ck = Some c ∧
          Z.land (content_flags c) ignored = 0 ∧
          content_tab h' !! ck = Some (made_stale c))) ∧
    Z.min (Z.of_nat (size (content_tab h))) (capacity h)
    ≤ Z.of_nat (size (content_tab h')) ≤ Z.of_nat (size (content_tab h)) ∧
    (accession_index_ok h → stale_window_ok h →
     accession_index_ok h' ∧ stale_window_ok h').
Proof.
  intros Hbase Hacc. unfold clean_deamon.
  destruct (Z.leb_spec (Z.of_nat (size (content_tab h))) (capacity h))
    as [Hfits|Hover].
  { do 3 eexists. split; [done|]. split; [auto|]. split; [done|].
    split; [by left|]. split; [lia|done]. }
  destruct (Z.leb_spec (min_stale h) (max_stale h)) as [Hsome|Hnone].
  - (* clean out stale content first *)
    set (limit := if max_stale h >? h_accession h then h_accession h
                  else max_stale h).
    assert (limit = Z.min (max_stale h) (h_accession h)) as Hlimit
      by (unfold limit; destruct (Z.gtb_spec (max_stale h) (h_accession h));
          lia).
    clearbody limit.
    destruct (if (u32 evint <=? min_stale h) || (u32 evint >? max_stale h)
              then (min_stale h, 2 ^ 32 - 1) else (u32 evint, min_stale h))
      as [a ms] eqn:Hstart.
    destruct (clean_stale_loop_spec 500 h limit a
                (Z.of_nat (size (content_tab h))) ms evint eq_refl)
      as (h1 & a' & cl' & ev' & -> & Hc & Hmin & Hmax & Hac & Hrel & Hsize
          & Hok & Hrange & Hst).
    cbn [mbind option_bind].
    set (h2 := if ms <? a' then set_min_stale ms h1
               else if a' >? limit
                    then set_max_stale 0 (set_min_stale (2 ^ 32 - 1) h1)
                    else set_min_stale a' h1).
    assert (content_tab h2 = content_tab h1 ∧
            content_by_accession h2 = content_by_accession h1 ∧
            h_accession h2 = h_accession h1) as (Ht2 & Hi2 & Ha2)
      by (unfold h2; destruct (ms <? a'), (a' >? limit); done).
    exists h2, (if cl' <=? 0 then ev' else 0),
      (if cl' <=? 0 then 5000 else 15000000).
    split; [by destruct (cl' <=? 0)|].
    split; [destruct (cl' <=? 0); auto|]. split; [lia|]. rewrite Ht2.
    split; [|split; [lia|]].
    { intros ck. destruct (Hrel ck) as [?|(? & c & ? & ?)]; [by left|].
      right. left. eauto. }
    intros Hi (Hmr & Hxr & Hwin). specialize (Hok Hi). split.
    { intros ck c Hc2. rewrite Hi2, Ha2. rewrite Ht2 in Hc2. by apply Hok. }
    assert (∀ ck c, content_tab h1 !! ck = Some c → is_stale c →
              min_stale h ≤ ce_accession c ≤ max_stale h) as Hwin1.
    { intros ck c Hc1 Hs. destruct (Hrel ck) as [Heq|[? _]]; [|congruence].
      rewrite Heq in Hc1. by apply (Hwin ck). }
    destruct ((u32 evint <=? min_stale h) || (u32 evint >? max_stale h))
      eqn:Hrestart; simplify_eq.
    + (* from min_stale on *)
      specialize (Hrange ltac:(lia) ltac:(lia)).
      assert (∀ ck c, content_tab h1 !! ck = Some c → is_stale c →
                a' ≤ ce_accession c) as Hlow.
      { apply Hst; [done|lia|lia|].
        intros ck c Hc1 Hs. by apply (Hwin ck). }
      unfold stale_window_ok, h2.
      destruct (Z.ltb_spec (2 ^ 32 - 1) a'); [lia|].
      match goal with |- context [a' >? ?l] =>
        destruct (Z.gtb_spec a' l) as [Hpast|Hin]
      end.
      * cbn. split; [lia|]. split; [lia|].
        intros ck c Hc1 Hs. exfalso.
        specialize (Hlow _ _ Hc1 Hs). specialize (Hwin1 _ _ Hc1 Hs).
        destruct (Hok _ _ Hc1) as [_ Hr]. lia.
      * cbn. rewrite Hmax. split; [lia|]. split; [lia|].
        intros ck c Hc1 Hs.
        specialize (Hlow _ _ Hc1 Hs). specialize (Hwin1 _ _ Hc1 Hs). lia.
    + (* from where the last run stopped *)
      apply orb_false_iff in Hrestart as [Hgt%Z.leb_gt Hle].
      rewrite Z.gtb_ltb in Hle. apply Z.ltb_ge in Hle.
      specialize (Hrange ltac:(lia) ltac:(lia)).
      unfold stale_window_ok, h2.
      destruct (Z.ltb_spec (min_stale h) a'); [|lia].
      cbn. rewrite Hmax. split; [lia|]. split; [lia|]. done.
  - destruct (clean_mark_loop_spec
                (Z.to_nat (h_accession h - accession_base + 1)) h
                (h_accession h) accession_base
                (Z.of_nat (size (content_tab h))))
      as (h' & -> & Hc & Hac & Hrel & Hsize & Hinv); [lia..|].
    cbn. do 3 eexists. split; [done|]. split; [auto|]. split; [lia|].
    split; [|split; [lia|]].
    + intros ck. destruct (Hrel ck) as [?|?]; [by left|]. right. by right.
    + intros Hi Hw. apply Hinv; [done..|lia].
Qed.

(** X18: One run of clean_deamon removes only content that is flagged
    stale and marks as stale only content that is neither stale nor
    precious: every other entry of the content table is untouched and no
    entry is added.  It never brings the number of entries below the
    capacity, changes nothing at all while the table is within its
    capacity, and returns one of the delays 5000, 1000000 and 15000000. *)
Theorem clean_deamon_spares_fresh h accession_base evint :
  0 ≤ accession_base → h_accession h < 2 ^ 32 - 1 →
  ∃ h' evint' r,
    clean_deamon h accession_base evint false = Some (h', evint', r) ∧
    (r = 5000 ∨ r = 1000000 ∨ r = 15000000) ∧
    (Z.of_nat (size (content_tab h)) ≤ capacity h → h' = h) ∧
    (∀ ck, content_tab h' !! ck = content_tab h !! ck ∨
       (∃ c, content_tab h !! ck = Some c ∧
          flag_set (content_flags c) CCN_CONTENT_ENTRY_STALE = true ∧
          content_tab h' !! ck = None) ∨
       (∃ c, content_tab h !! ck = Some c ∧
          Z.land (content_flags c)
            (Z.lor CCN_CONTENT_ENTRY_STALE CCN_CONTENT_ENTRY_PRECIOUS) = 0 ∧
          content_tab h' !! ck
          = Some (set_content_flags
                    (Z.lor (content_flags c) CCN_CONTENT_ENTRY_STALE) c))) ∧
    Z.min (Z.of_nat (size (content_tab h))) (capacity h)
    ≤ Z.of_nat (size (content_tab h')) ≤ Z.of_nat (size (content_tab h)).
Proof.
  intros Hbase Hacc.
  destruct (clean_deamon_spec h accession_base evint Hbase Hacc)
    as (h' & evint' & r & Hrun & Hr & Hsame & Hrel & Hsize & _).
  exists h', evint', r. done.
Qed.

Lemma expire_content_spec h evint ck :
  content_from_accession h (u32 evint) = Some ck →
  ∃ h', expire_content h evint false = Some (h', 0) ∧
    (content_tab h' !! ck = None ∧
     capacity h < Z.of_nat (size (content_tab h)) ∨
     ∃ c', content_tab h' !! ck = Some c' ∧ is_stale c') ∧
    (∀ ck', ck' ≠ ck → content_tab h' !! ck' = content_tab h !! ck') ∧
    (accession_index_ok h → stale_window_ok h → h_accession h < 2 ^ 32 →
     accession_index_ok h' ∧ stale_window_ok h').
Proof.
  intros Hf. unfold expire_content. rewrite Hf.
  destruct (content_from_accession_found _ _ _ Hf) as (_ & c & Hc & Ha).
  set (n := u32 (Z.of_nat (size (content_tab h)))).
  assert (0 ≤ n ≤ Z.of_nat (size (content_tab h))) as Hn.
  { unfold n, u32. split; [apply Z.mod_pos_bound; lia|].
    apply Z.mod_le; lia. }
  assert (0 ≤ Z.shiftr n 3) as Hshift by (apply Z.shiftr_nonneg; lia).
  assert (∃ h', Some (mark_stale h ck, 0) = Some (h', 0) ∧
    (content_tab h' !! ck = None ∧
     capacity h < Z.of_nat (size (content_tab h)) ∨
     ∃ c', content_tab h' !! ck = Some c' ∧ is_stale c') ∧
    (∀ ck', ck' ≠ ck → content_tab h' !! ck' = content_tab h !! ck') ∧
    (accession_index_ok h → stale_window_ok h → h_accession h < 2 ^ 32 →
     accession_index_ok h' ∧ stale_window_ok h')) as Hmark.
  { eexists. split; [done|].
    destruct (flag_set (content_flags c) CCN_CONTENT_ENTRY_STALE) eqn:Hs.
    - rewrite (mark_stale_again _ _ _ Hc Hs). split; [right; eauto|]. done.
    - destruct (mark_stale_fresh _ _ _ Hc Hs) as (Htab & _).
      rewrite Htab. split; [|split].
      + right. eexists. rewrite lookup_insert_eq. split; [done|].
        apply made_stale_is_stale.
      + intros ck' Hne. by rewrite lookup_insert_ne.
      + intros Hi Hw Hlt. split.
        * by apply (index_ok_mark h ck c).
        * by apply (window_ok_mark h ck c). }
  destruct ((n - Z.shiftr n 3 >? capacity h)
            || (n >? capacity h) && (min_stale h >? max_stale h)) eqn:Hfull;
    [|exact Hmark].
  destruct (remove_content_found h ck c Hc)
    as (h1 & -> & Htab & Hidx & Hc1 & Hmin1 & Hmax1 & Hacc1).
  cbn. exists h1. split; [done|]. rewrite Htab. split; [|split].
  - left. rewrite lookup_delete_eq. split; [done|].
    apply orb_true_iff in Hfull as [Hgt%Z.gtb_lt|[Hgt%Z.gtb_lt _]%andb_true_iff];
      lia.
  - intros ck' Hne. by rewrite lookup_delete_ne.
  - intros Hi (Hmr & Hxr & Hwin) Hlt. split.
    + by apply (index_ok_delete h h1 ck c).
    + unfold stale_window_ok. rewrite Hmin1, Hmax1, Htab.
      split; [done|]. split; [done|]. intros ck' c' Hc' Hs.
      apply lookup_delete_Some in Hc' as [_ Hc']. by apply (Hwin ck').
Qed.

(** X19: The stale content lies between min_stale and max_stale.  With
    every content entry indexed under its accession number, this invariant
    is kept by mark_stale, by expire_content and by clean_deamon, also
    where clean_deamon moves min_stale up behind the content it removed or
    declares that there is no stale content left. *)
Theorem stale_window_kept h :
  accession_index_ok h → stale_window_ok h → h_accession h < 2 ^ 32 - 1 →
  (∀ ck, accession_index_ok (mark_stale h ck) ∧
         stale_window_ok (mark_stale h ck)) ∧
  (∀ evint, ∃ h' r, expire_content h evint false = Some (h', r) ∧
     accession_index_ok h' ∧ stale_window_ok h') ∧
  (∀ accession_base evint, 0 ≤ accession_base →
     ∃ h' evint' r,
       clean_deamon h accession_base evint false = Some (h', evint', r) ∧
       accession_index_ok h' ∧ stale_window_ok h').
Proof.
  intros Hi Hw Hacc. split; [|split].
  - intros ck.
    destruct (content_tab h !! ck) as [c|] eqn:Hc.
    2:{ unfold mark_stale. by rewrite Hc. }
    destruct (flag_set (content_flags c) CCN_CONTENT_ENTRY_STALE) eqn:Hs.
    { by rewrite (mark_stale_again _ _ _ Hc Hs). }
    split; [by apply (index_ok_mark h ck c)|].
    apply (window_ok_mark h ck c); [done|done|lia|done|done].
  - intros evint.
    destruct (content_from_accession h (u32 evint)) as [ck|] eqn:Hf.
    + destruct (expire_content_spec h evint ck Hf) as (h' & Hrun & _ & _ & Hinv).
      exists h', 0. split; [done|]. apply Hinv; [done..|lia].
    + exists h, 0. unfold expire_content. by rewrite Hf.
  - intros accession_base evint Hbase.
    destruct (clean_deamon_spec h accession_base evint Hbase Hacc)
      as (h' & evint' & r & Hrun & _ & _ & _ & _ & Hinv).
    exists h', evint', r. split; [done|]. by apply Hinv.
Qed.

(** X20: expire_content, for the accession number of a content entry that
    is in the store, leaves that entry either removed or flagged stale, so
    it is not served as fresh again; it removes the entry only when the
    store is above its capacity, and it leaves all other entries as they
    are.  For an accession number that names no content it does nothing. *)
Theorem expire_content_retires h evint :
  match content_from_accession h (u32 evint) with
  | Some ck =>
    ∃ h', expire_content h evint false = Some (h', 0) ∧
      (content_tab h' !! ck = None ∧
       capacity h < Z.of_nat (size (content_tab h)) ∨
       ∃ c', content_tab h' !! ck = Some c' ∧
         flag_set (content_flags c') CCN_CONTENT_ENTRY_STALE = true) ∧
      ∀ ck', ck' ≠ ck → content_tab h' !! ck' = content_tab h !! ck'
  | None => expire_content h evint false = Some (h, 0)
  end.
Proof.
  destruct (content_from_accession h (u32 evint)) as [ck|] eqn:Hf.
  - destruct (expire_content_spec h evint ck Hf) as (h' & Hrun & Hck & Hother & _).
    exists h'. done.
  - unfold expire_content. by rewrite Hf.
Qed.

End cleaning.

Lemma over_capacity_ok :
  accession_index_ok over_capacity ∧ stale_window_ok over_capacity.
Proof.
  split.
  - intros ck c Hc. change (content_tab over_capacity) with stale_contents in Hc.
    unfold stale_contents in Hc.
    repeat (apply lookup_insert_Some in Hc as [[<- <-]|[_ Hc]];
            [by vm_compute|]).
    apply lookup_singleton_Some in Hc as [<- <-]. by vm_compute.
  - split; [by vm_compute|]. split; [by vm_compute|].
    intros ck c Hc Hs.
    change (content_tab over_capacity) with stale_contents in Hc.
    unfold stale_contents in Hc.
    repeat (apply lookup_insert_Some in Hc as [[<- <-]|[_ Hc]];
            [by vm_compute|]).
    apply lookup_singleton_Some in Hc as [<- <-]. by vm_compute.
Qed.

(** The daemon holds three entries and has room for one. *)
Lemma clean_deamon_spares_fresh_witness :
  ∃ h' evint' r,
    clean_deamon over_capacity 5 0 false = Some (h', evint', r) ∧
    (r = 5000 ∨ r = 1000000 ∨ r = 15000000) ∧
    (Z.of_nat (size (content_tab over_capacity)) ≤ capacity over_capacity →
     h' = over_capacity) ∧
    (∀ ck, content_tab h' !! ck = content_tab over_capacity !! ck ∨
       (∃ c, content_tab over_capacity !! ck = Some c ∧
          flag_set (content_flags c) CCN_CONTENT_ENTRY_STALE = true ∧
          content_tab h' !! ck = None) ∨
       (∃ c, content_tab over_capacity !! ck = Some c ∧
          Z.land (content_flags c)
            (Z.lor CCN_CONTENT_ENTRY_STALE CCN_CONTENT_ENTRY_PRECIOUS) = 0 ∧
          content_tab h' !! ck
          = Some (set_content_flags
                    (Z.lor (content_flags c) CCN_CONTENT_ENTRY_STALE) c))) ∧
    Z.min (Z.of_nat (size (content_tab over_capacity))) (capacity over_capacity)
    ≤ Z.of_nat (size (content_tab h'))
    ≤ Z.of_nat (size (content_tab over_capacity)).
Proof.
  apply (clean_deamon_spares_fresh over_capacity 5 0).
  - lia.
  - vm_compute. reflexivity.
Defined.

Lemma stale_window_kept_witness :
  (∀ ck, accession_index_ok (mark_stale over_capacity ck) ∧
         stale_window_ok (mark_stale over_capacity ck)) ∧
  (∀ evint, ∃ h' r, expire_content over_capacity evint false = Some (h', r) ∧
     accession_index_ok h' ∧ stale_window_ok h') ∧
  (∀ accession_base evint, 0 ≤ accession_base →
     ∃ h' evint' r,
       clean_deamon over_capacity accession_base evint false
       = Some (h', evint', r) ∧
       accession_index_ok h' ∧ stale_window_ok h').
Proof.
  apply (stale_window_kept over_capacity).
  - apply over_capacity_ok.
  - apply over_capacity_ok.
  - vm_compute. reflexivity.
Defined.

(** * Writing to the socket of a face *)

Section socket_stream.

(** The index into the buffer is inside the buffer. *)
Abbreviation index_inside f :=
  (∀ b, socket.outbuf f = Some b →
     0 ≤ socket.outbufindex f ≤ nelem b).

Lemma do_write_stream f data res :
  index_inside f →
  flag_set (socket.flags f) CCN_FACE_NOSEND = false →
  flag_set (socket.flags f) CCN_FACE_DGRAM = false →
  socket.step_ok f (socket.Write data res) →
  let f' := (socket.do_write false f data res).1 in
  socket.stream f' = socket.stream f ++ data ∧
  index_inside f' ∧ socket.flags f' = socket.flags f ∧
  (socket.do_write false f data res).2 = [].
Proof.
  intros Hin Hsend Hdgram Hok. cbv zeta. unfold socket.do_write.
  rewrite Hsend. cbv zeta.
  change (socket.outbuf (socket.set_surplus _ f)) with (socket.outbuf f).
  unfold socket.stream, socket.pending.
  destruct (socket.outbuf f) as [b|] eqn:Hb.
  - cbn. specialize (Hin b eq_refl). unfold nelem in Hin.
    rewrite drop_app_le by lia. rewrite app_assoc.
    split; [done|]. split; [|done]. intros b' [= <-].
    unfold nelem. rewrite length_app. lia.
  - destruct res as [n| | |]; cbn in Hok; try done.
    + unfold nelem in *. destruct (Z.eqb_spec n (Z.of_nat (length data))).
      * cbn. rewrite Hb, take_ge by lia. cbn. rewrite !app_nil_r. done.
      * cbn. rewrite Hdgram. cbn. change (Z.to_nat 0) with O.
        rewrite drop_0, app_nil_r, <- app_assoc, take_drop.
        split; [done|]. split; [|done]. intros b' [= <-]. lia.
    + cbn. rewrite Hdgram. cbn. change (Z.to_nat 0) with O.
      rewrite !drop_0, app_nil_r.
      split; [done|]. split; [|done]. intros b' [= <-]. unfold nelem. lia.
Qed.

Lemma do_deferred_write_stream f res :
  index_inside f →
  socket.step_ok f (socket.Writable res) →
  ∃ f' out,
    socket.do_deferred_write (Some f) 0 res = (Some f', out, false) ∧
    socket.stream f' = socket.stream f ∧
    index_inside f' ∧ socket.flags f' = socket.flags f.
Proof.
  intros Hin Hok. destruct res as [n| | |]; cbn in Hok; try done.
  unfold socket.do_deferred_write, socket.stream, socket.pending in *.
  destruct (socket.outbuf f) as [b|] eqn:Hb.
  2:{ do 2 eexists. split; [done|]. rewrite Hb. done. }
  specialize (Hin b eq_refl). unfold nelem in *.
  destruct (Z.gtb_spec (Z.of_nat (length b) - socket.outbufindex f) 0)
    as [Hsome|Hnone].
  - rewrite length_drop in Hok.
    destruct (Z.eqb_spec n (Z.of_nat (length b) - socket.outbufindex f)).
    + do 2 eexists. split; [done|]. cbn. rewrite app_nil_r.
      rewrite take_ge by (rewrite length_drop; lia).
      split; [done|]. split; [|done]. intros b'. done.
    + do 2 eexists. split; [done|]. cbn. rewrite Hb, <- app_assoc.
      replace (Z.to_nat (socket.outbufindex f + n))
        with (Z.to_nat (socket.outbufindex f) + Z.to_nat n)%nat by lia.
      rewrite <- drop_drop, take_drop.
      split; [done|]. split; [|done]. intros b' [= <-]. lia.
  - do 2 eexists. split; [done|]. cbn.
    rewrite drop_ge by lia. split; [done|]. split; [|done]. intros b'. done.
Qed.

(** X21: On a connected face that is neither NOSEND nor a datagram face,
    as long as the socket takes no more than it is given and answers no
    error but EAGAIN, the bytes the socket has taken followed by the bytes
    that wait in face->outbuf are always the bytes written with do_write, in
    the order they were written: short writes and the deferred writes of
    do_deferred_write neither lose, repeat nor reorder a byte. *)
Theorem socket_stream_kept l : ∀ f,
  (∀ b, socket.outbuf f = Some b → 0 ≤ socket.outbufindex f ≤ nelem b) →
  flag_set (socket.flags f) CCN_FACE_NOSEND = false →
  flag_set (socket.flags f) CCN_FACE_DGRAM = false →
  socket.steps_ok f l →
  let f' := foldl socket.run_step f l in
  socket.stream f' = socket.stream f ++ socket.written l ∧
  (∀ b, socket.outbuf f' = Some b → 0 ≤ socket.outbufindex f' ≤ nelem b) ∧
  socket.flags f' = socket.flags f.
Proof.
  induction l as [|s l IH]; intros f Hin Hsend Hdgram Hok; cbv zeta.
  { cbn. by rewrite app_nil_r. }
  destruct Hok as [Hs Hl]. cbn [foldl].
  assert (socket.stream (socket.run_step f s)
          = socket.stream f
            ++ match s with socket.Write data _ => data
               | socket.Writable _ => [] end ∧
          index_inside (socket.run_step f s) ∧
          socket.flags (socket.run_step f s) = socket.flags f)
    as (Hstream & Hin' & Hflags).
  { destruct s as [data res|res].
    - destruct (do_write_stream f data res Hin Hsend Hdgram Hs)
        as (? & ? & ? & _). done.
    - destruct (do_deferred_write_stream f res Hin Hs)
        as (f' & out & Hrun & ? & ? & ?).
      unfold socket.run_step. rewrite Hrun. cbn. by rewrite app_nil_r. }
  destruct (IH (socket.run_step f s) Hin') as (Hstream' & Hin'' & Hflags');
    [by rewrite Hflags..|done|].
  cbv zeta in Hstream'. rewrite Hstream', Hstream, Hflags', Hflags.
  split; [|done]. unfold socket.written. cbn. by rewrite app_assoc.
Qed.

End socket_stream.

(** The socket takes the five bytes in three pieces. *)
Lemma socket_stream_kept_witness :
  let f' := foldl socket.run_step stream_face stream_steps in
  socket.stream f' = socket.stream stream_face ++ socket.written stream_steps ∧
  (∀ b, socket.outbuf f' = Some b → 0 ≤ socket.outbufindex f' ≤ nelem b) ∧
  socket.flags f' = socket.flags stream_face.
Proof.
  apply (socket_stream_kept stream_steps stream_face).
  - intros b Hb. discriminate Hb.
  - vm_compute. reflexivity.
  - vm_compute. reflexivity.
  - cbn. repeat split; try discriminate; lia.
Defined.

(** * Sending queued content *)

Section sending.
Context `{L : ccn_lib} `{W : content_walk}.

Lemma sent_to_refl fid h : sent_to fid 0 h h.
Proof.
  repeat split. exists []. by rewrite app_nil_r.
Qed.

Lemma sent_to_trans fid n m h h1 h2 :
  sent_to fid n h h1 → sent_to fid m h1 h2 → sent_to fid (n + m) h h2.
Proof.
  intros (Hf & Hc & Ha & l & Hl & Hn) (Hf' & Hc' & Ha' & l' & Hl' & Hm).
  split; [congruence|]. split; [congruence|]. split; [congruence|].
  exists (l ++ l'). split.
  - by rewrite Hl', Hl, app_assoc.
  - unfold writes_to in *. rewrite filter_app, length_app. lia.
Qed.

Lemma sent_to_emit fid o h :
  sent_to fid (if is_write_to fid o then 1 else 0) h (emit o h).
Proof.
  repeat split. exists [o]. split; [done|]. unfold writes_to.
  destruct (is_write_to fid o) eqn:Ho.
  - by rewrite filter_cons_True.
  - rewrite filter_cons_False; [done|]. by rewrite Ho.
Qed.

Lemma sent_to_emit_if fid mask o h :
  is_write_to fid o = false → sent_to fid 0 h (emit_if mask o h).
Proof.
  intros Ho. unfold emit_if. destruct (flag_set _ _); [|apply sent_to_refl].
  pose proof (sent_to_emit fid o h) as Hs. by rewrite Ho in Hs.
Qed.

Lemma sent_to_update_pe fid k g h : sent_to fid 0 h (update_pe k g h).
Proof. repeat split. exists []. by rewrite app_nil_r. Qed.

Lemma stuff_prefix_sent fid face ps : ∀ h c rs,
  sent_to fid 0 h (stuff_prefix h face ps c rs).1.1.1.
Proof.
  induction ps as [|pk ps IH]; intros h c rs; [apply sent_to_refl|].
  cbn [stuff_prefix].
  destruct (propagating_tab h !! pk) as [p|]; [|apply IH].
  destruct (outbound p) as [ob|]; [|apply IH].
  destruct (interest_msg p) as [imsg|]; [|apply IH].
  match goal with |- context [if ?b then _ else _] => destruct b end;
    [|apply IH].
  cbn [fst]. eapply (sent_to_trans fid 0 0); [apply sent_to_update_pe|].
  by apply sent_to_emit_if.
Qed.

Lemma stuff_prefixes_sent fid face ns : ∀ h c rs k,
  sent_to fid 0 h (stuff_prefixes h face ns c rs k).1.1.
Proof.
  induction ns as [|n ns IH]; intros h c rs k; [apply sent_to_refl|].
  cbn [stuff_prefixes]. destruct (rs >=? 20); [|apply sent_to_refl].
  destruct (nameprefix_tab h !! n ≫= propagating_head) as [ps|]; [|apply IH].
  pose proof (stuff_prefix_sent fid face (rev ps) h c rs) as Hs.
  destruct (stuff_prefix h face (rev ps) c rs) as [[[h1 c1] rs1] k1].
  apply (sent_to_trans fid 0 0 _ _ _ Hs). apply IH.
Qed.

Lemma ccn_stuff_interest_sent fid face h c :
  sent_to fid 0 h (ccn_stuff_interest h face c).1.1.
Proof.
  unfold ccn_stuff_interest. destruct (_ || _); [apply sent_to_refl|].
  apply stuff_prefixes_sent.
Qed.

Lemma do_write_sent h face c :
  flag_set (face_flags face) CCN_FACE_NOSEND = false →
  sent_to (faceid face) 1 h (do_write h face c).
Proof.
  intros Hs. unfold do_write. rewrite Hs.
  pose proof (sent_to_emit (faceid face) (do_write_out (faceid face) c) h)
    as He.
  cbn in He. by rewrite Z.eqb_refl in He.
Qed.

Lemma send_content_sent h face ck e :
  content_tab h !! ck = Some e → 2 ≤ ncomps e →
  flag_set (face_flags face) CCN_FACE_NOSEND = false →
  ∃ h', send_content h face ck = Some h' ∧ sent_to (faceid face) 1 h h'.
Proof.
  intros He Hn Hs. unfold send_content. rewrite He, Hs. cbv zeta.
  destruct (Z.ltb_spec (ncomps e) 2); [lia|].
  match goal with |- context [ccn_stuff_interest ?h1 face ?c1] =>
    pose proof (ccn_stuff_interest_sent (faceid face) face h1 c1) as Hst;
    destruct (ccn_stuff_interest h1 face c1) as [[h2 c2] k2]
  end.
  eexists. split; [done|]. cbn [fst] in Hst.
  eapply (sent_to_trans _ 0 1 h); [|by apply do_write_sent].
  eapply (sent_to_trans _ 0 0 h); [|exact Hst].
  eapply (sent_to_trans _ 0 0 h);
    [apply (sent_to_emit_if _ 4
              (ccnd_debug_ccnb 930 "content_to" (Some (faceid face))
                 (ck ++ extdata e))); done|].
  destruct (negb _); [|apply sent_to_refl].
  apply (sent_to_emit (faceid face) (ccnd_debug_ccnb _ _ _ _)).
Qed.

Lemma delivered_refl fid h : delivered fid 0 h h.
Proof. repeat split. exists []. by rewrite app_nil_r. Qed.

Lemma delivered_trans fid n m h h1 h2 :
  delivered fid n h h1 → delivered fid m h1 h2 → delivered fid (n + m) h h2.
Proof.
  intros (Hc & Ha & l & Hl & Hn) (Hc' & Ha' & l' & Hl' & Hm).
  split; [congruence|]. split; [congruence|].
  exists (l ++ l'). split.
  - by rewrite Hl', Hl, app_assoc.
  - unfold writes_to in *. rewrite filter_app, length_app. lia.
Qed.

Lemma sent_to_delivered fid n h h' : sent_to fid n h h' → delivered fid n h h'.
Proof. by intros (_ & ? & ? & ?). Qed.

Lemma delivered_emit_if fid mask o h :
  is_write_to fid o = false → delivered fid 0 h (emit_if mask o h).
Proof. intros Ho. by apply sent_to_delivered, sent_to_emit_if. Qed.

Lemma delivered_update_q fid p c g h : delivered fid 0 h (update_q p c g h).
Proof. repeat split. exists []. by rewrite app_nil_r. Qed.

Lemma delivered_lookup fid n h h' a :
  delivered fid n h h' →
  content_from_accession h' a = content_from_accession h a.
Proof.
  intros (Hc & Ha & _). unfold content_from_accession. by rewrite Hc, Ha.
Qed.

Lemma delivered_with_content fid n h h' l :
  delivered fid n h h' → with_content_of h' l = with_content_of h l.
Proof.
  intros Hd. unfold with_content_of. apply list_filter_iff. intros a.
  by rewrite (delivered_lookup _ _ _ _ a Hd).
Qed.

Lemma face_at_update_face h p g :
  face_at (update_face p g h) p = g <$> face_at h p.
Proof.
  unfold face_at, update_face. cbn.
  rewrite list_lookup_alter, decide_True by done.
  by destruct (faces_by_faceid h !! p) as [[f|]|].
Qed.

Lemma queue_at_update_q h p c fid fl cq g :
  queue_at h p c fid fl cq → queue_at (update_q p c g h) p c fid fl (g cq).
Proof.
  intros (f & Hf & Hid & Hfl & Hq). unfold update_q.
  eexists. rewrite face_at_update_face, Hf. split; [done|].
  destruct f; cbn in *. split; [done|]. split; [done|].
  by rewrite list_lookup_alter, decide_True, Hq.
Qed.

Lemma queue_at_sent h h' p c fid fl cq fid' n :
  sent_to fid' n h h' → queue_at h p c fid fl cq → queue_at h' p c fid fl cq.
Proof.
  intros (Hfaces & _) (f & Hf & ?). exists f. split; [|done].
  unfold face_at in *. by rewrite Hfaces.
Qed.

Lemma queue_at_the_q h p c fid fl cq :
  queue_at h p c fid fl cq → the_q h p c = Some cq.
Proof.
  intros (f & Hf & _ & _ & Hq). unfold the_q. rewrite Hf. cbn. by rewrite Hq.
Qed.

Lemma queue_at_found h c fid fl cq :
  queue_at h (Z.to_nat (Z.land fid MAXFACES)) c fid fl cq →
  ∃ f, face_from_faceid h fid = Some f.
Proof.
  intros (f & Hf & Hid & _). exists f. apply face_from_faceid_slot.
  split; [|done]. by apply face_at_lookup.
Qed.

Lemma queue_at_unique h p c fid fl cq fid' fl' cq' :
  queue_at h p c fid fl cq → queue_at h p c fid' fl' cq' → cq' = cq.
Proof.
  intros (f & Hf & _ & _ & Hq) (f' & Hf' & _ & _ & Hq'). congruence.
Qed.

Lemma blocks_bound size burst :
  0 ≤ size ≤ 2 ^ 20 → 0 ≤ burst ≤ 300000 →
  0 ≤ burst * u32 ((size + 1023) / 1024) ≤ 307200000.
Proof.
  intros Hs Hb.
  assert (0 ≤ (size + 1023) / 1024 ≤ 1024) as Hq.
  { split; [apply Z.div_pos; lia|].
    assert ((size + 1023) / 1024 < 1025); [|lia].
    apply Z.div_lt_upper_bound; lia. }
  rewrite u32_small by lia. nia.
Qed.

Lemma with_content_cons h a l :
  length (with_content_of h (a :: l))
  = (length (with_content_of h [a]) + length (with_content_of h l))%nat.
Proof.
  unfold with_content_of. change (a :: l) with ([a] ++ l) at 1.
  by rewrite filter_app, length_app.
Qed.

(** The loop that sends the head of the queue. *)
Lemma content_sender_burst_spec fid p c fl burst_max burst n :
  ∀ h i nsec cq,
  queue_at h p c fid fl cq →
  p = Z.to_nat (Z.land fid MAXFACES) →
  flag_set fl CCN_FACE_NOSEND = false →
  (∀ ck e, content_tab h !! ck = Some e →
     2 ≤ ncomps e ∧ 0 ≤ content_size e ≤ 2 ^ 20) →
  0 ≤ burst ≤ 300000 →
  0 ≤ i → i + Z.of_nat n = burst_max →
  burst_max ≤ nelem (send_queue cq) →
  0 ≤ nsec → nsec + Z.of_nat n * 307200000 < 2 ^ 31 →
  ∃ h' i' nsec' x,
    content_sender_burst n h fid p c i burst_max nsec burst
    = Some (h', i', nsec', false) ∧
    i ≤ i' ≤ burst_max ∧ 0 ≤ nsec' < 2 ^ 31 ∧
    queue_at h' p c fid fl (set_nrun x cq) ∧
    delivered fid
      (length (with_content_of h
                 (take (Z.to_nat (i' - i))
                    (drop (Z.to_nat i) (send_queue cq))))) h h'.
Proof.
  induction n as [|n IH];
    intros h i nsec cq Hq Hp Hfl Hcont Hburst Hi Hn Hlen Hnsec Hroom.
  { exists h, i, nsec, (nrun cq). split; [done|]. split; [lia|].
    split; [lia|]. split; [by destruct cq|].
    rewrite Z.sub_diag. apply delivered_refl. }
  cbn [content_sender_burst].
  destruct ((i <? burst_max) && (nsec <? 1000000)) eqn:Hcond.
  2:{ exists h, i, nsec, (nrun cq). split; [done|]. split; [lia|].
      split; [lia|]. split; [by destruct cq|].
      rewrite Z.sub_diag. apply delivered_refl. }
  rewrite (queue_at_the_q _ _ _ _ _ _ Hq).
  destruct Hq as (f & Hf & Hid & Hflags & Hqf). rewrite Hf.
  assert (queue_at h p c fid fl cq) as Hq by (by exists f).
  unfold nelem in Hlen.
  destruct (lookup_lt_is_Some_2 (send_queue cq) (Z.to_nat i)) as [a Ha];
    [lia|].
  assert (buf (send_queue cq) i = a) as ->.
  { unfold buf. destruct (Z.ltb_spec i 0); [lia|]. by rewrite Ha. }
  (* the rest of the loop, after a round that delivered [k] *)
  assert (∀ h1 nsec1 x1 k,
    queue_at h1 p c fid fl (set_nrun x1 cq) → delivered fid k h h1 →
    0 ≤ nsec1 → nsec1 + Z.of_nat n * 307200000 < 2 ^ 31 →
    k = length (with_content_of h [a]) →
    ∃ h' i' nsec' x,
      content_sender_burst n h1 fid p c (i + 1) burst_max nsec1 burst
      = Some (h', i', nsec', false) ∧
      i ≤ i' ≤ burst_max ∧ 0 ≤ nsec' < 2 ^ 31 ∧
      queue_at h' p c fid fl (set_nrun x cq) ∧
      delivered fid
        (length (with_content_of h
                   (take (Z.to_nat (i' - i))
                      (drop (Z.to_nat i) (send_queue cq))))) h h') as Hrest.
  { intros h1 nsec1 x1 k Hq1 Hd1 Hn0 Hn1 Hk.
    destruct (IH h1 (i + 1) nsec1 (set_nrun x1 cq) Hq1 Hp Hfl)
      as (h' & i' & nsec' & x & Hrun & Hrange & Hns & Hq' & Hd');
      [|done|lia|lia|by destruct cq|done|done|].
    { intros ck e He. apply (Hcont ck).
      destruct Hd1 as (Hc1 & _). by rewrite <- Hc1. }
    exists h', i', nsec', x. split; [done|]. split; [lia|]. split; [done|].
    split; [by destruct cq|].
    replace (Z.to_nat (i' - i)) with (S (Z.to_nat (i' - (i + 1)))) by lia.
    rewrite (drop_S _ _ _ Ha). cbn [take].
    replace (send_queue (set_nrun x1 cq)) with (send_queue cq) in Hd'
      by (by destruct cq).
    replace (Z.to_nat (i + 1)) with (S (Z.to_nat i)) in Hd' by lia.
    rewrite (delivered_with_content _ _ _ _ _ Hd1) in Hd'.
    pose proof (delivered_trans _ _ _ _ _ _ Hd1 Hd') as Hd.
    replace (length (with_content_of h
               (a :: take (Z.to_nat (i' - (i + 1)))
                       (drop (S (Z.to_nat i)) (send_queue cq)))))
      with (k + length (with_content_of h
                  (take (Z.to_nat (i' - (i + 1)))
                     (drop (S (Z.to_nat i)) (send_queue cq)))))%nat; [done|].
    by rewrite Hk, <- with_content_cons. }
  destruct (content_from_accession h a) as [ck|] eqn:Hfound.
  - destruct (content_from_accession_found _ _ _ Hfound) as (_ & e & He & _).
    destruct (Hcont _ _ He) as [Hnc Hsize].
    destruct (send_content_sent h f ck e He Hnc) as (h2 & -> & Hsent);
      [by rewrite Hflags|].
    rewrite Hid in Hsent. cbn [mbind option_bind].
    pose proof (queue_at_sent _ _ _ _ _ _ _ _ _ Hsent Hq) as Hq2.
    rewrite Hp in Hq2. destruct (queue_at_found _ _ _ _ _ Hq2) as [f2 ->].
    rewrite <- Hp in Hq2.
    destruct Hsent as (_ & Hc2 & Ha2 & Hout2). rewrite Hc2, He. cbn.
    pose proof (blocks_bound _ _ Hsize Hburst) as Hblocks.
    unfold s32. rewrite Z.mod_small by lia.
    destruct (Z.ltb_spec (nsec + burst * u32 ((content_size e + 1023) / 1024))
                (2 ^ 31)); [|lia].
    eapply (Hrest _ _ (u32 (nrun cq + 1)) 1%nat).
    + apply (queue_at_update_q _ _ _ _ _ _
               (λ cq, set_nrun (u32 (nrun cq + 1)) cq) Hq2).
    + apply (delivered_trans _ 1 0 h h2); [done|apply delivered_update_q].
    + lia.
    + lia.
    + unfold with_content_of. rewrite filter_cons_True; [done|].
      by rewrite Hfound.
  - eapply (Hrest _ _ 0 0%nat).
    + apply (queue_at_update_q _ _ _ _ _ _ (set_nrun 0) Hq).
    + apply delivered_update_q.
    + lia.
    + lia.
    + unfold with_content_of. rewrite filter_cons_False; [done|].
      rewrite Hfound. by intros [? ?].
Qed.

Lemma randomize_content_delay_spec fid h cq :
  1 ≤ (randomize_content_delay h cq).2 ∧
  sent_to fid 0 h (randomize_content_delay h cq).1.
Proof.
  unfold randomize_content_delay.
  destruct (Z.ltb_spec (min_usec cq + rand_usec cq) 2);
    [split; [done|apply sent_to_refl]|].
  destruct (Z.leb_spec (min_usec cq + rand_usec cq) 20);
    [split; [cbn; lia|apply sent_to_refl]|].
  destruct (Z.ltb_spec (rand_usec cq) 2);
    [split; [cbn; lia|apply sent_to_refl]|].
  cbn [orb]. destruct (nrand48 (seed h)) as [r s]. cbn [fst snd]. split.
  - destruct (Z.ltb_spec (min_usec cq + r mod rand_usec cq) 2); lia.
  - repeat split. exists []. by rewrite app_nil_r.
Qed.

(** A run of content_sender, with the writes counted as do_write records
    them: one for each accession number looked at that names content. *)
Lemma content_sender_spec h ev surplus face cq :
  let fid := u32 (evint ev) in
  let c := Z.to_nat (buf (evdata ev) 0) in
  face_from_faceid h fid = Some face →
  q face !! c = Some (Some cq) →
  flag_set (face_flags face) CCN_FACE_NOSEND = false →
  sender cq = true → 0 ≤ cq_ready cq → 0 ≤ burst_nsec cq ≤ 300000 →
  (∀ ck e, content_tab h !! ck = Some e →
     2 ≤ ncomps e ∧ 0 ≤ content_size e ≤ 2 ^ 20) →
  ∃ h' d cq' i l,
    content_sender h ev surplus false = Some (h', d) ∧
    the_q h' (face_slot face) c = Some cq' ∧
    0 ≤ i ≤ 2 ∧
    content_tab h' = content_tab h ∧
    out h' = out h ++ l ∧
    writes_to fid l
    = length (with_content_of h (take (Z.to_nat i) (send_queue cq))) ∧
    (1 ≤ d ∧ sender cq' = true ∧
     send_queue cq' = drop (Z.to_nat i) (send_queue cq)
     ∨ d = 0 ∧ sender cq' = false ∧ send_queue cq' = [] ∧
       with_content_of h (drop (Z.to_nat i) (send_queue cq)) = []).
Proof.
  intros fid c Hface Hqc Hfl Hsender Hready Hburst Hcont.
  unfold content_sender. fold fid. fold c. rewrite Hface.
  cbv zeta. rewrite Hqc. cbn [mjoin option_join mbind option_bind].
  rewrite Hfl.
  set (p := face_slot face).
  apply face_from_faceid_slot in Hface as [Hslot Hid].
  assert (p = Z.to_nat (Z.land fid MAXFACES)) as Hp
    by (unfold p, face_slot; by rewrite Hid).
  assert (queue_at h p c fid (face_flags face) cq) as Hq.
  { exists face. rewrite Hp. split; [by apply face_at_lookup|done]. }
  set (n := nelem (send_queue cq)).
  set (ready := if (cq_ready cq >? n) ||
                   ((cq_ready cq =? 0) && (nrun cq >=? 8) && (nrun cq <? 200))
                then n else cq_ready cq).
  assert (0 ≤ ready ≤ n) as Hr.
  { unfold ready, n, nelem in *.
    destruct (Z.gtb_spec (cq_ready cq) (Z.of_nat (length (send_queue cq))));
      [cbn; lia|].
    cbn [orb]. destruct (_ && _); lia. }
  set (burst_max := if ready <? 2 then ready else 2).
  assert (0 ≤ burst_max ≤ 2 ∧ burst_max ≤ ready) as [Hbm Hbr]
    by (unfold burst_max; destruct (Z.ltb_spec ready 2); lia).
  pose proof (queue_at_update_q _ _ _ _ _ _ (set_cq_ready ready) Hq) as Hq1.
  set (h1 := update_q p c (set_cq_ready ready) h) in *.
  set (h2 := if burst_max =? 0 then update_q p c (set_nrun 0) h1 else h1).
  assert (∃ x, queue_at h2 p c fid (face_flags face)
                 (set_nrun x (set_cq_ready ready cq))) as [x2 Hq2].
  { unfold h2. destruct (burst_max =? 0).
    - exists 0. apply (queue_at_update_q _ _ _ _ _ _ (set_nrun 0) Hq1).
    - exists (nrun cq). by destruct cq. }
  assert (delivered fid 0 h h2) as Hd2.
  { unfold h2. destruct (burst_max =? 0); repeat split;
      exists []; by rewrite app_nil_r. }
  destruct (content_sender_burst_spec fid p c (face_flags face) burst_max
              (burst_nsec cq) (Z.to_nat burst_max) h2 0 0
              (set_nrun x2 (set_cq_ready ready cq)))
    as (h3 & i & nsec & x3 & Hrun & Hi & Hnsec & Hq3 & Hd3);
    [done|done|done| |done|lia|lia| |lia|lia|].
  { intros ck e He. apply (Hcont ck).
    destruct Hd2 as (Hc2 & _). by rewrite <- Hc2. }
  { cbn. fold n. lia. }
  replace (burst_nsec (set_nrun x2 (set_cq_ready ready cq)))
    with (burst_nsec cq) in * by (by destruct cq).
  rewrite Hrun. cbn [mbind option_bind]. cbv beta iota.
  rewrite (queue_at_the_q _ _ _ _ _ _ Hq3).
  set (cq3 := set_nrun x3 (set_nrun x2 (set_cq_ready ready cq))) in *.
  assert (cq_ready cq3 = ready ∧ send_queue cq3 = send_queue cq ∧
          sender cq3 = true) as (Hr3 & Hs3 & Hsd3)
    by (unfold cq3; destruct cq; cbn in *; done).
  rewrite Hr3, Hs3. destruct (Z.ltb_spec ready i); [lia|].
  rewrite (delivered_with_content _ _ _ _ _ Hd2) in Hd3.
  replace (send_queue (set_nrun x2 (set_cq_ready ready cq)))
    with (send_queue cq) in Hd3 by (by destruct cq).
  rewrite Z.sub_0_r, drop_0 in Hd3.
  pose proof (delivered_trans _ _ _ _ _ _ Hd2 Hd3) as Hd. cbn [Nat.add] in Hd.
  set (sq := drop (Z.to_nat i) (send_queue cq)).
  pose proof (queue_at_update_q _ _ _ _ _ _
                (λ cq, set_send_queue sq (set_cq_ready (cq_ready cq - i) cq))
                Hq3) as Hq4.
  cbv beta in Hq4. rewrite Hr3 in Hq4.
  set (h4 := update_q p c _ h3) in *.
  assert (delivered fid
            (length (with_content_of h (take (Z.to_nat i) (send_queue cq))))
            h h4) as Hd4.
  { pose proof (delivered_trans _ _ 0 _ _ h4 Hd) as Ht.
    rewrite Nat.add_0_r in Ht. apply Ht. apply delivered_update_q. }
  assert (1 ≤ Z.quot (nsec + 499) 1000 + 1) as Hdelay.
  { assert (0 ≤ Z.quot (nsec + 499) 1000); [|lia].
    apply Z.quot_pos; lia. }
  (* the answers that ask for another call *)
  assert (∀ h' d cq',
    queue_at h' p c fid (face_flags face) cq' →
    delivered fid 0 h4 h' → 1 ≤ d → sender cq' = true →
    send_queue cq' = sq →
    ∃ h'0 d0 cq'0 i0 l,
      Some (h', d) = Some (h'0, d0) ∧
      the_q h'0 p c = Some cq'0 ∧ 0 ≤ i0 ≤ 2 ∧
      content_tab h'0 = content_tab h ∧ out h'0 = out h ++ l ∧
      writes_to fid l
      = length (with_content_of h (take (Z.to_nat i0) (send_queue cq))) ∧
      (1 ≤ d0 ∧ sender cq'0 = true ∧
       send_queue cq'0 = drop (Z.to_nat i0) (send_queue cq)
       ∨ d0 = 0 ∧ sender cq'0 = false ∧ send_queue cq'0 = [] ∧
         with_content_of h (drop (Z.to_nat i0) (send_queue cq)) = []))
    as Hagain.
  { intros h' d cq' Hq' Hd' Hd1 Hsd Hsq.
    pose proof (delivered_trans _ _ 0 _ _ _ Hd4 Hd') as Hall.
    rewrite Nat.add_0_r in Hall. destruct Hall as (Hc & _ & l & Hl & Hw).
    exists h', d, cq', i, l. split; [done|].
    split; [by apply (queue_at_the_q _ _ _ _ _ _ Hq')|]. split; [lia|].
    split; [done|]. split; [done|]. split; [done|]. left. done. }
  destruct (Z.gtb_spec (ready - i) 0) as [Hmore|Hnone].
  { eapply Hagain; [|by apply delivered_emit_if|done| |].
    - eapply (queue_at_sent _ _ _ _ _ _ _ fid 0%nat);
      [by apply sent_to_emit_if|exact Hq4].
    - by destruct cq3.
    - by destruct cq3. }
  pose proof (queue_at_update_q _ _ _ _ _ _ (set_cq_ready (nelem sq)) Hq4)
    as Hq5.
  set (h5 := update_q p c (set_cq_ready (nelem sq)) h4) in *.
  assert (delivered fid 0 h4 h5) as Hd5 by apply delivered_update_q.
  destruct ((nrun cq3 >=? 8) && (nrun cq3 <? 200)).
  { eapply Hagain.
    - eapply (queue_at_sent _ _ _ _ _ _ _ fid 0%nat);
      [by apply sent_to_emit_if|exact Hq5].
    - eapply (delivered_trans _ 0 0); [exact Hd5|by apply delivered_emit_if].
    - assert (0 ≤ Z.quot (burst_nsec cq) 50) by (apply Z.quot_pos; lia).
      destruct (nelem sq =? 0); lia.
    - by destruct cq3.
    - by destruct cq3. }
  destruct (existsb _ sq) eqn:Hany.
  { pose proof (queue_at_update_q _ _ _ _ _ _ (set_nrun 0) Hq5) as Hq6.
    set (h6 := update_q p c (set_nrun 0) h5) in *.
    destruct (randomize_content_delay_spec fid h6 cq3) as [Hd1 Hs7].
    destruct (randomize_content_delay h6 cq3) as [h7 d]. cbn [fst snd] in *.
    eapply Hagain; [| |exact Hd1| |].
    - eapply (queue_at_sent _ _ _ _ _ _ _ fid 0%nat);
      [by apply sent_to_emit_if|].
      eapply queue_at_sent; [exact Hs7|exact Hq6].
    - eapply (delivered_trans _ 0 0); [exact Hd5|].
      eapply (delivered_trans _ 0 0); [apply delivered_update_q|].
      eapply (delivered_trans _ 0 0);
        [apply sent_to_delivered, Hs7|by apply delivered_emit_if].
    - by destruct cq3.
    - by destruct cq3. }
  (* nothing left to send *)
  pose proof (queue_at_update_q _ _ _ _ _ _
                (λ cq, set_cq_ready 0 (set_send_queue [] cq)) Hq5) as Hq6.
  set (h6 := update_q p c (λ cq, set_cq_ready 0 (set_send_queue [] cq)) h5)
    in *.
  pose proof (queue_at_update_q _ _ _ _ _ _ (set_sender false) Hq6) as Hq7.
  set (h7 := update_q p c (set_sender false) h6) in *.
  assert (delivered fid 0 h4 h7) as Hd7.
  { eapply (delivered_trans _ 0 0); [exact Hd5|].
    eapply (delivered_trans _ 0 0); apply delivered_update_q. }
  pose proof (delivered_trans _ _ 0 _ _ _ Hd4 Hd7) as Hall.
  rewrite Nat.add_0_r in Hall.
  pose proof (delivered_trans _ _ 0 _ _ _ Hd4 Hd5) as Hto5.
  rewrite Nat.add_0_r in Hto5.
  destruct Hall as (Hc & _ & l & Hl & Hw).
  eexists h7, 0, _, i, l. split; [done|].
  split; [by apply (queue_at_the_q _ _ _ _ _ _ Hq7)|]. split; [lia|].
  split; [done|]. split; [done|]. split; [done|]. right.
  split; [done|]. split; [by destruct cq3|]. split; [by destruct cq3|].
  rewrite <- (delivered_with_content _ _ _ _ _ Hto5).
  unfold with_content_of. fold sq.
  destruct (filter _ sq) as [|a r] eqn:Hfil; [done|]. exfalso.
  assert (a ∈ filter (λ a, is_Some (content_from_accession h5 a)) sq) as Hin
    by (rewrite Hfil; apply elem_of_cons; by left).
  apply list_elem_of_filter in Hin as [Hsome Hin].
  apply not_true_iff_false in Hany. apply Hany.
  apply existsb_exists. exists a. split; [by apply list_elem_of_In|].
  by apply bool_decide_eq_true_2.
Qed.

(** X22: A run of content_sender for a queue of a face that can be sent
    to, and that is not face 0, looks at no more than the first two
    accession numbers of the queue and takes exactly these numbers off the
    queue; the content store is unchanged.  What it writes to the face is
    at most one packet for each of these numbers that still names content,
    and nothing else.  It then either asks to be called again, after at
    least one microsecond and with q->sender kept, or, and only if no
    accession number left in the queue names content, empties the queue,
    clears q->sender and returns 0: no content is left in a queue that has
    no sender scheduled. *)
Theorem content_sender_serves_queue h ev surplus face cq :
  let fid := u32 (evint ev) in
  let c := Z.to_nat (buf (evdata ev) 0) in
  face_from_faceid h fid = Some face →
  fid ≠ 0 →
  q face !! c = Some (Some cq) →
  flag_set (face_flags face) CCN_FACE_NOSEND = false →
  sender cq = true → 0 ≤ cq_ready cq → 0 ≤ burst_nsec cq ≤ 300000 →
  (∀ ck e, content_tab h !! ck = Some e →
     2 ≤ ncomps e ∧ 0 ≤ content_size e ≤ 2 ^ 20) →
  ∃ h' d cq' i l,
    content_sender h ev surplus false = Some (h', d) ∧
    the_q h' (face_slot face) c = Some cq' ∧
    0 ≤ i ≤ 2 ∧
    content_tab h' = content_tab h ∧
    out h' = out h ++ l ∧
    (writes_to fid l
     ≤ length (with_content_of h (take (Z.to_nat i) (send_queue cq))))%nat ∧
    (1 ≤ d ∧ sender cq' = true ∧
     send_queue cq' = drop (Z.to_nat i) (send_queue cq)
     ∨ d = 0 ∧ sender cq' = false ∧ send_queue cq' = [] ∧
       with_content_of h (drop (Z.to_nat i) (send_queue cq)) = []).
Proof.
  intros fid c Hface _ Hqc Hfl Hsender Hready Hburst Hcont.
  destruct (content_sender_spec h ev surplus face cq Hface Hqc Hfl Hsender
              Hready Hburst Hcont)
    as (h' & d & cq' & i & l & Hrun & Hq & Hi & Htab & Hout & Hw & Hrest).
  exists h', d, cq', i, l. fold fid in Hw. rewrite Hw. done.
Qed.

End sending.

(** The sender of the queue of face 2 runs: both entries are written. *)
Lemma content_sender_serves_queue_witness :
  let h := queued_content (L := example_lib no_canned) in
  let ev := mk_event 0 cb_content_sender [1] 2 in
  let cq := default (mk_content_queue 0 0 0 0 0 [] false)
              (the_q h 2 1) in
  send_queue cq = [1; 2] ∧
  ∃ h' d cq' i l,
    content_sender (L := example_lib no_canned) h ev 0 false = Some (h', d) ∧
    the_q h' 2 1 = Some cq' ∧
    0 ≤ i ≤ 2 ∧
    content_tab h' = content_tab h ∧
    out h' = out h ++ l ∧
    (writes_to 2 l
     ≤ length (with_content_of h (take (Z.to_nat i) (send_queue cq))))%nat ∧
    (1 ≤ d ∧ sender cq' = true ∧
     send_queue cq' = drop (Z.to_nat i) (send_queue cq)
     ∨ d = 0 ∧ sender cq' = false ∧ send_queue cq' = [] ∧
       with_content_of h (drop (Z.to_nat i) (send_queue cq)) = []).
Proof.
  cbv zeta. split; [vm_compute; reflexivity|].
  apply (content_sender_serves_queue (L := example_lib no_canned)
           (queued_content (L := example_lib no_canned))
           (mk_event 0 cb_content_sender [1] 2) 0
           (default face0
              (face_from_faceid (queued_content (L := example_lib no_canned))
                 2))).
  - vm_compute. reflexivity.
  - vm_compute. discriminate.
  - vm_compute. reflexivity.
  - vm_compute. reflexivity.
  - vm_compute. reflexivity.
  - vm_compute. discriminate.
  - vm_compute. split; discriminate.
  - intros ck e He.
    change (content_tab (queued_content (L := example_lib no_canned)))
      with queued_contents in He.
    unfold queued_contents in He.
    apply lookup_insert_Some in He as [[<- <-]|[_ He]]; [by vm_compute|].
    apply lookup_singleton_Some in He as [<- <-]. by vm_compute.
Defined.

(** * The faces an interest is sent to *)

Section outbound.
Context `{L : ccn_lib} `{W : content_walk}.

(** X23: Every faceid that get_outbound_faces puts into the outbound set of
    an interest names a face that exists and is not the face the interest
    came from; for an interest of scope 1 that face has CCN_FACE_GG, and for
    scope 0 the set is empty.  The faceid comes from the forward_to list of
    the prefix entry if that is up to date, and else from a forwarding
    record that counts for the prefix. *)
Theorem get_outbound_faces_no_echo h from pi k fid :
  wf_parents (nameprefix_tab h) →
  fid ∈ (get_outbound_faces h from pi k).2 →
  scope pi ≠ 0 ∧
  ∃ face npe,
    face_from_faceid h fid = Some face ∧ Some (face_slot face) ≠ from ∧
    (scope pi = 1 → flag_set (face_flags face) CCN_FACE_GG = true) ∧
    nameprefix_tab h !! k = Some npe ∧
    (fgen npe = forward_to_gen h → fid ∈ default [] (forward_to npe)) ∧
    (fgen npe ≠ forward_to_gen h → forwards_to h k fid).
Proof.
  intros Hwf. unfold get_outbound_faces.
  destruct (nameprefix_tab h !! k) as [npe|] eqn:Hk;
    [|by intros ?%elem_of_nil].
  (* the entry and its list when the loop runs *)
  assert (∀ h1 ft,
    (∀ f, face_from_faceid h1 f = face_from_faceid h f) →
    (∀ f, f ∈ ft →
       (fgen npe = forward_to_gen h → f ∈ default [] (forward_to npe)) ∧
       (fgen npe ≠ forward_to_gen h → forwards_to h k f)) →
    fid ∈ (if (scope pi =? 0) || (nelem ft =? 0) then (h1, [])
           else outbound_loop h1 from
                  (if scope pi =? 1 then CCN_FACE_GG else 0) (rev ft) []).2 →
    scope pi ≠ 0 ∧
    ∃ face npe0,
      face_from_faceid h fid = Some face ∧ Some (face_slot face) ≠ from ∧
      (scope pi = 1 → flag_set (face_flags face) CCN_FACE_GG = true) ∧
      Some npe = Some npe0 ∧
      (fgen npe0 = forward_to_gen h → fid ∈ default [] (forward_to npe0)) ∧
      (fgen npe0 ≠ forward_to_gen h → forwards_to h k fid)) as Hloop.
  { intros h1 ft Hfaces Hft.
    destruct (Z.eqb_spec (scope pi) 0) as [?|Hscope];
      [by intros ?%elem_of_nil|].
    destruct (nelem ft =? 0); [by intros ?%elem_of_nil|]. cbn [orb].
    destruct (outbound_loop_spec from
                (if scope pi =? 1 then CCN_FACE_GG else 0) (rev ft) h1 [])
      as (o & _ & Hin).
    intros [?%elem_of_nil|(Hrev & face & Hface & Hfrom & Hmask)]%Hin; [done|].
    split; [done|]. exists face, npe. rewrite <- Hfaces.
    split; [done|]. split; [done|]. split.
    - intros Hs1. rewrite (proj2 (Z.eqb_eq _ _) Hs1) in Hmask.
      unfold flag_set. rewrite Hmask. reflexivity.
    - split; [done|]. apply Hft. rewrite rev_alt in Hrev.
      change (fid ∈ reverse ft) in Hrev. by rewrite elem_of_reverse in Hrev. }
  destruct (Z.eqb_spec (fgen npe) (forward_to_gen h)) as [Hgen|Hgen];
    cbn [negb].
  - rewrite Hk. cbn [fmap option_fmap option_map].
    destruct (forward_to npe) as [ft|] eqn:Hft; [|by intros ?%elem_of_nil].
    apply Hloop; [done|]. intros f Hf. done.
  - destruct (update_forward_to_spec h k npe Hwf Hk) as (o & x & Hup & Hnd & Hin).
    rewrite Hup. unfold update_npe at 1. cbn [nameprefix_tab set_nameprefix_tab].
    rewrite lookup_alter_eq.
    change (nameprefix_tab (set_out o h)) with (nameprefix_tab h). rewrite Hk.
    cbn [fmap option_fmap option_map forward_to set_forward_to].
    destruct (nelem x =? 0); [by intros ?%elem_of_nil|].
    apply Hloop; [done|]. intros f Hf. split; [done|]. intros _. by apply Hin.
Qed.

End outbound.

(** An interest under /a/b/c from face 1 goes to face 2 only. *)
Lemma get_outbound_faces_no_echo_witness :
  let h := fib_example (L := example_lib no_canned) in
  let pi := parsed_interest 0 (-1) in
  (get_outbound_faces h (Some 1%nat) pi name_abc).2 = [2] ∧
  scope pi ≠ 0 ∧
  ∃ face npe,
    face_from_faceid h 2 = Some face ∧ Some (face_slot face) ≠ Some 1%nat ∧
    (scope pi = 1 → flag_set (face_flags face) CCN_FACE_GG = true) ∧
    nameprefix_tab h !! name_abc = Some npe ∧
    (fgen npe = forward_to_gen h → 2 ∈ default [] (forward_to npe)) ∧
    (fgen npe ≠ forward_to_gen h → forwards_to h name_abc 2).
Proof.
  cbv zeta. split; [vm_compute; reflexivity|].
  apply (get_outbound_faces_no_echo
           (fib_example (L := example_lib no_canned)) (Some 1%nat)
           (parsed_interest 0 (-1)) name_abc 2).
  - apply (bool_decide_unpack _). vm_compute. reflexivity.
  - replace (get_outbound_faces (fib_example (L := example_lib no_canned))
               (Some 1%nat) (parsed_interest 0 (-1)) name_abc).2
      with [2] by (vm_compute; reflexivity).
    by apply list_elem_of_singleton.
Defined.

(** * The content store as a frame *)

(** Rewriting to the store of the handle a function started from. *)
Ltac store_back :=
  match goal with
  | E : ?t = (?h2, _, _, _) |- context [store ?h2] =>
    is_var h2; replace h2 with (t.1.1.1) by (by rewrite E); clear E
  | E : ?t = (?h2, _, _) |- context [store ?h2] =>
    is_var h2; replace h2 with (t.1.1) by (by rewrite E); clear E
  | E : ?t = (?h2, _) |- context [store ?h2] =>
    is_var h2; replace h2 with (t.1) by (by rewrite E); clear E
  end.

Create Rewrite HintDb store.

Ltac store_step :=
  first
    [ progress cbn [fst snd]
    | progress autorewrite with store
    | match goal with
      | |- context [store (?f ?h)] => progress change (store (f h)) with (store h)
      end
    | store_back ].

Ltac store_hyp :=
  match goal with
  | H : context [store _ = store _] |- _ => rewrite H
  end.

Ltac store_case :=
  match goal with
  | |- context [match ?t with _ => _ end] => destruct t eqn:?
  end.

Ltac store_solve :=
  repeat first [store_case | store_step | store_hyp]; try reflexivity.

Section incoming.
Context `{L : ccn_lib} `{W : content_walk}.

Lemma store_emit_if mask o h : store (emit_if mask o h) = store h.
Proof. unfold emit_if. by destruct (flag_set _ _). Qed.
#[local] Hint Rewrite store_emit_if : store.

Lemma store_consume h k : store (consume h k) = store h.
Proof. unfold consume. store_solve. Qed.
#[local] Hint Rewrite store_consume : store.

Lemma store_randomize_content_delay h cq :
  store (randomize_content_delay h cq).1 = store h.
Proof. unfold randomize_content_delay. store_solve. Qed.
#[local] Hint Rewrite store_randomize_content_delay : store.

Lemma store_face_send_queue_insert h fp ck :
  store (face_send_queue_insert h fp ck).1 = store h.
Proof. unfold face_send_queue_insert. store_solve. Qed.
#[local] Hint Rewrite store_face_send_queue_insert : store.

Lemma store_consume_matching_loop ps : ∀ h ck msg fp m,
  store (consume_matching_loop h ps ck msg fp m).1 = store h.
Proof.
  induction ps as [|pk ps IH]; intros h ck msg fp m; [done|].
  cbn [consume_matching_loop]. store_solve.
Qed.
#[local] Hint Rewrite store_consume_matching_loop : store.

Lemma store_consume_matching_interests h n ck fp :
  store (consume_matching_interests h n ck fp).1 = store h.
Proof. unfold consume_matching_interests. store_solve. Qed.
#[local] Hint Rewrite store_consume_matching_interests : store.

Lemma store_match_interests_loop n : ∀ h ci ck msg cs fp from cm nm,
  store (match_interests_loop h n ci ck msg cs fp from cm nm).1 = store h.
Proof.
  induction n as [|n IH]; intros h ci ck msg cs fp from cm nm; [done|].
  cbn [match_interests_loop]. store_solve.
Qed.
#[local] Hint Rewrite store_match_interests_loop : store.

Lemma store_match_interests h ck fp from :
  store (match_interests h ck fp from).1 = store h.
Proof. unfold match_interests. store_solve. Qed.
#[local] Hint Rewrite store_match_interests : store.

Lemma store_fields h h' :
  store h' = store h →
  content_tab h' = content_tab h ∧
  content_by_accession h' = content_by_accession h ∧
  h_accession h' = h_accession h ∧ min_stale h' = min_stale h ∧
  max_stale h' = max_stale h ∧ capacity h' = capacity h.
Proof. unfold store. intros Hs. by injection Hs as -> -> -> -> -> ->. Qed.

End incoming.

(** * Queueing content for a face *)

Section queueing.
Context `{L : ccn_lib} `{W : content_walk}.

Lemma member_from_index x v : ∀ i j,
  0 ≤ i → ccn_indexbuf_member_from i x v = j → i ≤ j →
  x !! Z.to_nat (j - i) = Some v.
Proof.
  induction x as [|y x IH]; intros i j Hi; cbn [ccn_indexbuf_member_from].
  { intros <- ?. lia. }
  destruct (Z.eqb_spec y v) as [->|Hne].
  - intros <- _. by rewrite Z.sub_diag.
  - intros Hj Hij.
    destruct (member_from_spec x v (i + 1)) as [Hno|Hge]; [lia|].
    rewrite Hj in Hge.
    replace (Z.to_nat (j - i)) with (S (Z.to_nat (j - (i + 1)))) by lia.
    apply (IH (i + 1)); [lia|done|lia].
Qed.

Lemma member_index x v :
  0 ≤ ccn_indexbuf_member x v →
  x !! Z.to_nat (ccn_indexbuf_member x v) = Some v.
Proof.
  intros Hm. unfold ccn_indexbuf_member in *.
  pose proof (member_from_index x v 0 _ ltac:(lia) eq_refl Hm) as Hi.
  by rewrite Z.sub_0_r in Hi.
Qed.

Lemma member_present x v : v ∈ x → 0 ≤ ccn_indexbuf_member x v.
Proof.
  intros Hv. unfold ccn_indexbuf_member.
  destruct (member_from_spec x v 0) as [Hno|?]; [|done].
  pose proof (member_from_absent x v 0 ltac:(lia)) as Ha.
  rewrite Hno in Ha. cbn in Ha. symmetry in Ha.
  by apply bool_decide_eq_true in Ha.
Qed.

Lemma member_absent x v : ¬ 0 ≤ ccn_indexbuf_member x v → v ∉ x.
Proof. intros Hm Hv. by apply Hm, member_present. Qed.

(** The search of the other queues finds the accession number in a queue
    of another class, or it is in none of them. *)
Lemma other_queue_member_spec c acc qs : ∀ k,
  match other_queue_member qs k c acc with
  | Some ans =>
    0 ≤ ans ∧
    ∃ j cq, qs !! j = Some (Some cq) ∧ (k + j)%nat ≠ c ∧
            send_queue cq !! Z.to_nat ans = Some acc
  | None =>
    ∀ j cq, qs !! j = Some (Some cq) → (k + j)%nat ≠ c →
            acc ∉ send_queue cq
  end.
Proof.
  induction qs as [|oq qs IH]; intros k; cbn [other_queue_member].
  { intros j cq Hj. done. }
  assert (match other_queue_member qs (S k) c acc with
          | Some ans =>
            0 ≤ ans ∧
            ∃ j cq, (oq :: qs) !! j = Some (Some cq) ∧ (k + j)%nat ≠ c ∧
                    send_queue cq !! Z.to_nat ans = Some acc
          | None =>
            ∀ j cq, qs !! j = Some (Some cq) → (S k + j)%nat ≠ c →
                    acc ∉ send_queue cq
          end) as Hrest.
  { specialize (IH (S k)).
    destruct (other_queue_member qs (S k) c acc) as [ans|]; [|done].
    destruct IH as (Hans & j & cq & Hj & Hne & Hacc).
    split; [done|]. exists (S j), cq. split; [done|]. split; [lia|done]. }
  destruct oq as [cq|].
  - destruct (negb (k =? c)%nat && (ccn_indexbuf_member (send_queue cq) acc >=? 0))
      eqn:Hhere.
    + apply andb_true_iff in Hhere as [Hk Hm].
      apply negb_true_iff, Nat.eqb_neq in Hk. apply Z.geb_le in Hm.
      split; [done|]. exists O, cq. split; [done|]. split; [lia|].
      by apply member_index.
    + destruct (other_queue_member qs (S k) c acc) as [ans|]; [done|].
      intros [|j] cq' Hj Hne.
      * cbn in Hj. simplify_eq. rewrite Nat.add_0_r in Hne.
        apply andb_false_iff in Hhere as [Hk|Hm].
        -- apply negb_false_iff, Nat.eqb_eq in Hk. done.
        -- apply member_absent. rewrite Z.geb_leb in Hm.
           apply Z.leb_gt in Hm. lia.
      * apply (Hrest j); [done|lia].
  - destruct (other_queue_member qs (S k) c acc) as [ans|]; [done|].
    intros [|j] cq' Hj Hne; [done|]. apply (Hrest j); [done|lia].
Qed.

Lemma set_insert_cases x v :
  ccn_indexbuf_set_insert x v = x ∧ v ∈ x ∨
  ccn_indexbuf_set_insert x v = x ++ [v] ∧ v ∉ x.
Proof.
  unfold ccn_indexbuf_set_insert, ccn_indexbuf_append_element,
    ccn_indexbuf_member.
  rewrite member_from_absent by lia.
  case_bool_decide as Hv; [by right|left]. split; [done|].
  by destruct (decide (v ∈ x)).
Qed.

(** X25: face_send_queue_insert, for a face that can be sent to, puts the
    accession number of the content into a queue of the face and returns
    its index there; that queue has a sender scheduled.  A number that is
    already in one of the queues of the face is not queued again: every
    queue is as it was, or has the number added at its end when no queue of
    the face held it.  Queues that hold something keep their sender. *)
Theorem face_send_queue_insert_queues h p ck face content :
  face_at h p = Some face → face_slot face = p →
  content_tab h !! ck = Some content →
  flag_set (face_flags face) CCN_FACE_NOSEND = false →
  length (q face) = 3%nat →
  (∀ k cq, q face !! k = Some (Some cq) → send_queue cq ≠ [] →
     sender cq = true) →
  let acc := ce_accession content in
  let r := face_send_queue_insert h (Some p) (Some ck) in
  ∃ face',
    face_at r.1 p = Some face' ∧ content_tab r.1 = content_tab h ∧
    0 ≤ r.2 ∧
    (∃ k cq', q face' !! k = Some (Some cq') ∧
       send_queue cq' !! Z.to_nat r.2 = Some acc ∧ sender cq' = true) ∧
    ∀ k cq', q face' !! k = Some (Some cq') →
      (send_queue cq' ≠ [] → sender cq' = true) ∧
      let before := default [] (send_queue <$> mjoin (q face !! k)) in
      (send_queue cq' = before ∨
       send_queue cq' = before ++ [acc] ∧
       ∀ k2 cq2, q face !! k2 = Some (Some cq2) → acc ∉ send_queue cq2).
Proof.
  intros Hface Hslot Hck Hsend Hlen Hlive acc r. unfold r.
  unfold face_send_queue_insert.
  cbn [mbind option_bind]. rewrite Hface, Hck.
  cbn [fmap option_fmap option_map]. rewrite Hsend, Hslot. cbv zeta.
  set (c := choose_content_delay_class h (faceid face) (content_flags content)).
  set (ci := cq_index c).
  assert (ci < 3)%nat as Hci by (unfold ci; destruct c; cbn; lia).
  set (cq0 := default (content_queue_create h face c) (mjoin (q face !! ci))).
  fold acc.
  assert (default [] (send_queue <$> mjoin (q face !! ci)) = send_queue cq0 ∧
          (send_queue cq0 ≠ [] → sender cq0 = true) ∧
          ∀ cq, q face !! ci = Some (Some cq) → cq = cq0)
    as (Hbefore & Hlive0 & Hsame0).
  { unfold cq0. destruct (q face !! ci) as [[cq|]|] eqn:Hq; cbn.
    - split; [done|]. split; [by apply (Hlive ci)|]. by intros ? [= ->].
    - done.
    - done. }
  set (h1 := update_face p (λ f, set_q (<[ci := Some cq0]> (q f)) f) h).
  assert (face_at h1 p = Some (set_q (<[ci := Some cq0]> (q face)) face))
    as Hface1 by (unfold h1; by rewrite face_at_update_face, Hface).
  pose proof (other_queue_member_spec ci acc (q face) 0) as Hother.
  destruct (other_queue_member (q face) 0 ci acc) as [ans|].
  - (* the content is in another queue of the face *)
    destruct Hother as (Hans & j & cq & Hj & Hne & Hacc). cbn [fst snd].
    exists (set_q (<[ci := Some cq0]> (q face)) face).
    split; [unfold face_at; by rewrite emit_if_faces|].
    split; [by rewrite emit_if_content_tab|]. split; [done|].
    cbn [q set_q]. split.
    + exists j, cq. rewrite list_lookup_insert_ne by lia.
      split; [done|]. split; [done|]. apply (Hlive j); [done|].
      intros Hnil. by rewrite Hnil in Hacc.
    + intros k cq' Hk. destruct (decide (k = ci)) as [->|Hk'].
      * rewrite list_lookup_insert_eq in Hk by lia. injection Hk as <-.
        split; [done|]. cbv zeta. rewrite Hbefore. by left.
      * rewrite list_lookup_insert_ne in Hk by done.
        split; [by apply (Hlive k)|]. cbv zeta. rewrite Hk. by left.
  - (* it goes into the queue of its class *)
    set (sq := ccn_indexbuf_set_insert (send_queue cq0) acc).
    assert (acc ∈ sq) as Hin by (apply set_insert_elem; by right).
    pose proof (member_present _ _ Hin) as Hans.
    pose proof (member_index _ _ Hans) as Hidx.
    assert (∃ h2 cq2,
      (if sender (set_send_queue sq cq0)
       then (h1, set_send_queue sq cq0)
       else
         let '(h0, delay) :=
           randomize_content_delay h1 (set_send_queue sq cq0) in
         (emit_if 8
            (ccnd_msg "face %u q %d delay %d usec"
               [faceid face; Z.of_nat ci; delay])
            (ccn_schedule_event delay cb_content_sender [Z.of_nat ci]
               (faceid face) h0),
          set_sender true (set_cq_ready (nelem sq) (set_send_queue sq cq0))))
      = (h2, cq2) ∧
      faces_by_faceid h2 = faces_by_faceid h1 ∧
      content_tab h2 = content_tab h ∧
      send_queue cq2 = sq ∧ sender cq2 = true) as (h2 & cq2 & -> & Hf2 & Hc2
        & Hsq2 & Hsd2).
    { destruct (sender (set_send_queue sq cq0)) eqn:Hsd.
      - eexists _, _. split; [done|]. split; [done|]. split; [done|].
        split; [by destruct cq0|done].
      - pose proof (store_randomize_content_delay h1 (set_send_queue sq cq0))
          as Hst.
        destruct (randomize_content_delay_spec 0 h1 (set_send_queue sq cq0))
          as [_ (Hfr & _)].
        destruct (randomize_content_delay h1 (set_send_queue sq cq0))
          as [h0 delay].
        cbn [fst] in *. eexists _, _. split; [done|].
        rewrite emit_if_faces, emit_if_content_tab. cbn.
        split; [done|]. destruct (store_fields _ _ Hst) as (-> & _).
        split; [done|]. by destruct cq0. }
    cbn [fst snd].
    assert (face_at h2 p = Some (set_q (<[ci := Some cq0]> (q face)) face))
      as Hface2 by (unfold face_at in *; by rewrite Hf2).
    exists (set_q (<[ci := Some cq2]> (q face)) face).
    split.
    { rewrite face_at_update_face, Hface2. destruct face; cbn.
      by rewrite list_insert_insert_eq. }
    split; [done|]. split; [done|]. cbn [q set_q]. split.
    + exists ci, cq2. rewrite list_lookup_insert_eq by lia.
      split; [done|]. by rewrite Hsq2.
    + intros k cq' Hk. destruct (decide (k = ci)) as [->|Hk'].
      * rewrite list_lookup_insert_eq in Hk by lia. injection Hk as <-.
        split; [done|]. cbv zeta. rewrite Hbefore, Hsq2. unfold sq.
        destruct (set_insert_cases (send_queue cq0) acc) as [[-> _]|[-> Hno]];
          [by left|].
        right. split; [done|]. intros k2 cq3 Hk2.
        destruct (decide (k2 = ci)) as [->|Hk2'].
        -- by rewrite (Hsame0 _ Hk2).
        -- apply (Hother k2); [done|lia].
      * rewrite list_lookup_insert_ne in Hk by done.
        split; [by apply (Hlive k)|]. cbv zeta. rewrite Hk. by left.
Qed.

End queueing.

(** The first content entry is queued for face 2, which has no queue yet. *)
Lemma face_send_queue_insert_queues_witness :
  let h := stored_two (L := example_lib no_canned) in
  let face := default face0 (face_at h 2) in
  let r :=
    face_send_queue_insert (L := example_lib no_canned) h (Some 2%nat)
      (Some [7]) in
  r.2 = 0 ∧
  ∃ face',
    face_at r.1 2 = Some face' ∧ content_tab r.1 = content_tab h ∧
    0 ≤ r.2 ∧
    (∃ k cq', q face' !! k = Some (Some cq') ∧
       send_queue cq' !! Z.to_nat r.2 = Some 1 ∧ sender cq' = true) ∧
    ∀ k cq', q face' !! k = Some (Some cq') →
      (send_queue cq' ≠ [] → sender cq' = true) ∧
      let before := default [] (send_queue <$> mjoin (q face !! k)) in
      (send_queue cq' = before ∨
       send_queue cq' = before ++ [1] ∧
       ∀ k2 cq2, q face !! k2 = Some (Some cq2) → 1 ∉ send_queue cq2).
Proof.
  cbv zeta. split; [vm_compute; reflexivity|].
  assert (q (default face0 (face_at (stored_two (L := example_lib no_canned)) 2))
          = [None; None; None]) as Hq by (vm_compute; reflexivity).
  apply (face_send_queue_insert_queues (L := example_lib no_canned)
           (stored_two (L := example_lib no_canned)) 2 [7]
           (default face0 (face_at (stored_two (L := example_lib no_canned)) 2))
           (mk_content_entry 1 (Some [0; 1]) 2 0 1 2 [8])).
  - vm_compute. reflexivity.
  - vm_compute. reflexivity.
  - vm_compute. reflexivity.
  - vm_compute. reflexivity.
  - by rewrite Hq.
  - intros k cq Hk. rewrite Hq in Hk. by destruct k as [|[|[|k]]].
Defined.

(** * Content against the pending interests of a prefix *)

Section matching.
Context `{L : ccn_lib} `{W : content_walk}.

Lemma face_ids_update_face p g h :
  (∀ f, faceid (g f) = faceid f) →
  face_ids (update_face p g h) = face_ids h.
Proof.
  intros Hg. unfold face_ids, update_face. cbn. apply list_eq. intros i.
  rewrite !list_lookup_fmap. destruct (decide (i = p)) as [->|Hne].
  - rewrite list_lookup_alter_eq.
    destruct (faces_by_faceid h !! p) as [[f|]|]; cbn; [|done..].
    by rewrite Hg.
  - by rewrite list_lookup_alter_ne.
Qed.

Lemma face_ids_emit_if mask o h : face_ids (emit_if mask o h) = face_ids h.
Proof. unfold face_ids. by rewrite emit_if_faces. Qed.

Lemma face_ids_update_pe k g h : face_ids (update_pe k g h) = face_ids h.
Proof. done. Qed.

Lemma face_ids_update_npe k g h : face_ids (update_npe k g h) = face_ids h.
Proof. done. Qed.

Lemma face_ids_consume h k : face_ids (consume h k) = face_ids h.
Proof.
  unfold consume. destruct (propagating_tab h !! k) as [pe|]; [|done].
  cbv zeta.
  destruct (interest_msg pe) as [m|], (pe_link pe) as [n|];
    try destruct (face_from_faceid _ _) as [f|];
    by rewrite ?face_ids_update_pe, ?face_ids_update_npe,
      ?face_ids_update_face, ?face_ids_update_pe.
Qed.

Lemma face_ids_face_send_queue_insert h fp ck :
  face_ids (face_send_queue_insert h fp ck).1 = face_ids h.
Proof.
  unfold face_ids.
  pose proof (views_face_send_queue_insert h fp ck) as Hv.
  unfold views, face_view in Hv. injection Hv as _ Hv _ _.
  apply list_eq. intros i. rewrite !list_lookup_fmap.
  apply (f_equal (λ l, l !! i)) in Hv. rewrite !list_lookup_fmap in Hv.
  destruct (faces_by_faceid _ !! i) as [[f|]|],
    (faces_by_faceid h !! i) as [[g|]|]; cbn in *; try done.
  unfold face_sight in Hv. injection Hv as -> _ _. done.
Qed.

Lemma face_ids_found h h' fid :
  face_ids h' = face_ids h →
  is_Some (face_from_faceid h' fid) ↔ is_Some (face_from_faceid h fid).
Proof.
  intros Hids.
  assert (∀ h, is_Some (face_from_faceid h fid) ↔
               face_ids h !! Z.to_nat (Z.land fid MAXFACES) = Some (Some fid))
    as Hchar.
  { intros h0. unfold face_ids. rewrite list_lookup_fmap. split.
    - intros [f Hf]. apply face_from_faceid_slot in Hf as [-> <-]. done.
    - intros Hf.
      destruct (faces_by_faceid h0 !! _) as [[f|]|] eqn:Hs; cbn in Hf;
        simplify_eq.
      exists f. by apply face_from_faceid_slot. }
  by rewrite !Hchar, Hids.
Qed.

Lemma face_ids_at h h' p :
  face_ids h' = face_ids h →
  faceid <$> face_at h' p = faceid <$> face_at h p.
Proof.
  intros Hids. apply (f_equal (λ l, l !! p)) in Hids. unfold face_ids in Hids.
  rewrite !list_lookup_fmap in Hids. unfold face_at.
  destruct (faces_by_faceid h' !! p) as [[f|]|],
    (faces_by_faceid h !! p) as [[g|]|]; cbn in *; congruence.
Qed.

Lemma propagating_tab_randomize h cq :
  propagating_tab (randomize_content_delay h cq).1 = propagating_tab h.
Proof.
  unfold randomize_content_delay.
  repeat match goal with
         | |- context [match ?t with _ => _ end] => destruct t eqn:?
         end; reflexivity.
Qed.

Lemma propagating_tab_face_send_queue_insert h fp ck :
  propagating_tab (face_send_queue_insert h fp ck).1 = propagating_tab h.
Proof.
  unfold face_send_queue_insert.
  destruct (fp ≫= face_at h) as [face|]; [|done].
  destruct (ck ≫= _) as [[k content]|]; [|done].
  destruct (flag_set _ _); [done|]. cbv zeta.
  destruct (other_queue_member _ _ _ _) as [ans|].
  { cbn [fst]. by rewrite emit_if_propagating_tab. }
  destruct (sender _); [done|].
  match goal with |- context [randomize_content_delay ?h1 ?cq] =>
    pose proof (propagating_tab_randomize h1 cq) as Hr;
    destruct (randomize_content_delay h1 cq) as [h0 delay]
  end.
  cbn [fst] in *. change (propagating_tab (update_face ?p ?g ?h2))
    with (propagating_tab h2).
  by rewrite emit_if_propagating_tab.
Qed.

Lemma wants_stable h h' fp msg pk :
  face_ids h' = face_ids h →
  propagating_tab h' !! pk = propagating_tab h !! pk →
  wants h' fp msg pk = wants h fp msg pk.
Proof.
  intros Hids Hpk. unfold wants. rewrite Hpk.
  destruct (propagating_tab h !! pk) as [p|]; [|done].
  destruct (interest_msg p) as [imsg|]; [|done]. f_equal.
  destruct fp as [fp'|].
  - pose proof (face_ids_at h h' fp' Hids) as Hat.
    destruct (face_at h' fp') as [f|], (face_at h fp') as [g|]; cbn in Hat;
      congruence.
  - apply bool_decide_ext. by apply face_ids_found.
Qed.

Lemma filter_ext_in {A} (P Q : A → Prop) `{∀ x, Decision (P x)}
    `{∀ x, Decision (Q x)} (l : list A) :
  (∀ x, x ∈ l → P x ↔ Q x) → filter P l = filter Q l.
Proof.
  induction l as [|a l IH]; intros Hl; [done|].
  assert (filter P l = filter Q l) as Hrec.
  { apply IH. intros x Hx. apply Hl. by right. }
  destruct (decide (P a)) as [Hp|Hp].
  - rewrite !filter_cons_True; [by rewrite Hrec| |done].
    apply Hl; [by left|done].
  - rewrite !filter_cons_False; [done| |done].
    intros Hq. apply Hp. apply Hl; [by left|done].
Qed.

(** One round of the loop for an entry that the content satisfies. *)
Lemma consume_round h ck pk f imsg :
  let h1 :=
    consume
      (emit_if (Z.lor 16 8)
         (ccnd_debug_ccnb 1155 "consume"
            (faceid <$> face_at (face_send_queue_insert h (Some f) (Some ck)).1 f)
            imsg)
         (face_send_queue_insert h (Some f) (Some ck)).1) pk in
  face_ids h1 = face_ids h ∧
  propagating_tab h1 !! pk = consumed <$> propagating_tab h !! pk ∧
  ∀ k, k ≠ pk → propagating_tab h1 !! k = propagating_tab h !! k.
Proof.
  cbv zeta. set (h0 := (face_send_queue_insert h (Some f) (Some ck)).1).
  assert (propagating_tab (emit_if (Z.lor 16 8)
            (ccnd_debug_ccnb 1155 "consume" (faceid <$> face_at h0 f) imsg) h0)
          = propagating_tab h) as Htab
    by (rewrite emit_if_propagating_tab;
        apply propagating_tab_face_send_queue_insert).
  split; [|split].
  - rewrite face_ids_consume, face_ids_emit_if.
    apply face_ids_face_send_queue_insert.
  - destruct (propagating_tab h !! pk) as [p|] eqn:Hp.
    + rewrite (consume_entry _ _ p); [done|]. by rewrite Htab.
    + unfold consume. rewrite Htab, Hp. by rewrite Htab.
  - intros k Hne. rewrite consume_other by done. by rewrite Htab.
Qed.

(** The loop of consume_matching_interests. *)
Lemma consume_matching_loop_spec ck msg fp ps : ∀ h m,
  let r := consume_matching_loop h ps ck msg fp m in
  face_ids r.1 = face_ids h ∧
  (∀ pk, propagating_tab r.1 !! pk
         = if decide (pk ∈ ps ∧ wants h fp msg pk = true)
           then consumed <$> propagating_tab h !! pk
           else propagating_tab h !! pk) ∧
  (NoDup ps →
   r.2 = m + Z.of_nat (length (filter (λ pk, wants h fp msg pk = true) ps))).
Proof.
  induction ps as [|pk0 ps IH]; intros h m; cbv zeta.
  { cbn. split; [done|]. split; [|lia]. intros pk.
    rewrite decide_False; [done|]. intros [Hin _]. by apply elem_of_nil in Hin. }
  (* the entry is passed over *)
  assert (wants h fp msg pk0 = false →
    let r := consume_matching_loop h ps ck msg fp m in
    face_ids r.1 = face_ids h ∧
    (∀ pk, propagating_tab r.1 !! pk
           = if decide (pk ∈ pk0 :: ps ∧ wants h fp msg pk = true)
             then consumed <$> propagating_tab h !! pk
             else propagating_tab h !! pk) ∧
    (NoDup (pk0 :: ps) →
     r.2 = m + Z.of_nat (length (filter (λ pk, wants h fp msg pk = true)
                                   (pk0 :: ps))))) as Hskip.
  { intros Hno. cbv zeta. destruct (IH h m) as (Hids & Htab & Hcount).
    split; [done|]. split.
    - intros pk. rewrite Htab. apply decide_ext. split.
      + intros [? ?]. split; [by right|done].
      + intros [[->|?]%elem_of_cons ?]; [congruence|done].
    - intros [_ Hnd]%NoDup_cons. rewrite (Hcount Hnd).
      rewrite filter_cons_False; [done|]. by rewrite Hno. }
  (* the entry is consumed *)
  assert (∀ f imsg, wants h fp msg pk0 = true →
    let h1 :=
      consume
        (emit_if (Z.lor 16 8)
           (ccnd_debug_ccnb 1155 "consume"
              (faceid <$> face_at (face_send_queue_insert h (Some f) (Some ck)).1 f)
              imsg)
           (face_send_queue_insert h (Some f) (Some ck)).1) pk0 in
    let r := consume_matching_loop h1 ps ck msg fp (m + 1) in
    face_ids r.1 = face_ids h ∧
    (∀ pk, propagating_tab r.1 !! pk
           = if decide (pk ∈ pk0 :: ps ∧ wants h fp msg pk = true)
             then consumed <$> propagating_tab h !! pk
             else propagating_tab h !! pk) ∧
    (NoDup (pk0 :: ps) →
     r.2 = m + Z.of_nat (length (filter (λ pk, wants h fp msg pk = true)
                                   (pk0 :: ps))))) as Htake.
  { intros f imsg Hyes. cbv zeta.
    destruct (consume_round h ck pk0 f imsg) as (Hids1 & Hself & Hother).
    cbv zeta in Hids1, Hself, Hother.
    set (h1 := consume _ pk0) in *.
    destruct (IH h1 (m + 1)) as (Hids & Htab & Hcount).
    assert (wants h1 fp msg pk0 = false) as Hgone.
    { unfold wants. rewrite Hself.
      destruct (propagating_tab h !! pk0) as [p|]; [|done]. done. }
    assert (∀ k, k ≠ pk0 → wants h1 fp msg k = wants h fp msg k) as Hstable.
    { intros k Hne. apply wants_stable; [done|by apply Hother]. }
    split; [congruence|]. split.
    - intros pk. rewrite Htab. destruct (decide (pk = pk0)) as [->|Hne].
      + rewrite decide_False by (intros [_ ?]; congruence).
        rewrite decide_True; [done|]. split; [by left|done].
      + rewrite Hstable, Hother by done. apply decide_ext. split.
        * intros [? ?]. split; [by right|done].
        * intros [[->|?]%elem_of_cons ?]; done.
    - intros [Hnew Hnd]%NoDup_cons. rewrite (Hcount Hnd).
      rewrite filter_cons_True by done. cbn [length].
      rewrite (filter_ext_in (λ pk, wants h1 fp msg pk = true)
                 (λ pk, wants h fp msg pk = true) ps); [lia|].
      intros k Hk. rewrite Hstable; [done|]. by intros ->. }
  assert (wants h fp msg pk0 = wants h fp msg pk0) as Hw by done.
  unfold wants at 2 in Hw. revert Hw. cbn [consume_matching_loop].
  destruct (propagating_tab h !! pk0) as [p|]; [|by intros Hw; apply Hskip].
  destruct (interest_msg p) as [imsg|].
  2:{ intros Hw.
      destruct fp as [fp'|]; [destruct (face_at h fp')|]; by apply Hskip. }
  destruct fp as [fp'|].
  - destruct (face_at h fp') as [face|]; [|by intros Hw; apply Hskip].
    destruct (pe_faceid p =? faceid face); [|by intros Hw; apply Hskip].
    cbn [andb].
    destruct (ccn_content_matches_interest msg imsg); intros Hw;
      [|by apply Hskip].
    generalize (Htake fp' imsg Hw). cbv zeta.
    by destruct (face_send_queue_insert h (Some fp') (Some ck)).
  - destruct (face_from_faceid h (pe_faceid p)) as [face|] eqn:Hface.
    + rewrite bool_decide_eq_true_2 by eauto.
      cbn [fmap option_fmap option_map andb].
      destruct (ccn_content_matches_interest msg imsg); intros Hw;
        [|by apply Hskip].
      generalize (Htake (face_slot face) imsg Hw). cbv zeta.
      by destruct (face_send_queue_insert h (Some (face_slot face)) (Some ck)).
    + rewrite bool_decide_eq_false_2 by (by intros [? ?]).
      cbn [fmap option_fmap option_map andb]. intros Hw. by apply Hskip.
Qed.

(** X26: consume_matching_interests consumes every pending interest on the
    list of the prefix that the content matches and whose face exists (with
    a face given: that comes from this face): afterwards each of them has
    no message and no outbound faces, the entries that are not on the list
    or are not matched are unchanged, and no face has come or gone.  The
    result is the number of the entries consumed. *)
Theorem consume_matching_interests_consumes h n ck fp npe content ps :
  nameprefix_tab h !! n = Some npe →
  content_tab h !! ck = Some content →
  propagating_head npe = Some ps →
  let msg := ck ++ extdata content in
  let r := consume_matching_interests h n ck fp in
  (∀ pk, propagating_tab r.1 !! pk
         = if decide (pk ∈ ps ∧ wants h fp msg pk = true)
           then consumed <$> propagating_tab h !! pk
           else propagating_tab h !! pk) ∧
  face_ids r.1 = face_ids h ∧
  (NoDup ps →
   r.2 = Z.of_nat (length (filter (λ pk, wants h fp msg pk = true) ps))).
Proof.
  intros Hn Hck Hps. cbv zeta. unfold consume_matching_interests.
  rewrite Hn, Hck, Hps.
  destruct (consume_matching_loop_spec ck (ck ++ extdata content) fp ps h 0)
    as (Hids & Htab & Hcount).
  split; [done|]. split; [done|]. intros Hnd. by rewrite (Hcount Hnd).
Qed.

(** A consumed entry is wanted no more. *)
Lemma consumed_not_wanted h fp msg pk (o : option propagating_entry) :
  propagating_tab h !! pk = consumed <$> o → wants h fp msg pk = false.
Proof.
  intros Hpk. unfold wants. rewrite Hpk. by destruct o.
Qed.

(** consume_matching_interests for any prefix and any content: the entries
    are as they were, or were wanted and are consumed. *)
Lemma consume_matching_interests_only h n ck fp content :
  content_tab h !! ck = Some content →
  let r := consume_matching_interests h n ck fp in
  face_ids r.1 = face_ids h ∧
  ∀ pk, propagating_tab r.1 !! pk = propagating_tab h !! pk ∨
        wants h fp (ck ++ extdata content) pk = true ∧
        propagating_tab r.1 !! pk = consumed <$> propagating_tab h !! pk.
Proof.
  intros Hck. cbv zeta. unfold consume_matching_interests. rewrite Hck.
  destruct (nameprefix_tab h !! n) as [npe|]; [|by split; [|left]].
  destruct (propagating_head npe) as [ps|]; [|by split; [|left]].
  destruct (consume_matching_loop_spec ck (ck ++ extdata content) fp ps h 0)
    as (Hids & Htab & _).
  split; [done|]. intros pk. rewrite Htab.
  destruct (decide _) as [[_ Hw]|_]; [by right|by left].
Qed.

(** The loop of match_interests. *)
Lemma match_interests_loop_only ck content msg cs fp from n :
  msg = ck ++ extdata content →
  ∀ h ci cm nm,
  content_tab h !! ck = Some content →
  let r := match_interests_loop h n ci ck msg cs fp from cm nm in
  face_ids r.1 = face_ids h ∧
  ∀ pk, propagating_tab r.1 !! pk = propagating_tab h !! pk ∨
        wants h fp msg pk = true ∧
        propagating_tab r.1 !! pk = consumed <$> propagating_tab h !! pk.
Proof.
  intros ->. induction n as [|n IH]; intros h ci cm nm Hck; cbv zeta.
  { split; [done|]. by left. }
  cbn [match_interests_loop]. cbv zeta.
  set (k := subbytes (ck ++ extdata content) (buf cs 0) (buf cs ci)).
  destruct (nameprefix_tab h !! k) as [npe|]; [|by apply IH].
  destruct (consume_matching_interests_only h k ck fp content Hck)
    as (Hids1 & Htab1).
  pose proof (store_consume_matching_interests h k ck fp) as Hst1.
  destruct (consume_matching_interests h k ck fp) as [h1 new_matches].
  cbn [fst] in Hids1, Htab1, Hst1.
  set (h2 := match from ≫= face_at h1 with
             | Some ff =>
               if negb (new_matches =? 0) || (ci + 1 =? cm)
               then update_npe k (λ npe, note_content_from npe (faceid ff)) h1
               else h1
             | None => h1
             end).
  assert (face_ids h2 = face_ids h1 ∧
          propagating_tab h2 = propagating_tab h1 ∧
          content_tab h2 = content_tab h1) as (Hids2 & Htab2 & Hct2).
  { unfold h2. destruct (from ≫= face_at h1) as [ff|]; [|done].
    by destruct (_ || _). }
  assert (content_tab h2 !! ck = Some content) as Hck2.
  { rewrite Hct2. destruct (store_fields _ _ Hst1) as (-> & _). done. }
  assert (∀ ci' cm' nm',
    let r := match_interests_loop h2 n ci' ck (ck ++ extdata content) cs fp
               from cm' nm' in
    face_ids r.1 = face_ids h ∧
    ∀ pk, propagating_tab r.1 !! pk = propagating_tab h !! pk ∨
          wants h fp (ck ++ extdata content) pk = true ∧
          propagating_tab r.1 !! pk = consumed <$> propagating_tab h !! pk)
    as Hrest.
  { intros ci' cm' nm'. cbv zeta.
    destruct (IH h2 ci' cm' nm' Hck2) as (Hids & Htab).
    split; [congruence|]. intros pk.
    destruct (Htab1 pk) as [Hsame|[Hw Hcons]].
    - destruct (Htab pk) as [Hsame2|[Hw2 Hcons2]].
      + left. congruence.
      + right. rewrite <- Hsame, <- Htab2. split; [|done].
        rewrite <- Hw2. symmetry. apply wants_stable; congruence.
    - destruct (Htab pk) as [Hsame2|[Hw2 _]].
      + right. split; [done|]. congruence.
      + rewrite (consumed_not_wanted h2 fp _ pk (propagating_tab h !! pk))
          in Hw2 by congruence.
        discriminate. }
  fold h2. destruct (negb (new_matches =? 0)); apply Hrest.
Qed.

(** X24: match_interests consumes pending interests only where the content
    matches them and their face exists (with a face given: where they come
    from this face): every entry of the pending interest table is as it
    was, or was such an interest and is consumed.  No face comes or goes,
    and the content store (the entries, their index by accession number,
    the accession counter, the stale window and the capacity) is as it
    was. *)
Theorem match_interests_only_matching h ck fp from content :
  content_tab h !! ck = Some content →
  let msg := ck ++ extdata content in
  let r := match_interests h ck fp from in
  (∀ pk, propagating_tab r.1 !! pk = propagating_tab h !! pk ∨
         wants h fp msg pk = true ∧
         propagating_tab r.1 !! pk = consumed <$> propagating_tab h !! pk) ∧
  face_ids r.1 = face_ids h ∧
  store r.1 = store h.
Proof.
  intros Hck. cbv zeta. split; [|split].
  - unfold match_interests. rewrite Hck.
    by apply (match_interests_loop_only ck content).
  - unfold match_interests. rewrite Hck.
    by apply (match_interests_loop_only ck content).
  - apply store_match_interests.
Qed.

End matching.

Lemma consume_matching_interests_consumes_witness :
  let h := pending_and_stored in
  let r := consume_matching_interests (L := answering_lib) h [] [7] None in
  r.2 = 1 ∧
  (interest_msg <$> propagating_tab r.1 !! [99]) = Some None ∧
  (∀ pk, propagating_tab r.1 !! pk
         = if decide (pk ∈ [ [99] ] ∧
                      wants (L := answering_lib) h None [7; 8] pk = true)
           then consumed <$> propagating_tab h !! pk
           else propagating_tab h !! pk) ∧
  face_ids r.1 = face_ids h ∧
  (NoDup [ [99] ] →
   r.2 = Z.of_nat (length (filter
           (λ pk, wants (L := answering_lib) h None [7; 8] pk = true)
           [ [99] ]))).
Proof.
  cbv zeta. split; [vm_compute; reflexivity|].
  split; [vm_compute; reflexivity|].
  destruct (nameprefix_tab pending_and_stored !! []) as [npe|] eqn:Hn;
    [|vm_compute in Hn; discriminate].
  apply (consume_matching_interests_consumes (L := answering_lib)
           pending_and_stored [] [7] None npe
           (mk_content_entry 1 (Some [0]) 1 0 1 2 [8]) [ [99] ]).
  - exact Hn.
  - vm_compute. reflexivity.
  - vm_compute in Hn. injection Hn as <-. reflexivity.
Defined.

(** The content in the store is matched against the pending interests: the
    interest of the local client is consumed. *)
Lemma match_interests_only_matching_witness :
  let h := pending_and_stored in
  let r := match_interests (L := answering_lib) h [7] None None in
  r.2 = 1 ∧
  (interest_msg <$> propagating_tab r.1 !! [99]) = Some None ∧
  (∀ pk, propagating_tab r.1 !! pk = propagating_tab h !! pk ∨
         wants (L := answering_lib) h None [7; 8] pk = true ∧
         propagating_tab r.1 !! pk = consumed <$> propagating_tab h !! pk) ∧
  face_ids r.1 = face_ids h ∧
  store r.1 = store h.
Proof.
  cbv zeta. split; [vm_compute; reflexivity|].
  split; [vm_compute; reflexivity|].
  apply (match_interests_only_matching (L := answering_lib)
           pending_and_stored [7] None None
           (mk_content_entry 1 (Some [0]) 1 0 1 2 [8])).
  vm_compute. reflexivity.
Defined.

(** * Stuffing interests into a packet *)

Section stuffing.
Context `{L : ccn_lib}.

Lemma thinned_refl h : thinned h h.
Proof. intros pk p Hp. exists p. repeat split; eauto. Qed.

Lemma thinned_trans h1 h2 h3 : thinned h1 h2 → thinned h2 h3 → thinned h1 h3.
Proof.
  intros H12 H23 pk p3 Hp3.
  destruct (H23 pk p3 Hp3) as (p2 & Hp2 & Hm2 & Hs2 & Ho2).
  destruct (H12 pk p2 Hp2) as (p1 & Hp1 & Hm1 & Hs1 & Ho1).
  exists p1. repeat split; [done|congruence|congruence|].
  intros ob3 Hob3. destruct (Ho2 ob3 Hob3) as (ob2 & Hob2 & Hsub2).
  destruct (Ho1 ob2 Hob2) as (ob1 & Hob1 & Hsub1).
  exists ob1. split; [done|]. set_solver.
Qed.

Lemma thinned_sized h h' : thinned h h' → sized h → sized h'.
Proof.
  intros Ht Hs pk p' m Hp' Hm.
  destruct (Ht pk p' Hp') as (p & Hp & Hmsg & Hsize & _).
  rewrite Hsize. apply (Hs pk p m Hp). congruence.
Qed.

Lemma thinned_bound h h' fid m :
  thinned h h' → bound_for h' fid m → bound_for h fid m.
Proof.
  intros Ht (pk & p' & ob' & Hp' & Hm & Hob' & Hin).
  destruct (Ht pk p' Hp') as (p & Hp & Hmsg & _ & Hout).
  destruct (Hout ob' Hob') as (ob & Hob & Hsub).
  exists pk, p, ob. repeat split; [done|congruence|done|by apply Hsub].
Qed.

(** Taking a face out of the outbound set of one entry. *)
Lemma thinned_remove h pk p ob fid flags mask o :
  propagating_tab h !! pk = Some p → outbound p = Some ob →
  thinned h
    (emit_if mask o
       (update_pe pk (λ p,
          set_pe_flags flags
            (set_outbound
               (Some (fst (ccn_indexbuf_remove_first_match ob fid))) p)) h)).
Proof.
  intros Hp Hob k p' Hp'. rewrite emit_if_propagating_tab in Hp'.
  unfold update_pe in Hp'. cbn in Hp'.
  destruct (decide (k = pk)) as [->|Hne].
  - rewrite lookup_alter_eq, Hp in Hp'. cbn in Hp'. injection Hp' as <-.
    exists p. repeat split; [done|].
    intros ob' Hob'. cbn in Hob'. injection Hob' as <-.
    exists ob. split; [done|]. intros x Hx.
    by apply list_elem_of_filter in Hx as [_ ?].
  - rewrite lookup_alter_ne in Hp' by done. by apply thinned_refl.
Qed.

(** The interests of one prefix: none is stuffed, or one that fits. *)
Lemma stuff_prefix_spec face ps : ∀ h c rs,
  sized h →
  let r := stuff_prefix h face ps c rs in
  thinned h r.1.1.1 ∧
  (r.2 = 0 ∧ r.1.1.2 = c ∧ r.1.2 = rs ∨
   r.2 = 1 ∧ ∃ m, bound_for h (faceid face) m ∧ r.1.1.2 = c ++ m ∧
                  r.1.2 = rs - nelem m ∧ nelem m ≤ rs).
Proof.
  induction ps as [|pk ps IH]; intros h c rs Hs; cbv zeta.
  { split; [apply thinned_refl|by left]. }
  cbn [stuff_prefix].
  destruct (propagating_tab h !! pk) as [p|] eqn:Hp; [|by apply IH].
  destruct (outbound p) as [ob|] eqn:Hob; [|by apply IH].
  destruct (interest_msg p) as [imsg|] eqn:Hm; [|by apply IH].
  match goal with |- context [if ?b then _ else _] => destruct b eqn:Hb end;
    [|by apply IH].
  cbn [fst snd].
  apply andb_prop in Hb as [Hb Hmem]. apply andb_prop in Hb as [Hb _].
  apply andb_prop in Hb as [Hb _]. apply andb_prop in Hb as [_ Hfit].
  apply Z.leb_le in Hfit. rewrite (Hs pk p imsg Hp Hm) in *.
  split; [by eapply thinned_remove|]. right. split; [done|].
  exists imsg. repeat split; [|done].
  exists pk, p, ob. repeat split; [done..|].
  apply negb_true_iff, Z.eqb_neq in Hmem. cbn in Hmem.
  destruct (decide (faceid face ∈ ob)) as [?|Hno]; [done|].
  exfalso. apply Hmem.
  pose proof (member_from_absent ob (faceid face) 0 ltac:(lia)) as Ha.
  rewrite bool_decide_eq_true_2 in Ha by done. by apply Z.eqb_eq in Ha.
Qed.

(** The loop over the prefixes. *)
Lemma stuff_prefixes_spec face ns : ∀ h c rs k,
  sized h →
  let r := stuff_prefixes h face ns c rs k in
  thinned h r.1.1 ∧
  ∃ msgs, r.1.2 = c ++ concat msgs ∧ r.2 = k + Z.of_nat (length msgs) ∧
          (msgs = [] ∨ nelem (concat msgs) ≤ rs) ∧
          Forall (bound_for h (faceid face)) msgs.
Proof.
  induction ns as [|n ns IH]; intros h c rs k Hs; cbv zeta.
  { split; [apply thinned_refl|]. exists []. cbn.
    rewrite app_nil_r. repeat split; [lia|by left|done]. }
  cbn [stuff_prefixes].
  destruct (rs >=? 20) eqn:Hrs.
  2:{ split; [apply thinned_refl|]. exists []. cbn.
      rewrite app_nil_r. repeat split; [lia|by left|done]. }
  destruct (nameprefix_tab h !! n ≫= propagating_head) as [ps|];
    [|by apply IH].
  pose proof (stuff_prefix_spec face (rev ps) h c rs Hs) as Hone.
  destruct (stuff_prefix h face (rev ps) c rs) as [[[h1 c1] rs1] k1].
  cbn in Hone. destruct Hone as [Hthin Hone].
  destruct (IH h1 c1 rs1 (k + k1) (thinned_sized _ _ Hthin Hs))
    as (Hthin' & msgs & Hc & Hk & Hfit & Hall).
  split; [by eapply thinned_trans|].
  assert (Forall (bound_for h (faceid face)) msgs) as Hall'.
  { eapply Forall_impl; [exact Hall|]. intros m. by apply thinned_bound. }
  destruct Hone as [(-> & -> & ->)|(-> & m & Hm & -> & -> & Hle)].
  - exists msgs. repeat split; [done|lia|done|done].
  - exists (m :: msgs). cbn [concat]. repeat split.
    + by rewrite Hc, app_assoc.
    + rewrite Hk. unfold nelem. cbn [length]. lia.
    + right. unfold nelem in *. rewrite length_app.
      destruct Hfit as [->|Hfit]; cbn [concat length]; lia.
    + by constructor.
Qed.

(** What ccn_stuff_interest appends. *)
Lemma ccn_stuff_interest_spec h face c :
  sized h →
  let r := ccn_stuff_interest h face c in
  ∃ msgs,
    r.1.2 = c ++ concat msgs ∧ r.2 = Z.of_nat (length msgs) ∧
    Forall (bound_for h (faceid face)) msgs ∧
    (msgs ≠ [] → nelem r.1.2 ≤ mtu h ∧ faceid face ≠ 0) ∧
    thinned h r.1.1.
Proof.
  intros Hs. cbv zeta. unfold ccn_stuff_interest.
  destruct (_ || _) eqn:Hb.
  { exists []. cbn. rewrite app_nil_r.
    split; [done|]. split; [done|]. split; [done|].
    split; [done|apply thinned_refl]. }
  apply orb_false_elim in Hb as [_ Hface]. apply Z.eqb_neq in Hface.
  destruct (stuff_prefixes_spec face (map_to_list (nameprefix_tab h)).*1 h c
              (mtu h - nelem c) 0 Hs) as (Hthin & msgs & Hc & Hk & Hfit & Hall).
  exists msgs. split; [done|]. split; [lia|]. split; [done|].
  split; [|done].
  intros Hne. destruct Hfit as [->|Hfit]; [done|]. split; [|done].
  rewrite Hc. unfold nelem in *. rewrite length_app. lia.
Qed.

(** X27: ccn_stuff_interest only appends to the packet, and what it
    appends are whole messages of pending interests that were still to go
    to this face; the result is the number of messages appended.  When it
    appends anything the packet stays within h->mtu, and the face is not
    face0.  The pending interests keep their messages; outbound faces are
    only taken out.  (pe->size is the size of the message.) *)
Theorem ccn_stuff_interest_fits h face c :
  sized h →
  let r := ccn_stuff_interest h face c in
  ∃ msgs,
    r.1.2 = c ++ concat msgs ∧ r.2 = Z.of_nat (length msgs) ∧
    Forall (bound_for h (faceid face)) msgs ∧
    (msgs ≠ [] → nelem r.1.2 ≤ mtu h ∧ faceid face ≠ 0) ∧
    thinned h r.1.1.
Proof. exact (ccn_stuff_interest_spec h face c). Qed.

(** X28: stuff_and_send ends with one call of do_write, for the face it
    was given, and writes nothing before it.  The packet handed to do_write
    is the data followed by whole messages of pending interests that were
    still to go to this face; on a CCN_FACE_LINK face it is wrapped as a
    CCNProtocolDataUnit, opened before the data and closed at the end.
    When interests were stuffed, the packet up to the closer is within
    h->mtu.  Data of h->mtu bytes or more goes out alone, from the handle
    as it was, on a face that is no link.  Before the call the pending
    interests keep their messages; outbound faces are only taken out.
    (pe->size is the size of the message.) *)
Theorem stuff_and_send_packet h face data :
  sized h →
  let link := flag_set (face_flags face) CCN_FACE_LINK in
  let pre :=
    if link then ccn_charbuf_append_tt CCN_DTAG_CCNProtocolDataUnit CCN_DTAG
    else [] in
  let post := if link then ccn_charbuf_append_closer else [] in
  ∃ h1 l msgs,
    stuff_and_send h face data
    = do_write h1 face (pre ++ data ++ concat msgs ++ post) ∧
    out h1 = out h ++ l ∧
    (∀ fid, writes_to fid l = 0%nat) ∧
    Forall (bound_for h (faceid face)) msgs ∧
    (msgs ≠ [] → nelem (pre ++ data ++ concat msgs) ≤ mtu h) ∧
    (link = false → mtu h ≤ nelem data → msgs = [] ∧ h1 = h) ∧
    thinned h h1.
Proof.
  intros Hs. cbv zeta. unfold stuff_and_send.
  assert (∀ c,
    let r := ccn_stuff_interest h face c in
    ∃ l msgs,
      out r.1.1 = out h ++ l ∧ (∀ fid, writes_to fid l = 0%nat) ∧
      r.1.2 = c ++ concat msgs ∧
      Forall (bound_for h (faceid face)) msgs ∧
      (msgs ≠ [] → nelem (c ++ concat msgs) ≤ mtu h) ∧
      thinned h r.1.1) as Hstuff.
  { intros c. cbv zeta.
    destruct (ccn_stuff_interest_spec h face c Hs)
      as (msgs & Hc & _ & Hall & Hfit & Hthin).
    destruct (ccn_stuff_interest_sent 0 face h c)
      as (_ & _ & _ & l & Hout & _).
    exists l, msgs. split; [done|]. split.
    { intros fid.
      destruct (ccn_stuff_interest_sent fid face h c)
        as (_ & _ & _ & l' & Hout' & Hl').
      rewrite Hout in Hout'. by apply app_inv_head in Hout' as ->. }
    split; [done|]. split; [done|]. split; [|done].
    intros Hne. rewrite <- Hc. by apply Hfit. }
  destruct (flag_set (face_flags face) CCN_FACE_LINK).
  - destruct (Hstuff (ccn_charbuf_append_tt CCN_DTAG_CCNProtocolDataUnit CCN_DTAG
                        ++ data))
      as (l & msgs & Hout & Hl & Hc & Hall & Hfit & Hthin).
    destruct (ccn_stuff_interest h face _) as [[h1 c1] n1].
    cbn [fst snd] in *. subst c1. exists h1, l, msgs.
    rewrite <- !app_assoc. rewrite <- !app_assoc in Hfit.
    split; [done|]. split; [done|]. split; [done|]. split; [done|].
    split; [done|]. split; [done|done].
  - destruct (Z.gtb_spec (mtu h) (nelem data)) as [Hgt|Hle].
    + destruct (Hstuff data) as (l & msgs & Hout & Hl & Hc & Hall & Hfit & Hthin).
      destruct (ccn_stuff_interest h face data) as [[h1 c1] n1].
      cbn [fst snd] in *. subst c1. exists h1, l, msgs.
      rewrite app_nil_r. cbn [app].
      split; [done|]. split; [done|]. split; [done|]. split; [done|].
      split; [done|]. split; [|done]. intros _ ?. lia.
    + exists h, [], []. cbn. rewrite !app_nil_r.
      split; [done|]. split; [done|]. split; [done|]. split; [done|].
      split; [done|]. split; [done|]. apply thinned_refl.
Qed.

End stuffing.

Lemma stuffing_daemon_sized : sized stuffing_daemon.
Proof.
  intros pk p m Hp Hm.
  destruct (decide (pk = [99])) as [->|Hne].
  - vm_compute in Hp. injection Hp as <-. vm_compute in Hm.
    injection Hm as <-. reflexivity.
  - assert (propagating_tab stuffing_daemon
            = {[ [99] := mk_propagating (Some []) (Some [2])
                           (Some interest_any) 3 0 1 3998905 ]}) as Htab
      by (vm_compute; reflexivity).
    rewrite Htab, lookup_singleton_ne in Hp by done. discriminate Hp.
Qed.

Lemma ccn_stuff_interest_fits_witness :
  let h := stuffing_daemon in
  let face := default face0 (face_at h 2) in
  let r := ccn_stuff_interest h face [1; 2; 3] in
  r.1.2 = [1; 2; 3; 20; 99; 21] ∧
  ∃ msgs,
    r.1.2 = [1; 2; 3] ++ concat msgs ∧ r.2 = Z.of_nat (length msgs) ∧
    Forall (bound_for h (faceid face)) msgs ∧
    (msgs ≠ [] → nelem r.1.2 ≤ mtu h ∧ faceid face ≠ 0) ∧
    thinned h r.1.1.
Proof.
  cbv zeta. split; [vm_compute; reflexivity|].
  apply (ccn_stuff_interest_fits stuffing_daemon
           (default face0 (face_at stuffing_daemon 2)) [1; 2; 3]).
  exact stuffing_daemon_sized.
Defined.

Lemma stuff_and_send_packet_witness :
  let h := stuffing_daemon in
  let face := default face0 (face_at h 2) in
  let h' := stuff_and_send (L := answering_lib) h face [1; 2; 3] in
  out h' = out h ++ [do_write_out 2 [1; 2; 3; 20; 99; 21]] ∧
  ∃ h1 l msgs,
    h' = do_write h1 face ([] ++ [1; 2; 3] ++ concat msgs ++ []) ∧
    out h1 = out h ++ l ∧
    (∀ fid, writes_to fid l = 0%nat) ∧
    Forall (bound_for h (faceid face)) msgs ∧
    (msgs ≠ [] → nelem ([] ++ [1; 2; 3] ++ concat msgs) ≤ mtu h) ∧
    (false = false → mtu h ≤ nelem [1; 2; 3] → msgs = [] ∧ h1 = h) ∧
    thinned h h1.
Proof.
  cbv zeta. split; [vm_compute; reflexivity|].
  apply (stuff_and_send_packet (L := answering_lib) stuffing_daemon
           (default face0 (face_at stuffing_daemon 2)) [1; 2; 3]).
  exact stuffing_daemon_sized.
Defined.

(** * The longest prefix of a name that has an entry *)

Section longest_match.
Variables (h : ccnd_handle) (msg : bytes) (cs : list Z) (ncomps : Z).

#[local] Abbreviation tab := (nameprefix_tab h).
#[local] Abbreviation key j := (subbytes msg (buf cs 0) (buf cs j)).

Hypothesis Hok : children_ok tab.
Hypothesis Hlinked : linked_along tab msg cs ncomps.

(** Where a prefix has an entry, the shorter ones have. *)
Lemma prefixes_closed (d : nat) : ∀ i j,
  0 ≤ i → j = i + Z.of_nat d → j ≤ ncomps →
  is_Some (tab !! key j) → is_Some (tab !! key i).
Proof.
  induction d as [|d IH]; intros i j Hi Hj Hn Hin.
  { by replace i with j by lia. }
  destruct Hin as [e He].
  pose proof (Hlinked j e ltac:(lia) He) as Hp.
  destruct (Hok _ e He) as [_ Hpar].
  apply (IH i (j - 1)); [lia..|]. by apply Hpar.
Qed.

(** An entry without children is the last one on the way. *)
Lemma childless_last i e j :
  0 ≤ i → tab !! key i = Some e → children e = 0 →
  i < j ≤ ncomps → tab !! key j = None.
Proof.
  intros Hi He Hc Hj.
  destruct (tab !! key j) as [e'|] eqn:He'; [|done]. exfalso.
  destruct (prefixes_closed (Z.to_nat (j - (i + 1))) (i + 1) j
              ltac:(lia) ltac:(lia) ltac:(lia) ltac:(eauto)) as [e1 He1].
  pose proof (Hlinked (i + 1) e1 ltac:(lia) He1) as Hp.
  replace (i + 1 - 1) with i in Hp by lia.
  pose proof (child_count_pos _ _ _ _ He1 Hp) as Hpos.
  destruct (Hok _ e He) as [Hcount _]. lia.
Qed.

Lemma nameprefix_longest_match_loop_spec n : ∀ i,
  0 ≤ ncomps → 0 ≤ i → i + Z.of_nat n = ncomps + 1 →
  (∀ j, 0 < j < i → is_Some (tab !! key j)) →
  let a := nameprefix_longest_match_loop n i h msg cs (Z.max 0 (i - 1)) in
  Z.max 0 (i - 1) ≤ a ≤ ncomps ∧
  (∀ j, a < j ≤ ncomps → tab !! key j = None) ∧
  (∀ j, 0 < j ≤ a → is_Some (tab !! key j)).
Proof.
  induction n as [|n IH]; intros i Hnc Hi Hn Hfound; cbv zeta.
  { cbn [nameprefix_longest_match_loop]. split; [lia|].
    split; intros j Hj; [lia|apply Hfound; lia]. }
  cbn [nameprefix_longest_match_loop]. cbv zeta.
  destruct (tab !! key i) as [e|] eqn:He.
  - destruct (Z.eqb_spec (children e) 0) as [Hc|Hc].
    + split; [lia|]. split.
      * intros j Hj. by apply (childless_last i e).
      * intros j Hj. destruct (decide (j = i)) as [->|?]; [eauto|].
        apply Hfound. lia.
    + destruct (IH (i + 1)) as (Hle & Hnone & Hsome); [lia|lia|lia| |].
      * intros j Hj. destruct (decide (j = i)) as [->|?]; [eauto|].
        apply Hfound. lia.
      * replace (Z.max 0 (i + 1 - 1)) with i in * by lia.
        split; [lia|]. done.
  - split; [lia|]. split.
    + intros j Hj. destruct (tab !! key j) as [e'|] eqn:He'; [|done].
      destruct (decide (j < i)) as [Hlt|Hge].
      * lia.
      * destruct (prefixes_closed (Z.to_nat (j - i)) i j
                    ltac:(lia) ltac:(lia) ltac:(lia) ltac:(eauto)) as [e1 He1].
        congruence.
    + intros j Hj. apply Hfound. lia.
Qed.

(** The answer of nameprefix_longest_match. *)
Lemma nameprefix_longest_match_spec :
  0 ≤ ncomps → ncomps + 1 ≤ nelem cs →
  let a := nameprefix_longest_match h msg cs ncomps in
  0 ≤ a ≤ ncomps ∧
  (∀ j, a < j ≤ ncomps → tab !! key j = None) ∧
  (is_Some (tab !! key 0) → ∀ j, 0 ≤ j ≤ a → is_Some (tab !! key j)).
Proof.
  intros Hn Hlen. cbv zeta. unfold nameprefix_longest_match.
  destruct (Z.gtb_spec (ncomps + 1) (nelem cs)) as [?|_]; [lia|].
  destruct (nameprefix_longest_match_loop_spec (Z.to_nat (ncomps + 1)) 0)
    as (Hle & Hnone & Hsome); [lia|lia|lia|intros; lia|].
  change (Z.max 0 (0 - 1)) with 0 in *.
  split; [lia|]. split; [done|].
  intros Hroot j Hj. destruct (decide (j = 0)) as [->|?]; [done|].
  apply Hsome. lia.
Qed.

End longest_match.

(** X29: nameprefix_longest_match, in a name-prefix table whose children
    fields count the parent links and whose entries for the prefixes of
    the name are linked along its components, answers with the number of
    components of the longest prefix of the name that has an entry: no
    longer prefix (up to ncomps) has one, and when the table has the entry
    of the empty prefix, every prefix up to the answer has one.  The answer
    is between 0 and ncomps. *)
Theorem nameprefix_longest_match_longest h msg cs ncomps :
  children_ok (nameprefix_tab h) →
  linked_along (nameprefix_tab h) msg cs ncomps →
  0 ≤ ncomps → ncomps + 1 ≤ nelem cs →
  let key := λ j, subbytes msg (buf cs 0) (buf cs j) in
  let a := nameprefix_longest_match h msg cs ncomps in
  0 ≤ a ≤ ncomps ∧
  (∀ j, a < j ≤ ncomps → nameprefix_tab h !! key j = None) ∧
  (is_Some (nameprefix_tab h !! key 0) →
   ∀ j, 0 ≤ j ≤ a → is_Some (nameprefix_tab h !! key j)).
Proof. intros. by apply nameprefix_longest_match_spec. Qed.

(** The table with the entries of /a/b/c, and the name /a/b/x/x looked up
    in it: the answer is 2, for /a/b. *)
Lemma abc_table_ok :
  children_ok
    (nameprefix_tab
       (nameprefix_seek (L := example_lib no_canned)
          (plain_faces (L := example_lib no_canned)) name_abc comps_abc 3).1.1).
Proof.
  assert (children_ok (nameprefix_tab (plain_faces (L := example_lib no_canned))))
    as Hempty.
  { replace (nameprefix_tab (plain_faces (L := example_lib no_canned)))
      with (∅ : gmap bytes nameprefix_entry) by (vm_compute; reflexivity).
    apply children_ok_empty. }
  unfold nameprefix_seek. destruct (_ >? _); [exact Hempty|].
  by apply nameprefix_seek_loop_children.
Qed.

Lemma nameprefix_longest_match_longest_witness :
  let h :=
    (nameprefix_seek (L := example_lib no_canned)
       (plain_faces (L := example_lib no_canned)) name_abc comps_abc 3).1.1 in
  let msg := [1; 2; 9; 9] in
  let cs := [0; 1; 2; 3; 4] in
  let key := λ j, subbytes msg (buf cs 0) (buf cs j) in
  let a := nameprefix_longest_match h msg cs 4 in
  a = 2 ∧
  0 ≤ a ≤ 4 ∧
  (∀ j, a < j ≤ 4 → nameprefix_tab h !! key j = None) ∧
  (is_Some (nameprefix_tab h !! key 0) →
   ∀ j, 0 ≤ j ≤ a → is_Some (nameprefix_tab h !! key j)).
Proof.
  cbv zeta. split; [vm_compute; reflexivity|].
  apply (nameprefix_longest_match_longest
           (nameprefix_seek (L := example_lib no_canned)
              (plain_faces (L := example_lib no_canned)) name_abc comps_abc 3).1.1
           [1; 2; 9; 9] [0; 1; 2; 3; 4] 4).
  - exact abc_table_ok.
  - intros j e Hj He.
    assert (j = 1 ∨ j = 2 ∨ j = 3 ∨ j = 4) as [-> | [-> | [-> | ->] ] ] by lia;
      vm_compute in He; try discriminate He;
      injection He as <-; vm_compute; reflexivity.
  - lia.
  - vm_compute. discriminate.
Defined.
